(* ===== verification/_CoqProject ===== *)
-Q . S2P
Prelude.v
Bus.v
Text.v
Service.v
Files.v
Config.v
ChannelRuntime.v
Propose.v
Accept.v
Machine.v
ChannelFacts.v
ChannelCorrect.v
ChannelSafety.v
ChannelStore.v
Wallet.v
WalletCorrect.v
Rpc.v
LnpdRuntime.v
ListenAddr.v
Client.v
Launch.v
Lnpd.v
LnpdFacts.v
LnpdSafety.v
LnpdCorrect.v
ClientCorrect.v
Watch.v
WatchCorrect.v
Wire.v
Peerd.v
PeerdCorrect.v
Routed.v
RoutedCorrect.v
Signd.v
SigndCorrect.v
Init.v
InitCorrect.v
Args.v
ArgsCorrect.v
Daemons.v
Node.v
NodeFacts.v
NodeBroker.v
NodeCorrect.v
NodeRun.v
Scenarios.v
Activation.v
NodeRest.v
Example.v
ChannelWitness.v
LnpdWitness.v
WatchWitness.v
DaemonWitness.v
CommandWitness.v
NodeWitness.v
