(* ===== verification/Prelude.v ===== *)
(** * A verification library for LNP Node

    LNP Node is a lightning node made of daemons that talk over message buses:
    lnpd, the broker, which holds the funding wallet and launches the others;
    channeld, one for each channel; peerd, one for each peer; routed, signd and
    watchd.  This library models what the daemons and the command line do - their
    state, every handler with its guards, errors and panics, the files they keep
    and the messages they send - and proves what each of them promises and how
    they work together.

    ** How the code is modelled

    A handler is a function of the error-and-state monad [M] below: it runs on a
    world, and ends with [Ok], with [Err] (what was changed before the [?] stays
    changed) or with [Panic].  The world ([World] in [Service]) is the daemon's
    runtime, the history of the operations it asked for - messages handed to a
    bus, daemons launched, files touched, queries to the Electrum server - each
    with its success, and the disk.  What the surroundings answer is a function
    of this history ([Sys]), so that every theorem holds for every behaviour of
    the bus, the file system, the network and the clock.  Files are inodes with
    names; an open file survives its removal, and a write over a longer file
    leaves the rest of it.

    Code of other crates is the field of a class: the types ([Ext] in [Bus]),
    texts ([Fmt]), the channel of lnp-core ([LnpCore]), the encoders of the files
    ([StateCodec], [WalletCodec]), the descriptor wallet with its PSBTs and
    Electrum client ([WalletLib], [ElectrumLib]), the router ([RouterLib]), keys
    ([SignLib], [InitLib]), addresses ([AddrLib]), field encodings ([WireLib]),
    the command line ([CliLib], [Shell], [Clap]).  What a theorem needs to know of them is a named hypothesis:
    round trips of encoders ([wallet_round_trip], [init_laws]), the outpoint of a
    PSBT ([outpoint_of_psbt]), the channel of lnp-core taking its funding from the
    PSBT ([funding_from_psbt]), hardened indexes ([hardening_law]), texts that are
    read back ([addr_laws], [readable], [clap_laws]), fields that are
    ([service_reads_back], [pay_reads_back]).  [Example] has an instance
    of each class, and the files [*Witness] apply every theorem that has a
    hypothesis to it.

    Debug and release builds differ in overflow and in [debug_assert]; [Build]
    below stands for the choice, and [LogLevel] of [Peerd] for the log level that
    decides whether a message is formatted.

    ** The files, and the code they model (paths below src/)

    - [Prelude]: the monad, its rules for running, inverting and walking down a
      handler ([run_inv], [respects_auto], [upholds_auto]).  [Text]: strings.
    - [Bus]: src/bus/, rpc/src/messages.rs, rpc/src/service_id.rs and
      rpc/src/error.rs, that is the addresses and messages.  [Service]:
      src/service.rs, src/automata.rs, src/error.rs and the world.  [Files]: facts
      about files.  [Config]: src/config.rs, and how a service starts.
    - [ChannelRuntime], [Propose], [Accept], [Machine]: src/channeld/, its
      runtime and state, the opener's and the acceptor's workflow, the state
      machine and the handlers.  [ChannelFacts], [ChannelCorrect],
      [ChannelSafety], [ChannelStore]: their properties.
    - [Wallet]: src/lnpd/funding.rs.  [Rpc]: the replies of rpc/src and
      src/bus/reports.rs.  [LnpdRuntime], [Lnpd]: src/lnpd/runtime.rs.  [Launch]:
      src/lnpd/automata/launch.rs.  [WalletCorrect], [LnpdFacts], [LnpdSafety],
      [LnpdCorrect]: their properties.
    - [ListenAddr]: rpc/src/listen_addr.rs.  [Client]: rpc/src/client.rs and
      cli/src/.  [ClientCorrect]: their properties, with lnpd on the other end.
    - [Watch]: src/watchd/, three threads with their queues as a step relation.
      [Peerd], [Routed], [Signd]: src/peerd/, src/routed/, src/signd/.
      [WatchCorrect], [PeerdCorrect], [RoutedCorrect], [SigndCorrect].
    - [Init], [InitCorrect]: src/bin/lnpd.rs and src/lnpd/opts.rs.  [Args],
      [ArgsCorrect]: src/lnpd/daemons.rs, the options and the executables.
    - [Wire]: the encodings in rpc/src/service_id.rs and rpc/src/messages.rs.
    - [Daemons]: properties of several daemons together.
    - [Node]: the daemons of a node at work, with the messages between them in
      flight: the protocol of the buses ([conforms]), the processes ([Proc],
      [proc_serve]) and the steps of the node ([node_step]) - handling what is
      there ([handles]: lnpd handles a message, a message is delivered, an
      undeliverable message is reported, a message leaves the node, a bridge is
      read), a process acts of its own accord, a launched daemon starts, a client
      asks.  [NodeFacts], [NodeBroker]: each daemon keeps to the protocol.
      [NodeCorrect]: so does the node.  [NodeRun]: an executable scheduler,
      sound for [node_step].  [Scenarios], [Activation]: what some situations
      lead to.  [NodeRest]: handling comes to an end.
    - [Example], [ChannelWitness], [LnpdWitness], [WatchWitness],
      [DaemonWitness], [CommandWitness], [NodeWitness]: the concrete node.

    A runtime is a Record with the fields of the code's struct; a handler has the
    name of the code's method, with a prefix of the daemon where several have the
    method ([chan_handle_ctl], [lnpd_handle_ctl]); a match arm that is long is a
    definition of its own ([handle_listen]).  Locals keep their names.

    ** What is shown

    - Channels: the funding transaction is handed out for publishing only when
      the peer has signed the refund; the handlers follow the workflow of the
      code, which [ChannelFacts] compares with the documented one, deviation by
      deviation; the state survives a restart and a change of the id; the panics
      are those listed; the two ends agree on the channel id.
    - Funding: the construction takes the fewest coins, pending fundings do not
      share coins, the fee loop ends when the fee settles - and does not when it
      alternates.
    - Launching: the launch follows its workflow, its errors reach the client,
      the keyset and the publishing request find their launch; the registries
      stay consistent, and lnpd panics only for the causes listed, of which a
      failure of signd and an early hello are two.
    - Clients: what lnpd answers and when it stays silent; a command ends with
      its answer; the progress loop ends with the first message that is not
      progress; amounts and addresses.
    - Watching, payments, signing, peers: notifications were asked for, tracked
      transactions are announced, a payment is ordered or its failure reported,
      every signing request is answered, peer messages reach their daemon.
    - The node: whatever the order of delivery, every message conforms to the
      protocol of the buses, and lnpd panics for fewer reasons than on its own;
      handling what is there never goes on for ever, and what is left in the end
      is a message on which lnpd panics, or nothing; from the peer's signature of
      the refund the launch can end with the funding published and the client
      told; an accepted channel can become active from the moment the peer has
      locked its funding, with no look at the chain, and a proposed one, by way of
      watchd, when the Electrum server knows its funding, mined or not; the bytes of addresses and of payment requests are read back.
    - Start-up: what initialization leaves on the disk is what the daemons read;
      a daemon started as a process runs what it would run in a thread.

    Several theorems state what the code does where it does not do what it means
    to: [open_request_goes_to_last_daemon], [signd_failure_crashes_lnpd],
    [early_hello_crashes_lnpd], [lost_reply_crashes_lnpd],
    [pending_funding_lost_on_restart],
    [fee_loop_oscillates], [stray_untrack_stops_tracking],
    [depth_is_compared_with_position], [close_ids_share_their_keys],
    [failed_listener_blocks_retry], the deviations in [handle_refines_workflow],
    [accepted_channel_becomes_active], [proposed_channel_becomes_active], the
    messages dropped in [peer_messages_reach_their_daemon], the collision of ids in
    [remote_request_reaches_its_channel_daemon], and the second half of
    [ordered_payment_becomes_htlc] and of
    [requests_are_answered_unless_they_fail].

    ** Fuel

    Two loops of the code need not end: the construction loop of the wallet and
    the progress loop of the client.  Their models take fuel, and running out of
    it is the panic [diverges], which stands for a run that has not ended.
    [fee_loop_terminates] and [progress_ends_with_first_answer] say how much fuel
    is enough, and [fee_loop_oscillates] that sometimes none is.  Every other
    loop of a handler is structural.  The loops of the services and threads are
    relations ([reaches], [lnpd_reaches], [watch_step], [node_step], [handles]).
    That [handles] ends needs no fuel: each message has a rank ([rank]), what its
    handling sends has a lower one, and [lowers_ends] is the descent of the
    multisets of ranks.

    Integers are [N]; where the code's arithmetic can overflow, the width is
    written out ([u64], [checked_inc], [f64_as_u32], [channel_index],
    [parse_uint]).

    ** Not modelled

    The ESB controller with its ZMQ sockets and its loop (what it does with a
    handler's errors is [serve], and how it delivers is [node_step]), the supervisor and the
    encryption of peer connections, the derived strict and YAML encodings, the
    reading of command lines (clap) and configuration by the shell, logging and
    the styling of texts, sleeps and the pacemaker's timing are third-party code
    or have no effect on the state.  Reading a file that is open does not fail, and
    the texts of panics leave out what Rust appends to them.  The driver of src/channeld/storage/ is in
    [ChannelRuntime]: its store is [unimplemented!] and no code calls it.  The
    build scripts generate shell completions.

    The bridge of a peer connection is a queue of its own; that all connections
    of a process open it under one name is not modelled.  Delivery need not be
    fair: the theorems on launches and channels say that the node can go on, in
    some order, and [node_comes_to_rest] that no order goes on for ever; that a
    request is answered in every order is false, as [lost_reply_crashes_lnpd]
    shows.  Two nodes are not composed: what a remote peer says is any message of
    its protocol, which covers every peer, and what both ends compute is compared
    in [both_ends_agree_on_the_channel]. *)

From stdpp Require Export prelude strings list gmap sets sorting.
From Stdlib Require Import ZArith Lia.

#[global] Set Default Goal Selector "!".

(** ** Results with panics, and the daemon monad

    A handler of a daemon runs on a state, may return [Result::Err] (the
    mutations made before the early return stay), and may panic
    ([unreachable!], [expect], [todo!]); what it did before the panic (messages
    sent, files written) stays done too. *)

Inductive Res (E A : Type) : Type :=
  | Ok (a : A)
  | Err (e : E)
  | Panic (why : string).
Arguments Ok {E A} a.
Arguments Err {E A} e.
Arguments Panic {E A} why.

Definition M (S E A : Type) : Type := S → Res E A * S.

Definition mreturn {S E A} (a : A) : M S E A := λ s, (Ok a, s).
Definition mfail {S E A} (e : E) : M S E A := λ s, (Err e, s).
Definition mpanic {S E A} (why : string) : M S E A := λ s, (Panic why, s).

Definition bind {S E A B} (m : M S E A) (k : A → M S E B) : M S E B :=
  λ s, match m s with
       | (Ok a, s1) => k a s1
       | (Err e, s1) => (Err e, s1)
       | (Panic p, s1) => (Panic p, s1)
       end.

Definition get {S E} : M S E S := λ s, (Ok s, s).
Definition gets {S E A} (f : S → A) : M S E A := λ s, (Ok (f s), s).
Definition modify {S E} (f : S → S) : M S E unit := λ s, (Ok tt, f s).

(** [From] is the trait of the same name: [?] converts the error with it. *)
Class From (A B : Type) := from : A → B.

#[export] Instance from_refl A : From A A | 0 := λ a, a.

Definition q {S E E' A} `{F : From E E'} (m : M S E A) : M S E' A :=
  λ s, match m s with
       | (Ok a, s1) => (Ok a, s1)
       | (Err e, s1) => (Err (from e), s1)
       | (Panic p, s1) => (Panic p, s1)
       end.

(** The result of a call as a value, for [match call { Ok .. => , Err .. => }];
    a panic still unwinds. *)
Definition attempt {S E E' A} (m : M S E A) : M S E' (E + A) :=
  λ s, match m s with
       | (Ok a, s1) => (Ok (inr a), s1)
       | (Err e, s1) => (Ok (inl e), s1)
       | (Panic p, s1) => (Panic p, s1)
       end.

(** [let _ = call;] *)
Definition swallow {S E E' A} (m : M S E A) : M S E' unit :=
  λ s, match m s with
       | (Panic p, s1) => (Panic p, s1)
       | (_, s1) => (Ok tt, s1)
       end.

(** [opt.expect(why)] and [opt.ok_or(e)?] *)
Definition expect {S E A} (why : string) (o : option A) : M S E A :=
  match o with Some a => mreturn a | None => mpanic why end.
Definition ok_or {S E A} (e : E) (o : option A) : M S E A :=
  match o with Some a => mreturn a | None => mfail e end.

(** [call.expect(why)]: an error becomes a panic. *)
Definition expect_ok {S E E' A} (why : string) (m : M S E A) : M S E' A :=
  λ s, match m s with
       | (Ok a, s1) => (Ok a, s1)
       | (Err _, s1) => (Panic why, s1)
       | (Panic p, s1) => (Panic p, s1)
       end.

(** A call on a component of the state, and a pure [Result] as a call. *)
Definition zoom {S T E A} (prj : S → T) (upd : T → S → S) (m : M T E A) : M S E A :=
  λ s, let '(r, t) := m (prj s) in (r, upd t s).
Definition of_sum {S E A} (r : E + A) : M S E A :=
  match r with inl e => mfail e | inr a => mreturn a end.

(** ** What depends on the build

    Debug builds check [debug_assert!]s and arithmetic overflow, release builds
    compute modulo 2^64. *)
Class Build := debug_assertions : bool.

Definition debug_assert `{Build} {S E} (b : bool) (why : string) : M S E unit :=
  if debug_assertions && negb b then mpanic why else mreturn tt.

Definition u64_max : N := 2 ^ 64 - 1.
Definition u64 `{Build} {S E} (n : N) : M S E N :=
  if decide (n ≤ u64_max)%N then mreturn n
  else if debug_assertions then mpanic "attempt to compute with overflow"
  else mreturn (n mod 2 ^ 64)%N.

Declare Scope rust_scope.
Delimit Scope rust_scope with rust.

Notation "'let!' x ':=' m 'in' k" := (bind m (λ x, k))
  (at level 10, x name, m at level 100, k at level 200) : rust_scope.
Notation "'let!' ' x ':=' m 'in' k" := (bind m (λ x, k))
  (at level 10, x pattern, m at level 100, k at level 200) : rust_scope.
Notation "'let?' x ':=' m 'in' k" := (bind (q m) (λ x, k))
  (at level 10, x name, m at level 100, k at level 200) : rust_scope.
Notation "'do!' m 'in' k" := (bind m (λ _, k))
  (at level 10, m at level 100, k at level 200) : rust_scope.
Notation "'do?' m 'in' k" := (bind (q m) (λ _, k))
  (at level 10, m at level 100, k at level 200) : rust_scope.

(** ** Running a call step by step *)

Section run_steps.
Context {S : Type}.

Lemma bind_ok {E A B} (m : M S E A) (k : A → M S E B) s a s1 :
  m s = (Ok a, s1) → bind m k s = k a s1.
Proof. intros Hm. unfold bind. by rewrite Hm. Qed.
Lemma bind_err {E A B} (m : M S E A) (k : A → M S E B) s e s1 :
  m s = (Err e, s1) → bind m k s = (Err e, s1).
Proof. intros Hm. unfold bind. by rewrite Hm. Qed.
Lemma bind_panic {E A B} (m : M S E A) (k : A → M S E B) s p s1 :
  m s = (Panic p, s1) → bind m k s = (Panic p, s1).
Proof. intros Hm. unfold bind. by rewrite Hm. Qed.
Lemma attempt_ok {E E' A} (m : M S E A) s a s1 :
  m s = (Ok a, s1) → attempt (E':=E') m s = (Ok (inr a), s1).
Proof. intros Hm. unfold attempt. by rewrite Hm. Qed.
Lemma attempt_err {E E' A} (m : M S E A) s e s1 :
  m s = (Err e, s1) → attempt (E':=E') m s = (Ok (inl e), s1).
Proof. intros Hm. unfold attempt. by rewrite Hm. Qed.
Lemma attempt_panic {E E' A} (m : M S E A) s p s1 :
  m s = (Panic p, s1) → attempt (E':=E') m s = (Panic p, s1).
Proof. intros Hm. unfold attempt. by rewrite Hm. Qed.
Lemma q_ok {E E' A} `{F : From E E'} (m : M S E A) s a s1 :
  m s = (Ok a, s1) → q (E':=E') m s = (Ok a, s1).
Proof. intros Hm. unfold q. by rewrite Hm. Qed.
Lemma q_err {E E' A} `{F : From E E'} (m : M S E A) s e s1 :
  m s = (Err e, s1) → q (E':=E') m s = (Err (from e), s1).
Proof. intros Hm. unfold q. by rewrite Hm. Qed.
Lemma bind_gets {E A B} (f : S → A) (k : A → M S E B) s :
  bind (gets f) k s = k (f s) s.
Proof. done. Qed.
Lemma bind_mreturn {E A B} (a : A) (k : A → M S E B) s : bind (mreturn a) k s = k a s.
Proof. done. Qed.
Lemma bind_modify {E B} (f : S → S) (k : unit → M S E B) s :
  bind (modify f) k s = k tt (f s).
Proof. done. Qed.

(** Inversion: how a composed call can have succeeded. *)
Lemma bind_inv {E A B} (m : M S E A) (k : A → M S E B) s b s' :
  bind m k s = (Ok b, s') → ∃ a s1, m s = (Ok a, s1) ∧ k a s1 = (Ok b, s').
Proof. unfold bind. destruct (m s) as [[]?]; naive_solver. Qed.
Lemma q_inv {E E' A} `{F : From E E'} (m : M S E A) s a s' :
  q (E':=E') m s = (Ok a, s') → m s = (Ok a, s').
Proof. unfold q. destruct (m s) as [[]?]; naive_solver. Qed.
Lemma expect_inv {E A} p (o : option A) s a s' :
  expect (S:=S) (E:=E) p o s = (Ok a, s') → o = Some a ∧ s' = s.
Proof. destruct o; unfold expect, mreturn, mpanic; naive_solver. Qed.
Lemma ok_or_inv {E A} (e : E) (o : option A) s a s' :
  ok_or (S:=S) e o s = (Ok a, s') → o = Some a ∧ s' = s.
Proof. destruct o; unfold ok_or, mreturn, mfail; naive_solver. Qed.
Lemma expect_ok_inv {E E' A} p (m : M S E A) s a s' :
  expect_ok (E':=E') p m s = (Ok a, s') → m s = (Ok a, s').
Proof. unfold expect_ok. destruct (m s) as [[]?]; naive_solver. Qed.
Lemma attempt_inv {E E' A} (m : M S E A) s r s' :
  attempt (E':=E') m s = (Ok r, s') →
  m s = (match r with inl e => Err e | inr a => Ok a end, s').
Proof. unfold attempt. destruct (m s) as [[]?]; naive_solver. Qed.
End run_steps.

(** Takes a successful run apart: [H : m s = (Ok a, s')]. *)
Ltac run_inv H :=
  match type of H with
  | bind _ _ _ = (Ok _, _) =>
      let H1 := fresh "Hrun" in
      apply bind_inv in H as (? & ? & H1 & H); run_inv H1; run_inv H
  | q _ _ = (Ok _, _) => apply q_inv in H; run_inv H
  | expect _ _ _ = (Ok _, _) => apply expect_inv in H as [? ?]; simplify_eq
  | ok_or _ _ _ = (Ok _, _) => apply ok_or_inv in H as [? ?]; simplify_eq
  | expect_ok _ _ _ = (Ok _, _) => apply expect_ok_inv in H; run_inv H
  | mreturn _ _ = (Ok _, _) => injection H as ? ?; simplify_eq
  | gets _ _ = (Ok _, _) => injection H as ? ?; simplify_eq
  | get _ = (Ok _, _) => injection H as ? ?; simplify_eq
  | modify _ _ = (Ok _, _) => injection H as ? ?; simplify_eq
  | mfail _ _ = (Ok _, _) => discriminate H
  | mpanic _ _ = (Ok _, _) => discriminate H
  | _ => idtac
  end.

(** ** Reasoning about calls *)

Section wp.
Context {S E A : Type}.

(** Total: says how the call ends, on every branch, panics included. *)
Definition wp (m : M S E A) (Q : Res E A → S → Prop) (s : S) : Prop :=
  Q (m s).1 (m s).2.

(** The state the call leaves is related to the one it started from,
    however it ends. *)
Definition respects (R : relation S) (m : M S E A) : Prop :=
  ∀ s, R s (m s).2.
End wp.

Section wp_rules.
Context {S : Type}.

Lemma wp_bind {E A B} (m : M S E A) (k : A → M S E B) Q s :
  wp m (λ r s1, match r with
                | Ok a => wp (k a) Q s1
                | Err e => Q (Err e) s1
                | Panic p => Q (Panic p) s1
                end) s →
  wp (bind m k) Q s.
Proof. unfold wp, bind. destruct (m s) as [[] ?]; done. Qed.

Lemma wp_mono {E A} (m : M S E A) (Q Q' : Res E A → S → Prop) s :
  (∀ r s', Q r s' → Q' r s') → wp m Q s → wp m Q' s.
Proof. unfold wp. auto. Qed.

Lemma wp_q {E E' A} `{F : From E E'} (m : M S E A) Q s :
  wp m (λ r s1, match r with
                | Ok a => Q (Ok a) s1
                | Err e => Q (Err (from e)) s1
                | Panic p => Q (Panic p) s1
                end) s →
  wp (q m) Q s.
Proof. unfold wp, q. destruct (m s) as [[] ?]; done. Qed.

Lemma wp_swallow {E E' A} (m : M S E A) (Q : Res E' unit → S → Prop) s :
  wp m (λ r s1, match r with Panic p => Q (Panic p) s1 | _ => Q (Ok tt) s1 end) s →
  wp (swallow m) Q s.
Proof. unfold wp, swallow. destruct (m s) as [[] ?]; done. Qed.
End wp_rules.

(** ** Calls that respect a preorder on states *)

Create HintDb respects discriminated.

Section respects_rules.
Context {S : Type} (R : relation S) `{!PreOrder R}.

Lemma respects_mreturn {E A} (a : A) : respects R (mreturn (E:=E) a).
Proof. intros s. reflexivity. Qed.
Lemma respects_mfail {E A} (e : E) : respects R (mfail (A:=A) e).
Proof. intros s. reflexivity. Qed.
Lemma respects_mpanic {E A} p : respects R (mpanic (E:=E) (A:=A) p).
Proof. intros s. reflexivity. Qed.
Lemma respects_get {E} : respects R (get (E:=E)).
Proof. intros s. reflexivity. Qed.
Lemma respects_gets {E A} (f : S → A) : respects R (gets (E:=E) f).
Proof. intros s. reflexivity. Qed.
Lemma respects_expect {E A} p (o : option A) : respects R (expect (E:=E) p o).
Proof. destruct o; intros s; reflexivity. Qed.
Lemma respects_ok_or {E A} (e : E) (o : option A) : respects R (ok_or e o).
Proof. destruct o; intros s; reflexivity. Qed.
Lemma respects_of_sum {E A} (r : E + A) : respects R (of_sum r).
Proof. destruct r; intros s; reflexivity. Qed.

Lemma respects_bind {E A B} (m : M S E A) (k : A → M S E B) :
  respects R m → (∀ a, respects R (k a)) → respects R (bind m k).
Proof.
  intros Hm Hk s. unfold bind. specialize (Hm s).
  destruct (m s) as [[a|e|p] s1]; simpl in *; try done.
  etrans; [exact Hm | apply Hk].
Qed.

Lemma respects_q {E E' A} `{F : From E E'} (m : M S E A) :
  respects R m → respects R (q m).
Proof. intros Hm s. unfold q. specialize (Hm s). by destruct (m s) as [[] ?]. Qed.
Lemma respects_attempt {E E' A} (m : M S E A) :
  respects R m → respects R (attempt (E':=E') m).
Proof. intros Hm s. unfold attempt. specialize (Hm s). by destruct (m s) as [[] ?]. Qed.
Lemma respects_swallow {E E' A} (m : M S E A) :
  respects R m → respects R (swallow (E':=E') m).
Proof. intros Hm s. unfold swallow. specialize (Hm s). by destruct (m s) as [[] ?]. Qed.
Lemma respects_expect_ok {E E' A} p (m : M S E A) :
  respects R m → respects R (expect_ok (E':=E') p m).
Proof. intros Hm s. unfold expect_ok. specialize (Hm s). by destruct (m s) as [[] ?]. Qed.
Lemma respects_modify {E} (f : S → S) :
  (∀ s, R s (f s)) → respects R (modify (E:=E) f).
Proof. intros Hf s. apply Hf. Qed.
End respects_rules.

#[export] Hint Resolve respects_mreturn respects_mfail respects_mpanic respects_get
  respects_gets respects_expect respects_ok_or respects_of_sum respects_q
  respects_attempt respects_swallow respects_expect_ok respects_modify : respects.
#[export] Hint Extern 1 (PreOrder _) => apply _ : respects.
#[export] Hint Extern 3 (respects _ (match ?x with _ => _ end)) =>
  destruct x : respects.

(** [respects_auto] walks down a handler: calls it does not know are left to the
    hint database. *)
Ltac respects_auto :=
  repeat first
    [ progress intros
    | solve [auto with respects]
    | match goal with
      | |- respects _ (bind _ _) => apply respects_bind; [apply _ | |]
      | |- respects _ (q _) => apply respects_q
      | |- respects _ (swallow _) => apply respects_swallow
      | |- respects _ (attempt _) => apply respects_attempt
      | |- respects _ (expect_ok _ _) => apply respects_expect_ok
      | |- respects _ (match ?x with _ => _ end) => destruct x
      end ].

(** ** Calls that uphold an invariant and only panic for known reasons *)

Create HintDb upholds discriminated.

Section upholds.
Context {S : Type} (I : S → Prop) (ok_panic : string → Prop).

Definition upholds {E A} (m : M S E A) : Prop :=
  ∀ s, I s → I (m s).2 ∧ ∀ p, (m s).1 = Panic p → ok_panic p.

Lemma upholds_mreturn {E A} (a : A) : upholds (mreturn (E:=E) a).
Proof. intros s Hs. by split. Qed.
Lemma upholds_mfail {E A} (e : E) : upholds (mfail (A:=A) e).
Proof. intros s Hs. by split. Qed.
Lemma upholds_mpanic {E A} p : ok_panic p → upholds (mpanic (E:=E) (A:=A) p).
Proof. intros Hp s Hs. split; [done|]. by intros ? [= <-]. Qed.
Lemma upholds_get {E} : upholds (get (E:=E)).
Proof. intros s Hs. by split. Qed.
Lemma upholds_gets {E A} (f : S → A) : upholds (gets (E:=E) f).
Proof. intros s Hs. by split. Qed.
Lemma upholds_expect {E A} p (o : option A) : ok_panic p → upholds (expect (E:=E) p o).
Proof. intros Hp. destruct o; [apply upholds_mreturn | by apply upholds_mpanic]. Qed.
Lemma upholds_ok_or {E A} (e : E) (o : option A) : upholds (ok_or e o).
Proof. destruct o; [apply upholds_mreturn | apply upholds_mfail]. Qed.
Lemma upholds_of_sum {E A} (r : E + A) : upholds (of_sum r).
Proof. destruct r; [apply upholds_mfail | apply upholds_mreturn]. Qed.
Lemma upholds_modify {E} (f : S → S) : (∀ s, I s → I (f s)) → upholds (modify (E:=E) f).
Proof. intros Hf s Hs. split; [by apply Hf | done]. Qed.

Lemma upholds_bind {E A B} (m : M S E A) (k : A → M S E B) :
  upholds m → (∀ a, upholds (k a)) → upholds (bind m k).
Proof.
  intros Hm Hk s Hs. unfold bind. destruct (Hm s Hs) as [H1 H2].
  destruct (m s) as [[a|e|p] s1]; simpl in *; [by apply Hk | by split |].
  split; [done|]. intros ? [= <-]. by apply H2.
Qed.
(** The continuation may use what the state says about the value read. *)
Lemma upholds_gets_bind {E A B} (f : S → A) (k : A → M S E B) :
  (∀ s, I s → I (k (f s) s).2 ∧ ∀ p, (k (f s) s).1 = Panic p → ok_panic p) →
  upholds (bind (gets f) k).
Proof. intros Hk s Hs. by apply Hk. Qed.
Lemma upholds_q {E E' A} `{F : From E E'} (m : M S E A) : upholds m → upholds (q m).
Proof.
  intros Hm s Hs. unfold q. destruct (Hm s Hs) as [H1 H2].
  destruct (m s) as [[]?]; split; try done. intros ? [= <-]. by apply H2.
Qed.
Lemma upholds_attempt {E E' A} (m : M S E A) : upholds m → upholds (attempt (E':=E') m).
Proof.
  intros Hm s Hs. unfold attempt. destruct (Hm s Hs) as [H1 H2].
  destruct (m s) as [[]?]; split; try done. intros ? [= <-]. by apply H2.
Qed.
Lemma upholds_swallow {E E' A} (m : M S E A) : upholds m → upholds (swallow (E':=E') m).
Proof.
  intros Hm s Hs. unfold swallow. destruct (Hm s Hs) as [H1 H2].
  destruct (m s) as [[]?]; split; try done. intros ? [= <-]. by apply H2.
Qed.
Lemma upholds_expect_ok {E E' A} p (m : M S E A) :
  ok_panic p → upholds m → upholds (expect_ok (E':=E') p m).
Proof.
  intros Hp Hm s Hs. unfold expect_ok. destruct (Hm s Hs) as [H1 H2].
  destruct (m s) as [[]?]; split; try done; intros ? [= <-]; [done | by apply H2].
Qed.
End upholds.

#[export] Hint Resolve upholds_mreturn upholds_mfail upholds_mpanic upholds_get
  upholds_gets upholds_expect upholds_ok_or upholds_of_sum upholds_modify : upholds.

(** Walks down a handler; [tac] closes what the hint database does not. *)
Ltac upholds_auto_with tac :=
  repeat first
    [ progress intros
    | solve [auto with upholds]
    | match goal with
      | |- upholds _ _ (bind _ _) => apply upholds_bind
      | |- upholds _ _ (q _) => apply upholds_q
      | |- upholds _ _ (swallow _) => apply upholds_swallow
      | |- upholds _ _ (attempt _) => apply upholds_attempt
      | |- upholds _ _ (expect_ok _ _) => apply upholds_expect_ok
      | |- upholds _ _ (match ?x with _ => _ end) => destruct x
      end
    | solve [tac] ].
Ltac upholds_auto := upholds_auto_with fail.

(** ** Invariants with pre- and postconditions

    [ensures I ok P m Q]: from a state with [I] and [P], the call keeps [I],
    panics only for the reasons [ok], and establishes [Q] of its result. *)
Section ensures.
Context {S : Type} (I : S → Prop) (ok_panic : string → Prop).

Definition ensures {E A} (P : S → Prop) (m : M S E A) (Q : A → S → Prop) : Prop :=
  ∀ s, I s → P s →
    I (m s).2 ∧ (∀ p, (m s).1 = Panic p → ok_panic p) ∧ (∀ a, (m s).1 = Ok a → Q a (m s).2).

Lemma ensures_bind {E A B} P (m : M S E A) (k : A → M S E B) Q1 Q :
  ensures P m Q1 → (∀ a, ensures (Q1 a) (k a) Q) → ensures P (bind m k) Q.
Proof.
  intros Hm Hk s Hs HP. destruct (Hm s Hs HP) as (HI & Hp & Ha). unfold bind.
  destruct (m s) as [[a|e|p] s1]; simpl in *.
  - apply Hk; auto.
  - by split_and!.
  - split_and!; [done| |done]. intros ? [= <-]. by apply Hp.
Qed.
Lemma ensures_q {E E' A} `{F : From E E'} P (m : M S E A) Q :
  ensures P m Q → ensures P (q m) Q.
Proof.
  intros Hm s Hs HP. destruct (Hm s Hs HP) as (HI & Hp & Ha). unfold q.
  destruct (m s) as [[a|e|p] s1]; simpl in *; (split_and!; [done| |]); try done.
  - intros a' [= <-]. by apply Ha.
  - intros ? [= <-]. by apply Hp.
Qed.
Lemma ensures_attempt {E E' A} P (m : M S E A) Q :
  ensures P m Q →
  ensures P (attempt (E':=E') m) (λ r s, match r with inr a => Q a s | inl _ => True end).
Proof.
  intros Hm s Hs HP. destruct (Hm s Hs HP) as (HI & Hp & Ha). unfold attempt.
  destruct (m s) as [[a|e|p] s1]; simpl in *; (split_and!; [done| |]); try done.
  - intros ? [= <-]. by apply Ha.
  - intros ? [= <-]. done.
  - intros ? [= <-]. by apply Hp.
Qed.
Lemma ensures_mono {E A} (P P' : S → Prop) (m : M S E A) (Q Q' : A → S → Prop) :
  (∀ s, P' s → P s) → (∀ a s, Q a s → Q' a s) → ensures P m Q → ensures P' m Q'.
Proof.
  intros HP HQ Hm s Hs HP'. destruct (Hm s Hs (HP s HP')) as (? & ? & ?). eauto.
Qed.
Lemma ensures_mreturn {E A} (P : S → Prop) (a : A) (Q : A → S → Prop) :
  (∀ s, P s → Q a s) → ensures P (mreturn (E:=E) a) Q.
Proof. intros HQ s Hs HP. split_and!; [done|done|]. intros ? [= <-]. by apply HQ. Qed.
Lemma ensures_mfail {E A} P (e : E) (Q : A → S → Prop) : ensures P (mfail e) Q.
Proof. intros s Hs HP. by split_and!. Qed.
Lemma ensures_mpanic {E A} P p (Q : A → S → Prop) :
  ok_panic p → ensures P (mpanic (E:=E) p) Q.
Proof. intros Hp s Hs HP. split_and!; [done| |done]. by intros ? [= <-]. Qed.
Lemma ensures_gets {E A} (P : S → Prop) (f : S → A) :
  ensures P (gets (E:=E) f) (λ a s, P s ∧ a = f s).
Proof. intros s Hs HP. split_and!; [done|done|]. by intros ? [= <-]. Qed.

(** A call that keeps [P] and upholds the invariant. *)
Lemma ensures_frame {E A} (P : S → Prop) (m : M S E A) (R : relation S) :
  upholds I ok_panic m → respects R m → (∀ s s', R s s' → P s → P s') →
  ensures P m (λ _, P).
Proof.
  intros Hm HR HP s Hs Hs'. destruct (Hm s Hs). split_and!; [done|done|].
  intros a Ha. eapply HP; [apply HR|done].
Qed.
Lemma ensures_upholds {E A} (m : M S E A) :
  upholds I ok_panic m → ensures (λ _, True) m (λ _ _, True).
Proof. intros Hm s Hs _. by destruct (Hm s Hs). Qed.
Lemma upholds_ensures {E A} P Q (m : M S E A) :
  ensures P m Q → (∀ s, I s → P s) → upholds I ok_panic m.
Proof. intros Hm HP s Hs. destruct (Hm s Hs (HP s Hs)) as (? & ? & _). by split. Qed.
End ensures.

(** ** What a call returns when it succeeds *)

Create HintDb returns discriminated.

Section returns.
Context {S : Type}.

Definition returns {E A} (m : M S E A) (P : A → Prop) : Prop :=
  ∀ s a s', m s = (Ok a, s') → P a.

Lemma returns_mreturn {E A} (P : A → Prop) a : P a → returns (mreturn (E:=E) a) P.
Proof. by intros HP s ?? [= <- <-]. Qed.
Lemma returns_mfail {E A} (P : A → Prop) (e : E) : returns (mfail e) P.
Proof. by intros s ??. Qed.
Lemma returns_mpanic {E A} (P : A → Prop) p : returns (mpanic (E:=E) p) P.
Proof. by intros s ??. Qed.
Lemma returns_bind {E A B} (P : B → Prop) (m : M S E A) (k : A → M S E B) :
  (∀ a, returns (k a) P) → returns (bind m k) P.
Proof.
  intros Hk s b s'. unfold bind. destruct (m s) as [[a|e|p] s1]; [|done..].
  apply Hk.
Qed.
Lemma returns_bind_2 {E A B} (P : B → Prop) (P1 : A → Prop) (m : M S E A) (k : A → M S E B) :
  returns m P1 → (∀ a, P1 a → returns (k a) P) → returns (bind m k) P.
Proof.
  intros Hm Hk s b s'. unfold bind. destruct (m s) as [[a|e|p] s1] eqn:Em; [|done..].
  eapply Hk, Hm, Em.
Qed.
Lemma returns_q {E E' A} `{F : From E E'} (P : A → Prop) (m : M S E A) :
  returns m P → returns (q m) P.
Proof.
  intros Hm s a s'. unfold q. destruct (m s) as [[]?] eqn:Em; [|done..].
  intros [= <- <-]. eapply Hm, Em.
Qed.
Lemma returns_mono {E A} (P P' : A → Prop) (m : M S E A) :
  (∀ a, P a → P' a) → returns m P → returns m P'.
Proof. intros HP Hm s a s' E1. eapply HP, Hm, E1. Qed.
End returns.

#[export] Hint Resolve returns_mreturn returns_mfail returns_mpanic : returns.

(** A call whose result says all there is to establish. *)
Lemma ensures_returns {S E A} (I : S → Prop) ok P (m : M S E A) (R : A → Prop) Q :
  upholds I ok m → returns m R → (∀ a s, R a → Q a s) → ensures I ok P m Q.
Proof.
  intros Hm Hr HQ s Hs _. destruct (Hm s Hs) as [HI Hp]. split_and!; [done..|].
  intros a Ha. apply HQ. destruct (m s) as [r s'] eqn:E1. simpl in Ha. subst. by eapply Hr.
Qed.

Ltac returns_auto :=
  repeat first
    [ progress intros
    | solve [eauto with returns]
    | match goal with
      | |- returns (bind _ _) _ => apply returns_bind
      | |- returns (q _) _ => apply returns_q
      | |- returns (match ?x with _ => _ end) _ => destruct x
      end ].

(** Case analysis on every [match] of the goal, with the equations kept. *)
Ltac case_all :=
  repeat (case_match; simplify_eq/=; try done).
