(* ===== verification/Bus.v ===== *)
(** * Messages and addresses

    The identifiers, the service addresses ([rpc/src/service_id.rs]), the RPC
    messages ([rpc/src/messages.rs], [rpc/src/error.rs],
    [rpc/src/listen_addr.rs]) and the messages of the internal buses
    ([src/bus/]).  The payload types that come from other crates are the fields
    of the class [Ext]; of an external structure the record holds the fields
    the node reads or writes and one opaque field for the rest. *)

From S2P Require Import Prelude.

(** ** External types *)

Class Ext := {
  Opaque : Type;                 (* the fields of a structure the node never looks at *)
  Psbt : Type;                   (* wallet::psbt::Psbt *)
  LocalKeyset : Type;            (* lnp::channel::bolt::LocalKeyset *)
  Policy : Type;                 (* lnp::channel::bolt::Policy *)
  PubkeyScript : Type;           (* bitcoin_scripts::PubkeyScript *)
  Signature : Type;              (* secp256k1 ECDSA signature *)
  HashLock : Type;               (* bitcoin_scripts::hlc::HashLock *)
  LocalChannelInfo : Type;       (* lnp::router::gossip::LocalChannelInfo *)
  BoltChannelState : Type;       (* lnp::channel::bolt::ChannelState *)
  Invoice : Type;                (* lightning_invoice::Invoice *)
  ChannelType : Type;            (* lnp::p2p::bolt::ChannelType *)
  InetSocketAddr : Type;         (* internet2::addr::InetSocketAddr *)
  AssetId : Type                 (* lnpbp::chain::AssetId *)
}.

(** ** Identifiers *)

(** Byte arrays keep their bytes; the other identifiers are only compared. *)
Definition Slice32 : Set := list N.
Definition NodeId : Set := N.
Definition ClientId : Set := N.
Definition Txid : Set := N.
Definition BifrostApp : Set := N.
Definition AddressCompat : Set := N.
Definition SocketAddr : Set := N * N.        (* ip, port *)

Inductive TempChannelId := MkTempChannelId (inner : Slice32).
Inductive ChannelId := MkChannelId (inner : Slice32).

Definition temp_into_inner (t : TempChannelId) : Slice32 :=
  let 'MkTempChannelId x := t in x.
Definition channel_into_inner (c : ChannelId) : Slice32 :=
  let 'MkChannelId x := c in x.
Definition channel_id_from_temp (t : TempChannelId) : ChannelId :=
  MkChannelId (temp_into_inner t).

Inductive ActiveChannelId :=
  | ActTemporary (t : TempChannelId)
  | ActStatic (c : ChannelId).

Definition as_slice32 (a : ActiveChannelId) : Slice32 :=
  match a with
  | ActTemporary t => temp_into_inner t
  | ActStatic c => channel_into_inner c
  end.
Definition act_temp_channel_id (a : ActiveChannelId) : option TempChannelId :=
  match a with ActTemporary t => Some t | ActStatic _ => None end.
Definition act_channel_id (a : ActiveChannelId) : option ChannelId :=
  match a with ActTemporary _ => None | ActStatic c => Some c end.

Inductive Protocol := Bolt | Bifrost.

#[export] Instance TempChannelId_eq_dec : EqDecision TempChannelId.
Proof. solve_decision. Defined.
#[export] Instance ChannelId_eq_dec : EqDecision ChannelId.
Proof. solve_decision. Defined.
#[export] Instance ActiveChannelId_eq_dec : EqDecision ActiveChannelId.
Proof. solve_decision. Defined.
#[export] Instance Protocol_eq_dec : EqDecision Protocol.
Proof. solve_decision. Defined.

#[export] Program Instance ChannelId_countable : Countable ChannelId :=
  inj_countable' channel_into_inner MkChannelId _.
Next Obligation. by intros []. Qed.
#[export] Program Instance TempChannelId_countable : Countable TempChannelId :=
  inj_countable' temp_into_inner MkTempChannelId _.
Next Obligation. by intros []. Qed.
#[export] Program Instance ActiveChannelId_countable : Countable ActiveChannelId :=
  inj_countable' (λ a, match a with ActTemporary t => inl t | ActStatic c => inr c end)
                 (λ x, match x with inl t => ActTemporary t | inr c => ActStatic c end) _.
Next Obligation. by intros []. Qed.
#[export] Program Instance Protocol_countable : Countable Protocol :=
  inj_countable' (λ p, match p with Bolt => true | Bifrost => false end)
                 (λ b : bool, if b then Bolt else Bifrost) _.
Next Obligation. by intros []. Qed.

(** ** Service addresses *)

Inductive ServiceId :=
  | Loopback
  | LnpBroker
  | Watch
  | Router
  | PeerBolt (n : NodeId)
  | PeerBifrost (n : NodeId)
  | ChannelSvc (c : ChannelId)
  | Client (c : ClientId)
  | Signer
  | MsgApp (a : BifrostApp)
  | ChannelApp (a : BifrostApp)
  | OtherSvc (n : N).

#[export] Instance ServiceId_eq_dec : EqDecision ServiceId.
Proof. solve_decision. Defined.

(** The [strict_encoding] tag of each variant. *)
Definition service_tag (s : ServiceId) : N :=
  match s with
  | Loopback => 0
  | LnpBroker => 0x20
  | Watch => 0x27
  | Router => 0x26
  | PeerBolt _ => 0x21
  | PeerBifrost _ => 0x22
  | ChannelSvc _ => 0x23
  | Client _ => 2
  | Signer => 0x1F
  | MsgApp _ => 0x25
  | ChannelApp _ => 0x24
  | OtherSvc _ => 0xFF
  end.

Definition service_payload (s : ServiceId) : list N :=
  match s with
  | PeerBolt n | PeerBifrost n | Client n | MsgApp n | ChannelApp n | OtherSvc n => [n]
  | ChannelSvc c => channel_into_inner c
  | _ => []
  end.

Definition service_of_tag (tp : N * list N) : option ServiceId :=
  let '(t, p) := tp in
  let one (f : N → ServiceId) := match p with [n] => Some (f n) | _ => None end in
  if decide (t = 0)%N then Some Loopback
  else if decide (t = 0x20)%N then Some LnpBroker
  else if decide (t = 0x27)%N then Some Watch
  else if decide (t = 0x26)%N then Some Router
  else if decide (t = 0x21)%N then one PeerBolt
  else if decide (t = 0x22)%N then one PeerBifrost
  else if decide (t = 0x23)%N then Some (ChannelSvc (MkChannelId p))
  else if decide (t = 2)%N then one Client
  else if decide (t = 0x1F)%N then Some Signer
  else if decide (t = 0x25)%N then one MsgApp
  else if decide (t = 0x24)%N then one ChannelApp
  else if decide (t = 0xFF)%N then one OtherSvc
  else None.

#[export] Program Instance ServiceId_countable : Countable ServiceId :=
  inj_countable (λ s, (service_tag s, service_payload s)) service_of_tag _.
Next Obligation. by intros [| | | | | |[]| | | | |]. Qed.

(** [ServiceId::router], [ServiceId::to_remote_id] and the [From] impls. *)
Definition service_router : ServiceId := LnpBroker.
Definition to_remote_id (s : ServiceId) : option NodeId :=
  match s with PeerBolt n => Some n | _ => None end.
Definition service_of_channel (c : ChannelId) : ServiceId := ChannelSvc c.
Definition service_of_temp (t : TempChannelId) : ServiceId :=
  ChannelSvc (channel_id_from_temp t).

(** ** Peer-to-peer messages *)

Record Ping := { ignored : list N; pong_size : N }.

Section p2p.
Context `{Ext}.

Record OpenChannel := { oc_temporary_channel_id : TempChannelId; oc_rest : Opaque }.
Record AcceptChannel := { ac_temporary_channel_id : TempChannelId; ac_rest : Opaque }.
Record FundingCreated := {
  fc_temporary_channel_id : TempChannelId;
  fc_funding_txid : Txid;
  fc_funding_output_index : N;
  fc_signature : Signature }.
Record FundingSigned := { fs_channel_id : ChannelId; fs_signature : Signature }.
(** [FundingLocked], [ChannelReestablish] and the HTLC updates: only the
    channel id is looked at. *)
Record ChannelMsg := { cm_channel_id : ChannelId; cm_rest : Opaque }.

Inductive LnMsg :=
  | LnInit (fields : option Opaque)    (* [None]: every field empty *)
  | LnPing (p : Ping)
  | LnPong (noise : list N)
  | LnOpenChannel (m : OpenChannel)
  | LnAcceptChannel (m : AcceptChannel)
  | LnFundingCreated (m : FundingCreated)
  | LnFundingSigned (m : FundingSigned)
  | LnFundingLocked (m : ChannelMsg)
  | LnChannelReestablish (m : ChannelMsg)
  | LnUpdateAddHtlc (m : ChannelMsg)
  | LnUpdateFulfillHtlc (m : ChannelMsg)
  | LnUpdateFailHtlc (m : ChannelMsg)
  | LnUpdateFailMalformedHtlc (m : ChannelMsg)
  | LnOther (m : Opaque).

Inductive BfMsg :=
  | BfInit (fields : option Opaque)
  | BfPing (p : Ping)
  | BfPong (noise : list N)
  | BfMessage (app : BifrostApp) (body : Opaque)
  | BfOther (m : Opaque).

(** ** RPC messages *)

Record NodeAddr := { na_id : NodeId; na_addr : InetSocketAddr }.
Record LnpAddr := { la_node_addr : NodeAddr; la_protocol : Protocol }.

(** [lnp::channel::bolt::{CommonParams, PeerParams}]: the fields the node sets. *)
Record CommonParams := {
  cp_feerate_per_kw : N;
  cp_announce_channel : bool;
  cp_channel_type : ChannelType;
  cp_rest : Opaque }.
Record PeerParams := {
  pp_dust_limit_satoshis : N;
  pp_to_self_delay : N;
  pp_max_accepted_htlcs : N;
  pp_htlc_minimum_msat : N;
  pp_max_htlc_value_in_flight_msat : N;
  pp_channel_reserve_satoshis : N;
  pp_rest : Opaque }.

Record CreateChannel := {
  cc_remote_peer : NodeAddr;
  cc_report_to : option ClientId;
  cc_funding_sat : N;
  cc_push_msat : N;
  cc_fee_rate : option N;
  cc_announce_channel : option bool;
  cc_channel_type : option ChannelType;
  cc_dust_limit : option N;
  cc_to_self_delay : option N;
  cc_htlc_max_count : option N;
  cc_htlc_min_value : option N;
  cc_htlc_max_total_value : option N;
  cc_channel_reserve : option N }.
End p2p.

Inductive FailureCode := FcUnknown | FcEncoding | FcLaunch | FcChannel | FcLnpd | FcNested.
Record Failure := { code : FailureCode; info : string }.

(** [OptionDetails] wraps an [Option<String>]. *)
Definition OptionDetails : Set := option string.

Record ListenAddr := { lis_protocol : Protocol; lis_socket_addr : SocketAddr }.
Record ListPeerInfo := { lp_bolt : list NodeId; lp_bifrost : list NodeId }.
Record NodeInfo := {
  ni_node_id : NodeId;
  ni_listens : list ListenAddr;
  ni_uptime : N;
  ni_since : N;
  ni_peers : ListPeerInfo;
  ni_channels : list ChannelId }.

#[export] Instance FailureCode_eq_dec : EqDecision FailureCode.
Proof. solve_decision. Defined.
#[export] Instance ListenAddr_eq_dec : EqDecision ListenAddr.
Proof. solve_decision. Defined.
#[export] Program Instance ListenAddr_countable : Countable ListenAddr :=
  inj_countable' (λ l, (lis_protocol l, lis_socket_addr l))
                 (λ x, {| lis_protocol := x.1; lis_socket_addr := x.2 |}) _.
Next Obligation. by intros []. Qed.

Section rpc.
Context `{Ext}.

Record PeerInfo := {
  pi_local_id : NodeId;
  pi_remote_id : list NodeId;
  pi_local_socket : option InetSocketAddr;
  pi_remote_socket : list InetSocketAddr;
  pi_uptime : N;
  pi_since : N;
  pi_messages_sent : N;
  pi_messages_received : N;
  pi_channels : gset Slice32;
  pi_connected : bool;
  pi_awaits_pong : bool }.
Record ChannelInfo := { ci_state : BoltChannelState; ci_remote_id : option NodeId }.
Record FundsInfo := {
  fi_bitcoin_funds : gmap AddressCompat N;
  fi_next_address : AddressCompat }.
Record PayInvoice := {
  pay_channel_id : ChannelId; pay_invoice : Invoice; pay_amount_msat : option N }.
Record SendReq := {
  snd_channeld : ServiceId; snd_amount : N; snd_asset : option AssetId }.

Inductive RpcMsg :=
  | RpcGetInfo | RpcListPeers | RpcListChannels | RpcListFunds
  | RpcListen (a : ListenAddr)
  | RpcConnectPeer (a : LnpAddr)
  | RpcDisconnectPeer (a : LnpAddr)
  | RpcPingPeer
  | RpcCreateChannel (c : CreateChannel)
  | RpcSend (s : SendReq)
  | RpcPayInvoice (p : PayInvoice)
  | RpcProgress (s : string)
  | RpcSuccess (d : OptionDetails)
  | RpcFailure (f : Failure)
  | RpcNodeInfo (i : NodeInfo)
  | RpcPeerInfo (i : PeerInfo)
  | RpcChannelInfo (i : ChannelInfo)
  | RpcPeerList (l : ListPeerInfo)
  | RpcChannelList (l : list ChannelId)
  | RpcFundsInfo (i : FundsInfo).

Definition rpc_success : RpcMsg := RpcSuccess None.

(** ** Control bus *)

Record OpenChannelWith := {
  ow_remote_peer : NodeAddr;
  ow_report_to : option ClientId;
  ow_funding_sat : N;
  ow_push_msat : N;
  ow_policy : Policy;
  ow_common_params : CommonParams;
  ow_local_params : PeerParams;
  ow_local_keys : LocalKeyset }.
Record AcceptChannelFrom := {
  af_remote_id : NodeId;
  af_report_to : option ServiceId;
  af_policy : Policy;
  af_common_params : CommonParams;
  af_local_params : PeerParams;
  af_local_keys : LocalKeyset;
  af_channel_req : OpenChannel }.
Record FundChannel := {
  fch_script_pubkey : PubkeyScript;
  fch_amount : N;
  fch_feerate_per_kw : option N }.
Record BlockPos := { bp_depth : N; bp_height : N; bp_pos : N }.
Record TxStatus := { ts_txid : Txid; ts_block_pos : option BlockPos }.
Record PaymentOnion := { amt_to_forward : N; outgoing_cltv_value : N; po_rest : Opaque }.
Record Hop := { hop_payload : PaymentOnion; hop_rest : Opaque }.

Inductive Status :=
  | StProgress (s : string)
  | StSuccess (d : OptionDetails)
  | StFailure (f : Failure).
Record Report := { rep_client : ClientId; rep_status : Status }.

Inductive CtlMsg :=
  | CtlHello
  | CtlGetInfo
  | CtlPingPeer
  | CtlOpenChannelWith (r : OpenChannelWith)
  | CtlAcceptChannelFrom (r : AcceptChannelFrom)
  | CtlConstructFunding (f : FundChannel)
  | CtlFundingConstructed (p : Psbt)
  | CtlPublishFunding
  | CtlTrack (txid : Txid) (depth : N)
  | CtlUntrack (txid : Txid)
  | CtlTxFound (s : TxStatus)
  | CtlPayment (route : list Hop) (hash_lock : HashLock) (enquirer : ClientId)
  | CtlChannelCreated (i : LocalChannelInfo)
  | CtlChannelClosed (c : ChannelId)
  | CtlChannelBalanceUpdate (c : ChannelId) (local_amount_msat remote_amount_msat : N)
  | CtlSign (p : Psbt)
  | CtlSigned (p : Psbt)
  | CtlDeriveKeyset (s : Slice32)
  | CtlKeyset (s : ServiceId) (k : LocalKeyset)
  | CtlReport (r : Report)
  | CtlError (destination : ServiceId) (request error : string)
  | CtlEsbError (destination : ServiceId) (error : string)
  | CtlPeerInfo (i : PeerInfo)
  | CtlChannelInfo (i : ChannelInfo)
  | CtlChannelUpdate (old_id : TempChannelId) (new_id : ChannelId).

Inductive BusMsg :=
  | BusBolt (m : LnMsg)
  | BusBifrost (m : BfMsg)
  | BusCtl (m : CtlMsg)
  | BusRpc (m : RpcMsg).
End rpc.

Inductive ServiceBus := BusIdRpc | BusIdMsg | BusIdCtl | BusIdBridge.

#[export] Instance ServiceBus_eq_dec : EqDecision ServiceBus.
Proof. solve_decision. Defined.
