(* ===== verification/Text.v ===== *)
(** * Text

    What the program uses of the standard library's strings, on ASCII text:
    numbers in decimal ([show_uint], which is stdpp's, and [parse_uint]),
    [str::to_lowercase], [str::contains] and [str::split]. *)

From Stdlib Require Import Ascii.
From stdpp Require Import pretty.
From S2P Require Import Prelude.

(** ** Numbers

    [Display] and [FromStr] of the unsigned integers up to [max]. *)

Definition show_uint (n : N) : string := pretty n.

Definition digit_value (c : ascii) : option N :=
  let n := N_of_ascii c in
  if decide (48 ≤ n ∧ n ≤ 57)%N then Some (n - 48)%N else None.

(** The error kinds of [ParseIntError] are one [None]: nobody tells them apart. *)
Fixpoint parse_digits (max acc : N) (s : string) : option N :=
  match s with
  | EmptyString => Some acc
  | String c s =>
      match digit_value c with
      | Some d =>
          let acc := (acc * 10 + d)%N in
          if decide (acc ≤ max)%N then parse_digits max acc s else None
      | None => None
      end
  end.
Definition parse_uint (max : N) (s : string) : option N :=
  match s with
  | EmptyString => None
  | String c s' =>
      if decide (c = "+"%char)
      then match s' with EmptyString => None | _ => parse_digits max 0 s' end
      else parse_digits max 0 s
  end.
Definition u16_max : N := 2 ^ 16 - 1.

(** ** Characters and pieces *)

Definition ascii_lower (c : ascii) : ascii :=
  let n := N_of_ascii c in
  if decide (65 ≤ n ∧ n ≤ 90)%N then ascii_of_N (n + 32) else c.
Fixpoint to_lowercase (s : string) : string :=
  match s with
  | EmptyString => EmptyString
  | String c s => String (ascii_lower c) (to_lowercase s)
  end.

Fixpoint has_char (c : ascii) (s : string) : bool :=
  match s with
  | EmptyString => false
  | String d s => bool_decide (c = d) || has_char c s
  end.

(** The pieces between the matches of a non-empty pattern, leftmost matches
    first; [skip] counts the characters of a match still to be passed. *)
Fixpoint split_go (pat : string) (skip : nat) (cur s : string) : list string :=
  match s with
  | EmptyString => [cur]
  | String c s' =>
      match skip with
      | S skip => split_go pat skip cur s'
      | 0 =>
          if String.prefix pat s then cur :: split_go pat (String.length pat - 1) "" s'
          else split_go pat 0 (cur +:+ String c "") s'
      end
  end.
Definition split (pat s : string) : list string := split_go pat 0 "" s.

(** ** Facts *)

Lemma app_nil_str s : "" +:+ s = s.
Proof. done. Qed.
Lemma app_cons_str c a s : String c a +:+ s = String c (a +:+ s).
Proof. done. Qed.
Lemma app_empty_r s : s +:+ "" = s.
Proof. induction s as [|c s IH]; [done|]. by rewrite app_cons_str, IH. Qed.
Lemma app_assoc_str a b c : a +:+ (b +:+ c) = (a +:+ b) +:+ c.
Proof. induction a as [|x a IH]; [done|]. by rewrite !app_cons_str, IH. Qed.
Lemma cons_app_str a c s : a +:+ String c s = (a +:+ String c "") +:+ s.
Proof. by rewrite <- app_assoc_str. Qed.

Lemma has_char_app c a b : has_char c (a +:+ b) = has_char c a || has_char c b.
Proof.
  induction a as [|d a IH]; [done|]. rewrite app_cons_str. simpl. by rewrite IH, orb_assoc.
Qed.

Lemma digit_of_char x : (x < 10)%N → digit_value (pretty_N_char x) = Some x.
Proof.
  destruct x as [|p]; [done|]. do 4 (destruct p as [p|p|]; try done); intros Hx; lia.
Qed.

Lemma parse_digits_go max x s :
  (x ≤ max)%N → parse_digits max 0 (pretty_N_go x s) = parse_digits max x s.
Proof.
  revert s. induction (N.lt_wf_0 x) as [x _ IH]; intros s Hx.
  destruct (decide (x = 0)%N) as [->|]; [by rewrite pretty_N_go_0|].
  rewrite pretty_N_go_step by lia.
  rewrite IH by (try apply N.div_lt; try (pose proof (N.Div0.div_le_mono x 10); lia);
    pose proof (N.Div0.div_le_upper_bound x 10 x); lia).
  simpl. rewrite digit_of_char by (by apply N.mod_lt).
  replace (x `div` 10 * 10 + x `mod` 10)%N with x by (pose proof (N.div_mod x 10); lia).
  by rewrite decide_True.
Qed.

(** Decimals are digits, and a number that is printed is read back. *)
Lemma digit_char_digit x :
  digit_value (pretty_N_char x) ≠ None.
Proof. unfold pretty_N_char. by repeat case_match. Qed.
Lemma no_char_go c x s :
  digit_value c = None → has_char c s = false → has_char c (pretty_N_go x s) = false.
Proof.
  intros Hc. revert s. induction (N.lt_wf_0 x) as [x _ IH]; intros s Hs.
  destruct (decide (x = 0)%N) as [->|]; [by rewrite pretty_N_go_0|].
  rewrite pretty_N_go_step by lia. apply IH; [apply N.div_lt; lia|].
  simpl. rewrite bool_decide_eq_false_2; [done|].
  intros ->. by eapply digit_char_digit.
Qed.
Lemma show_uint_digits c (n : N) : digit_value c = None → has_char c (show_uint n) = false.
Proof.
  intros Hc. unfold show_uint, pretty, pretty_N. case_decide; [|by apply no_char_go].
  simpl. rewrite bool_decide_eq_false_2; [done|]. by intros ->.
Qed.
Lemma show_uint_nonempty (n : N) : ∃ c s, show_uint n = String c s.
Proof.
  destruct (show_uint n) as [|c s] eqn:E; [|by eauto].
  destruct (decide (n = 0)%N) as [->|Hn]; [done|].
  assert (H : parse_digits n 0 (show_uint n) = Some n).
  { unfold show_uint, pretty, pretty_N. rewrite decide_False by done. by rewrite parse_digits_go. }
  rewrite E in H. by injection H.
Qed.
Lemma parse_show_uint max n : (n ≤ max)%N → parse_uint max (show_uint n) = Some n.
Proof.
  intros Hn.
  assert (Hd : parse_digits max 0 (show_uint n) = Some n).
  { unfold show_uint, pretty, pretty_N. case_decide as H0; [subst; simpl; by rewrite decide_True by lia|].
    by rewrite parse_digits_go. }
  destruct (show_uint_nonempty n) as (c & s & E).
  pose proof (show_uint_digits "+"%char n eq_refl) as Hp.
  rewrite E in *. unfold parse_uint. rewrite decide_False; [done|].
  intros ->. discriminate Hp.
Qed.

(** Splitting. *)
Lemma prefix_char c pat s :
  has_char c pat = true → has_char c s = false → String.prefix pat s = false.
Proof.
  revert s. induction pat as [|d pat IH]; intros [|e s] Hp Hs; simpl in *; try done.
  destruct (Ascii.ascii_dec d e) as [->|]; [|done].
  apply orb_true_iff in Hp as [Hp|Hp]; apply orb_false_iff in Hs as [Hs1 Hs2].
  - congruence.
  - by apply IH.
Qed.
Lemma split_go_none c pat cur s :
  has_char c pat = true → has_char c s = false → split_go pat 0 cur s = [cur +:+ s].
Proof.
  intros Hp. revert cur. induction s as [|d s IH]; intros cur Hs; [by rewrite app_empty_r|].
  cbn [split_go]. rewrite (prefix_char c) by done.
  simpl in Hs. apply orb_false_iff in Hs as [_ Hs]. rewrite IH by done.
  by rewrite <- cons_app_str.
Qed.
Lemma split_go_skip pat cur a b n :
  String.length a = n → split_go pat n cur (a +:+ b) = split_go pat 0 cur b.
Proof.
  revert n. induction a as [|c a IH]; intros [|n] Hn; try done.
  rewrite app_cons_str. simpl. apply IH. by injection Hn.
Qed.
Lemma prefix_app_self pat b : String.prefix pat (pat +:+ b) = true.
Proof.
  induction pat as [|c pat IH]; [by destruct b|]. rewrite app_cons_str. simpl.
  by destruct (Ascii.ascii_dec c c).
Qed.

(** A text without the first character of the pattern, then the pattern. *)
Lemma split_go_first c pat cur a b :
  has_char c a = false →
  split_go (String c pat) 0 cur (a +:+ String c pat +:+ b) =
  (cur +:+ a) :: split_go (String c pat) 0 "" b.
Proof.
  revert cur. induction a as [|d a IH]; intros cur Ha.
  - rewrite app_nil_str, !app_cons_str. cbn [split_go].
    change (String c (pat +:+ b)) with (String c pat +:+ b). rewrite prefix_app_self.
    rewrite app_empty_r. f_equal. apply split_go_skip. simpl. lia.
  - simpl in Ha. apply orb_false_iff in Ha as [Hd Ha]. apply bool_decide_eq_false in Hd.
    rewrite app_cons_str. cbn [split_go]. simpl String.prefix.
    destruct (Ascii.ascii_dec c d); [done|]. rewrite IH by done. by rewrite <- cons_app_str.
Qed.
Lemma split_once c d pat a b :
  has_char c a = false → has_char d (String c pat) = true → has_char d b = false →
  split (String c pat) (a +:+ String c pat +:+ b) = [a; b].
Proof.
  intros Ha Hd Hb. unfold split. rewrite split_go_first by done.
  by rewrite (split_go_none d) by done.
Qed.
