(* ===== verification/Service.v ===== *)
(** * Errors, the operating system, endpoints and responders

    [src/error.rs], the error enumerations of the daemons
    ([channeld/automata/mod.rs], [lnpd/automata/launch.rs], [lnpd/funding.rs],
    [routed/mod.rs]), [src/automata.rs] and [src/service.rs].  Everything the
    daemons ask of their surroundings (the ESB, the process launcher, the file
    system, the peer socket, the clock) is an operation recorded in a history;
    the replies are fields of the class [Sys] and may depend on the whole
    history. *)

From S2P Require Import Prelude.
From S2P Require Import Bus.

Local Open Scope rust_scope.

Definition PathBuf : Set := list string.
Definition PublicKey : Set := N.

(** ** Daemons started by lnpd ([lnpd/daemons.rs]) *)

Section daemons.
Context `{Ext}.

Inductive PeerSocket :=
  | PsListen (a : SocketAddr)
  | PsConnect (a : NodeAddr).

Inductive Daemon :=
  | Signd
  | PeerdBolt (s : PeerSocket) (key_file : PathBuf)
  | PeerdBifrost (s : PeerSocket) (key_file : PathBuf)
  | Channeld (c : ActiveChannelId)
  | Routed
  | Watchd.

Definition daemon_protocol (d : Daemon) : option Protocol :=
  match d with
  | PeerdBolt _ _ => Some Bolt
  | PeerdBifrost _ _ => Some Bifrost
  | _ => None
  end.

Definition bin_name (d : Daemon) : string :=
  match d with
  | Signd => "signd"
  | PeerdBolt _ _ => "peerd"
  | PeerdBifrost _ _ => "peerd"
  | Channeld _ => "channeld"
  | Routed => "routed"
  | Watchd => "watchd"
  end.
End daemons.

(** ** Errors *)

(** The stages of [lnp::channel::bolt::Lifecycle] the node names. *)
Inductive Lifecycle :=
  | LcInitial | LcProposed | LcAccepted | LcSigning | LcFunding | LcSigned | LcFunded
  | LcLocked | LcActive | LcReestablishing | LcClosing (round : N) | LcAborting
  | LcPenalize.

#[export] Instance Lifecycle_eq_dec : EqDecision Lifecycle.
Proof. solve_decision. Defined.

Inductive PaymentError := AmountUnknown | RouteNotFound.

Section errors.
Context `{Ext}.

(** [microservices::esb::Error]: the two variants the node names. *)
Inductive EsbError :=
  | EsbSend (source dest : ServiceId) (err : string)
  | EsbServiceError (s : string)
  | EsbOther (e : Opaque).

Inductive PresentationError :=
  | PresTransportTimedOut
  | PresOther (e : Opaque).

(** [lnp::channel::bolt::Error], as [errno] matches it. *)
Inductive BoltError :=
  | BeChannelReestablish (e : Opaque)
  | BeHtlc (e : Opaque)
  | BePolicy (e : Opaque)
  | BeLifecycleMismatch (e : Opaque)
  | BeFunding (e : Opaque)
  | BeRoute (e : Opaque)
  | BeNoChanelId
  | BeNoTemporaryId.

(** [channeld::automata::Error] *)
Inductive ChanError :=
  | CeUnexpectedMessage (m : BusMsg) (l : Lifecycle) (s : ServiceId)
  | CeChannel (e : BoltError)
  | CeEsb (e : EsbError)
  | CeInvalidState (operation : string) (current : Lifecycle)
  | CeNoPersistantData
  | CeFundingPsbtUnsigned (pk : PublicKey)
  | CeInvalidSig (e : Opaque)
  | CePersistence (e : Opaque).

Definition errno (e : ChanError) : N :=
  match e with
  | CeUnexpectedMessage _ _ _ => 1001
  | CeChannel (BeChannelReestablish _) => 2001
  | CeChannel (BeHtlc _) => 2002
  | CeChannel (BePolicy _) => 2003
  | CeChannel (BeLifecycleMismatch _) => 2004
  | CeChannel (BeFunding _) => 2005
  | CeChannel (BeRoute _) => 2006
  | CeChannel BeNoChanelId => 2007
  | CeChannel BeNoTemporaryId => 2008
  | CeEsb _ => 3001
  | CeInvalidState _ _ => 4001
  | CeFundingPsbtUnsigned _ => 5001
  | CeInvalidSig _ => 5002
  | CePersistence _ => 6000
  | CeNoPersistantData => 6001
  end.

(** [lnpd::funding::Error] *)
Inductive FundingErr :=
  | FeIo (e : Opaque)
  | FeStrictEncoding (e : Opaque)
  | FeElectrum (s : string)
  | FeNoAddressRepresentation
  | FeChainNotSupported
  | FeChainMismatch
  | FeDerivation (e : Opaque)
  | FeOutOfIndexes
  | FeInsufficientFunds
  | FeFinalizing (e : Opaque).

(** [lnpd::automata::launch::Error] *)
Inductive LaunchError :=
  | LeUnexpectedMessage (m : CtlMsg) (stage : string)
  | LeSignedTxidChanged (unsigned_txid signed_txid : Txid)
  | LeFundingStructure (e : Opaque)
  | LeEsb (e : EsbError)
  | LeDaemonLaunch (e : Opaque)
  | LeFunding (e : FundingErr).

(** [crate::Error] *)
Inductive Error :=
  | EIo (e : Opaque)
  | EEsb (e : EsbError)
  | ERpc (e : Opaque)
  | EDaemonLaunch (e : Opaque)
  | EPeer (e : PresentationError)
  | EChannel (e : ChanError)
  | EGossipRouter (e : Opaque)
  | EChannelLaunch (e : LaunchError)
  | EPayment (e : PaymentError)
  | EPersistence (e : Opaque)
  | EBitcoinEncoding (e : Opaque)
  | EStrictEncoding (e : Opaque)
  | EFundingWallet (e : FundingErr)
  | EDerivation (e : Opaque)
  | EMiniscript (e : Opaque)
  | ESigning (e : Opaque)
  | EBridge (e : Opaque)
  | EElectrumConnectivity
  | ENotSupported (b : ServiceBus) (msg : string)
  | ESourceNotSupported (b : ServiceBus) (msg : string) (s : ServiceId)
  | EMisbehaving
  | ETerminate (s : string)
  | EOther (s : string).

(** The errors of the standard library and of the encoders share the type
    [Opaque]; these wrappers tell [?] which of them it converts. *)
Record IoErr := { io_err : Opaque }.
Record StrictErr := { strict_err : Opaque }.
Record LauncherErr := { launcher_err : Opaque }.

#[export] Instance from_bolt_chan : From BoltError ChanError := CeChannel.
#[export] Instance from_esb_chan : From EsbError ChanError := CeEsb.
#[export] Instance from_strict_chan : From StrictErr ChanError := λ e, CePersistence (strict_err e).
#[export] Instance from_io_strict : From IoErr StrictErr := λ e, {| strict_err := io_err e |}.
#[export] Instance from_io : From IoErr Error := λ e, EIo (io_err e).
#[export] Instance from_esb : From EsbError Error := EEsb.
#[export] Instance from_chan : From ChanError Error := EChannel.
#[export] Instance from_bolt : From BoltError Error := λ e, EChannel (from e).
#[export] Instance from_launcher : From LauncherErr Error := λ e, EDaemonLaunch (launcher_err e).
#[export] Instance from_peer : From PresentationError Error := EPeer.
#[export] Instance from_launch : From LaunchError Error := EChannelLaunch.
#[export] Instance from_payment : From PaymentError Error := EPayment.
#[export] Instance from_funding : From FundingErr Error := EFundingWallet.
#[export] Instance from_strict : From StrictErr Error := λ e, EStrictEncoding (strict_err e).
#[export] Instance from_esb_launch : From EsbError LaunchError := LeEsb.
#[export] Instance from_launcher_launch : From LauncherErr LaunchError :=
  λ e, LeDaemonLaunch (launcher_err e).
#[export] Instance from_funding_launch : From FundingErr LaunchError := LeFunding.
#[export] Instance from_io_funding : From IoErr FundingErr := λ e, FeIo (io_err e).
#[export] Instance from_strict_funding : From StrictErr FundingErr :=
  λ e, FeStrictEncoding (strict_err e).
End errors.

(** ** Text

    The [Display] implementations are produced by derive macros or belong to
    other crates, and so are the terminal styles of [microservices::cli]. *)
Class Fmt `{Ext} := {
  show_bus_msg : BusMsg → string;
  show_service_id : ServiceId → string;
  show_node_id : NodeId → string;
  show_node_addr : NodeAddr → string;
  show_channel_id : ChannelId → string;
  show_temp_id : TempChannelId → string;
  show_active_id : ActiveChannelId → string;
  show_active_alt : ActiveChannelId → string;           (* {:#} *)
  show_txid : Txid → string;
  show_outpoint : Txid * N → string;
  show_ip : N → string;
  show_protocol : Protocol → string;
  default_port : Protocol → N;                          (* Protocol::default_port *)
  show_esb_error : EsbError → string;
  show_chan_error : ChanError → string;
  show_launch_error : LaunchError → string;
  show_error : Error → string;
  show_failure : Failure → string;
  show_launcher_err : LauncherErr → string;
  announce : string → string;
  announcer : string → string;
  ended : string → string;
  actor : string → string }.

(** ** Operations on the surroundings *)

Section operations.
Context `{Ext}.

Record Envelope := {
  env_bus : ServiceBus; env_src : ServiceId; env_dest : ServiceId; env_msg : BusMsg }.

Inductive FsOp :=
  | FsOpen (p : PathBuf) | FsCreateDir (p : PathBuf) | FsCreate (p : PathBuf)
  | FsSync | FsSeek | FsWrite | FsRemove (p : PathBuf).

(** Requests to the Electrum server. *)
Inductive NetOp :=
  | NetConnect (url : string)
  | NetUtxos (case from count : N)
  | NetEstimateFee
  | NetConstruct
  | NetBroadcast (p : Psbt)
  | NetHeaders
  | NetTx (txid : Txid)
  | NetTxBatch (txids : list Txid).

Inductive Op :=
  | OpSend (e : Envelope)
  | OpSetIdentity (b : ServiceBus) (id : ServiceId)
  | OpLaunch (d : Daemon)
  | OpFs (o : FsOp)
  | OpPeerSend (m : LnMsg + BfMsg)
  | OpNet (o : NetOp).

(** Each operation asked for, with whether it succeeded; latest last. *)
Definition History : Type := list (Op * bool).
End operations.

Class Sys `{Ext} := {
  esb_reply : History → Op → option EsbError;
  launch_reply : History → Daemon → LauncherErr + string;
  io_reply : History → FsOp → option IoErr;
  io_not_found : IoErr;                       (* the path does not exist *)
  short_write : History → nat;                (* bytes written before a failing write *)
  peer_reply : History → LnMsg + BfMsg → option PresentationError;
  random_temp_id : History → TempChannelId;
  random_size : History → nat → N;            (* the draws of [gen_range(4..=32)] *)
  random_byte : History → nat → N;
  sys_now : History → N }.

(** ** The world of a daemon: its runtime and what it has done so far *)

(** Files are inodes named by paths: an open file survives the removal of its
    name, as on POSIX systems. *)
Record Disk := {
  d_names : gmap PathBuf nat;
  d_inodes : gmap nat (list N);
  d_next : nat }.
Record File := { f_inode : nat; f_pos : nat }.

Definition inode_data (d : Disk) (i : nat) : list N := default [] (d_inodes d !! i).
Definition path_data (d : Disk) (p : PathBuf) : option (list N) :=
  inode_data d <$> d_names d !! p.

Definition disk_create (p : PathBuf) (d : Disk) : nat * Disk :=
  match d_names d !! p with
  | Some i => (i, {| d_names := d_names d; d_inodes := <[i:=[]]> (d_inodes d);
                     d_next := d_next d |})
  | None => (d_next d, {| d_names := <[p:=d_next d]> (d_names d);
                          d_inodes := <[d_next d:=[]]> (d_inodes d);
                          d_next := S (d_next d) |})
  end.
Definition disk_remove (p : PathBuf) (d : Disk) : Disk :=
  {| d_names := delete p (d_names d); d_inodes := d_inodes d; d_next := d_next d |}.

(** Writing at an offset overwrites what is there and keeps what is after. *)
Definition overwrite (pos : nat) (bs old : list N) : list N :=
  take pos (old ++ replicate (pos - length old) 0%N) ++ bs ++ drop (pos + length bs) old.
Definition disk_write (f : File) (bs : list N) (d : Disk) : Disk :=
  {| d_names := d_names d;
     d_inodes := <[f_inode f := overwrite (f_pos f) bs (inode_data d (f_inode f))]> (d_inodes d);
     d_next := d_next d |}.

Record World `{Ext} (R : Type) := mk_world { rt : R; hist : History; disk : Disk }.
Arguments mk_world {_ R}.
Arguments rt {_ R}.
Arguments hist {_ R}.
Arguments disk {_ R}.

Section world.
Context `{Sys}.
Context {R : Type}.

Definition W (E A : Type) : Type := M (World R) E A.

Definition with_rt (f : R → R) (w : World R) : World R :=
  mk_world (f (rt w)) (hist w) (disk w).
Definition with_disk (f : Disk → Disk) (w : World R) : World R :=
  mk_world (rt w) (hist w) (f (disk w)).
Definition record_op (o : Op) (ok : bool) (w : World R) : World R :=
  mk_world (rt w) (hist w ++ [(o, ok)]) (disk w).

(** [&mut self] accesses *)
Definition self {E A} (f : R → A) : W E A := gets (λ w, f (rt w)).
Definition update {E} (f : R → R) : W E unit := modify (with_rt f).

Definition perform {E} (reply : History → option E) (o : Op) : W E unit := λ w,
  match reply (hist w) with
  | None => (Ok tt, record_op o true w)
  | Some e => (Err e, record_op o false w)
  end.

(** A request to the surroundings that answers with a value. *)
Definition query {E A} (reply : History → E + A) (o : Op) : W E A := λ w,
  match reply (hist w) with
  | inr a => (Ok a, record_op o true w)
  | inl e => (Err e, record_op o false w)
  end.

(** A call on another object that lives in the same world: one that the runtime
    owns, or one that is being built. *)
Definition on_part {T E A} (prj : R → T) (upd : T → R → R)
    (m : M (World T) E A) : W E A := λ w,
  let '(r, w') := m (mk_world (prj (rt w)) (hist w) (disk w)) in
  (r, mk_world (upd (rt w') (rt w)) (hist w') (disk w')).
Definition building {T E A} (t : T) (m : M (World T) E A) : W E (T * A) := λ w,
  let '(r, w') := m (mk_world t (hist w) (disk w)) in
  (match r with
   | Ok a => Ok (rt w', a)
   | Err e => Err e
   | Panic p => Panic p
   end, mk_world (rt w) (hist w') (disk w')).

(** Files: [File::create], [OpenOptions::open], [seek], a write of all the
    bytes, [sync_all] and [remove_file]. *)
Definition fs (o : FsOp) : W IoErr unit := perform (λ h, io_reply h o) (OpFs o).

Definition file_create (p : PathBuf) : W IoErr File :=
  do! fs (FsCreate p) in
  let! w := get in
  let '(i, d) := disk_create p (disk w) in
  do! modify (with_disk (λ _, d)) in
  mreturn {| f_inode := i; f_pos := 0 |}.
Definition file_open (p : PathBuf) : W IoErr File :=
  do! fs (FsOpen p) in
  let! w := get in
  match d_names (disk w) !! p with
  | Some i => mreturn {| f_inode := i; f_pos := 0 |}
  | None => mfail io_not_found
  end.
Definition file_seek_start (f : File) : W IoErr File :=
  do! fs FsSeek in mreturn {| f_inode := f_inode f; f_pos := 0 |}.
Definition file_sync (f : File) : W IoErr unit := fs FsSync.
Definition file_write (f : File) (bs : list N) : W IoErr File :=
  let! w := get in
  let! r := attempt (fs FsWrite) in
  match r with
  | inr _ =>
      do! modify (with_disk (disk_write f bs)) in
      mreturn {| f_inode := f_inode f; f_pos := f_pos f + length bs |}
  | inl e =>
      do! modify (with_disk (disk_write f (take (short_write (hist w)) bs))) in
      mfail e
  end.
Definition file_remove (p : PathBuf) : W IoErr unit :=
  do! fs (FsRemove p) in
  let! w := get in
  match d_names (disk w) !! p with
  | Some _ => modify (with_disk (disk_remove p))
  | None => mfail io_not_found
  end.

(** [Launcher::exec_daemon] and [thread_daemon], which return a handle. *)
Definition exec_daemon (d : Daemon) : W LauncherErr string :=
  query (λ h, launch_reply h d) (OpLaunch d).

(** [endpoints.send_to(bus, source, dest, message)] *)
Definition send_to (b : ServiceBus) (src dest : ServiceId) (m : BusMsg) : W EsbError unit :=
  let o := OpSend {| env_bus := b; env_src := src; env_dest := dest; env_msg := m |} in
  perform (λ h, esb_reply h o) o.

Definition ep_set_identity (b : ServiceBus) (id : ServiceId) : W EsbError unit :=
  let o := OpSetIdentity b id in perform (λ h, esb_reply h o) o.

Definition now {E} : W E N := gets (λ w, sys_now (hist w)).
End world.
Arguments W {_} R E A.

(** ** Handlers and responders ([src/service.rs])

    What a daemon's runtime tells the shared code about itself: its identity on
    the buses and the client to report to ([esb::Handler::identity],
    [Responder::enquirer], which is [None] unless overridden). *)
Class Handler (R : Type) := {
  identity : R → ServiceId;
  enquirer : R → option ClientId }.

Section responder.
Context `{Sys, !Fmt}.
Context {R : Type} `{Handler R}.

Definition report_status {E} `{From EsbError E} (status : Status) : W R E unit :=
  let! client := self enquirer in
  match client with
  | Some client =>
      let! id := self identity in
      do? send_to BusIdCtl id LnpBroker
            (BusCtl (CtlReport {| rep_client := client; rep_status := status |})) in
      mreturn tt
  | None => mreturn tt
  end.

Definition report_success (msg : option string) : W R Error unit :=
  report_status (StSuccess msg).

Definition report_progress (msg : string) : W R Error unit :=
  report_status (StProgress msg).

Definition report_failure {E} (failure : Failure) : W R E Error :=
  do! swallow (report_status (E:=Error) (StFailure failure)) in
  mreturn (ETerminate (show_failure failure)).

(** [send_ctl] takes anything that may name a service. *)
Definition send_ctl_to (dest : option ServiceId) (request : CtlMsg) : W R EsbError unit :=
  match dest with
  | Some dest =>
      let! id := self identity in
      do? send_to BusIdCtl id dest (BusCtl request) in
      mreturn tt
  | None => mreturn tt
  end.
Definition send_ctl (dest : ServiceId) (request : CtlMsg) : W R EsbError unit :=
  send_ctl_to (Some dest) request.

Definition send_rpc (client_id : ClientId) (message : RpcMsg) : W R EsbError unit :=
  let! id := self identity in
  send_to BusIdRpc id (Client client_id) (BusRpc message).

(** [From<Error> for esb::Error], [From<&esb::Error> for Failure] *)
Definition error_into_esb (e : Error) : EsbError :=
  match e with
  | EEsb err => err
  | err => EsbServiceError (show_error err)
  end.
Definition failure_of_esb (e : EsbError) : Failure :=
  {| code := FcNested; info := show_esb_error e |}.

Definition wrong_esb_msg (bus : ServiceBus) (message : BusMsg) : Error :=
  ENotSupported bus (show_bus_msg message).
Definition wrong_esb_msg_source (bus : ServiceBus) (message : BusMsg) (source : ServiceId)
  : Error := ESourceNotSupported bus (show_bus_msg message) source.
End responder.

(** ** Events of the state machines ([src/automata.rs]) *)

Record Event (Message : Type) := {
  ev_service : ServiceId;
  ev_source : ServiceId;
  ev_message : Message }.
Arguments ev_service {Message}.
Arguments ev_source {Message}.
Arguments ev_message {Message}.

Section event.
Context `{Sys}.
Context {R Message : Type} (into : Message → BusMsg).

Definition event_with (service source : ServiceId) (message : Message) : Event Message :=
  {| ev_service := service; ev_source := source; ev_message := message |}.

Definition complete_ctl (e : Event Message) (message : Message) : W R EsbError unit :=
  send_to BusIdCtl (ev_service e) (ev_source e) (into message).
Definition complete_ctl_service (e : Event Message) (service : ServiceId)
    (message : Message) : W R EsbError unit :=
  send_to BusIdCtl (ev_service e) service (into message).
Definition event_send_ctl (e : Event Message) (message : Message) : W R EsbError unit :=
  send_to BusIdCtl (ev_service e) (ev_source e) (into message).
Definition event_send_ctl_service (e : Event Message) (service : ServiceId)
    (message : Message) : W R EsbError unit :=
  send_to BusIdCtl (ev_service e) service (into message).
Definition complete_msg (e : Event Message) (message : Message) : W R EsbError unit :=
  send_to BusIdMsg (ev_service e) (ev_source e) (into message).
Definition complete_msg_service (e : Event Message) (service : ServiceId)
    (message : Message) : W R EsbError unit :=
  send_to BusIdMsg (ev_service e) service (into message).
End event.

(** ** What operations leave behind *)

Section frames.
Context `{Sys}.
Context {R : Type}.

(** [same f]: the part [f] of the runtime is untouched (and the history only
    grows). *)
Definition same {T} (f : R → T) : relation (World R) := λ w w',
  f (rt w) = f (rt w') ∧ hist w `prefix_of` hist w'.

#[export] Instance same_preorder {T} (f : R → T) : PreOrder (same f).
Proof.
  split.
  - intros w. by split.
  - intros w1 w2 w3 [E1 P1] [E2 P2]. split; [congruence | by etrans].
Qed.

(** [does P]: every operation asked for in between satisfies [P]. *)
Definition does (P : Op * bool → Prop) : relation (World R) := λ w w',
  ∃ ops, hist w' = hist w ++ ops ∧ Forall P ops.

#[export] Instance does_preorder (P : Op * bool → Prop) : PreOrder (does P).
Proof.
  split.
  - intros w. exists []. by rewrite app_nil_r.
  - intros w1 w2 w3 (l1 & E1 & F1) (l2 & E2 & F2). exists (l1 ++ l2).
    rewrite E2, E1, <-app_assoc. split; [done | by apply Forall_app].
Qed.

Lemma respects_perform_same {E T} (f : R → T) (reply : History → option E) o :
  respects (same f) (perform reply o).
Proof.
  intros w. unfold perform. destruct (reply _); simpl; (split; [done|]);
    by apply prefix_app_r.
Qed.
Lemma respects_update_same {E T} (f : R → T) (g : R → R) :
  (∀ r, f r = f (g r)) → respects (same f) (update (E:=E) g).
Proof. intros Hg w. split; simpl; [apply Hg | done]. Qed.
Lemma respects_self {E A} (S : relation (World R)) `{!PreOrder S} (f : R → A) :
  respects S (self (E:=E) f).
Proof. intros w. reflexivity. Qed.

Lemma respects_perform_does {E} (P : Op * bool → Prop) (reply : History → option E) o :
  (∀ ok, P (o, ok)) → respects (does P) (perform reply o).
Proof.
  intros HP w. unfold perform.
  destruct (reply _); eexists [_]; simpl; eauto.
Qed.
Lemma respects_update_does {E} (P : Op * bool → Prop) (g : R → R) :
  respects (does P) (update (E:=E) g).
Proof. intros w. exists []. by rewrite app_nil_r. Qed.
End frames.

#[export] Hint Resolve respects_perform_same respects_self respects_update_same
  respects_update_does : respects.

(** Messages that were handed over to the bus. *)
Definition sent_of `{Ext} (x : Op * bool) : option Envelope :=
  match x with (OpSend e, true) => Some e | _ => None end.
Definition sent `{Ext} (h : History) : list Envelope := omap sent_of h.

(** Messages the daemon tried to send, whatever came of it. *)
Definition attempted `{Ext} (h : History) : list Envelope :=
  omap (λ x : Op * bool, match x.1 with OpSend e => Some e | _ => None end) h.

Lemma attempted_app `{Ext} (h1 h2 : History) :
  attempted (h1 ++ h2) = attempted h1 ++ attempted h2.
Proof. apply omap_app. Qed.

Lemma sent_app `{Ext} (h1 h2 : History) : sent (h1 ++ h2) = sent h1 ++ sent h2.
Proof. apply omap_app. Qed.

Section file_frames.
Context `{Sys}.
Context {R T : Type} (f : R → T).

Lemma respects_with_disk {E} (g : Disk → Disk) :
  respects (same f) (modify (E:=E) (with_disk g)).
Proof. intros w. by split. Qed.

#[local] Hint Resolve respects_with_disk : respects.

Lemma fs_same o : respects (same f) (fs o).
Proof. unfold fs. respects_auto. Qed.
#[local] Hint Resolve fs_same : respects.

Lemma file_create_same p : respects (same f) (file_create p).
Proof. unfold file_create. respects_auto. Qed.
Lemma file_open_same p : respects (same f) (file_open p).
Proof. unfold file_open. respects_auto. Qed.
Lemma file_seek_start_same h : respects (same f) (file_seek_start h).
Proof. unfold file_seek_start. respects_auto. Qed.
Lemma file_sync_same h : respects (same f) (file_sync h).
Proof. unfold file_sync. respects_auto. Qed.
Lemma file_write_same h bs : respects (same f) (file_write h bs).
Proof. unfold file_write. respects_auto. Qed.
Lemma file_remove_same p : respects (same f) (file_remove p).
Proof. unfold file_remove. respects_auto. Qed.
End file_frames.

#[export] Hint Resolve respects_with_disk fs_same file_create_same file_open_same
  file_seek_start_same file_sync_same file_write_same file_remove_same : respects.

Section responder_frames.
Context `{Sys, !Fmt}.
Context {R : Type} `{!Handler R}.

Lemma send_to_same {T} (f : R → T) b s d m : respects (same f) (send_to b s d m).
Proof. unfold send_to. respects_auto. Qed.
#[local] Hint Resolve send_to_same : respects.
Lemma ep_set_identity_same {T} (f : R → T) b i : respects (same f) (ep_set_identity b i).
Proof. unfold ep_set_identity. respects_auto. Qed.

Lemma report_status_same {T} (f : R → T) {E} `{!From EsbError E} st :
  respects (same f) (report_status (E:=E) st).
Proof. unfold report_status. respects_auto. Qed.
Lemma send_ctl_same {T} (f : R → T) d m : respects (same f) (send_ctl d m).
Proof. unfold send_ctl, send_ctl_to. respects_auto. Qed.
Lemma send_rpc_same {T} (f : R → T) c m : respects (same f) (send_rpc c m).
Proof. unfold send_rpc. respects_auto. Qed.
#[local] Hint Resolve report_status_same : respects.
Lemma report_success_same {T} (f : R → T) m : respects (same f) (report_success m).
Proof. unfold report_success. respects_auto. Qed.
Lemma report_progress_same {T} (f : R → T) m : respects (same f) (report_progress m).
Proof. unfold report_progress. respects_auto. Qed.
Lemma report_failure_same {T} (f : R → T) {E} m :
  respects (same f) (report_failure (E:=E) m).
Proof. unfold report_failure. respects_auto. Qed.

(** [sends Q]: every message given to the bus in between satisfies [Q]. *)
Definition sends (Q : BusMsg → Prop) : relation (World R) :=
  does (λ x, match x.1 with OpSend e => Q (env_msg e) | _ => True end).

#[export] Instance sends_preorder Q : PreOrder (sends Q).
Proof. unfold sends. apply _. Qed.

Lemma send_to_sends (Q : BusMsg → Prop) b s d m : Q m → respects (sends Q) (send_to b s d m).
Proof. intros HQ. by apply respects_perform_does. Qed.
#[local] Hint Resolve send_to_sends : respects.
Lemma ep_set_identity_sends Q b i : respects (sends Q) (ep_set_identity b i).
Proof. by apply respects_perform_does. Qed.
Lemma update_sends {E} Q (g : R → R) : respects (sends Q) (update (E:=E) g).
Proof. apply respects_update_does. Qed.
Lemma fs_sends Q o : respects (sends Q) (fs (R:=R) o).
Proof. by apply respects_perform_does. Qed.
Lemma with_disk_sends {E} Q (g : Disk → Disk) :
  respects (sends Q) (modify (E:=E) (with_disk g)).
Proof. intros w. exists []. by rewrite app_nil_r. Qed.
#[local] Hint Resolve fs_sends with_disk_sends : respects.
Lemma file_create_sends Q p : respects (sends Q) (file_create (R:=R) p).
Proof. unfold file_create. respects_auto. Qed.
Lemma file_seek_start_sends Q f : respects (sends Q) (file_seek_start (R:=R) f).
Proof. unfold file_seek_start. respects_auto. Qed.
Lemma file_sync_sends Q f : respects (sends Q) (file_sync (R:=R) f).
Proof. unfold file_sync. respects_auto. Qed.
Lemma file_write_sends Q f bs : respects (sends Q) (file_write (R:=R) f bs).
Proof. unfold file_write. respects_auto. Qed.
Lemma file_remove_sends Q p : respects (sends Q) (file_remove (R:=R) p).
Proof. unfold file_remove. respects_auto. Qed.
Lemma send_ctl_sends (Q : BusMsg → Prop) d m :
  Q (BusCtl m) → respects (sends Q) (send_ctl d m).
Proof. intros. unfold send_ctl, send_ctl_to. respects_auto. Qed.
Lemma send_rpc_sends (Q : BusMsg → Prop) c m :
  Q (BusRpc m) → respects (sends Q) (send_rpc c m).
Proof. intros. unfold send_rpc. respects_auto. Qed.
Lemma report_status_sends (Q : BusMsg → Prop) {E} `{!From EsbError E} st :
  (∀ r, Q (BusCtl (CtlReport r))) → respects (sends Q) (report_status (E:=E) st).
Proof. intros. unfold report_status. respects_auto. Qed.
#[local] Hint Resolve report_status_sends : respects.
Lemma report_success_sends (Q : BusMsg → Prop) m :
  (∀ r, Q (BusCtl (CtlReport r))) → respects (sends Q) (report_success m).
Proof. intros. unfold report_success. respects_auto. Qed.
Lemma report_progress_sends (Q : BusMsg → Prop) m :
  (∀ r, Q (BusCtl (CtlReport r))) → respects (sends Q) (report_progress m).
Proof. intros. unfold report_progress. respects_auto. Qed.
Lemma report_failure_sends (Q : BusMsg → Prop) {E} m :
  (∀ r, Q (BusCtl (CtlReport r))) → respects (sends Q) (report_failure (E:=E) m).
Proof. intros. unfold report_failure. respects_auto. Qed.

(** Reports never fail the caller, leave the runtime alone and only send reports. *)
Definition is_report (m : BusMsg) : Prop :=
  match m with BusCtl (CtlReport _) => True | _ => False end.

Lemma swallow_report {E E'} `{!From EsbError E} st (w : World R) :
  ∃ w', swallow (E':=E') (report_status (E:=E) st) w = (Ok tt, w') ∧ rt w' = rt w ∧
    disk w' = disk w ∧ sends is_report w w'.
Proof.
  pose proof (respects_swallow (E':=E') (sends is_report) (report_status (E:=E) st)
    (report_status_sends is_report st (λ _, I)) w) as Hs. revert Hs.
  unfold swallow, report_status, self, gets, bind, q, send_to, perform.
  destruct (enquirer (rt w)); simpl; [|eauto].
  destruct (esb_reply _ _); simpl; eauto.
Qed.
Lemma report_failure_ok {E} f (w : World R) :
  ∃ e w', report_failure (E:=E) f w = (Ok e, w') ∧ rt w' = rt w ∧
    disk w' = disk w ∧ sends is_report w w'.
Proof.
  unfold report_failure.
  destruct (swallow_report (E:=Error) (E':=E) (StFailure f) w) as (w' & E1 & ?).
  do 2 eexists. rewrite (bind_ok _ _ _ _ _ E1). done.
Qed.

Lemma sends_mono (Q Q' : BusMsg → Prop) w w' :
  (∀ m, Q m → Q' m) → sends Q w w' → sends Q' w w'.
Proof.
  intros HQ (ops & E1 & HF). exists ops. split; [done|].
  eapply Forall_impl; [done|]. intros [[] ?]; simpl; auto.
Qed.
Lemma sends_refl Q (w w' : World R) : hist w' = hist w → sends Q w w'.
Proof. intros E1. exists []. by rewrite app_nil_r. Qed.

(** Invariants that only look at the runtime. *)
Context (I : R → Prop) (ok : string → Prop).
Definition on_rt (w : World R) : Prop := I (rt w).

Lemma perform_upholds {E} (reply : History → option E) o :
  upholds on_rt ok (perform reply o).
Proof. intros w Hw. unfold perform. by destruct (reply _). Qed.
#[local] Hint Resolve perform_upholds : upholds.
Lemma self_upholds {E A} (f : R → A) : upholds on_rt ok (self (E:=E) f).
Proof. intros w Hw. by split. Qed.
Lemma update_upholds {E} (f : R → R) :
  (∀ r, I r → I (f r)) → upholds on_rt ok (update (E:=E) f).
Proof. intros Hf w Hw. split; [by apply Hf | done]. Qed.
Lemma with_disk_upholds {E} (g : Disk → Disk) :
  upholds on_rt ok (modify (E:=E) (with_disk g)).
Proof. intros w Hw. by split. Qed.
#[local] Hint Resolve self_upholds with_disk_upholds : upholds.
Lemma fs_upholds o : upholds on_rt ok (fs o).
Proof. unfold fs. upholds_auto. Qed.
Lemma send_to_upholds b s d m : upholds on_rt ok (send_to b s d m).
Proof. unfold send_to. upholds_auto. Qed.
#[local] Hint Resolve fs_upholds send_to_upholds : upholds.
Lemma ep_set_identity_upholds b i : upholds on_rt ok (ep_set_identity b i).
Proof. unfold ep_set_identity. upholds_auto. Qed.
Lemma file_create_upholds p : upholds on_rt ok (file_create p).
Proof. unfold file_create. upholds_auto. Qed.
Lemma file_seek_start_upholds f : upholds on_rt ok (file_seek_start f).
Proof. unfold file_seek_start. upholds_auto. Qed.
Lemma file_sync_upholds f : upholds on_rt ok (file_sync f).
Proof. unfold file_sync. upholds_auto. Qed.
Lemma file_write_upholds f bs : upholds on_rt ok (file_write f bs).
Proof. unfold file_write. upholds_auto. Qed.
Lemma file_remove_upholds p : upholds on_rt ok (file_remove p).
Proof. unfold file_remove. upholds_auto. Qed.
Lemma send_ctl_upholds d m : upholds on_rt ok (send_ctl d m).
Proof. unfold send_ctl, send_ctl_to. upholds_auto. Qed.
Lemma send_rpc_upholds c m : upholds on_rt ok (send_rpc c m).
Proof. unfold send_rpc. upholds_auto. Qed.
Lemma report_status_upholds {E} `{!From EsbError E} st :
  upholds on_rt ok (report_status (E:=E) st).
Proof. unfold report_status. upholds_auto. Qed.
#[local] Hint Resolve report_status_upholds : upholds.
Lemma report_success_upholds m : upholds on_rt ok (report_success m).
Proof. unfold report_success. upholds_auto. Qed.
Lemma report_progress_upholds m : upholds on_rt ok (report_progress m).
Proof. unfold report_progress. upholds_auto. Qed.
Lemma report_failure_upholds {E} m : upholds on_rt ok (report_failure (E:=E) m).
Proof. unfold report_failure. upholds_auto. Qed.
End responder_frames.

#[export] Hint Resolve send_to_same ep_set_identity_same report_status_same send_ctl_same
  send_rpc_same report_success_same report_progress_same report_failure_same
  send_to_sends ep_set_identity_sends update_sends fs_sends with_disk_sends
  file_create_sends file_seek_start_sends file_sync_sends file_write_sends
  file_remove_sends send_ctl_sends send_rpc_sends report_status_sends
  report_success_sends report_progress_sends report_failure_sends : respects.
#[export] Hint Resolve perform_upholds self_upholds update_upholds with_disk_upholds
  fs_upholds send_to_upholds ep_set_identity_upholds file_create_upholds
  file_seek_start_upholds file_sync_upholds file_write_upholds file_remove_upholds
  send_ctl_upholds send_rpc_upholds report_status_upholds report_success_upholds
  report_progress_upholds report_failure_upholds : upholds.
