(* ===== verification/Files.v ===== *)
(** * Facts about the file system and the other operations on the surroundings

    What an operation that succeeded has done: to the disk, to the runtime and
    to the history. *)

From S2P Require Import Prelude.
From S2P Require Import Bus.
From S2P Require Import Service.

Local Open Scope rust_scope.

Lemma overwrite_0 bs old : overwrite 0 bs old = bs ++ drop (length bs) old.
Proof. unfold overwrite. by rewrite take_0. Qed.

Lemma disk_write_data h bs d :
  inode_data (disk_write h bs d) (f_inode h) = overwrite (f_pos h) bs (inode_data d (f_inode h)).
Proof. unfold inode_data, disk_write. simpl. by rewrite lookup_insert_eq. Qed.

Lemma disk_create_name p d : d_names (disk_create p d).2 !! p = Some (disk_create p d).1.
Proof.
  unfold disk_create. destruct (d_names d !! p) eqn:E; [done|]. simpl. by rewrite lookup_insert_eq.
Qed.

Lemma disk_create_data p d : inode_data (disk_create p d).2 (disk_create p d).1 = [].
Proof.
  unfold disk_create, inode_data. destruct (d_names d !! p); simpl; by rewrite lookup_insert_eq.
Qed.

Section files.
Context `{Sys} {R : Type}.

Lemma perform_ok {E} (reply : History → option E) o (w : World R) a w' :
  perform reply o w = (Ok a, w') → w' = record_op o true w.
Proof. unfold perform. destruct (reply _); by intros [= <- <-]. Qed.
Lemma fs_ok o (w : World R) a w' : fs o w = (Ok a, w') → w' = record_op (OpFs o) true w.
Proof. apply perform_ok. Qed.
Lemma modify_ok {S E} (f : S → S) s a s' : modify (E:=E) f s = (Ok a, s') → s' = f s.
Proof. by intros [= _ <-]. Qed.

(** The effect of each file operation that succeeded: on the disk, and on the
    rest of the world (only the history). *)
Lemma file_create_ok p (w : World R) f w' :
  file_create p w = (Ok f, w') →
  rt w' = rt w ∧ f_pos f = 0 ∧ disk w' = (disk_create p (disk w)).2 ∧
  f_inode f = (disk_create p (disk w)).1.
Proof.
  unfold file_create. intros E. run_inv E. apply fs_ok in Hrun as ->.
  simpl in E. destruct (disk_create p (disk w)) as [i d]. by run_inv E.
Qed.
Lemma file_seek_start_ok h (w : World R) f w' :
  file_seek_start h w = (Ok f, w') →
  rt w' = rt w ∧ disk w' = disk w ∧ f = {| f_inode := f_inode h; f_pos := 0 |}.
Proof.
  unfold file_seek_start. intros E. run_inv E. by apply fs_ok in Hrun as ->.
Qed.
Lemma file_sync_ok h (w : World R) a w' :
  file_sync h w = (Ok a, w') → rt w' = rt w ∧ disk w' = disk w.
Proof. unfold file_sync. intros E. by apply fs_ok in E as ->. Qed.
Lemma file_write_ok h bs (w : World R) f w' :
  file_write h bs w = (Ok f, w') →
  rt w' = rt w ∧ disk w' = disk_write h bs (disk w) ∧ f_inode f = f_inode h.
Proof.
  unfold file_write. intros E. run_inv E. apply attempt_inv in Hrun.
  destruct x as [e|[]]; run_inv E. by apply fs_ok in Hrun as ->.
Qed.
Lemma file_remove_ok p (w : World R) a w' :
  file_remove p w = (Ok a, w') → rt w' = rt w ∧ disk w' = disk_remove p (disk w).
Proof.
  unfold file_remove. intros E. run_inv E. apply fs_ok in Hrun as ->.
  simpl in E. destruct (d_names (disk w) !! p); [|done]. by apply modify_ok in E as ->.
Qed.
End files.

(** Queries and sends. *)
Section operations.
Context `{Sys} {R : Type}.

Lemma query_ok {E A} (reply : History → E + A) o (w : World R) a w' :
  query reply o w = (Ok a, w') → reply (hist w) = inr a ∧ w' = record_op o true w.
Proof. unfold query. destruct (reply _) eqn:E1; by intros [= <- <-]. Qed.

Lemma query_same {E A T} (f : R → T) (reply : History → E + A) o :
  respects (same f) (query reply o).
Proof.
  intros w. unfold query. destruct (reply _); simpl; (split; [done|]); by apply prefix_app_r.
Qed.

Lemma query_sends {E A} Q (reply : History → E + A) o :
  (∀ e, o ≠ OpSend e) → respects (sends Q) (query (R:=R) reply o).
Proof.
  intros Ho w. unfold query. destruct (reply _); simpl;
    (eexists [_]; split; [done|]); constructor; try done; destruct o; try done; by edestruct Ho.
Qed.
Lemma exec_daemon_same {T} (f : R → T) d : respects (same f) (exec_daemon d).
Proof. apply query_same. Qed.
Lemma exec_daemon_sends Q d : respects (sends Q) (exec_daemon (R:=R) d).
Proof. by apply query_sends. Qed.

Context (I : R → Prop) (ok : string → Prop).
Lemma query_upholds {E A} (reply : History → E + A) o : upholds (on_rt I) ok (query reply o).
Proof. intros w Hw. unfold query. by destruct (reply _). Qed.
Lemma exec_daemon_upholds d : upholds (on_rt I) ok (exec_daemon d).
Proof. apply query_upholds. Qed.
End operations.

#[export] Hint Resolve query_same exec_daemon_same exec_daemon_sends : respects.
#[export] Hint Resolve query_upholds exec_daemon_upholds : upholds.
