(* ===== verification/Config.v ===== *)
(** * Configuration ([src/config.rs]) *)

From Stdlib Require Import Ascii.
From S2P Require Import Prelude.
From S2P Require Import Bus.
From S2P Require Import Text.
From S2P Require Import Service.

Local Open Scope rust_scope.

(** [lnpbp::chain::Chain]: the variants the node names. *)
Inductive Chain :=
  | Mainnet | Testnet3 | Regtest (hash : N) | Signet | SignetCustom (hash : N)
  | LiquidV1 | ChainOther (params : N).

(** [internet2::addr::ServiceAddr] *)
Inductive ServiceAddr := SaInproc (name : string) | SaOther (addr : string).

Record Config (Ext : Type) := {
  chain : Chain;
  data_dir : PathBuf;
  msg_endpoint : ServiceAddr;
  ctl_endpoint : ServiceAddr;
  rpc_endpoint : ServiceAddr;
  electrum_url : string;
  threaded : bool;
  ext : Ext }.
Arguments chain {Ext}.
Arguments data_dir {Ext}.
Arguments msg_endpoint {Ext}.
Arguments ctl_endpoint {Ext}.
Arguments rpc_endpoint {Ext}.
Arguments electrum_url {Ext}.
Arguments threaded {Ext}.
Arguments ext {Ext}.

Definition default_electrum_port (c : Chain) : N :=
  match c with
  | Mainnet => 50001
  | Testnet3 | Regtest _ => 60001
  | Signet | SignetCustom _ => 60601
  | LiquidV1 => 50501
  | ChainOther _ => 60001
  end.

Definition config_with {Orig Ext} (orig : Config Orig) (ext : Ext) : Config Ext := {|
  chain := chain orig;
  data_dir := data_dir orig;
  msg_endpoint := msg_endpoint orig;
  ctl_endpoint := ctl_endpoint orig;
  rpc_endpoint := rpc_endpoint orig;
  electrum_url := electrum_url orig;
  threaded := threaded orig;
  ext := ext |}.

(** [PathBuf::set_extension] on the last component: what follows the last dot
    is replaced, and a name without a dot (or with a leading one only) is
    extended. *)
Fixpoint last_dot (s : list Ascii.ascii) : option (list Ascii.ascii) :=
  match s with
  | [] => None
  | c :: s' =>
      match last_dot s' with
      | Some stem => Some (c :: stem)
      | None => if decide (c = "."%char) then Some [] else None
      end
  end.
Definition file_stem (s : list Ascii.ascii) : list Ascii.ascii :=
  match last_dot s with
  | Some [] | None => s
  | Some stem => stem
  end.
Definition set_extension (ext name : string) : string :=
  String.string_of_list_ascii (file_stem (String.list_ascii_of_string name)) +:+ "." +:+ ext.

Definition path_push (p : PathBuf) (c : string) : PathBuf := p ++ [c].

Section channel_file.
Context `{Fmt} {X : Type}.

Definition channel_dir (c : Config X) : PathBuf := path_push (data_dir c) "channels".

Definition channel_file (c : Config X) (id : ActiveChannelId) : PathBuf :=
  path_push (channel_dir c) (set_extension "channel" (show_active_id id)).
End channel_file.

(** ** From command-line options ([src/opts.rs]) *)

Record SharedOpts := {
  o_data_dir : PathBuf;
  o_msg_endpoint : ServiceAddr;
  o_ctl_endpoint : ServiceAddr;
  o_rpc_endpoint : ServiceAddr;
  o_chain : Chain;
  o_electrum_server : string;
  o_electrum_port : option N;
  o_threaded_daemons : bool }.

Definition config_from {Conf} (opts : SharedOpts) (conf : Conf) : Config Conf :=
  let port := default (default_electrum_port (o_chain opts)) (o_electrum_port opts) in {|
  chain := o_chain opts;
  data_dir := o_data_dir opts;
  msg_endpoint := o_msg_endpoint opts;
  ctl_endpoint := if o_threaded_daemons opts then SaInproc "lnp-ctl" else o_ctl_endpoint opts;
  rpc_endpoint := o_rpc_endpoint opts;
  electrum_url := o_electrum_server opts +:+ ":" +:+ show_uint port;
  threaded := o_threaded_daemons opts;
  ext := conf |}.

(** ** The service that runs a daemon ([src/service.rs]) *)

(** How a bus socket is set up: the broker binds it, the other services connect
    to it and route their messages through the broker. *)
Record BusConfig := {
  bc_address : ServiceAddr;
  bc_binds : bool;
  bc_router : option ServiceId }.

Definition service_buses {X} (config : Config X) (broker : bool)
    : list (ServiceBus * BusConfig) :=
  let router := if negb broker then Some service_router else None in
  let bus (addr : ServiceAddr) :=
    {| bc_address := addr; bc_binds := broker; bc_router := router |} in
  [(BusIdMsg, bus (msg_endpoint config)); (BusIdCtl, bus (ctl_endpoint config));
   (BusIdRpc, bus (rpc_endpoint config))].

(** [run_loop] before the loop over the messages. *)
Definition run_loop_start `{Sys} {R} `{Handler R} (broker : bool) : W R Error unit :=
  if broker then mreturn tt
  else
    let! id := self identity in
    do? send_to BusIdCtl id LnpBroker (BusCtl CtlHello) in
    mreturn tt.
