(* ===== verification/ChannelRuntime.v ===== *)
(** * The channel daemon's runtime ([src/channeld/state.rs], [src/channeld/runtime.rs])

    The persisted state of a channel, the runtime around it, and the runtime's
    own operations: sending to the peer, saving the state, renaming the
    channel.  The BOLT channel itself ([lnp::Channel<BoltExt>]) is a field of
    the class [LnpCore]. *)

From S2P Require Import Prelude.
From S2P Require Import Bus.
From S2P Require Import Service.
From S2P Require Import Config.

Local Open Scope rust_scope.

(** ** lnp-core and the PSBT library, as the node calls them *)

(** A call on a [&mut Channel] gives back the channel, on errors too. *)
Class LnpCore `{Ext} := {
  Channel : Type;
  channel_with : TempChannelId → Slice32 → Channel;   (* default parameters, dumb keyset *)
  active_channel_id : Channel → ActiveChannelId;
  temp_channel_id : Channel → option TempChannelId;
  update_from_peer : Channel → LnMsg → Channel * (BoltError + unit);
  compose_open_channel :
    Channel → N → N → Policy → CommonParams → PeerParams → LocalKeyset →
    Channel * (BoltError + OpenChannel);
  compose_accept_channel : Channel → Channel * (BoltError + AcceptChannel);
  compose_reestablish_channel : Channel → ChannelMsg → Channel * (BoltError + ChannelMsg);
  compose_funding_locked : Channel → Channel * ChannelMsg;
  compose_add_update_htlc :
    Channel → N → HashLock → N → list Hop → Channel * (BoltError + LnMsg);
  refund_tx : Channel → Psbt → bool → Channel * (BoltError + Psbt);
  set_local_keys : Channel → LocalKeyset → Channel;
  funding_script_pubkey : Channel → PubkeyScript;
  funding_amount : Channel → N;
  funding_txid : Channel → Txid;
  funding_output : Channel → N;
  funding_pubkey : Channel → PublicKey;
  channel_info : Channel → NodeId → LocalChannelInfo;
  store_state : Channel → BoltChannelState;
  channel_id_with : Txid → N → ChannelId;             (* ChannelId::with *)
  psbt_inputs : Psbt → list (PublicKey → option Signature);   (* partial_sigs of the inputs *)
  genesis_hash : Chain → Slice32 }.

(** ** State *)

Inductive ChannelPropose :=
  | PrProposed | PrAccepted | PrSigning | PrFunding | PrPublished | PrLocked.

Inductive ChannelAccept := AcAccepted | AcSigned | AcFunded | AcLocked.

Inductive ChannelStateMachine :=
  | CsLaunch
  | CsPropose (p : ChannelPropose)
  | CsAccept (a : ChannelAccept)
  | CsActive
  | CsReestablishing
  | CsClosing
  | CsAbort
  | CsPenalize.

#[export] Instance ChannelPropose_eq_dec : EqDecision ChannelPropose.
Proof. solve_decision. Defined.
#[export] Instance ChannelAccept_eq_dec : EqDecision ChannelAccept.
Proof. solve_decision. Defined.
#[export] Instance ChannelStateMachine_eq_dec : EqDecision ChannelStateMachine.
Proof. solve_decision. Defined.

Definition state_machine_default : ChannelStateMachine := CsLaunch.

Section state.
Context `{LnpCore}.

Record ChannelState := {
  state_machine : ChannelStateMachine;
  channel : Channel;
  remote_id : option NodeId }.

Definition channel_state_with (t : TempChannelId) (c : Chain) : ChannelState := {|
  state_machine := state_machine_default;
  channel := channel_with t (genesis_hash c);
  remote_id := None |}.

(** The runtime; the unused storage driver and the start time are left out. *)
Record Runtime := {
  r_identity : ServiceId;
  r_config : Config unit;
  r_state : ChannelState;
  r_file : File;
  r_enquirer : option ClientId }.

#[export] Instance channeld_handler : Handler Runtime := {|
  identity := r_identity;
  enquirer := r_enquirer |}.

Definition set_state (f : ChannelState → ChannelState) (r : Runtime) : Runtime := {|
  r_identity := r_identity r; r_config := r_config r; r_state := f (r_state r);
  r_file := r_file r; r_enquirer := r_enquirer r |}.
Definition set_machine (m : ChannelStateMachine) : Runtime → Runtime := set_state (λ s,
  {| state_machine := m; channel := channel s; remote_id := remote_id s |}).
Definition set_channel (c : Channel) : Runtime → Runtime := set_state (λ s,
  {| state_machine := state_machine s; channel := c; remote_id := remote_id s |}).
Definition set_remote_id (n : option NodeId) : Runtime → Runtime := set_state (λ s,
  {| state_machine := state_machine s; channel := channel s; remote_id := n |}).
Definition set_file (f : File) (r : Runtime) : Runtime := {|
  r_identity := r_identity r; r_config := r_config r; r_state := r_state r;
  r_file := f; r_enquirer := r_enquirer r |}.
Definition set_r_identity (i : ServiceId) (r : Runtime) : Runtime := {|
  r_identity := i; r_config := r_config r; r_state := r_state r;
  r_file := r_file r; r_enquirer := r_enquirer r |}.
Definition set_enquirer (e : option ClientId) (r : Runtime) : Runtime := {|
  r_identity := r_identity r; r_config := r_config r; r_state := r_state r;
  r_file := r_file r; r_enquirer := e |}.

Definition r_machine (r : Runtime) : ChannelStateMachine := state_machine (r_state r).
Definition r_channel (r : Runtime) : Channel := channel (r_state r).
Definition r_remote (r : Runtime) : option NodeId := remote_id (r_state r).
End state.

(** The strict encoding of the state, derived by macros. *)
Class StateCodec `{LnpCore} := {
  encode_state : ChannelState → list N;
  decode_state : list N → StrictErr + ChannelState }.

(** ** Operations *)

Section runtime.
Context `{Sys, !LnpCore, !StateCodec, !Fmt}.

Definition CW (E A : Type) : Type := W Runtime E A.

(** A call on [self.state.channel] that may fail, and one that may not. *)
Definition on_channel {A} (f : Channel → Channel * (BoltError + A)) : CW BoltError A :=
  let! c := self r_channel in
  let '(c', r) := f c in
  do! update (set_channel c') in
  of_sum r.
Definition on_channel_total {E A} (f : Channel → Channel * A) : CW E A :=
  let! c := self r_channel in
  let '(c', a) := f c in
  do! update (set_channel c') in
  mreturn a.

(** [ChannelState::remote_id] *)
Definition state_remote_id {E} : CW E NodeId :=
  let! n := self r_remote in
  expect "remote peer must be present at this stage" n.

Definition send_p2p (message : LnMsg) : CW EsbError unit :=
  let! n := self r_remote in
  let! remote_peer := expect "unset remote peer in channeld" n in
  let! id := self identity in
  send_to BusIdMsg id (PeerBolt remote_peer) (BusBolt message).

Definition save_state : CW StrictErr unit :=
  let! f := self r_file in
  let? f := file_seek_start f in
  do! update (set_file f) in
  let! s := self r_state in
  let? f' := file_write f (encode_state s) in
  do! update (set_file f') in
  do? file_sync f' in
  mreturn tt.

Definition set_identity (channel_id : ChannelId) : CW Error unit :=
  let! c := self r_channel in
  let prev_id := active_channel_id c in
  let! f := self r_file in
  do? file_sync f in
  let! cfg := self r_config in
  let? f' := file_create (channel_file cfg (ActStatic channel_id)) in
  do! update (set_file f') in
  let! r := attempt save_state in
  do! match r with
      | inl e => mfail (EPersistence (strict_err e))
      | inr _ => mreturn tt
      end in
  let identity := ChannelSvc channel_id in
  do? ep_set_identity BusIdCtl identity in
  do? ep_set_identity BusIdMsg identity in
  do? ep_set_identity BusIdRpc identity in
  do! update (set_r_identity identity) in
  do? file_remove (channel_file cfg prev_id) in
  mreturn tt.
End runtime.
(** ** Storage drivers ([storage/]), which no daemon uses yet *)

Section storage.
Context `{Ext}.

Record DiskConfig := { dc_path : PathBuf }.

(** A [Box<dyn Any>]: a configuration of the disk driver, or anything else. *)
Inductive AnyConfig := AnyDisk (c : DiskConfig) | AnyOther.
Definition downcast_disk (c : AnyConfig) : option DiskConfig :=
  match c with AnyDisk d => Some d | AnyOther => None end.

Class Driver (D : Type) := {
  driver_init {S} : ChannelId → AnyConfig → M S Error D;
  driver_store : M D Error unit }.

Record DiskDriver := { dd_channel_id : ChannelId; dd_config : DiskConfig }.

#[export] Instance disk_driver : Driver DiskDriver := {|
  driver_init _ channel_id config :=
    let! c := ok_or (EOther "") (downcast_disk config) in
    mreturn {| dd_channel_id := channel_id; dd_config := c |};
  driver_store := mpanic "not implemented" |}.
End storage.
