(* ===== verification/Propose.v ===== *)
(** * Proposing a channel ([src/channeld/automata/propose.rs])

    The opener's workflow: each [complete_*] is the handler of one stage. *)

From S2P Require Import Prelude.
From S2P Require Import Bus.
From S2P Require Import Service.
From S2P Require Import Config.
From S2P Require Import ChannelRuntime.

Local Open Scope rust_scope.

Definition propose_lifecycle (p : ChannelPropose) : Lifecycle :=
  match p with
  | PrProposed => LcProposed
  | PrAccepted => LcAccepted
  | PrSigning => LcSigning
  | PrFunding => LcFunding
  | PrPublished => LcFunded
  | PrLocked => LcLocked
  end.

Section propose.
Context `{Sys, !LnpCore, !StateCodec, !Fmt}.

(** [ChannelPropose::with] *)
Definition propose_with (request : OpenChannelWith) : CW ChanError ChannelPropose :=
  let? open_channel := on_channel (λ c,
    compose_open_channel c
      (ow_funding_sat request) (ow_push_msat request) (ow_policy request)
      (ow_common_params request) (ow_local_params request) (ow_local_keys request)) in
  do? send_p2p (LnOpenChannel open_channel) in
  mreturn PrProposed.

Definition propose_info_message (p : ChannelPropose) (id : ActiveChannelId) : string :=
  let chan := announcer (show_active_alt id) in
  match p with
  | PrProposed =>
      announce "Proposing channel" +:+ " to remote peer (using temp id " +:+ chan +:+ ")"
  | PrAccepted =>
      "Remote peer " +:+ announce "accepted" +:+ " channel with temp id " +:+ chan
        +:+ ". Constructing refund transaction."
  | PrSigning =>
      announcer "Signing" +:+ " refund transaction locally for channel " +:+ chan
  | PrFunding =>
      announce "Awaiting"
        +:+ " for the remote peer to sign refund transaction for channel " +:+ chan
  | PrPublished =>
      announce "Publishing" +:+ " fully signed funding transaction for channel " +:+ chan
  | PrLocked => announce "Activating" +:+ " channel " +:+ chan
  end.

Definition unexpected {A} (event : Event BusMsg) (l : Lifecycle) : CW ChanError A :=
  mfail (CeUnexpectedMessage (ev_message event) l (ev_source event)).

Definition complete_proposed (event : Event BusMsg) : CW ChanError ChannelPropose :=
  match ev_message event with
  | BusBolt (LnAcceptChannel accept_channel) =>
      do? on_channel (λ c, update_from_peer c (LnAcceptChannel accept_channel)) in
      let! c := self r_channel in
      let fund_channel := {|
        fch_script_pubkey := funding_script_pubkey c;
        fch_feerate_per_kw := None;
        fch_amount := funding_amount c |} in
      do? send_ctl LnpBroker (CtlConstructFunding fund_channel) in
      mreturn PrAccepted
  | _ => unexpected event LcProposed
  end.

Definition complete_accepted (event : Event BusMsg) : CW ChanError ChannelPropose :=
  match ev_message event with
  | BusCtl (CtlFundingConstructed funding_psbt) =>
      let? refund_psbt := on_channel (λ c, refund_tx c funding_psbt false) in
      do? send_ctl Signer (CtlSign refund_psbt) in
      mreturn PrSigning
  | _ => unexpected event LcAccepted
  end.

Definition complete_signing (event : Event BusMsg) : CW ChanError ChannelPropose :=
  match ev_message event with
  | BusCtl (CtlSigned refund_psbt) =>
      let! c := self r_channel in
      let pk := funding_pubkey c in
      let! funding_input :=
        expect "BOLT commitment always has a single input" (psbt_inputs refund_psbt !! 0) in
      let! signature := ok_or (CeFundingPsbtUnsigned pk) (funding_input pk) in
      let funding_txid := funding_txid c in
      let funding_output_index := funding_output c in
      let! temp_id :=
        expect "channel at funding stage must have temporary channel id"
          (temp_channel_id c) in
      let funding_created := {|
        fc_temporary_channel_id := temp_id;
        fc_funding_txid := funding_txid;
        fc_funding_output_index := funding_output_index;
        fc_signature := signature |} in
      let channel_id := channel_id_with funding_txid funding_output_index in
      do! expect_ok "unable to change ZMQ channel identity" (set_identity channel_id) in
      do? send_ctl LnpBroker CtlHello in
      do? send_p2p (LnFundingCreated funding_created) in
      mreturn PrFunding
  | _ => unexpected event LcSigning
  end.

Definition complete_funding (event : Event BusMsg) : CW ChanError ChannelPropose :=
  match ev_message event with
  | BusBolt (LnFundingSigned funding_signed) =>
      do? on_channel (λ c, update_from_peer c (LnFundingSigned funding_signed)) in
      do? send_ctl LnpBroker CtlPublishFunding in
      let! c := self r_channel in
      do? send_ctl Watch (CtlTrack (funding_txid c) 0) in
      mreturn PrPublished
  | _ => unexpected event LcFunding
  end.

Definition complete_published (event : Event BusMsg)
    : CW ChanError (option ChannelPropose) :=
  match ev_message event with
  | BusCtl (CtlTxFound _) =>
      let! funding_locked := on_channel_total compose_funding_locked in
      do? send_p2p (LnFundingLocked funding_locked) in
      mreturn (Some PrLocked)
  | _ => unexpected event LcFunded
  end.

Definition complete_locked (event : Event BusMsg) : CW ChanError unit :=
  match ev_message event with
  | BusBolt (LnFundingLocked funding_locked) =>
      let! remote := state_remote_id in
      let! c := self r_channel in
      do! swallow (send_ctl Router (CtlChannelCreated (channel_info c remote))) in
      do? on_channel (λ c, update_from_peer c (LnFundingLocked funding_locked)) in
      mreturn tt
  | _ => unexpected event LcLocked
  end.

(** [StateMachine::next]; [None] means that the workflow is complete. *)
Definition propose_next (p : ChannelPropose) (event : Event BusMsg)
    : CW ChanError (option ChannelPropose) :=
  let some (m : CW ChanError ChannelPropose) :=
    let? s := m in mreturn (Some s) in
  match p with
  | PrProposed => some (complete_proposed event)
  | PrAccepted => some (complete_accepted event)
  | PrSigning => some (complete_signing event)
  | PrFunding => some (complete_funding event)
  | PrPublished => complete_published event
  | PrLocked => do? complete_locked event in mreturn None
  end.
End propose.
