(* ===== verification/Accept.v ===== *)
(** * Accepting a channel ([src/channeld/automata/accept.rs])

    The workflow of the daemon on the side of the peer the channel was proposed
    to: each [finish_*] is the handler of one stage. *)

From S2P Require Import Prelude.
From S2P Require Import Bus.
From S2P Require Import Service.
From S2P Require Import Config.
From S2P Require Import ChannelRuntime.
From S2P Require Import Propose.

Local Open Scope rust_scope.

Definition accept_lifecycle (a : ChannelAccept) : Lifecycle :=
  match a with
  | AcAccepted => LcAccepted
  | AcSigned => LcSigned
  | AcFunded => LcFunded
  | AcLocked => LcLocked
  end.

Section accept.
Context `{Sys, !LnpCore, !StateCodec, !Fmt}.

(** [ChannelAccept::with] *)
Definition accept_with (request : AcceptChannelFrom) : CW ChanError ChannelAccept :=
  do? on_channel (λ c, update_from_peer c (LnOpenChannel (af_channel_req request))) in
  do! swallow (send_ctl Signer
        (CtlDeriveKeyset (temp_into_inner (oc_temporary_channel_id (af_channel_req request))))) in
  mreturn AcAccepted.

Definition accept_info_message (a : ChannelAccept) (id : ActiveChannelId) : string :=
  let verb := match a with
              | AcAccepted => "Accepted" | AcSigned => "Signed"
              | AcFunded => "Funded" | AcLocked => "Locked"
              end in
  ended verb +:+ " channel " +:+ actor (show_active_alt id) +:+ " from a remote peer".

Definition finish_accepted (event : Event BusMsg) : CW ChanError ChannelAccept :=
  match ev_message event with
  | BusCtl (CtlKeyset _ keys) =>
      let! c := self r_channel in
      do! update (set_channel (set_local_keys c keys)) in
      let? accept_channel := on_channel compose_accept_channel in
      do? send_p2p (LnAcceptChannel accept_channel) in
      mreturn AcSigned
  | _ => unexpected event LcAccepted
  end.

Definition finish_signed (event : Event BusMsg) : CW ChanError ChannelAccept :=
  match ev_message event with
  | BusBolt (LnFundingCreated funding) =>
      let! c := self r_channel in
      let! old_id :=
        expect "temporary channel id always known at this stage" (temp_channel_id c) in
      let channel_id :=
        channel_id_with (fc_funding_txid funding) (fc_funding_output_index funding) in
      do! expect_ok "unable to change ZMQ channel identity" (set_identity channel_id) in
      do? on_channel (λ c, update_from_peer c (LnFundingCreated funding)) in
      do? send_ctl LnpBroker (CtlChannelUpdate old_id channel_id) in
      do? send_p2p (LnFundingSigned {|
            fs_channel_id := channel_id; fs_signature := fc_signature funding |}) in
      mreturn AcFunded
  | _ => unexpected event LcSigned
  end.

Definition finish_funded (event : Event BusMsg) : CW ChanError ChannelAccept :=
  match ev_message event with
  | BusBolt (LnFundingLocked funding) =>
      do? on_channel (λ c, update_from_peer c (LnFundingLocked funding)) in
      let! remote := state_remote_id in
      let! c := self r_channel in
      do! swallow (send_ctl Router (CtlChannelCreated (channel_info c remote))) in
      do? send_ctl Router CtlHello in
      mreturn AcLocked
  | _ => unexpected event LcLocked
  end.

Definition finish_locked (event : Event BusMsg) : CW ChanError unit :=
  match ev_message event with
  | BusCtl CtlHello =>
      let! funding_locked := on_channel_total compose_funding_locked in
      do? send_p2p (LnFundingLocked funding_locked) in
      mreturn tt
  | _ => unexpected event LcActive
  end.

Definition accept_next (a : ChannelAccept) (event : Event BusMsg)
    : CW ChanError (option ChannelAccept) :=
  let some (m : CW ChanError ChannelAccept) :=
    let? s := m in mreturn (Some s) in
  match a with
  | AcAccepted => some (finish_accepted event)
  | AcSigned => some (finish_signed event)
  | AcFunded => some (finish_funded event)
  | AcLocked => do? finish_locked event in mreturn None
  end.
End accept.
