(* ===== verification/Machine.v ===== *)
(** * The channel state machine and the daemon's handlers
    ([src/channeld/automata/mod.rs], [src/channeld/runtime.rs]) *)

From S2P Require Import Prelude.
From S2P Require Import Bus.
From S2P Require Import Service.
From S2P Require Import Config.
From S2P Require Import ChannelRuntime.
From S2P Require Import Propose.
From S2P Require Import Accept.

Local Open Scope rust_scope.

Definition lifecycle (m : ChannelStateMachine) : Lifecycle :=
  match m with
  | CsLaunch => LcInitial
  | CsPropose p => propose_lifecycle p
  | CsAccept a => accept_lifecycle a
  | CsActive => LcActive
  | CsReestablishing => LcReestablishing
  | CsClosing => LcClosing 0
  | CsAbort => LcAborting
  | CsPenalize => LcPenalize
  end.

Section machine.
Context `{Sys, !LnpCore, !StateCodec, !Fmt}.

Definition info_message (m : ChannelStateMachine) (id : ActiveChannelId) : string :=
  match m with
  | CsLaunch => "Launching channel daemon"
  | CsPropose p => propose_info_message p id
  | CsAccept a => accept_info_message a id
  | CsActive => "Channel is active"
  | CsReestablishing => "Reestablishing channel"
  | CsClosing => "Closing channel"
  | CsAbort => "Unilaterally closing the channel"
  | CsPenalize => "Penalizing incorrect channel"
  end.

Definition complete_reestablish (source : ServiceId) (remote : ChannelMsg)
    : CW ChanError ChannelStateMachine :=
  let? local := on_channel (λ c, compose_reestablish_channel c remote) in
  let! remote_id :=
    expect "channel reestablish BOLT message from non-remoter peer" (to_remote_id source) in
  do! update (set_remote_id (Some remote_id)) in
  do? send_p2p (LnChannelReestablish local) in
  let! remote_id := state_remote_id in
  let! c := self r_channel in
  do! swallow (send_ctl Router (CtlChannelCreated (channel_info c remote_id))) in
  mreturn CsActive.

Definition complete_launch (event : Event BusMsg) : CW ChanError ChannelStateMachine :=
  match ev_message event with
  | BusCtl (CtlOpenChannelWith open_channel_with) =>
      let? p := propose_with open_channel_with in mreturn (CsPropose p)
  | BusCtl (CtlAcceptChannelFrom accept_channel_from) =>
      let? a := accept_with accept_channel_from in mreturn (CsAccept a)
  | _ => unexpected event LcInitial
  end.

Definition process_propose (event : Event BusMsg) (p : ChannelPropose)
    : CW ChanError ChannelStateMachine :=
  let? r := propose_next p event in
  mreturn (match r with None => CsActive | Some p' => CsPropose p' end).

Definition process_accept (event : Event BusMsg) (a : ChannelAccept)
    : CW ChanError ChannelStateMachine :=
  let? r := accept_next a event in
  mreturn (match r with None => CsActive | Some a' => CsAccept a' end).

(** The next machine for an event that is not a [channel_reestablish]. *)
Definition advance (event : Event BusMsg) : CW ChanError ChannelStateMachine :=
  let! m := self r_machine in
  match m with
  | CsLaunch => complete_launch event
  | CsPropose p => process_propose event p
  | CsAccept a => process_accept event a
  | CsActive => mreturn CsActive
  | CsReestablishing | CsClosing | CsAbort | CsPenalize => mpanic "not yet implemented"
  end.

Definition process_event (event : Event BusMsg) : CW ChanError unit :=
  match ev_message event with
  | BusBolt (LnChannelReestablish remote) =>
      let? m := complete_reestablish (ev_source event) remote in
      update (set_machine m)
  | _ =>
      let? m := advance event in
      update (set_machine m)
  end.

Definition esb_error_failure (destination : ServiceId) : Failure := {|
  code := FcChannel;
  info := match destination with
          | PeerBolt remote_peer =>
              "There is no connection with the remote peer " +:+ show_node_id remote_peer
                +:+ "; you have to `connect` to it first"
          | _ =>
              "Unable to complete: daemon " +:+ show_service_id destination
                +:+ " is offline or crashed"
          end |}.

(** The first statement of [process]: an ESB error is reported to the client. *)
Definition report_offline (request : BusMsg) : CW ChanError unit :=
  match request with
  | BusCtl (CtlEsbError destination _) =>
      do! report_failure (E:=ChanError) (esb_error_failure destination) in
      mreturn tt
  | _ => mreturn tt
  end.

(** [Runtime::process]: [true] when the state was updated. *)
Definition process (source : ServiceId) (request : BusMsg) : CW ChanError bool :=
  do! report_offline request in
  let! id := self identity in
  let event := event_with id source request in
  let! c := self r_channel in
  let channel_id := active_channel_id c in
  let! res := attempt (process_event event) in
  let! updated_state :=
    match res with
    | inr _ =>
        let! m := self r_machine in
        do! swallow (report_progress (info_message m channel_id)) in
        mreturn true
    | inl (CeEsb e) =>
        do! report_failure {| code := FcChannel; info := show_chan_error (CeEsb e) |} in
        mfail (CeEsb e)
    | inl other_err =>
        do! report_failure {| code := FcChannel; info := show_chan_error other_err |} in
        mreturn false
    end in
  do! (if updated_state : bool then do? save_state in mreturn tt else mreturn tt) in
  mreturn updated_state.

(** ** Handlers *)

Definition chan_handle_p2p (remote_id : NodeId) (message : LnMsg) : CW Error unit :=
  match message with
  | LnOpenChannel _ => mreturn tt
  | LnChannelReestablish _ | LnAcceptChannel _ | LnFundingCreated _ | LnFundingSigned _
  | LnFundingLocked _ =>
      do? process (PeerBolt remote_id) (BusBolt message) in mreturn tt
  | _ => mreturn tt
  end.

Definition chan_handle_ctl (source : ServiceId) (request : CtlMsg) : CW Error unit :=
  match request with
  | CtlOpenChannelWith open_channel_with =>
      do! update (set_enquirer (ow_report_to open_channel_with)) in
      do! update (set_remote_id (Some (na_id (ow_remote_peer open_channel_with)))) in
      do? process source (BusCtl request) in
      mreturn tt
  | CtlAcceptChannelFrom accept =>
      do! update (set_enquirer None) in
      do! update (set_remote_id (Some (af_remote_id accept))) in
      let? updated := process source (BusCtl request) in
      if updated : bool then update (set_remote_id (Some (af_remote_id accept)))
      else mreturn tt
  | CtlFundingConstructed _ | CtlTxFound _ | CtlSigned _ | CtlKeyset _ _ | CtlError _ _ _
  | CtlEsbError _ _ | CtlHello =>
      do? process source (BusCtl request) in mreturn tt
  | CtlPayment route hash_lock enquirer =>
      do! update (set_enquirer (Some enquirer)) in
      let! hop := ok_or (from RouteNotFound) (route !! 0) in
      let payment := hop_payload hop in
      let? message := on_channel (λ c,
        compose_add_update_htlc c (amt_to_forward payment) hash_lock
          (outgoing_cltv_value payment) route) in
      do? send_p2p message in
      do! swallow (report_success (Some "HTLC added to the channel")) in
      update (set_enquirer None)
  | wrong_request => mfail (wrong_esb_msg BusIdCtl (BusCtl wrong_request))
  end.

Definition chan_handle_rpc (client_id : ClientId) (request : RpcMsg) : CW Error unit :=
  match request with
  | RpcGetInfo =>
      let! c := self r_channel in
      let! n := self r_remote in
      do? send_rpc client_id
            (RpcChannelInfo {| ci_state := store_state c; ci_remote_id := n |}) in
      mreturn tt
  | RpcSend _ => mpanic "not yet implemented: payments are not yet implemented"
  | wrong_request => mfail (wrong_esb_msg BusIdRpc (BusRpc wrong_request))
  end.

(** [esb::Handler::handle] and [handle_err] *)
Definition chan_handle (bus : ServiceBus) (source : ServiceId) (message : BusMsg)
    : CW Error unit :=
  match bus, message, source with
  | BusIdMsg, BusBolt msg, PeerBolt remote_id => chan_handle_p2p remote_id msg
  | BusIdMsg, BusBolt _, service =>
      mpanic ("channeld received peer message not from a peerd but from "
                +:+ show_service_id service)
  | BusIdCtl, BusCtl msg, source => chan_handle_ctl source msg
  | BusIdRpc, BusRpc msg, Client client_id => chan_handle_rpc client_id msg
  | BusIdRpc, BusRpc _, service =>
      mpanic ("lnpd received RPC message not from a client but from "
                +:+ show_service_id service)
  | bus, msg, _ => mfail (wrong_esb_msg bus msg)
  end.
Definition chan_handle_err (_ : EsbError) : CW Error unit := mreturn tt.

(** ** Start-up: what [run] builds before entering the service loop *)

(** The daemon starts without a runtime: its world is that of [option Runtime]. *)
Definition run (config : Config unit) (channel_id : ActiveChannelId)
    : W unit Error Runtime :=
  let path := channel_file config channel_id in
  let! opened := attempt (file_open path) in
  let! sf :=
    match opened with
    | inr file =>
        let! w := get in
        match decode_state (inode_data (disk w) (f_inode file)) with
        | inr st => mreturn (st, file)
        | inl e => mfail (EPersistence (strict_err e))
        end
    | inl _ =>
        match act_temp_channel_id channel_id with
        | Some temp =>
            let st := channel_state_with temp (chain config) in
            do? fs (FsCreateDir (channel_dir config)) in
            let? file := file_create path in
            mreturn (st, file)
        | None => mfail (EChannel CeNoPersistantData)
        end
    end in
  mreturn {|
    r_identity := ChannelSvc (MkChannelId (as_slice32 channel_id));
    r_config := config;
    r_state := sf.1;
    r_file := sf.2;
    r_enquirer := None |}.
End machine.
