(* ===== verification/ChannelFacts.v ===== *)
(** * The workflow of a channel as an abstract transition system

    The abstract workflow ([doc/workflows/channel_propose.mmd],
    [channel_accept.mmd] as the code realises them) and the facts that relate
    the handlers of [Propose], [Accept] and [Machine] to it. *)

From S2P Require Import Prelude.
From S2P Require Import Bus.
From S2P Require Import Service.
From S2P Require Import Config.
From S2P Require Import ChannelRuntime.
From S2P Require Import Propose.
From S2P Require Import Accept.
From S2P Require Import Machine.

Local Open Scope rust_scope.

(** ** Frames: what each handler leaves alone and what it may send *)

Section frames.
Context `{Sys, !LnpCore, !StateCodec, !Fmt}.

Lemma state_remote_id_respects {E} (R : relation (World Runtime)) `{!PreOrder R} :
  respects R (state_remote_id (E:=E)).
Proof. unfold state_remote_id. respects_auto. Qed.
Lemma send_p2p_same {T} (f : Runtime → T) m : respects (same f) (send_p2p m).
Proof. unfold send_p2p. respects_auto. Qed.
Lemma unexpected_respects {A} (R : relation (World Runtime)) `{!PreOrder R} ev l :
  respects R (unexpected (A:=A) ev l).
Proof. unfold unexpected. respects_auto. Qed.
Lemma save_state_same {T} (f : Runtime → T) :
  (∀ h r, f r = f (set_file h r)) → respects (same f) save_state.
Proof. intros. unfold save_state. respects_auto. Qed.
#[local] Hint Resolve state_remote_id_respects send_p2p_same unexpected_respects
  save_state_same : respects.

(** Parts of the runtime that no handler of the workflow writes: the machine and
    the remote peer. *)
Context {T : Type} (f : Runtime → T).
Context (f_channel : ∀ c r, f r = f (set_channel c r)).
Context (f_file : ∀ h r, f r = f (set_file h r)).
Context (f_identity : ∀ i r, f r = f (set_r_identity i r)).

Lemma on_channel_same {A} (g : Channel → Channel * (BoltError + A)) :
  respects (same f) (on_channel g).
Proof. unfold on_channel. respects_auto. Qed.
Lemma on_channel_total_same {E A} (g : Channel → Channel * A) :
  respects (same f) (on_channel_total (E:=E) g).
Proof. unfold on_channel_total. respects_auto. Qed.
Lemma set_identity_same id : respects (same f) (set_identity id).
Proof. unfold set_identity. respects_auto. Qed.
#[local] Hint Resolve on_channel_same on_channel_total_same set_identity_same : respects.

Lemma propose_next_same p ev : respects (same f) (propose_next p ev).
Proof.
  destruct p; simpl; unfold complete_proposed, complete_accepted, complete_signing,
    complete_funding, complete_published, complete_locked; respects_auto.
Qed.
Lemma accept_next_same a ev : respects (same f) (accept_next a ev).
Proof.
  destruct a; simpl; unfold finish_accepted, finish_signed, finish_funded, finish_locked;
    respects_auto.
Qed.
#[local] Hint Resolve propose_next_same accept_next_same : respects.
Lemma complete_launch_same ev : respects (same f) (complete_launch ev).
Proof. unfold complete_launch, propose_with, accept_with. respects_auto. Qed.
#[local] Hint Resolve complete_launch_same : respects.
Lemma advance_same ev : respects (same f) (advance ev).
Proof. unfold advance, process_propose, process_accept. respects_auto. Qed.
Lemma complete_reestablish_same src m :
  (∀ n r, f r = f (set_remote_id n r)) → respects (same f) (complete_reestablish src m).
Proof. intros. unfold complete_reestablish. respects_auto. Qed.
End frames.

#[export] Hint Resolve state_remote_id_respects send_p2p_same unexpected_respects
  save_state_same on_channel_same on_channel_total_same set_identity_same
  advance_same complete_reestablish_same : respects.

(** ** What may be sent *)

Section sends.
Context `{Sys, !LnpCore, !StateCodec, !Fmt}.
Context (Q : BusMsg → Prop).

Lemma on_channel_sends {A} (f : Channel → Channel * (BoltError + A)) :
  respects (sends Q) (on_channel f).
Proof. unfold on_channel. respects_auto. Qed.
Lemma on_channel_total_sends {E A} (f : Channel → Channel * A) :
  respects (sends Q) (on_channel_total (E:=E) f).
Proof. unfold on_channel_total. respects_auto. Qed.
Lemma send_p2p_sends m : Q (BusBolt m) → respects (sends Q) (send_p2p m).
Proof. intros. unfold send_p2p. respects_auto. Qed.
Lemma save_state_sends : respects (sends Q) save_state.
Proof. unfold save_state. respects_auto. Qed.
#[local] Hint Resolve save_state_sends : respects.
Lemma set_identity_sends id : respects (sends Q) (set_identity id).
Proof. unfold set_identity. respects_auto. Qed.
End sends.

#[export] Hint Resolve on_channel_sends on_channel_total_sends send_p2p_sends
  save_state_sends set_identity_sends : respects.

(** ** The workflow *)

(** [next_stage m msg m']: in stage [m] the code accepts [msg] and moves to [m'].  The
    opener's and the acceptor's workflows as the code realises them, and
    re-establishment, which it accepts in every stage. *)
Inductive next_stage `{Ext} : ChannelStateMachine → BusMsg → ChannelStateMachine → Prop :=
  | ns_open r : next_stage CsLaunch (BusCtl (CtlOpenChannelWith r)) (CsPropose PrProposed)
  | ns_accept_channel m :
      next_stage (CsPropose PrProposed) (BusBolt (LnAcceptChannel m)) (CsPropose PrAccepted)
  | ns_funding_constructed p :
      next_stage (CsPropose PrAccepted) (BusCtl (CtlFundingConstructed p)) (CsPropose PrSigning)
  | ns_signed p :
      next_stage (CsPropose PrSigning) (BusCtl (CtlSigned p)) (CsPropose PrFunding)
  | ns_funding_signed m :
      next_stage (CsPropose PrFunding) (BusBolt (LnFundingSigned m)) (CsPropose PrPublished)
  | ns_tx_found s :
      next_stage (CsPropose PrPublished) (BusCtl (CtlTxFound s)) (CsPropose PrLocked)
  | ns_funding_locked m :
      next_stage (CsPropose PrLocked) (BusBolt (LnFundingLocked m)) CsActive
  | ns_accept r : next_stage CsLaunch (BusCtl (CtlAcceptChannelFrom r)) (CsAccept AcAccepted)
  | ns_keyset s k :
      next_stage (CsAccept AcAccepted) (BusCtl (CtlKeyset s k)) (CsAccept AcSigned)
  | ns_funding_created m :
      next_stage (CsAccept AcSigned) (BusBolt (LnFundingCreated m)) (CsAccept AcFunded)
  | ns_accept_locked m :
      next_stage (CsAccept AcFunded) (BusBolt (LnFundingLocked m)) (CsAccept AcLocked)
  | ns_hello : next_stage (CsAccept AcLocked) (BusCtl CtlHello) CsActive
  | ns_active msg :
      (∀ m, msg ≠ BusBolt (LnChannelReestablish m)) → next_stage CsActive msg CsActive
  | ns_reestablish m r : next_stage m (BusBolt (LnChannelReestablish r)) CsActive.

#[export] Hint Constructors next_stage : returns.

(** The workflows as they are documented, by the diagrams [channel_propose.mmd] and
    [channel_accept.mmd] of [doc/workflows] and by the comments of the stages in
    [propose.rs] and [accept.rs].  A transaction is mined when its status has a position
    in a block.  The diagrams know no re-establishment; a comment of [process_event] is
    about channels that are launched for it. *)
Definition is_mined `{Ext} (s : TxStatus) : Prop := is_Some (ts_block_pos s).

Inductive documented_stage `{Ext} : ChannelStateMachine → BusMsg → ChannelStateMachine → Prop :=
  | ds_open r : documented_stage CsLaunch (BusCtl (CtlOpenChannelWith r)) (CsPropose PrProposed)
  | ds_accept_channel m :
      documented_stage (CsPropose PrProposed) (BusBolt (LnAcceptChannel m)) (CsPropose PrAccepted)
  | ds_funding_constructed p :
      documented_stage (CsPropose PrAccepted) (BusCtl (CtlFundingConstructed p)) (CsPropose PrSigning)
  | ds_signed p :
      documented_stage (CsPropose PrSigning) (BusCtl (CtlSigned p)) (CsPropose PrFunding)
  | ds_funding_signed m :
      documented_stage (CsPropose PrFunding) (BusBolt (LnFundingSigned m)) (CsPropose PrPublished)
  | ds_mined s : is_mined s →
      documented_stage (CsPropose PrPublished) (BusCtl (CtlTxFound s)) (CsPropose PrLocked)
  | ds_funding_locked m :
      documented_stage (CsPropose PrLocked) (BusBolt (LnFundingLocked m)) CsActive
  | ds_accept r : documented_stage CsLaunch (BusCtl (CtlAcceptChannelFrom r)) (CsAccept AcAccepted)
  | ds_refund_signed p :
      documented_stage (CsAccept AcAccepted) (BusCtl (CtlSigned p)) (CsAccept AcSigned)
  | ds_refund_received m :
      documented_stage (CsAccept AcSigned) (BusBolt (LnFundingSigned m)) (CsAccept AcFunded)
  | ds_accept_mined s : is_mined s →
      documented_stage (CsAccept AcFunded) (BusCtl (CtlTxFound s)) (CsAccept AcLocked)
  | ds_accept_locked m :
      documented_stage (CsAccept AcLocked) (BusBolt (LnFundingLocked m)) CsActive
  | ds_reestablish m r : m = CsActive ∨ m = CsReestablishing →
      documented_stage m (BusBolt (LnChannelReestablish r)) CsActive.

(** Where the code leaves the documentation: the opener takes a transaction that is not
    mined; the acceptor, once it has accepted, waits for its keyset, answers
    [funding_created] at once, and becomes active by an echo after the peer's
    [funding_locked], whatever happens on the chain; and re-establishment activates a
    channel in every stage. *)
Inductive deviating_stage `{Ext} : ChannelStateMachine → BusMsg → ChannelStateMachine → Prop :=
  | dv_not_mined s : ¬ is_mined s →
      deviating_stage (CsPropose PrPublished) (BusCtl (CtlTxFound s)) (CsPropose PrLocked)
  | dv_keyset s k :
      deviating_stage (CsAccept AcAccepted) (BusCtl (CtlKeyset s k)) (CsAccept AcSigned)
  | dv_funding_created m :
      deviating_stage (CsAccept AcSigned) (BusBolt (LnFundingCreated m)) (CsAccept AcFunded)
  | dv_accept_locked m :
      deviating_stage (CsAccept AcFunded) (BusBolt (LnFundingLocked m)) (CsAccept AcLocked)
  | dv_hello : deviating_stage (CsAccept AcLocked) (BusCtl CtlHello) CsActive
  | dv_reestablish m r : m ≠ CsActive → m ≠ CsReestablishing →
      deviating_stage m (BusBolt (LnChannelReestablish r)) CsActive.

(** Stages of the acceptor past the acceptance. *)
Definition accepting_stage (m : ChannelStateMachine) : Prop :=
  match m with CsAccept _ => True | _ => False end.

Section stages.
Context `{Ext}.

Lemma next_stage_cases m msg m' : next_stage m msg m' →
  m' = m ∨ documented_stage m msg m' ∨ deviating_stage m msg m'.
Proof.
  destruct 1 as [| | | | |s| | | | | | |msg|m r]; try (right; left; by constructor);
    try (right; right; by constructor); [|by left|].
  - destruct (ts_block_pos s) eqn:E; right; [left|right]; constructor; unfold is_mined; rewrite E;
      [by eexists|by intros []].
  - right. destruct m; try (by left; constructor; auto); by right; constructor.
Qed.
Lemma deviating_undocumented m msg m' : deviating_stage m msg m' → ¬ documented_stage m msg m'.
Proof. destruct 1; inversion 1; simplify_eq; naive_solver. Qed.
(** The code takes no step that is documented for the acceptor. *)
Lemma acceptor_undocumented m msg m' m2 :
  accepting_stage m → documented_stage m msg m2 → ¬ next_stage m msg m'.
Proof. intros Ha. destruct 1; try done; try (by inversion 1). naive_solver. Qed.
End stages.

Section refinement.
Context `{Sys, !LnpCore, !StateCodec, !Fmt}.

Lemma unexpected_returns {A} ev l (P : A → Prop) : returns (unexpected ev l) P.
Proof. apply returns_mfail. Qed.
#[local] Hint Resolve unexpected_returns : returns.

(** What each handler of the opener and of the acceptor moves to. *)
Local Ltac handler_returns ev :=
  destruct (ev_message ev) as [[]| |[]|]; try apply unexpected_returns; returns_auto.

Lemma complete_proposed_returns ev : returns (complete_proposed ev)
  (λ p, next_stage (CsPropose PrProposed) (ev_message ev) (CsPropose p)).
Proof. unfold complete_proposed. handler_returns ev. Qed.
Lemma complete_accepted_returns ev : returns (complete_accepted ev)
  (λ p, next_stage (CsPropose PrAccepted) (ev_message ev) (CsPropose p)).
Proof. unfold complete_accepted. handler_returns ev. Qed.
Lemma complete_signing_returns ev : returns (complete_signing ev)
  (λ p, next_stage (CsPropose PrSigning) (ev_message ev) (CsPropose p)).
Proof. unfold complete_signing. handler_returns ev. Qed.
Lemma complete_funding_returns ev : returns (complete_funding ev)
  (λ p, next_stage (CsPropose PrFunding) (ev_message ev) (CsPropose p)).
Proof. unfold complete_funding. handler_returns ev. Qed.
Lemma complete_published_returns ev : returns (complete_published ev)
  (λ r, ∃ p, r = Some p ∧ next_stage (CsPropose PrPublished) (ev_message ev) (CsPropose p)).
Proof. unfold complete_published. handler_returns ev. Qed.
Lemma complete_locked_returns ev : returns (complete_locked ev)
  (λ _, next_stage (CsPropose PrLocked) (ev_message ev) CsActive).
Proof. unfold complete_locked. handler_returns ev. Qed.
Lemma finish_accepted_returns ev : returns (finish_accepted ev)
  (λ a, next_stage (CsAccept AcAccepted) (ev_message ev) (CsAccept a)).
Proof. unfold finish_accepted. handler_returns ev. Qed.
Lemma finish_signed_returns ev : returns (finish_signed ev)
  (λ a, next_stage (CsAccept AcSigned) (ev_message ev) (CsAccept a)).
Proof. unfold finish_signed. handler_returns ev. Qed.
Lemma finish_funded_returns ev : returns (finish_funded ev)
  (λ a, next_stage (CsAccept AcFunded) (ev_message ev) (CsAccept a)).
Proof. unfold finish_funded. handler_returns ev. Qed.
Lemma finish_locked_returns ev : returns (finish_locked ev)
  (λ _, next_stage (CsAccept AcLocked) (ev_message ev) CsActive).
Proof. unfold finish_locked. handler_returns ev. Qed.

Lemma propose_next_returns p ev :
  returns (propose_next p ev) (λ r, next_stage (CsPropose p) (ev_message ev)
    (match r with None => CsActive | Some p' => CsPropose p' end)).
Proof.
  destruct p; simpl;
    [ eapply returns_bind_2; [apply returns_q, complete_proposed_returns|]
    | eapply returns_bind_2; [apply returns_q, complete_accepted_returns|]
    | eapply returns_bind_2; [apply returns_q, complete_signing_returns|]
    | eapply returns_bind_2; [apply returns_q, complete_funding_returns|]
    | eapply returns_mono; [|apply complete_published_returns]
    | eapply returns_bind_2; [apply returns_q, complete_locked_returns|] ];
    try (intros; by apply returns_mreturn).
  by intros r (p & -> & Hp).
Qed.

Lemma accept_next_returns a ev :
  returns (accept_next a ev) (λ r, next_stage (CsAccept a) (ev_message ev)
    (match r with None => CsActive | Some a' => CsAccept a' end)).
Proof.
  destruct a; simpl; eapply returns_bind_2;
    [ apply returns_q, finish_accepted_returns | | apply returns_q, finish_signed_returns |
    | apply returns_q, finish_funded_returns | | apply returns_q, finish_locked_returns | ];
    intros; by apply returns_mreturn.
Qed.

Lemma complete_launch_returns ev :
  returns (complete_launch ev) (next_stage CsLaunch (ev_message ev)).
Proof.
  unfold complete_launch. destruct (ev_message ev) as [|?|[]|]; try apply unexpected_returns;
    (eapply returns_bind_2; [apply returns_q | intros x Hx; apply returns_mreturn; exact Hx]);
    unfold propose_with, accept_with; returns_auto.
Qed.

Lemma process_propose_returns ev p :
  returns (process_propose ev p) (next_stage (CsPropose p) (ev_message ev)).
Proof.
  unfold process_propose. eapply returns_bind_2; [apply returns_q, propose_next_returns|].
  intros. by apply returns_mreturn.
Qed.
Lemma process_accept_returns ev a :
  returns (process_accept ev a) (next_stage (CsAccept a) (ev_message ev)).
Proof.
  unfold process_accept. eapply returns_bind_2; [apply returns_q, accept_next_returns|].
  intros. by apply returns_mreturn.
Qed.

(** From machine [m], a successful [advance] is a step of the workflow. *)
Lemma advance_next ev w m' w' :
  (∀ r, ev_message ev ≠ BusBolt (LnChannelReestablish r)) →
  advance ev w = (Ok m', w') → next_stage (r_machine (rt w)) (ev_message ev) m'.
Proof.
  intros Hne. unfold advance, self, gets, bind.
  destruct (r_machine (rt w)); try done.
  - apply complete_launch_returns.
  - apply process_propose_returns.
  - apply process_accept_returns.
  - intros [= <- <-]. by apply ns_active.
Qed.

Lemma complete_reestablish_returns src m :
  returns (complete_reestablish src m) (λ s, s = CsActive).
Proof. unfold complete_reestablish. returns_auto. Qed.

(** Storing the machine a call returned. *)
Lemma wp_set_machine (m : CW ChanError ChannelStateMachine) (P : ChannelStateMachine → Prop) w :
  respects (same r_machine) m →
  (∀ m' w', m w = (Ok m', w') → P m') →
  wp (let? m' := m in update (set_machine m') : CW ChanError unit) (λ r w',
    match r with Ok _ => P (r_machine (rt w')) | _ => r_machine (rt w') = r_machine (rt w) end) w.
Proof.
  intros Hm Hret. unfold wp, bind, q. specialize (Hm w).
  destruct (m w) as [[m'|e|p] w'] eqn:Em; simpl in *; [|by destruct Hm..].
  by eapply Hret.
Qed.

(** [process_event] either takes a step of the workflow or leaves the machine. *)
Lemma process_event_step ev w : wp (process_event ev) (λ r w',
    match r with
    | Ok _ => next_stage (r_machine (rt w)) (ev_message ev) (r_machine (rt w'))
    | _ => r_machine (rt w') = r_machine (rt w)
    end) w.
Proof.
  unfold process_event.
  destruct (ev_message ev) as [[]| | |] eqn:Emsg;
    (apply wp_set_machine; [auto with respects|intros m' w' Hm]).
  all: try (rewrite <-Emsg; eapply advance_next; [by rewrite Emsg|done]).
  apply complete_reestablish_returns in Hm as ->. constructor.
Qed.
End refinement.
