(* ===== verification/ChannelCorrect.v ===== *)
(** * Properties of the channel daemon *)

From S2P Require Import Prelude.
From S2P Require Import Bus.
From S2P Require Import Service.
From S2P Require Import Config.
From S2P Require Import ChannelRuntime.
From S2P Require Import Propose.
From S2P Require Import Accept.
From S2P Require Import Machine.
From S2P Require Import ChannelFacts.

Local Open Scope rust_scope.

Section process.
Context `{Sys, !LnpCore, !StateCodec, !Fmt}.

(** The part of [process] before the event is handled. *)
Lemma process_prologue (request : BusMsg) w :
  ∃ w', report_offline request w = (Ok tt, w') ∧ rt w' = rt w ∧ disk w' = disk w ∧
    sends is_report w w'.
Proof.
  unfold report_offline.
  destruct request as [| |[]|]; try (eexists; split_and!; [done..|by apply sends_refl]).
  destruct (report_failure_ok (E:=ChanError) (esb_error_failure destination) w)
    as (e & w' & E1 & E2).
  exists w'. by rewrite (bind_ok _ _ _ _ _ E1).
Qed.

(** How [process] ends is decided by how its event was handled; around that
    it only reports, and saves the state after a success. *)
Lemma process_spec src req w :
  ∃ w0 ev, rt w0 = rt w ∧ disk w0 = disk w ∧ sends is_report w w0 ∧
  ev_message ev = req ∧ ev_source ev = src ∧
  match process_event ev w0 with
  | (Panic p, w1) => process src req w = (Panic p, w1)
  | (Err e, w1) => ∃ w2, rt w2 = rt w1 ∧ sends is_report w1 w2 ∧
      process src req w =
        (match e with CeEsb _ => Err e | _ => Ok false end, w2)
  | (Ok _, w1) => ∃ w2, rt w2 = rt w1 ∧ sends is_report w1 w2 ∧
      process src req w = (do? save_state in mreturn true : CW ChanError bool) w2
  end.
Proof.
  destruct (process_prologue req w) as (w0 & E1 & E2 & ? & ?).
  exists w0, (event_with (r_identity (rt w0)) src req).
  split_and!; [done..|].
  destruct (process_event _ w0) as [[a|e|p] w1] eqn:Ev.
  - destruct (swallow_report (E:=Error) (E':=ChanError)
      (StProgress (info_message (r_machine (rt w1)) (active_channel_id (r_channel (rt w0))))) w1)
      as (w2 & E3 & E4 & _ & ?).
    exists w2. split_and!; [done..|]. unfold process. rewrite (bind_ok _ _ _ _ _ E1).
    unfold self. rewrite !bind_gets, (bind_ok _ _ _ _ _ (attempt_ok _ _ _ _ Ev)).
    unfold bind at 1 2 3. simpl. unfold report_progress. rewrite E3. simpl.
    unfold bind, q. by destruct (save_state w2) as [[]?].
  - destruct (report_failure_ok (E:=ChanError)
      {| code := FcChannel; info := show_chan_error e |} w1) as (x & w2 & E3 & E4 & _ & ?).
    exists w2. split_and!; [done..|]. unfold process. rewrite (bind_ok _ _ _ _ _ E1).
    unfold self. rewrite !bind_gets, (bind_ok _ _ _ _ _ (attempt_err _ _ _ _ Ev)).
    destruct e; rewrite (bind_ok _ _ _ _ _ (bind_ok _ _ _ _ _ E3)) ||
      (apply bind_err; by rewrite (bind_ok _ _ _ _ _ E3)); done.
  - unfold process. rewrite (bind_ok _ _ _ _ _ E1).
    unfold self. by rewrite !bind_gets, (bind_panic _ _ _ _ _ (attempt_panic _ _ _ _ Ev)).
Qed.

Lemma save_state_no_panic p w w' : save_state w ≠ (Panic p, w').
Proof.
  unfold save_state, file_seek_start, file_write, file_sync, fs, self, update.
  unfold bind, q, attempt, perform, gets, get, modify, mreturn, mfail.
  repeat (case_match; simplify_eq/=; try done).
Qed.

(** How the machine of the daemon moves when [process] handles a request. *)
Lemma process_outcome src req w :
  wp (process src req) (λ r w',
    let m := r_machine (rt w) in
    let m' := r_machine (rt w') in
    match r with
    | Ok true | Err (CePersistence _) => next_stage m req m'
    | Ok false | Err (CeEsb _) | Panic _ => m' = m
    | Err _ => False
    end) w.
Proof.
  destruct (process_spec src req w) as (w0 & ev & E0 & _ & _ & <- & _ & Hspec).
  pose proof (process_event_step ev w0) as Hstep. unfold wp in *. rewrite E0 in Hstep.
  destruct (process_event ev w0) as [[[]|e|p] w1]; simpl in *.
  - destruct Hspec as (w2 & E2 & _ & ->). rewrite <-E2 in Hstep.
    pose proof (save_state_same r_machine ltac:(done) w2) as [Hs _].
    unfold bind, q. destruct (save_state w2) as [[]w3] eqn:Es; simpl in *.
    + by rewrite <-Hs.
    + by rewrite <-Hs.
    + exfalso. eapply save_state_no_panic, Es.
  - destruct Hspec as (w2 & E2 & _ & ->). destruct e; simpl; congruence.
  - rewrite Hspec. simpl. congruence.
Qed.

(** How a handler may move the machine, given how it ended. *)
Definition stage_moves (msg : BusMsg) (w : World Runtime)
    (x : Res Error unit * World Runtime) : Prop :=
  let m := r_machine (rt w) in
  let m' := r_machine (rt x.2) in
  m' = m ∨
  (next_stage m msg m' ∧ match x.1 with Ok _ | Err (EChannel (CePersistence _)) => True | _ => False end).

Lemma quiet_stage msg (m : CW Error unit) w :
  respects (same r_machine) m → stage_moves msg w (m w).
Proof. intros Hm. left. symmetry. apply Hm. Qed.

(** A handler that runs [process] and then, at most, updates other fields. *)
Lemma process_then_stage src req (k : bool → CW Error unit) w :
  (∀ b, respects (same r_machine) (k b)) → (∀ b s, (k b s).1 = Ok tt) →
  stage_moves req w (bind (q (process src req)) k w).
Proof.
  intros Hk Hok. pose proof (process_outcome src req w) as Hp. unfold wp in Hp.
  unfold bind, q, stage_moves.
  destruct (process src req w) as [[b|e|p] w1]; simpl in *.
  - destruct (Hk b w1) as [<- _]. rewrite Hok. destruct b; [by right | by left].
  - destruct e; try done; [by left | by right].
  - by left.
Qed.

Lemma handle_stage bus src msg w :
  stage_moves msg w (chan_handle bus src msg w).
Proof.
  destruct bus, msg as [ln| |ctl|rpc]; try (by left).
  - destruct src; try (by left). apply quiet_stage. simpl.
    unfold chan_handle_rpc. respects_auto.
  - destruct src; try (by left). destruct ln; try (by left);
      (apply process_then_stage; [respects_auto | done]).
  - destruct ctl; try (by left); try (by apply process_then_stage; [respects_auto | done]).
    + apply (process_then_stage src (BusCtl (CtlOpenChannelWith r)) (λ _, mreturn tt)
        (with_rt (set_remote_id (Some (na_id (ow_remote_peer r))))
           (with_rt (set_enquirer (ow_report_to r)) w))); [respects_auto | done].
    + apply (process_then_stage src (BusCtl (CtlAcceptChannelFrom r))
        (λ b : bool, if b then update (set_remote_id (Some (af_remote_id r)))
           else mreturn tt) (with_rt (set_remote_id (Some (af_remote_id r)))
           (with_rt (set_enquirer None) w))); [respects_auto | by intros []].
    + apply quiet_stage. simpl. respects_auto.
Qed.

End process.

(** ** Runs of the daemon *)

Section runs.
Context `{Sys, !LnpCore, !StateCodec, !Fmt}.

(** [reaches w0 msgs w]: the daemon started in [w0] has handled [msgs], from
    any sources on any buses, and is alive. *)
Inductive reaches (w0 : World Runtime) : list BusMsg → World Runtime → Prop :=
  | reaches_start : reaches w0 [] w0
  | reaches_step msgs w bus src msg r w' :
      reaches w0 msgs w →
      chan_handle bus src msg w = (r, w') → (∀ p, r ≠ Panic p) →
      reaches w0 (msgs ++ [msg]) w'.

(** ** When the funding transaction is published *)

Definition not_publish (m : BusMsg) : Prop := m ≠ BusCtl CtlPublishFunding.

#[local] Hint Extern 0 (not_publish _) => (intros ?; discriminate) : respects.

Lemma report_not_publish m : is_report m → not_publish m.
Proof. unfold not_publish. by intros ? ->. Qed.

Lemma advance_no_publish ev w :
  (r_machine (rt w) = CsPropose PrFunding →
   ∀ fs, ev_message ev = BusBolt (LnFundingSigned fs) →
   ∃ c' e, update_from_peer (r_channel (rt w)) (LnFundingSigned fs) = (c', inl e)) →
  sends not_publish w (advance ev w).2.
Proof.
  intros Hf. unfold advance, self. rewrite bind_gets.
  destruct (r_machine (rt w)) as [|p|a| | | | |] eqn:Em.
  - revert w Hf Em. intros w _ _.
    assert (respects (sends not_publish) (complete_launch ev)) as Hr; [|apply Hr].
    unfold complete_launch, propose_with, accept_with. respects_auto.
  - assert (p ≠ PrFunding → respects (sends not_publish) (process_propose ev p)) as Hr.
    { intros. unfold process_propose, propose_next, complete_proposed, complete_accepted,
        complete_signing, complete_funding, complete_published, complete_locked.
      destruct p; try done; respects_auto. }
    destruct (decide (p = PrFunding)) as [->|]; [|by apply Hr].
    unfold process_propose, propose_next, complete_funding.
    destruct (ev_message ev) as [[]| | |] eqn:Emsg; try (by apply sends_refl).
    destruct (Hf eq_refl m eq_refl) as (c' & e & Hu).
    unfold bind, q, on_channel, self, gets, bind, update, modify, of_sum. 
    rewrite Hu. by apply sends_refl.
  - assert (respects (sends not_publish) (process_accept ev a)) as Hr; [|apply Hr].
    unfold process_accept, accept_next, finish_accepted, finish_signed,
        finish_funded, finish_locked. destruct a; respects_auto.
  - by apply sends_refl.
  - by apply sends_refl.
  - by apply sends_refl.
  - by apply sends_refl.
  - by apply sends_refl.
Qed.

(** The remote signature is accepted in this state. *)
Definition accepts_signature (w : World Runtime) (m : BusMsg) : Prop :=
  r_machine (rt w) = CsPropose PrFunding ∧
  ∃ fs c', m = BusBolt (LnFundingSigned fs) ∧
    update_from_peer (r_channel (rt w)) (LnFundingSigned fs) = (c', inr tt).

Lemma process_event_publish ev w :
  sends not_publish w (process_event ev w).2 ∨ accepts_signature w (ev_message ev).
Proof.
  assert (∀ m : CW ChanError ChannelStateMachine, sends not_publish w (m w).2 →
    sends not_publish w (bind (q m) (λ x, update (E:=ChanError) (set_machine x)) w).2) as Hset.
  { intros m. unfold bind, q. destruct (m w) as [[x|e|p] w1]; simpl; done. }
  unfold accepts_signature, process_event.
  destruct (ev_message ev) as [ln| | |] eqn:Emsg.
  2-4: left; apply Hset, advance_no_publish; by rewrite Emsg.
  destruct ln; try (left; apply Hset, advance_no_publish; by rewrite Emsg).
  - destruct (decide (r_machine (rt w) = CsPropose PrFunding)) as [E1|]; [|left; by apply Hset, advance_no_publish].
    destruct (update_from_peer (r_channel (rt w)) (LnFundingSigned m)) as [c' [e|[]]] eqn:Eu.
    + left. apply Hset, advance_no_publish. rewrite Emsg. intros _ ? [= <-]. eauto.
    + right. eauto 10.
  - left. apply Hset. generalize w. unfold complete_reestablish.
    change (respects (sends not_publish) (complete_reestablish (ev_source ev) m)).
    unfold complete_reestablish. respects_auto.
Qed.

Lemma process_publish src req w :
  sends not_publish w (process src req w).2 ∨ accepts_signature w req.
Proof.
  destruct (process_spec src req w) as (w0 & ev & E0 & _ & S0 & <- & _ & Hspec).
  destruct (process_event_publish ev w0) as [S1|Ha];
    [left|right; unfold accepts_signature in *; by rewrite <-E0].
  apply (sends_mono _ _ _ _ report_not_publish) in S0.
  destruct (process_event ev w0) as [[[]|e|p] w1]; simpl in *.
  - destruct Hspec as (w2 & E2 & S2 & ->).
    apply (sends_mono _ _ _ _ report_not_publish) in S2.
    assert (sends not_publish w2 ((do? save_state in mreturn true : CW ChanError bool) w2).2) as S3.
    { generalize w2. change (respects (sends not_publish)
        (do? save_state in mreturn true : CW ChanError bool)). respects_auto. }
    by do 3 (etrans; [done|]).
  - destruct Hspec as (w2 & E2 & S2 & ->).
    apply (sends_mono _ _ _ _ report_not_publish) in S2.
    by do 2 (etrans; [done|]).
  - rewrite Hspec. by etrans.
Qed.

(** A handler that runs [process] and goes on quietly. *)
Lemma process_then_publish src req (k : bool → CW Error unit) w :
  (∀ b, respects (sends not_publish) (k b)) →
  sends not_publish w (bind (q (process src req)) k w).2 ∨ accepts_signature w req.
Proof.
  intros Hk. destruct (process_publish src req w) as [Hs|]; [left|by right].
  unfold bind, q. destruct (process src req w) as [[b|e|p] w1]; simpl in *; try done.
  etrans; [done|apply Hk].
Qed.

Lemma handle_publish bus src msg w :
  sends not_publish w (chan_handle bus src msg w).2 ∨ accepts_signature w msg.
Proof.
  destruct bus, msg as [ln| |ctl|rpc]; try (by left; apply sends_refl).
  - destruct src; try (by left; apply sends_refl). left. simpl. generalize w.
    change (respects (sends not_publish) (chan_handle_rpc c rpc)).
    unfold chan_handle_rpc. respects_auto.
  - destruct src; try (by left; apply sends_refl).
    destruct ln; try (by left; apply sends_refl);
      apply process_then_publish; respects_auto.
  - destruct ctl; try (by left; apply sends_refl);
      try (by apply process_then_publish; respects_auto).
    + destruct (process_then_publish src (BusCtl (CtlOpenChannelWith r))
        (λ _, mreturn tt) (with_rt (set_remote_id (Some (na_id (ow_remote_peer r))))
           (with_rt (set_enquirer (ow_report_to r)) w))) as [Hs|Ha];
        [respects_auto|left; exact Hs|right; exact Ha].
    + destruct (process_then_publish src (BusCtl (CtlAcceptChannelFrom r))
        (λ b : bool, if b then update (set_remote_id (Some (af_remote_id r)))
           else mreturn tt) (with_rt (set_remote_id (Some (af_remote_id r)))
           (with_rt (set_enquirer None) w))) as [Hs|Ha];
        [respects_auto|left; exact Hs|right; exact Ha].
    + left. simpl. generalize w. apply (respects_bind _ _ _); respects_auto.
Qed.

(** [walk m msgs m']: the workflow goes from [m] to [m'] by accepting [msgs]. *)
Inductive walk (m : ChannelStateMachine) : list BusMsg → ChannelStateMachine → Prop :=
  | walk_nil : walk m [] m
  | walk_snoc ms m1 msg m2 : walk m ms m1 → next_stage m1 msg m2 → walk m (ms ++ [msg]) m2.

Lemma walk_app m1 ms1 m2 ms2 m3 :
  walk m1 ms1 m2 → walk m2 ms2 m3 → walk m1 (ms1 ++ ms2) m3.
Proof.
  intros Hw. induction 1; [by rewrite app_nil_r|]. rewrite app_assoc. by econstructor.
Qed.

(** A run of the daemon walks along the workflow; the messages it does not
    accept are skipped. *)
Lemma reaches_walk w0 msgs w :
  reaches w0 msgs w → ∃ ms, ms `sublist_of` msgs ∧ walk (r_machine (rt w0)) ms (r_machine (rt w)).
Proof.
  induction 1 as [|msgs w bus src msg r w' Hr (ms & Hsub & Hwalk) Hh Hp].
  - exists []. split; [done | constructor].
  - pose proof (handle_stage bus src msg w) as Hs. rewrite Hh in Hs.
    destruct Hs as [Heq | [Hn _]]; simpl in *.
    + exists ms. rewrite Heq. split; [by apply sublist_inserts_r | done].
    + exists (ms ++ [msg]). split; [by apply sublist_app | by econstructor].
Qed.

(** What a channel in stage [PrFunding] must have been through. *)
Lemma walk_to_funding ms :
  walk CsLaunch ms (CsPropose PrFunding) → ∃ r ac psbt refund,
    ms = [BusCtl (CtlOpenChannelWith r); BusBolt (LnAcceptChannel ac);
          BusCtl (CtlFundingConstructed psbt); BusCtl (CtlSigned refund)].
Proof.
  assert (∀ ms, ¬ walk CsLaunch ms CsLaunch ∨ ms = []) as Hstart.
  { intros ms'. destruct ms' as [|x ms' _] using rev_ind; [by right|left].
    intros Hw. inversion Hw as [Hnil|? ? ? ? ? Hn]; [by destruct ms'|inversion Hn]. }
  assert (∀ ms m, walk CsLaunch ms m → m ≠ CsLaunch →
    ∃ ms' m1 msg, ms = ms' ++ [msg] ∧ walk CsLaunch ms' m1 ∧ next_stage m1 msg m) as Hlast.
  { intros ms' m Hw Hne. destruct Hw as [|? m1 msg ? ? ?]; [done|]. eauto 10. }
  intros Hw.
  apply Hlast in Hw as (ms3 & m3 & g4 & -> & Hw & Hn); [|done]. inversion Hn; subst.
  apply Hlast in Hw as (ms2 & m2 & g3 & -> & Hw & Hn2); [|done]. inversion Hn2; subst.
  apply Hlast in Hw as (ms1 & m1 & g2 & -> & Hw & Hn1); [|done]. inversion Hn1; subst.
  apply Hlast in Hw as (ms0 & m0 & g1 & -> & Hw & Hn0); [|done]. inversion Hn0; subst.
  destruct (Hstart ms0) as [Hno | ->]; [done|]. eexists _, _, _, _. done.
Qed.

Definition publishes (w : World Runtime) : Prop :=
  ∃ e, e ∈ attempted (hist w) ∧ env_msg e = BusCtl CtlPublishFunding.

Lemma quiet_publishes w w' : sends not_publish w w' → publishes w' → publishes w.
Proof.
  intros (ops & Eh & Hops) (e & He & Ep). exists e. split; [|done].
  rewrite Eh, attempted_app in He. apply elem_of_app in He as [|He]; [done|].
  apply list_elem_of_omap in He as ([o ok] & Hin & Ho).
  rewrite Forall_forall in Hops. specialize (Hops _ Hin). simpl in *.
  destruct o; simplify_eq/=. by destruct Hops.
Qed.

(** The run up to the moment the signature was accepted. *)
Lemma reaches_publish w0 msgs w :
  reaches w0 msgs w → ¬ publishes w0 → publishes w →
  ∃ pre msg post w1, msgs = pre ++ msg :: post ∧ reaches w0 pre w1 ∧ accepts_signature w1 msg.
Proof.
  intros Hr Hno. induction Hr as [|msgs w bus src msg r w' Hr IH Hh Hp]; [done|].
  intros Hpub. destruct (handle_publish bus src msg w) as [Hs|Ha].
  - rewrite Hh in Hs. destruct IH as (pre & m1 & post & w1 & -> & ? & ?).
    { by eapply quiet_publishes. }
    exists pre, m1, (post ++ [msg]), w1. by rewrite <-app_assoc.
  - exists msgs, msg, [], w. done.
Qed.

(** C1. A channel daemon that starts with a fresh channel asks lnpd to publish the
    funding transaction only when it has accepted the remote peer's signature of the
    refund transaction ([funding_signed]), and before that it was asked to open the
    channel, the peer accepted it, lnpd constructed the funding and signd signed the
    refund, in this order. *)
Theorem funding_published_only_when_refundable w0 msgs w :
  r_machine (rt w0) = CsLaunch → ¬ publishes w0 → reaches w0 msgs w → publishes w →
  ∃ pre fs post w1 r ac psbt refund,
    msgs = pre ++ BusBolt (LnFundingSigned fs) :: post ∧
    reaches w0 pre w1 ∧ accepts_signature w1 (BusBolt (LnFundingSigned fs)) ∧
    [BusCtl (CtlOpenChannelWith r); BusBolt (LnAcceptChannel ac);
     BusCtl (CtlFundingConstructed psbt); BusCtl (CtlSigned refund)] `sublist_of` pre.
Proof.
  intros Hl Hno Hr Hp.
  destruct (reaches_publish w0 msgs w) as (pre & msg & post & w1 & -> & Hpre & Ha); [done..|].
  destruct (reaches_walk w0 pre w1 Hpre) as (ms & Hsub & Hw).
  pose proof Ha as (Em & fs & c' & -> & Hu). rewrite Hl, Em in Hw.
  apply walk_to_funding in Hw as (r & ac & psbt & refund & ->).
  exists pre, fs, post, w1, r, ac, psbt, refund. done.
Qed.
End runs.
