(* ===== verification/ChannelSafety.v ===== *)
(** * Panics of the channel daemon

    The handlers of [channeld] contain [expect]s, [unreachable!]s and [todo!]s.
    This file shows which of them a run of the daemon can reach, and on which
    message. *)

From S2P Require Import Prelude.
From S2P Require Import Bus.
From S2P Require Import Service.
From S2P Require Import Config.
From S2P Require Import ChannelRuntime.
From S2P Require Import Propose.
From S2P Require Import Accept.
From S2P Require Import Machine.
From S2P Require Import ChannelFacts.
From S2P Require Import ChannelCorrect.

Local Open Scope rust_scope.

(** The stages [ChannelStateMachine::process] implements. *)
Definition implemented (m : ChannelStateMachine) : Prop :=
  match m with
  | CsReestablishing | CsClosing | CsAbort | CsPenalize => False
  | _ => True
  end.

(** The messages that start a channel. *)
Definition launches `{Ext} (msg : BusMsg) : Prop :=
  match msg with
  | BusCtl (CtlOpenChannelWith _) | BusCtl (CtlAcceptChannelFrom _) => True
  | _ => False
  end.

#[export] Instance launches_dec `{Ext} msg : Decision (launches msg).
Proof. destruct msg as [| |[]|]; apply _. Defined.

(** What makes the daemon panic, and with which text. *)
Inductive panic_cause `{LnpCore, !Fmt} :
    ServiceBus → ServiceId → BusMsg → string → Prop :=
  | pc_no_input src psbt : psbt_inputs psbt = [] →
      panic_cause BusIdCtl src (BusCtl (CtlSigned psbt))
        "BOLT commitment always has a single input"
  | pc_no_temp_id src psbt :
      panic_cause BusIdCtl src (BusCtl (CtlSigned psbt))
        "channel at funding stage must have temporary channel id"
  | pc_no_temp_id_remote n m :
      panic_cause BusIdMsg (PeerBolt n) (BusBolt (LnFundingCreated m))
        "temporary channel id always known at this stage"
  | pc_rename_opener src psbt :
      panic_cause BusIdCtl src (BusCtl (CtlSigned psbt)) "unable to change ZMQ channel identity"
  | pc_rename_acceptor n m :
      panic_cause BusIdMsg (PeerBolt n) (BusBolt (LnFundingCreated m))
        "unable to change ZMQ channel identity"
  | pc_payment_no_peer src route lock client :
      panic_cause BusIdCtl src (BusCtl (CtlPayment route lock client))
        "unset remote peer in channeld"
  | pc_rpc_send client s :
      panic_cause BusIdRpc (Client client) (BusRpc (RpcSend s))
        "not yet implemented: payments are not yet implemented"
  | pc_not_a_peer src m : (∀ n, src ≠ PeerBolt n) →
      panic_cause BusIdMsg src (BusBolt m)
        ("channeld received peer message not from a peerd but from " +:+ show_service_id src)
  | pc_not_a_client src m : (∀ c, src ≠ Client c) →
      panic_cause BusIdRpc src (BusRpc m)
        ("lnpd received RPC message not from a client but from " +:+ show_service_id src).

#[export] Hint Constructors panic_cause : upholds.

Section safety.
Context `{Sys, !LnpCore, !StateCodec, !Fmt}.

(** Invariant of the daemon: the stage is one of those implemented, and a
    channel that has been launched knows its peer. *)
Definition launched_has_peer (r : Runtime) : Prop :=
  implemented (r_machine r) ∧ (r_machine r ≠ CsLaunch → is_Some (r_remote r)).

(** Its part while a handler with a known peer runs. *)
Definition has_peer (r : Runtime) : Prop :=
  implemented (r_machine r) ∧ is_Some (r_remote r).

Lemma has_peer_launched r : has_peer r → launched_has_peer r.
Proof. intros []. by split. Qed.

Section rules.
Context (I : Runtime → Prop) (ok : string → Prop).
Context (I_channel : ∀ c r, I r → I (set_channel c r)).
Context (I_file : ∀ h r, I r → I (set_file h r)).
Context (I_identity : ∀ i r, I r → I (set_r_identity i r)).

Lemma on_channel_upholds {A} (g : Channel → Channel * (BoltError + A)) :
  upholds (on_rt I) ok (on_channel g).
Proof. unfold on_channel. upholds_auto. Qed.
Lemma on_channel_total_upholds {E A} (g : Channel → Channel * A) :
  upholds (on_rt I) ok (on_channel_total (E:=E) g).
Proof. unfold on_channel_total. upholds_auto. Qed.
Lemma save_state_upholds : upholds (on_rt I) ok save_state.
Proof. unfold save_state. upholds_auto. Qed.
#[local] Hint Resolve save_state_upholds : upholds.
Lemma set_identity_upholds id : upholds (on_rt I) ok (set_identity id).
Proof. unfold set_identity. upholds_auto. Qed.
Lemma unexpected_upholds {A} ev l : upholds (on_rt I) ok (unexpected (A:=A) ev l).
Proof. unfold unexpected. upholds_auto. Qed.

(** Both accesses to the remote peer succeed where the peer is known. *)
Context (I_peer : ∀ r, I r → is_Some (r_remote r)).
Lemma send_p2p_upholds m : upholds (on_rt I) ok (send_p2p m).
Proof.
  intros w Hw. unfold send_p2p, self. rewrite bind_gets.
  destruct (I_peer _ Hw) as [n ->]. by apply send_to_upholds.
Qed.
Lemma state_remote_id_upholds {E} : upholds (on_rt I) ok (state_remote_id (E:=E)).
Proof.
  intros w Hw. unfold state_remote_id, self. rewrite bind_gets.
  destruct (I_peer _ Hw) as [n ->]. by split.
Qed.
End rules.

(** What [chan_handle] passes to [process]: control messages from the control
    bus, peer messages from a peer. *)
Definition arrives (bus : ServiceBus) (src : ServiceId) (msg : BusMsg) : Prop :=
  match msg with
  | BusCtl _ => bus = BusIdCtl
  | BusBolt _ => bus = BusIdMsg ∧ ∃ n, src = PeerBolt n
  | _ => False
  end.

Section handlers.
Context (bus : ServiceBus) (src : ServiceId) (ev : Event BusMsg).
Context (Harr : arrives bus src (ev_message ev)).

#[local] Abbreviation safe :=
  (upholds (on_rt has_peer) (panic_cause bus src (ev_message ev))).

#[local] Hint Resolve on_channel_upholds on_channel_total_upholds set_identity_upholds
  unexpected_upholds send_p2p_upholds state_remote_id_upholds : upholds.
#[local] Hint Extern 1 (is_Some (r_remote _)) => by firstorder : upholds.

Local Ltac stage :=
  destruct (ev_message ev) as [[]| |[]|]; simpl in Harr;
  try (by apply unexpected_upholds); try match type of Harr with _ ∧ _ => destruct Harr as [? [? ?]] end; subst; upholds_auto.

Lemma propose_with_safe r : safe (propose_with r).
Proof. unfold propose_with. upholds_auto. Qed.
Lemma accept_with_safe r : safe (accept_with r).
Proof. unfold accept_with. upholds_auto. Qed.
Lemma complete_proposed_safe : safe (complete_proposed ev).
Proof. unfold complete_proposed. stage. Qed.
Lemma complete_accepted_safe : safe (complete_accepted ev).
Proof. unfold complete_accepted. stage. Qed.
Lemma complete_signing_safe : safe (complete_signing ev).
Proof.
  unfold complete_signing. stage.
  destruct (psbt_inputs p) eqn:E; [|apply upholds_mreturn].
  apply upholds_mpanic. by constructor.
Qed.
Lemma complete_funding_safe : safe (complete_funding ev).
Proof. unfold complete_funding. stage. Qed.
Lemma complete_published_safe : safe (complete_published ev).
Proof. unfold complete_published. stage. Qed.
Lemma complete_locked_safe : safe (complete_locked ev).
Proof. unfold complete_locked. stage. Qed.
Lemma finish_accepted_safe : safe (finish_accepted ev).
Proof. unfold finish_accepted. stage. Qed.
Lemma finish_signed_safe : safe (finish_signed ev).
Proof. unfold finish_signed. stage. Qed.
Lemma finish_funded_safe : safe (finish_funded ev).
Proof. unfold finish_funded. stage. Qed.
Lemma finish_locked_safe : safe (finish_locked ev).
Proof. unfold finish_locked. stage. Qed.
#[local] Hint Resolve propose_with_safe accept_with_safe complete_proposed_safe
  complete_accepted_safe complete_signing_safe complete_funding_safe
  complete_published_safe complete_locked_safe finish_accepted_safe
  finish_signed_safe finish_funded_safe finish_locked_safe : upholds.

Lemma complete_launch_safe : safe (complete_launch ev).
Proof.
  unfold complete_launch. destruct (ev_message ev) as [| |[]|] eqn:E;
    try (by apply unexpected_upholds);
    (apply upholds_bind; [|auto with upholds]); apply upholds_q; rewrite <-E;
    auto with upholds.
Qed.
Lemma process_propose_safe p : safe (process_propose ev p).
Proof.
  unfold process_propose. upholds_auto. destruct p; simpl; upholds_auto.
Qed.
Lemma process_accept_safe a : safe (process_accept ev a).
Proof.
  unfold process_accept. upholds_auto. destruct a; simpl; upholds_auto.
Qed.
#[local] Hint Resolve complete_launch_safe process_propose_safe process_accept_safe : upholds.

Lemma advance_safe : safe (advance ev).
Proof.
  apply upholds_gets_bind. intros w Hw. pose proof (proj1 Hw) as Hm.
  destruct (r_machine (rt w)); try done;
    [by apply complete_launch_safe|by apply process_propose_safe
    |by apply process_accept_safe].
Qed.
End handlers.

(** Without a peer the channel has not been launched, and only a launch
    moves it. *)
Lemma advance_no_peer (ev : Event BusMsg) w :
  launched_has_peer (rt w) → r_remote (rt w) = None → ¬ launches (ev_message ev) →
  ∃ e, advance ev w = (Err e, w).
Proof.
  intros [_ Hp] Hn Hl. unfold advance, self. rewrite bind_gets.
  destruct (decide (r_machine (rt w) = CsLaunch)) as [->|Hne].
  - unfold complete_launch. destruct (ev_message ev) as [| |[]|]; try (eexists; reflexivity);
      exfalso; by apply Hl.
  - exfalso. apply Hp in Hne. rewrite Hn in Hne. by destruct Hne.
Qed.

Lemma next_stage_implemented m msg m' :
  next_stage m msg m' → implemented m → implemented m'.
Proof. by destruct 1. Qed.

(** Storing an implemented machine keeps the invariant. *)
Lemma store_machine_safe (ok : string → Prop) (m : CW ChanError ChannelStateMachine) w :
  launched_has_peer (rt (m w).2) → (∀ p, (m w).1 = Panic p → ok p) →
  (∀ m', (m w).1 = Ok m' → implemented m' ∧ is_Some (r_remote (rt (m w).2))) →
  let x := (let? m' := m in update (set_machine m') : CW ChanError unit) w in
  launched_has_peer (rt x.2) ∧ ∀ p, x.1 = Panic p → ok p.
Proof.
  intros HI Hp Hm. unfold bind, q.
  destruct (m w) as [[m'|e|p] w']; simpl in *; [|by split..|].
  - destruct (Hm _ eq_refl). split; [|done]. by apply has_peer_launched.
  - split; [done|]. intros ? [= <-]. by apply Hp.
Qed.

#[local] Hint Resolve send_p2p_upholds state_remote_id_upholds : upholds.
#[local] Hint Extern 1 (is_Some (r_remote _)) => by firstorder : upholds.

(** [complete_reestablish] after the peer has been set. *)
Definition reestablish_rest (l : ChannelMsg) : CW ChanError ChannelStateMachine :=
  do? send_p2p (LnChannelReestablish l) in
  let! remote_id := state_remote_id in
  let! c := self r_channel in
  do! swallow (send_ctl Router (CtlChannelCreated (channel_info c remote_id))) in
  mreturn CsActive.

Lemma complete_reestablish_run n r w :
  complete_reestablish (PeerBolt n) r w =
    match compose_reestablish_channel (r_channel (rt w)) r with
    | (c', inl e) => (Err (CeChannel e), with_rt (set_channel c') w)
    | (c', inr l) =>
        reestablish_rest l (with_rt (set_remote_id (Some n)) (with_rt (set_channel c') w))
    end.
Proof.
  unfold complete_reestablish, on_channel, self. unfold bind at 1, q at 1. rewrite bind_gets.
  by destruct (compose_reestablish_channel _ r) as [c' [e|l]].
Qed.

Lemma complete_reestablish_safe ok n r w :
  launched_has_peer (rt w) →
  let x := complete_reestablish (PeerBolt n) r w in
  launched_has_peer (rt x.2) ∧ (∀ p, x.1 = Panic p → ok p) ∧
  (∀ m, x.1 = Ok m → implemented m ∧ is_Some (r_remote (rt x.2))).
Proof.
  intros Hw x. subst x.
  assert (∀ m, (complete_reestablish (PeerBolt n) r w).1 = Ok m → implemented m) as Hm.
  { intros m Em. destruct (complete_reestablish (PeerBolt n) r w) as [? w'] eqn:E.
    simpl in Em. subst. by apply complete_reestablish_returns in E as ->. }
  revert Hm. rewrite complete_reestablish_run.
  destruct (compose_reestablish_channel _ r) as [c' [e|l]]; [done|]. intros Hm.
  assert (upholds (on_rt has_peer) ok (reestablish_rest l)) as Hrest
    by (unfold reestablish_rest; upholds_auto).
  destruct (Hrest (with_rt (set_remote_id (Some n)) (with_rt (set_channel c') w)))
    as [[? ?] Hp]; [by split; [apply Hw|eexists]|].
  split_and!; [by apply has_peer_launched|done|]. intros m Em. split; [by apply Hm|done].
Qed.

(** One event: the invariant is kept and the panics are listed causes. *)
Lemma process_event_safe bus src ev w :
  arrives bus src (ev_message ev) → ev_source ev = src →
  launched_has_peer (rt w) → (launches (ev_message ev) → is_Some (r_remote (rt w))) →
  launched_has_peer (rt (process_event ev w).2) ∧
  ∀ p, (process_event ev w).1 = Panic p → panic_cause bus src (ev_message ev) p.
Proof.
  intros Harr Hsrc Hw Hl.
  assert ((process_event ev = let? m := advance ev in update (set_machine m)) ∧
      (∀ m, ev_message ev ≠ BusBolt (LnChannelReestablish m))
    ∨ ∃ m, ev_message ev = BusBolt (LnChannelReestablish m)) as [[-> Hne]|[m Em]].
  { unfold process_event. clear.
    destruct (ev_message ev) as [[]| | |]; first [right; eexists; done | left; by split]. }
  - destruct (r_remote (rt w)) as [n|] eqn:Hn.
    + destruct (advance_safe bus src ev Harr w) as [Ha Hp].
      { split; [apply Hw | by rewrite Hn]. }
      apply store_machine_safe; [by apply has_peer_launched|done|]. intros m' Em'.
      split; [|apply Ha]. destruct (advance ev w) as [? w'] eqn:E. simpl in *. subst.
      eapply next_stage_implemented; [by eapply advance_next | apply Hw].
    + destruct (advance_no_peer ev w) as [e E]; [done..|intros Hx; by destruct (Hl Hx)|].
      by apply store_machine_safe; rewrite E.
  - rewrite Em in Harr. destruct Harr as [-> [n ->]].
    destruct (complete_reestablish_safe (panic_cause BusIdMsg (PeerBolt n) (ev_message ev))
      n m w Hw) as (? & ? & ?).
    unfold process_event. rewrite Em, Hsrc in *. by apply store_machine_safe.
Qed.

Definition safe_at (bus : ServiceBus) (src : ServiceId) (msg : BusMsg) {E A}
    (x : Res E A * World Runtime) : Prop :=
  launched_has_peer (rt x.2) ∧ ∀ p, x.1 = Panic p → panic_cause bus src msg p.

Lemma process_safe bus src req w :
  arrives bus src req → launched_has_peer (rt w) →
  (launches req → is_Some (r_remote (rt w))) → safe_at bus src req (process src req w).
Proof.
  intros Harr Hw Hl.
  destruct (process_spec src req w) as (w0 & ev & E0 & _ & _ & <- & Hsrc & Hspec).
  rewrite <-E0 in Hw, Hl.
  destruct (process_event_safe bus src ev w0 Harr Hsrc Hw Hl) as [HI Hp].
  destruct (process_event ev w0) as [[[]|e|p] w1]; simpl in *.
  - destruct Hspec as (w2 & E2 & _ & ->). rewrite <-E2 in HI.
    apply (upholds_bind (on_rt launched_has_peer) _); [|intros; apply upholds_mreturn|done].
    apply upholds_q, save_state_upholds. by intros.
  - destruct Hspec as (w2 & E2 & _ & ->). rewrite <-E2 in HI. by destruct e; split.
  - rewrite Hspec. by split; [|naive_solver].
Qed.

(** A handler that runs [process] and goes on harmlessly. *)
Lemma process_then_safe bus src req (k : bool → CW Error unit) w :
  arrives bus src req → launched_has_peer (rt w) →
  (launches req → is_Some (r_remote (rt w))) →
  (∀ b, upholds (on_rt launched_has_peer) (panic_cause bus src req) (k b)) →
  safe_at bus src req (bind (q (process src req)) k w).
Proof.
  intros Harr Hw Hl Hk. destruct (process_safe bus src req w) as [HI Hp]; [done..|].
  unfold bind, q. destruct (process src req w) as [[b|e|p] w1]; simpl in *.
  - by apply Hk.
  - by split.
  - split; [done|]. intros ? [= <-]. by apply Hp.
Qed.

Lemma payment_safe src route lock client w :
  launched_has_peer (rt w) →
  safe_at BusIdCtl src (BusCtl (CtlPayment route lock client))
    (chan_handle_ctl src (CtlPayment route lock client) w).
Proof.
  apply (upholds_bind (on_rt launched_has_peer)); [by apply update_upholds|intros _].
  pose proof on_channel_upholds. unfold send_p2p. upholds_auto.
Qed.

Lemma chan_handle_safe bus src msg w :
  launched_has_peer (rt w) → safe_at bus src msg (chan_handle bus src msg w).
Proof.
  intros Hw.
  assert (∀ p, panic_cause bus src msg p →
    safe_at bus src msg (E:=Error) (A:=unit) (Panic p, w)) as Hpanic.
  { intros p Hp. split; [done|]. by intros ? [= <-]. }
  destruct bus, msg as [ln| |ctl|rpc]; try (by split).
  - destruct src; try (apply Hpanic; by constructor).
    destruct rpc; try (by split); [|apply Hpanic; by constructor]. 
    apply (upholds_bind (on_rt launched_has_peer)); [|upholds_auto|done].
    upholds_auto.
  - destruct src; try (apply Hpanic; by constructor).
    destruct ln; try (by split); 
      (apply process_then_safe; [by split; eauto|done|by intros []|upholds_auto]).
  - destruct ctl; try (by split); 
      try (apply process_then_safe; [done|done|by intros []|upholds_auto]).
    + assert (launched_has_peer (set_remote_id (Some (na_id (ow_remote_peer r)))
        (set_enquirer (ow_report_to r) (rt w)))) by (split; [apply Hw|by eexists]).
      apply (process_then_safe BusIdCtl src (BusCtl (CtlOpenChannelWith r)) (λ _, mreturn tt)
        (with_rt (set_remote_id (Some (na_id (ow_remote_peer r))))
           (with_rt (set_enquirer (ow_report_to r)) w)));
        [done|done|by eexists|upholds_auto].
    + apply (process_then_safe BusIdCtl src (BusCtl (CtlAcceptChannelFrom r))
        (λ b : bool, if b then update (set_remote_id (Some (af_remote_id r)))
           else mreturn tt) (with_rt (set_remote_id (Some (af_remote_id r)))
           (with_rt (set_enquirer None) w))); [done|split; [apply Hw|by eexists]|by eexists|].
      intros [|]; [|upholds_auto]. intros w' Hw'. split; [|done].
      split; [apply Hw'|by eexists].
    + by apply payment_safe.
Qed.

(** C3. Every message handled by the channel daemon, on whatever bus and from whatever
    service, either leaves the stage of the channel as it was or takes the transition
    that the code's workflow has for this stage and message. Each of these transitions
    is one that the diagrams of [doc/workflows] and the comments of the stages document,
    or one of the listed deviations from them: the opener takes a report of a
    transaction that is not mined; the acceptor gets from Accepted to Signed by a
    keyset, from there to Funded by the peer's [funding_created], to Locked by the
    peer's [funding_locked] and to Active by a hello, with no report about the chain;
    and re-establishment activates a channel in every stage. No deviation is documented,
    and once it has accepted a channel the acceptor takes none of the transitions that
    are documented for its stage. A handler that fails leaves the stage as it was unless
    saving the state failed, and the daemon never enters a stage whose processing is not
    implemented. *)
Theorem handle_refines_workflow bus src msg w :
  wp (chan_handle bus src msg) (λ r w',
    let m := r_machine (rt w) in
    let m' := r_machine (rt w') in
    (m' = m ∨ next_stage m msg m' ∧ (documented_stage m msg m' ∨ deviating_stage m msg m')) ∧
    (deviating_stage m msg m' → ¬ documented_stage m msg m') ∧
    (accepting_stage m → ∀ m2, documented_stage m msg m2 → m' = m) ∧
    (match r with Ok _ | Err (EChannel (CePersistence _)) => True | _ => m' = m end) ∧
    (implemented m → implemented m')) w.
Proof.
  unfold wp. destruct (handle_stage bus src msg w) as [E|[Hn Hr]].
  - rewrite E. split_and!; [by left|apply deviating_undocumented|done| |done]. by case_all.
  - split_and!; [|apply deviating_undocumented| |by case_all|by eapply next_stage_implemented].
    + destruct (next_stage_cases _ _ _ Hn); auto.
    + intros Ha m2 Hd. by destruct (acceptor_undocumented _ _ _ _ Ha Hd Hn).
Qed.

(** The invariant holds on every run that starts with a fresh channel. *)
Lemma reaches_launched w0 msgs w :
  launched_has_peer (rt w0) → reaches w0 msgs w → launched_has_peer (rt w).
Proof.
  intros H0'. induction 1 as [|msgs w bus src msg r w' Hr IH Hh Hp]; [done|].
  pose proof (chan_handle_safe bus src msg w IH) as [HI _]. by rewrite Hh in HI.
Qed.

(** C22. A run of the channel daemon that starts with a fresh channel panics only on the
    messages, and with the texts, listed by [panic_cause]; in particular the [todo!()]
    of the stages that are not implemented, the missing remote peer inside the channel
    workflows and the non-peer source of [channel_reestablish] are unreachable. *)
Theorem channeld_panics_only_for_listed_causes w0 msgs w bus src msg p w' :
  r_machine (rt w0) = CsLaunch → reaches w0 msgs w →
  chan_handle bus src msg w = (Panic p, w') → panic_cause bus src msg p.
Proof.
  intros Hl Hr Hp. assert (launched_has_peer (rt w0)) as H0' by (split; rewrite Hl; done).
  destruct (chan_handle_safe bus src msg w) as [_ Hs]; [by eapply reaches_launched|].
  rewrite Hp in Hs. by apply Hs.
Qed.
End safety.
