(* ===== verification/ChannelStore.v ===== *)
(** * Persistence of the channel state

    What [save_state], [set_identity] and [process] leave on disk, and what
    [run] restores from it. *)

From S2P Require Import Prelude.
From S2P Require Import Bus.
From S2P Require Import Service.
From S2P Require Import Files.
From S2P Require Import Config.
From S2P Require Import ChannelRuntime.
From S2P Require Import Propose.
From S2P Require Import Accept.
From S2P Require Import Machine.
From S2P Require Import ChannelFacts.
From S2P Require Import ChannelCorrect.

Local Open Scope rust_scope.

Section store.
Context `{Sys, !LnpCore, !StateCodec, !Fmt}.

Definition file_data (w : World Runtime) : list N :=
  inode_data (disk w) (f_inode (r_file (rt w))).

(** The state on disk: its encoding, maybe followed by the end of a longer one
    written before. *)
Definition stored (w : World Runtime) : Prop :=
  ∃ rest, file_data w = encode_state (r_state (rt w)) ++ rest.

(** The daemon's file is the one named by [p]. *)
Definition linked (p : PathBuf) (w : World Runtime) : Prop :=
  d_names (disk w) !! p = Some (f_inode (r_file (rt w))).

Lemma save_state_ok w a w' :
  save_state w = (Ok a, w') →
  stored w' ∧ d_names (disk w') = d_names (disk w) ∧
  (∃ h, rt w' = set_file h (rt w) ∧ f_inode h = f_inode (r_file (rt w))) ∧
  file_data w' = encode_state (r_state (rt w))
    ++ drop (length (encode_state (r_state (rt w)))) (file_data w).
Proof.
  unfold save_state, self, update. intros E. run_inv E.
  apply file_seek_start_ok in Hrun as (E1 & E2 & ->).
  apply file_write_ok in Hrun0 as (E3 & E4 & E5).
  apply file_sync_ok in Hrun1 as (E6 & E7). simpl in *.
  rename x0 into w. unfold stored, file_data.
  rewrite E6, E7, E3, E4, E1, E2. simpl. rewrite E5.
  rewrite (disk_write_data {| f_inode := f_inode (r_file (rt w)); f_pos := 0 |}).
  simpl. rewrite overwrite_0. split_and!; [by eexists|done| |done].
  exists x2. by split.
Qed.

(** Renaming the channel: the state moves to the file of the new id, and the
    file of the old id is removed, which is the same file when the id of the
    channel had changed before. *)
Lemma set_identity_ok cid w a w' :
  set_identity cid w = (Ok a, w') →
  let old := channel_file (r_config (rt w)) (active_channel_id (r_channel (rt w))) in
  let new := channel_file (r_config (rt w)) (ActStatic cid) in
  r_state (rt w') = r_state (rt w) ∧ r_identity (rt w') = ChannelSvc cid ∧
  r_config (rt w') = r_config (rt w) ∧ file_data w' = encode_state (r_state (rt w')) ∧
  d_names (disk w') !! old = None ∧ (old ≠ new → linked new w').
Proof.
  unfold set_identity, self, update, ep_set_identity. intros E. run_inv E.
  apply file_sync_ok in Hrun as [E1 E2].
  apply file_create_ok in Hrun0 as (E3 & _ & E5 & E6).
  apply attempt_inv in Hrun1. destruct x4 as [e|[]]; run_inv Hrun2.
  apply save_state_ok in Hrun1 as (_ & Hn & (h & Hrt & Hh) & Hd).
  apply perform_ok in Hrun3, Hrun4, Hrun5. subst.
  apply file_remove_ok in Hrun6 as [E7 E8]. rename x1 into w.
  simpl in *. rewrite E1 in *. unfold linked, file_data in *. simpl in *.
  rewrite E7, E8, Hrt, E3 in *. simpl in *. rewrite E5, E6, Hh in *.
  rewrite disk_create_data, drop_nil, app_nil_r in Hd. rewrite Hn.
  split_and!; [done..|by rewrite lookup_delete_eq|].
  intros Hne. rewrite lookup_delete_ne by done. apply disk_create_name.
Qed.

(** Starting the daemon when the file of the channel is there. *)
Lemma run_restores cfg id (w : World unit) i st :
  io_reply (hist w) (FsOpen (channel_file cfg id)) = None →
  d_names (disk w) !! channel_file cfg id = Some i →
  decode_state (inode_data (disk w) i) = inr st →
  ∃ w', run cfg id w = (Ok {| r_identity := ChannelSvc (MkChannelId (as_slice32 id));
    r_config := cfg; r_state := st; r_file := {| f_inode := i; f_pos := 0 |};
    r_enquirer := None |}, w').
Proof.
  intros Hio Hn Hd. eexists. unfold run, file_open, fs, perform.
  unfold attempt, bind, get. rewrite Hio. simpl. rewrite Hn. simpl. by rewrite Hd.
Qed.

(** ... and when it is not, for a channel past its temporary id. *)
Lemma run_without_file cfg cid (w : World unit) :
  d_names (disk w) !! channel_file cfg (ActStatic cid) = None →
  ∃ w', run cfg (ActStatic cid) w = (Err (EChannel CeNoPersistantData), w').
Proof.
  intros Hn. unfold run, file_open, fs, perform, attempt, bind, get.
  destruct (io_reply _ _); simpl; [by eexists|]. rewrite Hn. by eexists.
Qed.

Definition codec_round_trip : Prop :=
  ∀ s rest, decode_state (encode_state s ++ rest) = inr s.

(** C14. After a message that updated the channel, a daemon restarted over the same disk
    finds exactly the state the stopped one had (stage, channel and remote peer), given
    that the strict encoding round-trips and the state file is linked under its name. *)
Theorem step_survives_restart src req w w' cfg id (w2 : World unit) :
  codec_round_trip →
  process src req w = (Ok true, w') → linked (channel_file cfg id) w' →
  disk w2 = disk w' → io_reply (hist w2) (FsOpen (channel_file cfg id)) = None →
  ∃ r w3, run cfg id w2 = (Ok r, w3) ∧ r_state r = r_state (rt w').
Proof.
  intros Hcodec Hproc Hlink Hdisk Hio.
  destruct (process_spec src req w) as (w0 & ev & _ & _ & _ & _ & _ & Hspec).
  destruct (process_event ev w0) as [[[]|e|p] w1].
  - destruct Hspec as (w4 & _ & _ & E). rewrite Hproc in E. symmetry in E. run_inv E.
    apply save_state_ok in Hrun as ((rest & Hst) & _).
    edestruct run_restores as [w5 E5]; [done|by rewrite Hdisk| |by eauto].
    injection E as ->. rewrite Hdisk. unfold file_data in Hst. rewrite Hst. apply Hcodec.
  - destruct Hspec as (? & _ & _ & E). rewrite Hproc in E. by destruct e.
  - congruence.
Qed.

(** C18. When a channel takes its permanent id, the state is found under the new file
    name by a restarted daemon, together with the new identity, and the file of the
    temporary id is gone; when the two names coincide, the state file itself is deleted
    and the restart fails with [NoPersistantData]. *)
Theorem rename_survives_restart cid w w' (w2 : World unit) :
  codec_round_trip →
  set_identity cid w = (Ok tt, w') → disk w2 = disk w' →
  let cfg := r_config (rt w) in
  let old := channel_file cfg (active_channel_id (r_channel (rt w))) in
  let new := channel_file cfg (ActStatic cid) in
  io_reply (hist w2) (FsOpen new) = None →
  d_names (disk w') !! old = None ∧
  if decide (old = new)
  then ∃ w3, run cfg (ActStatic cid) w2 = (Err (EChannel CeNoPersistantData), w3)
  else ∃ r w3, run cfg (ActStatic cid) w2 = (Ok r, w3) ∧
         r_state r = r_state (rt w) ∧ r_identity r = r_identity (rt w').
Proof.
  intros Hcodec Hset Hdisk cfg old new Hio.
  apply set_identity_ok in Hset as (Es & Ei & Ec & Hdata & Hold & Hnew).
  split; [done|]. case_decide as Hc.
  - apply run_without_file. rewrite Hdisk. fold cfg. fold new. by rewrite <-Hc.
  - edestruct (run_restores cfg (ActStatic cid) w2) as [w5 E5]; [done| | |].
    + rewrite Hdisk. by apply Hnew.
    + rewrite Hdisk. unfold file_data in Hdata. rewrite Hdata.
      specialize (Hcodec (r_state (rt w')) []). rewrite app_nil_r in Hcodec. exact Hcodec.
    + eexists _, _. split; [exact E5|]. simpl. rewrite Ei. by destruct cid.
Qed.
End store.
