(* ===== verification/Wallet.v ===== *)
(** * The funding wallet of lnpd ([src/lnpd/funding.rs])

    Scanning for funds, coin selection, the construction of funding
    transactions and the persistence of the wallet.  The descriptor wallet, the
    PSBT library and the Electrum server are the fields of the class
    [WalletLib]; floating-point numbers are IEEE 754 binary64 as in
    [SpecFloat]. *)

From Stdlib Require Import ZArith SpecFloat.
From S2P Require Import Prelude.
From S2P Require Import Bus.
From S2P Require Import Service.
From S2P Require Import Config.

Local Open Scope rust_scope.

(** [2u32 * 1000 * 4] *)
Definition default_feerate_per_kw : N := 2 * 1000 * 4.

Definition OutPoint : Set := Txid * N.

Section data.
Context `{Ext}.

Record Utxo := { utxo_outpoint : OutPoint; utxo_amount : N }.

Record Account := {
  master_fingerprint : option N;
  account_fingerprint : N;
  account_path : list N }.

Record InputDescriptor := { in_outpoint : OutPoint; in_terminal : list N }.

Record Funds := {
  f_outpoint : OutPoint;
  f_terminal : list N;
  f_script : PubkeyScript;
  f_amount : N }.

Record PendingFunding := {
  pf_temp_channel_id : TempChannelId;
  pf_funding_txid : Txid;
  pf_prev_outpoints : list OutPoint;
  pf_psbt : Psbt }.
End data.

Class WalletLib `{Ext} := {
  Descriptor : Type;
  Network : Type;
  is_bitcoin_network : Network → bool;
  chain_network : Chain → option Network;
  descriptor_network : Descriptor → bool → Opaque + Network;
  descriptor_keys : Descriptor → list Account;
  max_satisfaction_weight : Descriptor → option N;
  derive_script : Descriptor → list N → Opaque + PubkeyScript;
  address_from_script : PubkeyScript → Network → option AddressCompat;
  electrum_connect : History → string → option string;
  resolve_utxos : History → Descriptor → N → N → N → string + list (N * (PubkeyScript * list Utxo));
  estimate_fee : History → string + spec_float;
  broadcast : History → Psbt → option string;
  (** inputs, the output's script and amount, change index, fee *)
  psbt_construct : History → Descriptor → list InputDescriptor → PubkeyScript → N → N → N →
    option Psbt;
  map_key_sources : (N * list N → N * list N) → Psbt → Psbt;
  set_channel_funding_output : N → Psbt → option Psbt;
  psbt_weight : Psbt → N;
  psbt_txid : Psbt → Txid;
  channel_funding_outpoint : Psbt → Opaque + OutPoint;
  psbt_finalize : Psbt → Opaque + Psbt }.

Section wallet_data.
Context `{WalletLib}.

Record WalletData := {
  w_descriptor : Descriptor;
  w_last_normal_index : N;
  w_last_change_index : N;
  w_last_rgb_index : list (Slice32 * N);
  w_pending : gmap Txid PendingFunding }.

Record FundingWallet := {
  fw_network : Network;
  fw_feerate_per_kw : N;
  fw_file : File;
  fw_data : WalletData }.

Definition set_feerate (n : N) (w : FundingWallet) : FundingWallet := {|
  fw_network := fw_network w; fw_feerate_per_kw := n; fw_file := fw_file w;
  fw_data := fw_data w |}.
Definition set_wallet_file (f : File) (w : FundingWallet) : FundingWallet := {|
  fw_network := fw_network w; fw_feerate_per_kw := fw_feerate_per_kw w; fw_file := f;
  fw_data := fw_data w |}.
Definition set_data (g : WalletData → WalletData) (w : FundingWallet) : FundingWallet := {|
  fw_network := fw_network w; fw_feerate_per_kw := fw_feerate_per_kw w;
  fw_file := fw_file w; fw_data := g (fw_data w) |}.
Definition set_indexes (normal change : N) : FundingWallet → FundingWallet := set_data (λ d,
  {| w_descriptor := w_descriptor d; w_last_normal_index := normal;
     w_last_change_index := change; w_last_rgb_index := w_last_rgb_index d;
     w_pending := w_pending d |}).
Definition add_pending (txid : Txid) (p : PendingFunding) : FundingWallet → FundingWallet :=
  set_data (λ d,
  {| w_descriptor := w_descriptor d; w_last_normal_index := w_last_normal_index d;
     w_last_change_index := w_last_change_index d; w_last_rgb_index := w_last_rgb_index d;
     w_pending := <[txid := p]> (w_pending d) |}).

Definition w_change (w : FundingWallet) : N := w_last_change_index (fw_data w).
Definition w_normal (w : FundingWallet) : N := w_last_normal_index (fw_data w).
End wallet_data.

Class WalletCodec `{WalletLib} := {
  encode_wallet : WalletData → list N;
  decode_wallet : list N → StrictErr + WalletData }.

(** [UnhardenedIndex]: 31 bits. *)
Definition checked_inc (i : N) : option N :=
  if decide (i + 1 < 2 ^ 31)%N then Some (i + 1)%N else None.
Definition inc_or_zero (i : N) : N := default 0%N (checked_inc i).

(** [(fee_estimate * 100_000_000.0 / 4.0) as u32]: an [as] cast truncates and
    saturates. *)
Definition f64_mul := SFmul 53 1024.
Definition f64_div := SFdiv 53 1024.
Definition f64_of (z : Z) : spec_float := binary_normalize 53 1024 z 0 false.
Definition f64_as_u32 (f : spec_float) : N :=
  match f with
  | S754_finite false m e => N.min (2 ^ 32 - 1) (Z.to_N (Z.shiftl (Zpos m) e))
  | S754_infinity false => 2 ^ 32 - 1
  | _ => 0
  end.
Definition feerate_of_estimate (f : spec_float) : N :=
  f64_as_u32 (f64_div (f64_mul f (f64_of 100000000)) (f64_of 4)).

Record ElectrumErr := { electrum_err : string }.
#[export] Instance from_electrum_funding `{Ext} : From ElectrumErr FundingErr :=
  λ e, FeElectrum (electrum_err e).

(** ** Operations *)

Section wallet.
Context `{Sys, !WalletLib, !WalletCodec, !Build}.

Definition FW (E A : Type) : Type := W FundingWallet E A.

Definition electrum {E A} `{From ElectrumErr E} {R} (o : NetOp) (reply : History → string + A)
    : W R E A :=
  q (query (λ h, match reply h with
                 | inl e => inl {| electrum_err := e |}
                 | inr a => inr a
                 end) (OpNet o)).

Definition save : FW FundingErr unit :=
  let! f := self fw_file in
  let? f := file_seek_start f in
  do! update (set_wallet_file f) in
  let! d := self fw_data in
  let? f := (let? f' := file_write f (encode_wallet d) in mreturn f' : W _ StrictErr _) in
  update (set_wallet_file f).

Definition update_fees : FW FundingErr N :=
  let! fee_estimate := electrum NetEstimateFee estimate_fee in
  do! (if SFeqb fee_estimate (f64_of (-1)) then mreturn tt
       else update (set_feerate (feerate_of_estimate fee_estimate))) in
  self fw_feerate_per_kw.

(** ** Opening the wallet *)

Definition connect_reply (url : string) (h : History) : string + unit :=
  match electrum_connect h url with Some e => inl e | None => inr tt end.

Definition init {R} (network : Network) (data : WalletData) (file : File) (url : string)
    : W R FundingErr FundingWallet :=
  do! electrum (NetConnect url) (connect_reply url) in
  let! r := building {| fw_network := network; fw_feerate_per_kw := default_feerate_per_kw;
                        fw_file := file; fw_data := data |} update_fees in
  mreturn r.1.

Definition is_regtest (c : Chain) : bool :=
  match c with Regtest _ => true | _ => false end.

(** [FundingWallet::new] *)
Definition wallet_new {R} (c : Chain) (path : PathBuf) (descriptor : Descriptor) (url : string)
    : W R FundingErr FundingWallet :=
  let? file := file_create path in
  let data := {|
    w_descriptor := descriptor; w_last_normal_index := 0; w_last_change_index := 0;
    w_last_rgb_index := []; w_pending := ∅ |} in
  let? file := (let? f' := file_write file (encode_wallet data) in mreturn f' : W _ StrictErr _) in
  let! network := ok_or FeChainNotSupported (chain_network c) in
  init network data file url.

(** [FundingWallet::with] *)
Definition wallet_with {R} (c : Chain) (path : PathBuf) (url : string)
    : W R FundingErr FundingWallet :=
  let? file := file_open path in
  let! w := get in
  let? data := of_sum (decode_wallet (inode_data (disk w) (f_inode file))) in
  let! target_network := ok_or FeChainNotSupported (chain_network c) in
  let! wallet_network :=
    match descriptor_network (w_descriptor data) (is_regtest c) with
    | inl e => mfail (FeDerivation e)
    | inr n => mreturn n
    end in
  let is_correct_network :=
    match is_bitcoin_network wallet_network, is_bitcoin_network target_network with
    | true, true => true
    | true, false => false
    | false, true => false
    | false, false => true
    end in
  if is_correct_network then init target_network data file url
  else mfail FeChainMismatch.

(** ** Funds *)

Definition used_outputs (d : WalletData) : list OutPoint :=
  (map_to_list (w_pending d)).*2 ≫= pf_prev_outpoints.

(** The closure [lookup]: the free outputs of the addresses derived so far and
    of the next twenty, and the index after the last one in use. *)
Fixpoint scan_rows (used : list OutPoint) (case : N)
    (rows : list (N * (PubkeyScript * list Utxo))) (last_index : N) : list Funds * N :=
  match rows with
  | [] => ([], last_index)
  | (index, (script, utxos)) :: rows =>
      let free := filter (λ u, utxo_outpoint u ∉ used) utxos in
      match free with
      | [] => scan_rows used case rows last_index
      | _ =>
          let last_index' :=
            if decide (last_index ≤ index)%N then inc_or_zero index else last_index in
          let '(funds, last) := scan_rows used case rows last_index' in
          (((λ u, {| f_outpoint := utxo_outpoint u; f_terminal := [case; index];
                     f_script := script; f_amount := utxo_amount u |}) <$> free) ++ funds,
           last)
      end
  end.

Definition lookup_funds (case last_index : N) : FW FundingErr (list Funds * N) :=
  let! d := self fw_data in
  let count := N.min (last_index + 20) (2 ^ 32 - 1) in
  let! rows := electrum (NetUtxos case 0 count)
                 (λ h, resolve_utxos h (w_descriptor d) case 0 count) in
  mreturn (scan_rows (used_outputs d) case rows last_index).

Definition list_funds : FW FundingErr (list Funds) :=
  let! normal := self w_normal in
  let! change := self w_change in
  let! ' (funds, normal') := lookup_funds 0 normal in
  let! ' (more, change') := lookup_funds 1 change in
  do! update (set_indexes normal' change') in
  do! save in
  mreturn (funds ++ more).

Definition next_funding_address : FW FundingErr AddressCompat :=
  let! w := self (λ w, w) in
  match derive_script (w_descriptor (fw_data w)) [0%N; w_normal w] with
  | inl e => mfail (FeDerivation e)
  | inr spk =>
      expect "Incorrect scriptPubkey to represents address"
        (address_from_script spk (fw_network w))
  end.

(** ** Coin selection *)

(** [sort_by_key(|f| f.amount)]: a stable sort. *)
Fixpoint insert_fund (f : Funds) (l : list Funds) : list Funds :=
  match l with
  | [] => [f]
  | g :: l' => if decide (f_amount f ≤ f_amount g)%N then f :: l else g :: insert_fund f l'
  end.
Definition sort_funds (l : list Funds) : list Funds := foldr insert_fund [] l.

(** [take_while] with the running total [acc]. *)
Fixpoint take_funds {S E} (amount_and_fee acc : N) (l : list Funds)
    : M S E (list Funds * N) :=
  match l with
  | [] => mreturn ([], acc)
  | f :: l =>
      if decide (amount_and_fee ≤ acc)%N then mreturn ([], acc)
      else
        let! acc' := u64 (acc + f_amount f) in
        let! ' (taken, total) := take_funds amount_and_fee acc' l in
        mreturn (f :: taken, total)
  end.

Definition input_of (f : Funds) : InputDescriptor :=
  {| in_outpoint := f_outpoint f; in_terminal := f_terminal f |}.

(** ** The funding transaction *)

Definition root_derivations (d : Descriptor) : list (N * (N * list N)) :=
  omap (λ a, match master_fingerprint a with
             | Some fp => Some (account_fingerprint a, (fp, account_path a))
             | None => None
             end) (descriptor_keys d).

(** A later key of the descriptor replaces an earlier one in the map. *)
Definition full_source (roots : list (N * (N * list N))) (src : N * list N) : N * list N :=
  match (list_to_map (reverse roots) : gmap N (N * list N)) !! src.1 with
  | Some (fp, path) => (fp, path ++ src.2)
  | None => src
  end.

Definition diverges : string := "the fee does not converge".

(** What [Psbt::construct] answers, which asks the resolver for the transactions that
    the inputs spend. *)
Definition construct_reply (d : Descriptor) (inputs : list InputDescriptor)
    (script : PubkeyScript) (amount change_index fee : N) (h : History) : unit + Psbt :=
  match psbt_construct h d inputs script amount change_index fee with
  | Some psbt => inr psbt
  | None => inl tt
  end.

(** The construction loop; [fuel] bounds the rounds, and a run that needs more
    is one that the code has not returned from. *)
Fixpoint fee_loop (fuel : nat) (d : Descriptor) (inputs : list InputDescriptor)
    (script : PubkeyScript) (amount change_index feerate_per_kw fee : N)
    : FW FundingErr Psbt :=
  match fuel with
  | 0 => mpanic diverges
  | S fuel =>
      let! psbt := expect_ok "funding PSBT construction is broken"
        (query (construct_reply d inputs script amount change_index fee) (OpNet NetConstruct)) in
      let psbt := map_key_sources (full_source (root_derivations d)) psbt in
      let! psbt := expect "hardcoded funding output number" (set_channel_funding_output 0 psbt) in
      let! witness_weight :=
        u64 (default 256%N (max_satisfaction_weight d) * N.of_nat (length inputs)) in
      let! weight := u64 (psbt_weight psbt + witness_weight) in
      let! product := u64 (weight * feerate_per_kw) in
      let precise_fee := (product / 1000)%N in
      if decide (precise_fee = fee) then mreturn psbt
      else fee_loop fuel d inputs script amount change_index feerate_per_kw precise_fee
  end.

Definition construct_funding_psbt (fuel : nat) (temp_channel_id : TempChannelId)
    (script : PubkeyScript) (amount : N) (feerate_per_kw : option N) : FW FundingErr Psbt :=
  let! own_rate := self fw_feerate_per_kw in
  let feerate_per_kw := default own_rate feerate_per_kw in
  let! fee_upper_est := u64 (2 * feerate_per_kw) in
  let! amount_and_fee := u64 (amount + fee_upper_est) in
  let! funds := list_funds in
  let! ' (selected, acc) := take_funds amount_and_fee 0 (reverse (sort_funds funds)) in
  let inputs := input_of <$> selected in
  if decide (acc < amount_and_fee)%N then mfail FeInsufficientFunds
  else
    let! change_index := self w_change in
    let! normal := self w_normal in
    do! update (set_indexes normal (inc_or_zero change_index)) in
    let! d := self fw_data in
    let! psbt := fee_loop fuel (w_descriptor d) inputs script amount change_index
                   feerate_per_kw fee_upper_est in
    let txid := psbt_txid psbt in
    do! update (add_pending txid {|
          pf_temp_channel_id := temp_channel_id;
          pf_funding_txid := txid;
          pf_prev_outpoints := in_outpoint <$> inputs;
          pf_psbt := psbt |}) in
    mreturn psbt.

Definition get_funding_psbt (txid : Txid) (w : FundingWallet) : option Psbt :=
  pf_psbt <$> w_pending (fw_data w) !! txid.

(** [&self]: publishing only looks at the resolver. *)
Definition publish {R} (psbt : Psbt) : W R FundingErr unit :=
  match psbt_finalize psbt with
  | inl e => mfail (FeFinalizing e)
  | inr tx =>
      electrum (NetBroadcast tx)
        (λ h, match broadcast h tx with Some e => inl e | None => inr tt end)
  end.
End wallet.
