(* ===== verification/WalletCorrect.v ===== *)
(** * Properties of the funding wallet

    Coin selection (enough, and with as few coins as possible), pending
    fundings that never share a coin, and the loop that computes the fee. *)

From Stdlib Require Import ZArith SpecFloat.
From S2P Require Import Prelude.
From S2P Require Import Bus.
From S2P Require Import Service.
From S2P Require Import Files.
From S2P Require Import Config.
From S2P Require Import Wallet.

Local Open Scope rust_scope.

(** ** Totals of funds *)

Section totals.
Context `{Ext}.

Definition total (l : list Funds) : N := foldr (λ f acc, f_amount f + acc)%N 0%N l.

Lemma total_app l1 l2 : total (l1 ++ l2) = (total l1 + total l2)%N.
Proof. unfold total. induction l1 as [|f l1 IH]; simpl; [done|]. rewrite IH. lia. Qed.

#[export] Instance total_proper : Proper ((≡ₚ) ==> (=)) total.
Proof.
  intros l1 l2. unfold total. induction 1; simpl; [done|congruence|lia|congruence].
Qed.

Lemma total_submseteq l1 l2 : l1 ⊆+ l2 → (total l1 ≤ total l2)%N.
Proof.
  intros Hs. apply submseteq_Permutation in Hs as [k ->]. rewrite total_app. lia.
Qed.

(** ** Sorting *)

Definition richer (f g : Funds) : Prop := (f_amount g ≤ f_amount f)%N.

Lemma insert_fund_perm f l : insert_fund f l ≡ₚ f :: l.
Proof.
  induction l as [|g l IH]; simpl; [done|]. case_decide; [done|]. rewrite IH. constructor.
Qed.
Lemma sort_funds_perm l : sort_funds l ≡ₚ l.
Proof.
  unfold sort_funds. induction l as [|f l IH]; simpl; [done|].
  by rewrite insert_fund_perm, IH.
Qed.

Lemma insert_fund_sorted f l :
  StronglySorted (flip richer) l → StronglySorted (flip richer) (insert_fund f l).
Proof.
  unfold flip, richer. induction 1 as [|g l Hl IH Hg]; simpl; [by repeat constructor|].
  case_decide as Hd.
  - constructor; [by constructor|]. constructor; [done|].
    eapply Forall_impl; [exact Hg|]. simpl. intros. lia.
  - constructor; [done|]. rewrite insert_fund_perm. constructor; [lia|done].
Qed.
Lemma sort_funds_sorted l : StronglySorted (flip richer) (sort_funds l).
Proof.
  unfold sort_funds. induction l; simpl; [constructor | by apply insert_fund_sorted].
Qed.

Lemma reverse_sorted {A} (R : relation A) l :
  StronglySorted R l → StronglySorted (flip R) (reverse l).
Proof.
  induction 1 as [|x l Hl IH Hx]; [constructor|]. rewrite reverse_cons.
  apply StronglySorted_app. split_and!; [|done|by repeat constructor].
  intros y z Hy Hz. apply list_elem_of_singleton in Hz as ->. rewrite Forall_forall in Hx.
  apply Hx. by apply elem_of_reverse.
Qed.

(** The order in which coins are tried: the largest first. *)
Definition by_amount (l : list Funds) : list Funds := reverse (sort_funds l).

Lemma by_amount_perm l : by_amount l ≡ₚ l.
Proof. unfold by_amount. by rewrite reverse_Permutation, sort_funds_perm. Qed.
Lemma by_amount_sorted l : StronglySorted richer (by_amount l).
Proof. apply (reverse_sorted (flip richer)), sort_funds_sorted. Qed.

(** ** The largest coins are worth the most *)

Lemma total_take_cons x l k :
  Forall (richer x) l → (total (take k l) ≤ total (take k (x :: l)))%N.
Proof.
  revert x k. induction l as [|y l IH]; intros x [|k] Hx; simpl; try lia.
  apply Forall_cons in Hx as [Hxy Hx]. unfold richer in Hxy.
  specialize (IH x k Hx). destruct k as [|k]; simpl in *; [|lia].
  change (total []) with 0%N. lia.
Qed.

Lemma largest_first other l :
  StronglySorted richer l → other ⊆+ l → (total other ≤ total (take (length other) l))%N.
Proof.
  intros Hl. revert other. induction Hl as [|x l Hl IH Hx]; intros other Hsub.
  { apply submseteq_nil_r in Hsub as ->. done. }
  apply submseteq_cons_r in Hsub as [Hsub|(k & Hk & Hsub)].
  - etrans; [by apply IH|]. by apply total_take_cons.
  - rewrite Hk. simpl. specialize (IH _ Hsub). lia.
Qed.
End totals.

(** ** Coin selection *)

Section selection.
Context `{Ext, Build}.

(** [take_funds] takes a prefix: everything when that is not enough, and
    otherwise nothing more than needed. *)
Definition selection (target : N) (l taken : list Funds) : Prop :=
  ∃ rest, l = taken ++ rest ∧
    ((total taken < target)%N → rest = []) ∧
    (∀ pre x, taken = pre ++ [x] → (total pre < target)%N).

Lemma u64_ok {S E} n (s : S) : (n ≤ u64_max)%N → u64 (E:=E) n s = (Ok n, s).
Proof. intros Hn. unfold u64. by rewrite decide_True. Qed.

Lemma take_funds_ok {S E} target acc l (s : S) :
  (acc + total l ≤ u64_max)%N →
  ∃ taken, take_funds (E:=E) target acc l s = (Ok (taken, acc + total taken)%N, s) ∧
    ∃ rest, l = taken ++ rest ∧
    ((acc + total taken < target)%N → rest = []) ∧
    (∀ pre x, taken = pre ++ [x] → (acc + total pre < target)%N).
Proof.
  revert acc. induction l as [|f l IH]; intros acc Hmax; simpl in *.
  { exists []. rewrite N.add_0_r. split; [done|]. exists []. split_and!; [done..|].
    by intros []. }
  case_decide as Hd.
  - exists []. rewrite N.add_0_r. split; [done|]. exists (f :: l). split_and!; [done|lia|].
    by intros [].
  - assert (acc + f_amount f ≤ u64_max)%N as Hacc by lia.
    rewrite (bind_ok _ _ _ _ _ (u64_ok _ _ Hacc)).
    destruct (IH (acc + f_amount f)%N) as (taken & Et & rest & -> & Hr & Hp); [lia|].
    exists (f :: taken). rewrite (bind_ok _ _ _ _ _ Et). simpl.
    rewrite N.add_assoc. split; [done|]. exists rest. split_and!; [done..|].
    intros [|g pre] x; simpl; intros [= -> Epre]; [lia|].
    rewrite N.add_assoc. by eapply Hp.
Qed.

(** No choice of coins that reaches the target uses fewer of them. *)
Lemma selection_minimal target funds taken other :
  selection target (by_amount funds) taken →
  other ⊆+ funds → (target ≤ total other)%N → length taken ≤ length other.
Proof.
  intros (rest & El & _ & Hp) Hsub Ht.
  destruct taken as [|x taken _] using rev_ind; [simpl; lia|].
  specialize (Hp taken x eq_refl). rewrite length_app. simpl.
  destruct (decide (length other ≤ length taken)) as [Hle|]; [|lia]. exfalso.
  assert (other ⊆+ by_amount funds) as Hsub' by (by rewrite by_amount_perm).
  apply largest_first in Hsub'; [|apply by_amount_sorted].
  rewrite El, <-app_assoc, take_app_le in Hsub' by done.
  assert (total (take (length other) taken) ≤ total taken)%N.
  { rewrite <-(take_drop (length other) taken) at 2. rewrite total_app. lia. }
  lia.
Qed.
End selection.

(** ** Constructing the funding transaction *)

Section construct.
Context `{Sys, !WalletLib, !WalletCodec, !Build}.

(** [list_funds] offers only coins no pending funding spends. *)
Definition free_of (d : WalletData) (funds : list Funds) : Prop :=
  ∀ f, f ∈ funds → f_outpoint f ∉ used_outputs d.

Lemma scan_rows_free used case rows last :
  ∀ f, f ∈ (scan_rows used case rows last).1 → f_outpoint f ∉ used.
Proof.
  revert last. induction rows as [|[index [script utxos]] rows IH]; intros last f; simpl.
  { by intros ?%not_elem_of_nil. }
  destruct (filter _ utxos) as [|u free] eqn:Ef; [by apply IH|].
  specialize (IH (if decide (last ≤ index)%N then inc_or_zero index else last) f).
  destruct (scan_rows used case rows _) as [funds l]. simpl in *.
  intros [-> | Hf]%elem_of_cons.
  - simpl. assert (u ∈ filter (λ u, utxo_outpoint u ∉ used) utxos) as Hu
      by (rewrite Ef; apply list_elem_of_here).
    by apply list_elem_of_filter in Hu as [? _].
  - apply elem_of_app in Hf as [Hf|]; [|by apply IH].
    apply list_elem_of_fmap in Hf as (v & -> & Hv). simpl.
    assert (v ∈ filter (λ u, utxo_outpoint u ∉ used) utxos) as Hu
      by (rewrite Ef; by apply list_elem_of_further).
    by apply list_elem_of_filter in Hu as [? _].
Qed.

Lemma save_ok w a w' :
  save w = (Ok a, w') →
  fw_data (rt w') = fw_data (rt w) ∧ fw_feerate_per_kw (rt w') = fw_feerate_per_kw (rt w) ∧
  fw_network (rt w') = fw_network (rt w) ∧ d_names (disk w') = d_names (disk w) ∧
  f_inode (fw_file (rt w')) = f_inode (fw_file (rt w)) ∧
  ∃ rest, inode_data (disk w') (f_inode (fw_file (rt w'))) = encode_wallet (fw_data (rt w)) ++ rest.
Proof.
  unfold save, self, update. intros E. run_inv E.
  apply file_seek_start_ok in Hrun as (E1 & E2 & ->).
  apply file_write_ok in Hrun1 as (E3 & E4 & E5). simpl in *.
  rewrite E3, E4, E2, E1. simpl. rewrite E5. split_and!; [done..|].
  rewrite (disk_write_data {| f_inode := f_inode (fw_file (rt x0)); f_pos := 0 |}).
  simpl. rewrite overwrite_0. by eexists.
Qed.

Lemma lookup_funds_ok case last w r w' :
  lookup_funds case last w = (Ok r, w') →
  rt w' = rt w ∧ disk w' = disk w ∧ free_of (fw_data (rt w)) r.1.
Proof.
  unfold lookup_funds, electrum, self. intros E. run_inv E.
  apply query_ok in Hrun as [_ ->]. split_and!; [done..|].
  intros f. apply scan_rows_free.
Qed.

(** Listing funds keeps the pending fundings, offers only free coins, and
    leaves the wallet saved. *)
Lemma list_funds_ok w funds w' :
  list_funds w = (Ok funds, w') →
  free_of (fw_data (rt w)) funds ∧
  w_pending (fw_data (rt w')) = w_pending (fw_data (rt w)) ∧
  w_descriptor (fw_data (rt w')) = w_descriptor (fw_data (rt w)) ∧
  fw_feerate_per_kw (rt w') = fw_feerate_per_kw (rt w) ∧
  d_names (disk w') = d_names (disk w) ∧
  f_inode (fw_file (rt w')) = f_inode (fw_file (rt w)) ∧
  ∃ rest, inode_data (disk w') (f_inode (fw_file (rt w'))) =
    encode_wallet (fw_data (rt w')) ++ rest.
Proof.
  unfold list_funds, self, update. intros E. run_inv E.
  destruct x as [f1 n1]. run_inv E.
  match goal with x : (list Funds * N)%type |- _ => destruct x as [f2 n2] end. run_inv E.
  apply lookup_funds_ok in Hrun as (E1 & E2 & F1).
  apply lookup_funds_ok in Hrun0 as (E3 & E4 & F2). 
  apply save_ok in Hrun1 as (E5 & E6 & E7 & E8 & E9 & rest & E10).
  simpl in *. rewrite E5, E6, E8, E9, E4, E2, E3, E1 in *. simpl.
  split_and!; [|done..| by eexists]. intros f [?|?]%elem_of_app; [by apply F1|by apply F2].
Qed.

(** ** The fee loop *)

Lemma u64_inv {S E} n (s : S) m s' :
  u64 (E:=E) n s = (Ok m, s') → s' = s ∧ ((n ≤ u64_max)%N → m = n).
Proof.
  unfold u64. case_decide as Hd; [by intros [= <- <-]|].
  destruct debug_assertions; intros [= <- <-]. by split.
Qed.

Definition witness_weight (d : Descriptor) (inputs : list InputDescriptor) : N :=
  default 256%N (max_satisfaction_weight d) * N.of_nat (length inputs).
Definition fee_of (d : Descriptor) (inputs : list InputDescriptor) (rate : N) (psbt : Psbt) : N :=
  (psbt_weight psbt + witness_weight d inputs) * rate / 1000.
Definition fee_fits (d : Descriptor) (inputs : list InputDescriptor) (rate : N) (psbt : Psbt) :=
  (psbt_weight psbt + witness_weight d inputs ≤ u64_max)%N ∧
  ((psbt_weight psbt + witness_weight d inputs) * rate ≤ u64_max)%N.

(** The transaction a round of the loop constructs for a fee, after [n] rounds. *)
Definition rounds_after (n : nat) (h : History) : History :=
  h ++ replicate n (OpNet NetConstruct, true).
Definition round (h : History) (d : Descriptor) (inputs : list InputDescriptor)
    (script : PubkeyScript) (amount change fee : N) : option Psbt :=
  raw ← psbt_construct h d inputs script amount change fee;
  set_channel_funding_output 0 (map_key_sources (full_source (root_derivations d)) raw).

Definition constructed_once : World FundingWallet → World FundingWallet :=
  record_op (OpNet NetConstruct) true.

Lemma fee_loop_round fuel d inputs script amount change rate fee psbt w :
  round (hist w) d inputs script amount change fee = Some psbt →
  fee_fits d inputs rate psbt →
  fee_loop (S fuel) d inputs script amount change rate fee w =
    if decide (fee_of d inputs rate psbt = fee) then (Ok psbt, constructed_once w)
    else fee_loop fuel d inputs script amount change rate (fee_of d inputs rate psbt)
           (constructed_once w).
Proof.
  unfold round, fee_fits, fee_of. intros Hr [Hw Hp].
  assert (witness_weight d inputs ≤ u64_max)%N as Hww by lia.
  apply bind_Some in Hr as (raw & E1 & E2). unfold witness_weight in *. simpl.
  unfold bind at 1, expect_ok, query, construct_reply. rewrite E1.
  rewrite E2. unfold bind at 1, expect at 1, mreturn at 1.
  rewrite (bind_ok _ _ _ _ _ (u64_ok _ _ Hww)), (bind_ok _ _ _ _ _ (u64_ok _ _ Hw)),
    (bind_ok _ _ _ _ _ (u64_ok _ _ Hp)).
  by case_decide.
Qed.

(** What the loop returns is a round whose transaction costs the fee it pays. *)
Lemma fee_loop_ok fuel d inputs script amount change rate fee w psbt w' :
  fee_loop fuel d inputs script amount change rate fee w = (Ok psbt, w') →
  rt w' = rt w ∧ disk w' = disk w ∧
  ∃ n fee', hist w' = rounds_after (S n) (hist w) ∧
    round (rounds_after n (hist w)) d inputs script amount change fee' = Some psbt ∧
    (fee_fits d inputs rate psbt → fee_of d inputs rate psbt = fee').
Proof.
  revert fee w. induction fuel as [|fuel IH]; intros fee w E; [done|]. simpl in E. run_inv E.
  apply query_ok in Hrun as [Hq ->]. unfold construct_reply in Hq.
  apply u64_inv in Hrun0 as [-> Hww], Hrun1 as [-> Hw], Hrun2 as [-> Hp].
  case_decide as Hd.
  - run_inv E. split_and!; [done..|]. eexists 0, _. unfold rounds_after. simpl.
    rewrite app_nil_r. split_and!; [done| |].
    + unfold round. case_match; simplify_eq/=. by apply bind_Some; eauto.
    + intros [F1 F2]. unfold fee_of. unfold witness_weight in *.
      rewrite Hww in Hw by lia. rewrite Hw in Hp by lia. by rewrite Hp.
  - apply IH in E as (-> & -> & n & fee' & -> & Hr & Hf). split_and!; [done..|].
    exists (S n), fee'. unfold rounds_after in *. simpl in *. rewrite <-!app_assoc in *. by split_and!.
Qed.

(** C32. The loop that constructs the funding transaction ends after at most two rounds,
    with the transaction whose fee is its weight times the rate, when the construction
    succeeds for the first fee and, in the next round, for the fee that the result asks
    for if this is another one, with transactions of the same weight, and when the
    products fit 64 bits. *)
Theorem fee_loop_terminates fuel d inputs script amount change rate fee w p1 :
  round (hist w) d inputs script amount change fee = Some p1 →
  fee_fits d inputs rate p1 →
  let fee' := fee_of d inputs rate p1 in
  (fee' ≠ fee → ∃ p2,
     round (rounds_after 1 (hist w)) d inputs script amount change fee' = Some p2 ∧
     psbt_weight p2 = psbt_weight p1) →
  2 ≤ fuel →
  ∃ n psbt, n < 2 ∧
    round (rounds_after n (hist w)) d inputs script amount change fee' = Some psbt ∧
    fee_of d inputs rate psbt = fee' ∧
    fee_loop fuel d inputs script amount change rate fee w =
      (Ok psbt, Nat.iter (S n) constructed_once w).
Proof.
  intros R1 F1 fee' Hround Hfuel. destruct fuel as [|[|fuel]]; [lia..|].
  rewrite (fee_loop_round _ _ _ _ _ _ _ _ _ _ R1 F1). fold fee'.
  destruct (decide (fee' = fee)) as [E|E].
  - exists 0, p1. unfold rounds_after. simpl. rewrite app_nil_r, E.
    split_and!; [lia|done..].
  - destruct (Hround E) as (p2 & R2 & W2). exists 1, p2.
    assert (fee_of d inputs rate p2 = fee') as Hfee by (unfold fee', fee_of; by rewrite W2).
    assert (fee_fits d inputs rate p2) as F2 by (unfold fee_fits; by rewrite W2).
    rewrite (fee_loop_round fuel _ _ _ _ _ _ _ p2 (constructed_once w) R2 F2), Hfee, decide_True by done.
    split_and!; [lia|done..].
Qed.

(** The loop that constructs the funding transaction never ends when two fees ask
    for each other: no amount of fuel is enough. This happens when the transaction's
    weight depends on the fee, as it does when a change output vanishes. *)
Theorem fee_loop_oscillates fuel d inputs script amount change rate fee1 fee2 w p1 p2 :
  fee1 ≠ fee2 →
  (∀ n, round (rounds_after n (hist w)) d inputs script amount change fee1 = Some p1) →
  (∀ n, round (rounds_after n (hist w)) d inputs script amount change fee2 = Some p2) →
  fee_fits d inputs rate p1 → fee_fits d inputs rate p2 →
  fee_of d inputs rate p1 = fee2 → fee_of d inputs rate p2 = fee1 →
  fst (fee_loop fuel d inputs script amount change rate fee1 w) = Panic diverges.
Proof.
  revert fee1 fee2 p1 p2 w. induction fuel as [|fuel IH]; [done|].
  intros fee1 fee2 p1 p2 w Hne R1 R2 F1 F2 E1 E2.
  assert (∀ n, rounds_after n (hist (constructed_once w)) = rounds_after (S n) (hist w)) as Hn.
  { intros n. unfold rounds_after. simpl. by rewrite <-app_assoc. }
  rewrite (fee_loop_round _ _ _ _ _ _ _ _ p1) by (done || by rewrite <-(R1 0); unfold rounds_after; rewrite app_nil_r).
  rewrite decide_False by congruence. rewrite E1.
  apply (IH fee2 fee1 p2 p1); try done; intros n; rewrite Hn; auto.
Qed.

(** ** The whole construction *)

Definition target_of (amount : N) (rate : option N) (w : World FundingWallet) : N :=
  amount + 2 * default (fw_feerate_per_kw (rt w)) rate.

(** The construction once the coins are chosen. *)
Definition construct_rest (fuel : nat) (t : TempChannelId) (script : PubkeyScript)
    (amount rate fee : N) (taken : list Funds) : FW FundingErr Psbt :=
  let inputs := input_of <$> taken in
  let! change_index := self w_change in
  let! normal := self w_normal in
  do! update (set_indexes normal (inc_or_zero change_index)) in
  let! d := self fw_data in
  let! psbt := fee_loop fuel (w_descriptor d) inputs script amount change_index
                 rate fee in
  do! update (add_pending (psbt_txid psbt) {|
        pf_temp_channel_id := t;
        pf_funding_txid := psbt_txid psbt;
        pf_prev_outpoints := in_outpoint <$> inputs;
        pf_psbt := psbt |}) in
  mreturn psbt.

Lemma construct_run fuel t script amount rate w funds w1 :
  (target_of amount rate w ≤ u64_max)%N → list_funds w = (Ok funds, w1) →
  (total funds ≤ u64_max)%N →
  ∃ taken, selection (target_of amount rate w) (by_amount funds) taken ∧
    construct_funding_psbt fuel t script amount rate w =
      if decide (total taken < target_of amount rate w)%N
      then (Err FeInsufficientFunds, w1)
      else let r := default (fw_feerate_per_kw (rt w)) rate in
           construct_rest fuel t script amount r (2 * r) taken w1.
Proof.
  unfold target_of. intros Htgt Hfunds Htot.
  set (r := default (fw_feerate_per_kw (rt w)) rate) in *.
  destruct (take_funds_ok (E:=FundingErr) (amount + 2 * r) 0 (by_amount funds) w1)
    as (taken & Et & Hsel).
  { by rewrite by_amount_perm. }
  exists taken. split; [exact Hsel|].
  assert (2 * r ≤ u64_max)%N as Hfee by lia.
  unfold construct_funding_psbt, self. rewrite bind_gets. fold r.
  rewrite (bind_ok _ _ _ _ _ (u64_ok _ _ Hfee)), (bind_ok _ _ _ _ _ (u64_ok _ _ Htgt)),
    (bind_ok _ _ _ _ _ Hfunds), (bind_ok _ _ _ _ _ Et).
  rewrite N.add_0_l. by case_decide.
Qed.

Lemma construct_rest_ok fuel t script amount rate fee taken w psbt w' :
  construct_rest fuel t script amount rate fee taken w = (Ok psbt, w') →
  w_pending (fw_data (rt w')) = <[psbt_txid psbt := {|
    pf_temp_channel_id := t; pf_funding_txid := psbt_txid psbt;
    pf_prev_outpoints := f_outpoint <$> taken; pf_psbt := psbt |}]>
    (w_pending (fw_data (rt w))) ∧
  disk w' = disk w ∧ fw_file (rt w') = fw_file (rt w).
Proof.
  unfold construct_rest, self, update. intros E. run_inv E.
  match goal with E : fee_loop _ _ _ _ _ _ _ _ _ = _ |- _ =>
    apply fee_loop_ok in E as (Er & Ed & _) end.
  simpl in *. rewrite Er, Ed. split_and!; [|done..]. simpl. do 2 f_equal.
  by rewrite <-list_fmap_compose.
Qed.

Lemma fee_loop_no_error fuel d inputs script amount change rate fee w e w' :
  fee_loop fuel d inputs script amount change rate fee w ≠ (Err e, w').
Proof.
  revert fee w. induction fuel as [|fuel IH]; intros fee w; [done|]. simpl.
  unfold bind, expect_ok, expect, u64, mreturn, mpanic. by repeat case_match; simplify_eq/=.
Qed.

Lemma construct_rest_no_error fuel t script amount rate fee taken w e w' :
  construct_rest fuel t script amount rate fee taken w ≠ (Err e, w').
Proof.
  unfold construct_rest, self, update. rewrite !bind_gets, bind_modify, bind_gets.
  unfold bind at 1. destruct (fee_loop _ _ _ _ _ _ _ _ _) as [[psbt|e'|p] w2] eqn:E; try done.
  by apply fee_loop_no_error in E.
Qed.

(** C15. Constructing a funding transaction, when the sums fit 64 bits: on success the
    coins spent are among the listed funds, cover the amount with the fee allowance, no
    other choice of coins that covers it is smaller, and the funding is recorded as
    pending under its transaction id with exactly these coins; it fails with
    [InsufficientFunds] only when all the funds together do not cover the target, and
    then the wallet is as listing the funds left it; and it panics only where the funds
    would have been enough. *)
Theorem construct_funding_takes_fewest_coins fuel t script amount rate w funds w1 :
  (target_of amount rate w ≤ u64_max)%N → list_funds w = (Ok funds, w1) →
  (total funds ≤ u64_max)%N →
  wp (construct_funding_psbt fuel t script amount rate) (λ r w',
    match r with
    | Ok psbt => ∃ taken, taken ⊆+ funds ∧ (target_of amount rate w ≤ total taken)%N ∧
        (∀ other, other ⊆+ funds → (target_of amount rate w ≤ total other)%N →
           length taken ≤ length other) ∧
        w_pending (fw_data (rt w')) = <[psbt_txid psbt := {|
          pf_temp_channel_id := t; pf_funding_txid := psbt_txid psbt;
          pf_prev_outpoints := f_outpoint <$> taken; pf_psbt := psbt |}]>
          (w_pending (fw_data (rt w)))
    | Err e => e = FeInsufficientFunds ∧ (total funds < target_of amount rate w)%N ∧ w' = w1
    | Panic _ => (target_of amount rate w ≤ total funds)%N
    end) w.
Proof.
  intros Htgt Hfunds Htot.
  destruct (construct_run fuel t script amount rate w funds w1) as (taken & Hsel & E); [done..|].
  pose proof Hsel as (rest & Hl & Hrest & _).
  assert (taken ⊆+ funds) as Hsub.
  { rewrite <-(by_amount_perm funds), Hl. by apply submseteq_inserts_r. }
  assert (total taken ≤ total funds)%N by (by apply total_submseteq).
  unfold wp. rewrite E. case_decide as Hd.
  - split_and!; [done| |done]. rewrite <-(by_amount_perm funds), Hl, (Hrest Hd), app_nil_r. done.
  - simpl; destruct (construct_rest _ _ _ _ _ _ _ _) as [[psbt|e|p] w2] eqn:Er; simpl; [| |lia].
    + exists taken. split_and!; [done|lia| |].
      * intros. by eapply selection_minimal.
      * apply construct_rest_ok in Er as (-> & _).
        by apply list_funds_ok in Hfunds as (_ & -> & _).
    + by apply construct_rest_no_error in Er.
Qed.

(** ** Pending fundings never share a coin *)

Definition fundings_disjoint (d : WalletData) : Prop :=
  ∀ t1 t2 p1 p2 o, w_pending d !! t1 = Some p1 → w_pending d !! t2 = Some p2 →
    o ∈ pf_prev_outpoints p1 → o ∈ pf_prev_outpoints p2 → t1 = t2.

Lemma used_outputs_pending d t p o :
  w_pending d !! t = Some p → o ∈ pf_prev_outpoints p → o ∈ used_outputs d.
Proof.
  intros Ht Ho. unfold used_outputs. apply list_elem_of_bind. exists p. split; [done|].
  apply list_elem_of_fmap. exists (t, p). split; [done|]. by apply elem_of_map_to_list.
Qed.

(** [guarded f m]: [m] leaves [f] alone unless it succeeds. *)
Definition guarded {T E A} (f : FundingWallet → T) (m : FW E A) : Prop :=
  ∀ w, match m w with (Ok _, _) => True | (_, w') => f (rt w') = f (rt w) end.

Lemma guarded_bind {T E A B} (f : FundingWallet → T) (m : FW E A) (k : A → FW E B) :
  respects (same f) m → (∀ a, guarded f (k a)) → guarded f (bind m k).
Proof.
  intros Hm Hk w. destruct (Hm w) as [E1 _]. unfold bind.
  destruct (m w) as [[a|e|p] w1]; simpl in *; [|done..].
  specialize (Hk a w1). destruct (k a w1) as [[]?]; congruence.
Qed.
Lemma guarded_respects {T E A} (f : FundingWallet → T) (m : FW E A) :
  respects (same f) m → guarded f m.
Proof. intros Hm w. destruct (Hm w) as [E1 _]. by destruct (m w) as [[]?]. Qed.

Definition pending_of (w : FundingWallet) : gmap Txid PendingFunding := w_pending (fw_data w).

Lemma u64_respects {S E} (R : relation S) `{!PreOrder R} n : respects R (u64 (E:=E) n).
Proof. intros s. unfold u64. case_decide; [done|]. by destruct debug_assertions. Qed.
#[local] Hint Resolve u64_respects : respects.
Lemma take_funds_respects {S E} (R : relation S) `{!PreOrder R} t acc l :
  respects R (take_funds (E:=E) t acc l).
Proof. revert acc. induction l as [|f l IH]; intros acc; simpl; respects_auto. Qed.
Lemma electrum_same {T E A} `{From ElectrumErr E} (f : FundingWallet → T) o
    (reply : History → string + A) : respects (same f) (electrum (E:=E) o reply).
Proof. unfold electrum. respects_auto. Qed.
#[local] Hint Resolve take_funds_respects electrum_same : respects.
Lemma list_funds_pending : respects (same pending_of) list_funds.
Proof. unfold list_funds, lookup_funds, save. respects_auto. Qed.
Lemma fee_loop_respects (R : relation (World FundingWallet)) `{!PreOrder R}
    fuel d inputs script amount change rate fee :
  (∀ reply, respects R (query (E:=unit) (A:=Psbt) reply (OpNet NetConstruct))) →
  respects R (fee_loop fuel d inputs script amount change rate fee).
Proof. intros Hq. revert fee. induction fuel as [|fuel IH]; intros fee; simpl; respects_auto. Qed.
#[local] Hint Resolve list_funds_pending fee_loop_respects : respects.

Lemma construct_guarded fuel t script amount rate :
  guarded pending_of (construct_funding_psbt fuel t script amount rate).
Proof.
  unfold construct_funding_psbt.
  do 5 (apply guarded_bind; [respects_auto | intros ?]). case_match.
  case_decide; [by apply guarded_respects; respects_auto|].
  do 5 (apply guarded_bind; [respects_auto; by intros | intros ?]). by intros w.
Qed.

Lemma take_funds_prefix {S E} target acc l (s : S) taken acc' s' :
  take_funds (E:=E) target acc l s = (Ok (taken, acc'), s') →
  s' = s ∧ ∃ rest, l = taken ++ rest.
Proof.
  revert acc s taken. induction l as [|f l IH]; intros acc s taken; simpl.
  { intros [= <- <- <-]. by eauto. }
  case_decide; [intros [= <- <- <-]; by eauto|]. intros E'. run_inv E'.
  apply u64_inv in Hrun as [-> _].
  match goal with x : (list Funds * N)%type |- _ => destruct x as [tk t] end. run_inv E'.
  match goal with Ht : take_funds _ _ _ _ = _ |- _ => apply IH in Ht as [-> [rest ->]] end.
  by eauto.
Qed.

(** A construction that succeeded: funds were listed, and coins among them taken. *)
Lemma construct_split fuel t script amount rate w psbt w' :
  construct_funding_psbt fuel t script amount rate w = (Ok psbt, w') →
  ∃ funds w1 taken r fee, list_funds w = (Ok funds, w1) ∧ taken ⊆+ funds ∧
    construct_rest fuel t script amount r fee taken w1 = (Ok psbt, w').
Proof.
  unfold construct_funding_psbt, self. intros E. run_inv E.
  match goal with x : (list Funds * N)%type |- _ => destruct x as [taken acc] end.
  case_decide; [done|].
  apply u64_inv in Hrun as [-> _], Hrun0 as [-> _].
  apply take_funds_prefix in Hrun2 as [-> [rest Hrest]].
  eexists _, _, taken, _, _. split; [exact Hrun1|]. split; [|exact E].
  rewrite <-(by_amount_perm x4). unfold by_amount. rewrite Hrest. by apply submseteq_inserts_r.
Qed.

Lemma construct_fresh_coins fuel t script amount rate w psbt w' :
  construct_funding_psbt fuel t script amount rate w = (Ok psbt, w') →
  ∃ p, pending_of (rt w') = <[psbt_txid psbt := p]> (pending_of (rt w)) ∧
    ∀ o, o ∈ pf_prev_outpoints p → o ∉ used_outputs (fw_data (rt w)).
Proof.
  intros (funds & w1 & taken & r & fee & Hl & Hsub & E)%construct_split.
  apply construct_rest_ok in E as (E1 & _).
  apply list_funds_ok in Hl as (Hfree & Hp & _).
  unfold pending_of. eexists. split; [by rewrite E1, Hp|]. simpl.
  intros o (f & -> & Hf)%list_elem_of_fmap. apply Hfree.
  by eapply elem_of_submseteq.
Qed.

(** C16. No coin is promised twice: if no two pending fundings of the wallet spend a
    common output, the same holds after constructing another funding transaction,
    whether the construction succeeds, fails or panics. *)
Theorem pending_fundings_stay_disjoint fuel t script amount rate w :
  fundings_disjoint (fw_data (rt w)) →
  fundings_disjoint (fw_data (rt (construct_funding_psbt fuel t script amount rate w).2)).
Proof.
  intros Hd. pose proof (construct_guarded fuel t script amount rate w) as Hg.
  destruct (construct_funding_psbt fuel t script amount rate w) as [[psbt|e|p] w'] eqn:E;
    simpl; [|by unfold fundings_disjoint, pending_of in *; rewrite Hg..].
  apply construct_fresh_coins in E as (p & Hp & Hfresh).
  unfold fundings_disjoint, pending_of in *. rewrite Hp.
  intros t1 t2 p1 p2 o. rewrite !lookup_insert_Some.
  intros [[<- <-]|[? H1']] [[<- <-]|[? H2']] Ho1 Ho2.
  - done.
  - by destruct (Hfresh o); [|eapply used_outputs_pending].
  - by destruct (Hfresh o); [|eapply used_outputs_pending].
  - by eapply Hd.
Qed.

(** ** What a restart finds *)

Lemma file_open_ok {R} p (w : World R) f w' :
  file_open p w = (Ok f, w') →
  rt w' = rt w ∧ disk w' = disk w ∧ d_names (disk w) !! p = Some (f_inode f).
Proof.
  unfold file_open. intros E. run_inv E. apply fs_ok in Hrun as ->. simpl in E.
  destruct (d_names (disk w) !! p) eqn:Ep; [|done]. by run_inv E.
Qed.

Lemma update_fees_same : respects (same fw_data) update_fees.
Proof. unfold update_fees, electrum. respects_auto. Qed.

Lemma init_ok {R} n d f url (w : World R) fw w' :
  init n d f url w = (Ok fw, w') → fw_data fw = d.
Proof.
  unfold init, electrum. intros E. run_inv E.
  match goal with Hb : building _ _ ?w = _ |- _ =>
    revert Hb; unfold building;
    destruct (update_fees_same (mk_world {| fw_network := n;
      fw_feerate_per_kw := default_feerate_per_kw; fw_file := f; fw_data := d |}
      (hist w) (disk w))) as [Ed _];
    destruct (update_fees _) as [[?|?|?] w2]; [|done..] end.
  by intros [= <- <-].
Qed.

(** A wallet opened from a file holds what the file holds. *)
Lemma wallet_with_ok {R} c path url (w : World R) fw w' :
  wallet_with c path url w = (Ok fw, w') →
  ∃ i, d_names (disk w) !! path = Some i ∧
    decode_wallet (inode_data (disk w) i) = inr (fw_data fw).
Proof.
  unfold wallet_with. intros E. run_inv E. apply file_open_ok in Hrun as (_ & Ed & En).
  match type of Hrun0 with of_sum ?r _ = _ => destruct r as [|data] eqn:Edec end;
    [done|]. injection Hrun0 as -> _. rewrite Ed in Edec.
  match type of E with (if ?b then _ else _) _ = _ => destruct b end; [|done]. apply init_ok in E as ->. eauto.
Qed.

Definition wallet_round_trip : Prop :=
  ∀ d rest, decode_wallet (encode_wallet d ++ rest) = inr d.

(** A wallet opened from the file of one that has just constructed a funding
    transaction has the pending fundings from before the construction: the new one is
    not on disk, and its coins would be offered again. *)
Theorem pending_funding_lost_on_restart fuel t script amount rate w psbt w'
    {R} c path url (w2 : World R) fw w3 :
  wallet_round_trip →
  construct_funding_psbt fuel t script amount rate w = (Ok psbt, w') →
  d_names (disk w') !! path = Some (f_inode (fw_file (rt w'))) →
  disk w2 = disk w' → wallet_with c path url w2 = (Ok fw, w3) →
  pending_of fw = pending_of (rt w).
Proof.
  intros Hcodec E Hpath Hdisk (i & Hi & Hdec)%wallet_with_ok.
  rewrite Hdisk in Hi, Hdec. simplify_eq.
  apply construct_split in E as (funds & w1 & taken & r & fee & Hl & _ & E).
  apply construct_rest_ok in E as (_ & Ed & Ef).
  apply list_funds_ok in Hl as (_ & Hp & _ & _ & _ & _ & rest & Hdata).
  rewrite Ed, Ef, Hdata, Hcodec in Hdec. unfold pending_of. congruence.
Qed.
End construct.
