(* ===== verification/Rpc.v ===== *)
(** * RPC requests and replies ([rpc/src/messages.rs], [rpc/src/error.rs],
    [src/bus/reports.rs]) *)

From S2P Require Import Prelude.
From S2P Require Import Bus.
From S2P Require Import Service.

(** ** Failure codes *)

Definition failure_code_to_u16 (c : FailureCode) : N :=
  match c with
  | FcUnknown => 0xFFF
  | FcEncoding => 0x02
  | FcLaunch => 0x03
  | FcChannel => 0x020
  | FcLnpd => 0x010
  | FcNested => 0xFFE
  end.
Definition failure_code_of_u16 (_ : N) : FailureCode := FcUnknown.

(** ** Channel parameters requested by the user *)

Section params.
Context `{Ext}.

Definition apply_params (c : CreateChannel) (common : CommonParams) (local : PeerParams)
    : CommonParams * PeerParams :=
  ({| cp_feerate_per_kw := default (cp_feerate_per_kw common) (cc_fee_rate c);
      cp_announce_channel := default (cp_announce_channel common) (cc_announce_channel c);
      cp_channel_type := default (cp_channel_type common) (cc_channel_type c);
      cp_rest := cp_rest common |},
   {| pp_dust_limit_satoshis := default (pp_dust_limit_satoshis local) (cc_dust_limit c);
      pp_to_self_delay := default (pp_to_self_delay local) (cc_to_self_delay c);
      pp_max_accepted_htlcs := default (pp_max_accepted_htlcs local) (cc_htlc_max_count c);
      pp_htlc_minimum_msat := default (pp_htlc_minimum_msat local) (cc_htlc_min_value c);
      pp_max_htlc_value_in_flight_msat :=
        default (pp_max_htlc_value_in_flight_msat local) (cc_htlc_max_total_value c);
      pp_channel_reserve_satoshis :=
        default (pp_channel_reserve_satoshis local) (cc_channel_reserve c);
      pp_rest := pp_rest local |}).
End params.

(** ** Results of launching a daemon, as replies *)

Section replies.
Context `{Fmt}.

Definition launch_failure (e : LauncherErr) : RpcMsg :=
  RpcFailure {| code := FcLaunch; info := show_launcher_err e |}.
Definition to_progress_or_failure (r : LauncherErr + string) : RpcMsg :=
  match r with
  | inr val => RpcProgress val
  | inl err => launch_failure err
  end.
Definition into_success_or_failure (r : LauncherErr + string) : RpcMsg :=
  match r with
  | inr val => RpcSuccess (Some val)
  | inl err => launch_failure err
  end.
End replies.
