(* ===== verification/LnpdRuntime.v ===== *)
(** * The state of lnpd ([src/lnpd/runtime.rs], [src/lnpd/daemons.rs])

    The registries the broker keeps, the launcher workflow's states
    ([src/lnpd/automata/launch.rs]) and the operations both of them use. *)

From S2P Require Import Prelude.
From S2P Require Import Bus.
From S2P Require Import Service.
From S2P Require Import Files.
From S2P Require Import Config.
From S2P Require Import ChannelRuntime.
From S2P Require Import Wallet.
From S2P Require Import Rpc.

Local Open Scope rust_scope.

(** Default channel parameters and address conversions of other crates. *)
Class LnpdLib `{LnpCore, !WalletLib} := {
  default_params : Policy * CommonParams * PeerParams;
  dumb_keyset : LocalKeyset;                             (* LocalKeyset::dumb_default *)
  inet_of_socket : SocketAddr → InetSocketAddr;
  socket_of_inet : InetSocketAddr → option SocketAddr;
  node_of_secret : list N → option NodeId }.

Section launcher_state.
Context `{Ext}.

Inductive ChannelLauncher :=
  | ClInit (t : TempChannelId) (request : CreateChannel) (enquirer : ClientId)
  | ClLaunching (t : TempChannelId) (request : CreateChannel) (enquirer : ClientId)
      (keyset : LocalKeyset)
  | ClDeriving (t : TempChannelId) (request : CreateChannel) (enquirer : ClientId)
  | ClNegotiating (t : TempChannelId) (enquirer : ClientId)
  | ClCommitting (c : ChannelId) (txid : Txid) (enquirer : ClientId)
  | ClSigning (c : ChannelId) (txid : Txid) (enquirer : ClientId).

Definition launcher_channel_id (l : ChannelLauncher) : Slice32 :=
  match l with
  | ClInit t _ _ | ClLaunching t _ _ _ | ClDeriving t _ _ | ClNegotiating t _ =>
      temp_into_inner t
  | ClCommitting c _ _ | ClSigning c _ _ => channel_into_inner c
  end.

Definition launcher_funding_txid (l : ChannelLauncher) : option Txid :=
  match l with
  | ClInit _ _ _ | ClLaunching _ _ _ _ | ClDeriving _ _ _ | ClNegotiating _ _ => None
  | ClCommitting _ txid _ | ClSigning _ txid _ => Some txid
  end.

Definition launcher_enquirer (l : ChannelLauncher) : ClientId :=
  match l with
  | ClInit _ _ e | ClLaunching _ _ e _ | ClDeriving _ _ e | ClNegotiating _ e
  | ClCommitting _ _ e | ClSigning _ _ e => e
  end.
End launcher_state.

Section runtime.
Context `{WalletLib}.

Record Lnpd := {
  l_config : Config unit;
  l_node_key_path : PathBuf;
  l_node_id : NodeId;
  l_listens : gset ListenAddr;
  l_started : N;
  l_wallet : FundingWallet;
  l_params : Policy * CommonParams * PeerParams;
  l_bolt : gset NodeId;
  l_bifrost : gset NodeId;
  l_channels : gset ChannelId;
  l_spawning : gmap ServiceId ClientId;
  l_creating : gmap ServiceId ChannelLauncher;
  l_funding : gmap Txid ChannelLauncher;
  l_accepting : gmap ServiceId AcceptChannelFrom;
  l_reestablishing : gmap ServiceId (NodeId * ChannelMsg) }.

(** lnpd reports to nobody: it passes reports on. *)
#[export] Instance lnpd_handler : Handler Lnpd := {|
  identity := λ _, LnpBroker;
  enquirer := λ _, None |}.

Definition set_wallet (x : FundingWallet) (r : Lnpd) : Lnpd := {|
  l_config := l_config r; l_node_key_path := l_node_key_path r; l_node_id := l_node_id r;
  l_listens := l_listens r; l_started := l_started r; l_wallet := x;
  l_params := l_params r; l_bolt := l_bolt r; l_bifrost := l_bifrost r;
  l_channels := l_channels r; l_spawning := l_spawning r; l_creating := l_creating r;
  l_funding := l_funding r; l_accepting := l_accepting r;
  l_reestablishing := l_reestablishing r |}.
Definition set_listens (x : gset ListenAddr) (r : Lnpd) : Lnpd := {|
  l_config := l_config r; l_node_key_path := l_node_key_path r; l_node_id := l_node_id r;
  l_listens := x; l_started := l_started r; l_wallet := l_wallet r;
  l_params := l_params r; l_bolt := l_bolt r; l_bifrost := l_bifrost r;
  l_channels := l_channels r; l_spawning := l_spawning r; l_creating := l_creating r;
  l_funding := l_funding r; l_accepting := l_accepting r;
  l_reestablishing := l_reestablishing r |}.
(** The registries of connected daemons. *)
Definition set_registry (bolt bifrost : gset NodeId) (channels : gset ChannelId)
    (r : Lnpd) : Lnpd := {|
  l_config := l_config r; l_node_key_path := l_node_key_path r; l_node_id := l_node_id r;
  l_listens := l_listens r; l_started := l_started r; l_wallet := l_wallet r;
  l_params := l_params r; l_bolt := bolt; l_bifrost := bifrost;
  l_channels := channels; l_spawning := l_spawning r; l_creating := l_creating r;
  l_funding := l_funding r; l_accepting := l_accepting r;
  l_reestablishing := l_reestablishing r |}.
(** The maps of work in progress. *)
Definition set_spawning (x : gmap ServiceId ClientId) (r : Lnpd) : Lnpd := {|
  l_config := l_config r; l_node_key_path := l_node_key_path r; l_node_id := l_node_id r;
  l_listens := l_listens r; l_started := l_started r; l_wallet := l_wallet r;
  l_params := l_params r; l_bolt := l_bolt r; l_bifrost := l_bifrost r;
  l_channels := l_channels r; l_spawning := x; l_creating := l_creating r;
  l_funding := l_funding r; l_accepting := l_accepting r;
  l_reestablishing := l_reestablishing r |}.
Definition set_launchers (creating : gmap ServiceId ChannelLauncher)
    (funding : gmap Txid ChannelLauncher) (r : Lnpd) : Lnpd := {|
  l_config := l_config r; l_node_key_path := l_node_key_path r; l_node_id := l_node_id r;
  l_listens := l_listens r; l_started := l_started r; l_wallet := l_wallet r;
  l_params := l_params r; l_bolt := l_bolt r; l_bifrost := l_bifrost r;
  l_channels := l_channels r; l_spawning := l_spawning r; l_creating := creating;
  l_funding := funding; l_accepting := l_accepting r;
  l_reestablishing := l_reestablishing r |}.
Definition set_remote_requests (accepting : gmap ServiceId AcceptChannelFrom)
    (reestablishing : gmap ServiceId (NodeId * ChannelMsg)) (r : Lnpd) : Lnpd := {|
  l_config := l_config r; l_node_key_path := l_node_key_path r; l_node_id := l_node_id r;
  l_listens := l_listens r; l_started := l_started r; l_wallet := l_wallet r;
  l_params := l_params r; l_bolt := l_bolt r; l_bifrost := l_bifrost r;
  l_channels := l_channels r; l_spawning := l_spawning r; l_creating := l_creating r;
  l_funding := l_funding r; l_accepting := accepting;
  l_reestablishing := reestablishing |}.

Definition map_channels (f : gset ChannelId → gset ChannelId) (r : Lnpd) : Lnpd :=
  set_registry (l_bolt r) (l_bifrost r) (f (l_channels r)) r.
Definition map_bolt (f : gset NodeId → gset NodeId) (r : Lnpd) : Lnpd :=
  set_registry (f (l_bolt r)) (l_bifrost r) (l_channels r) r.
Definition map_bifrost (f : gset NodeId → gset NodeId) (r : Lnpd) : Lnpd :=
  set_registry (l_bolt r) (f (l_bifrost r)) (l_channels r) r.
Definition map_spawning (f : gmap ServiceId ClientId → gmap ServiceId ClientId)
    (r : Lnpd) : Lnpd := set_spawning (f (l_spawning r)) r.
Definition map_creating (f : gmap ServiceId ChannelLauncher → gmap ServiceId ChannelLauncher)
    (r : Lnpd) : Lnpd := set_launchers (f (l_creating r)) (l_funding r) r.
Definition map_funding (f : gmap Txid ChannelLauncher → gmap Txid ChannelLauncher)
    (r : Lnpd) : Lnpd := set_launchers (l_creating r) (f (l_funding r)) r.
Definition map_accepting (f : gmap ServiceId AcceptChannelFrom → gmap ServiceId AcceptChannelFrom)
    (r : Lnpd) : Lnpd := set_remote_requests (f (l_accepting r)) (l_reestablishing r) r.
Definition map_reestablishing
    (f : gmap ServiceId (NodeId * ChannelMsg) → gmap ServiceId (NodeId * ChannelMsg))
    (r : Lnpd) : Lnpd := set_remote_requests (l_accepting r) (f (l_reestablishing r)) r.
End runtime.

Section operations.
Context `{Sys, !Fmt, !LnpCore, !WalletLib, !WalletCodec, !LnpdLib, !Build}.

Definition LW (E A : Type) : Type := W Lnpd E A.

(** A call on [runtime.funding_wallet]. *)
Definition on_wallet {E A} (m : FW E A) : LW E A := on_part l_wallet set_wallet m.

(** A thread or a process, as configured: both give a handle or an error. *)
Definition launch_daemon (d : Daemon) : LW LauncherErr string := exec_daemon d.

(** Returns whether the temporary id was known. *)
Definition update_chanel_id {E} (old_id : TempChannelId) (new_id : ChannelId) : LW E bool :=
  let! channels := self l_channels in
  let known := bool_decide (channel_id_from_temp old_id ∈ channels) in
  do! update (map_channels (λ c, {[new_id]} ∪ (c ∖ {[channel_id_from_temp old_id]}))) in
  mreturn known.
End operations.
