(* ===== verification/ListenAddr.v ===== *)
(** * Listening addresses ([rpc/src/listen_addr.rs]) *)

From Stdlib Require Import Ascii.
From S2P Require Import Prelude.
From S2P Require Import Bus.
From S2P Require Import Text.
From S2P Require Import Service.
From S2P Require Import ChannelRuntime.
From S2P Require Import Wallet.
From S2P Require Import LnpdRuntime.

(** ** Text of an address *)

Section display.
Context `{Fmt}.

Definition show_listen_addr (l : ListenAddr) : string :=
  let '(ip, port) := lis_socket_addr l in
  show_protocol (lis_protocol l) +:+ "://" +:+ show_ip ip +:+
  (if decide (default_port (lis_protocol l) = port) then ""
   else ":" +:+ show_uint port).
End display.

(** The parsers of internet2 and the ports of the protocols. *)
Class AddrLib `{Ext} := {
  bolt_port : N;                                 (* LNP2P_BOLT_PORT *)
  bifrost_port : N;                              (* LNP2P_BIFROST_PORT *)
  PartialSocketAddr : Type;
  AddrFormatErr : Type;
  partial_from_str : string → AddrFormatErr + PartialSocketAddr;
  inet_socket : PartialSocketAddr → N → InetSocketAddr }.

Section addresses.
Context `{Fmt, !LnpCore, !WalletLib, !LnpdLib, !AddrLib}.

(** [internet2::addr::AddrParseError]: the variants the node names, and the
    others. *)
Inductive AddrParseError :=
  | NeedsTorFeature
  | UnknownProtocolError (name : string)
  | WrongAddrFormat (text : string)
  | AddrFormat (e : AddrFormatErr).

(** [Ipv4Addr::UNSPECIFIED] *)
Definition ip_unspecified : N := 0.

Definition listen_bolt (ip_addr : N) (port : option N) : ListenAddr :=
  {| lis_protocol := Bolt; lis_socket_addr := (ip_addr, default bolt_port port) |}.
Definition listen_bifrost (ip_addr : N) (port : option N) : ListenAddr :=
  {| lis_protocol := Bifrost; lis_socket_addr := (ip_addr, default bifrost_port port) |}.

(** ** Parsing *)

Definition listen_at (protocol : Protocol) (port : N) (addr : string)
    : AddrParseError + ListenAddr :=
  match partial_from_str addr with
  | inl e => inl (AddrFormat e)
  | inr socket_addr =>
      match socket_of_inet (inet_socket socket_addr port) with
      | Some socket_addr => inr {| lis_protocol := protocol; lis_socket_addr := socket_addr |}
      | None => inl NeedsTorFeature
      end
  end.

Definition listen_addr_from_str (s : string) : AddrParseError + ListenAddr :=
  let pieces := split "://" s in
  match to_lowercase <$> head pieces, pieces !! 1, pieces !! 2 with
  | Some "bolt", Some addr, None => listen_at Bolt bolt_port addr
  | Some "bifrost", Some addr, None => listen_at Bifrost bifrost_port addr
  | Some unknown, _, _ => inl (UnknownProtocolError unknown)
  | None, _, _ => inl (WrongAddrFormat s)
  end.

(** ** Facts *)

(** What internet2 documents of its addresses, for the IPs of a class [ok]
    (IPv4: the text of an IPv6 address may be read differently), and what
    lnp-core documents of its protocols: how they are printed, their ports. *)
Record addr_laws (ok : N → Prop) : Prop := {
  law_protocol p : to_lowercase (show_protocol p) =
    match p with Bolt => "bolt" | Bifrost => "bifrost" end;
  law_port p : default_port p = match p with Bolt => bolt_port | Bifrost => bifrost_port end;
  law_ip ip : ok ip → has_char "/" (show_ip ip) = false;
  law_bare ip : ok ip → ∃ p, partial_from_str (show_ip ip) = inr p ∧
    ∀ port, socket_of_inet (inet_socket p port) = Some (ip, port);
  law_with_port ip port : ok ip → (port ≤ u16_max)%N →
    ∃ p, partial_from_str (show_ip ip +:+ ":" +:+ show_uint port) = inr p ∧
      ∀ port', socket_of_inet (inet_socket p port') = Some (ip, port) }.

Lemma to_lowercase_char c s :
  ascii_lower c = c → has_char c (to_lowercase s) = false → has_char c s = false.
Proof.
  intros Hc. induction s as [|d s IH]; simpl; [done|].
  intros [Hcd Hs]%orb_false_iff. rewrite IH, orb_false_r by done.
  apply bool_decide_eq_false in Hcd. apply bool_decide_eq_false. by intros <-.
Qed.

Lemma listen_pieces ok p rest :
  addr_laws ok → has_char "/" rest = false →
  split "://" (show_protocol p +:+ "://" +:+ rest) = [show_protocol p; rest].
Proof.
  intros Hl Hr. apply (split_once _ "/"%char); [|done|done].
  apply to_lowercase_char; [done|]. rewrite (law_protocol _ Hl). by destruct p.
Qed.

(** C38. The text of a listening address, which leaves out the port of its protocol when
    it is the default one, is parsed back to the same address, for IPv4 addresses as
    internet2 documents them. *)
Theorem listen_addr_reads_back ok ip port p :
  addr_laws ok → ok ip → (port ≤ u16_max)%N →
  let l := {| lis_protocol := p; lis_socket_addr := (ip, port) |} in
  listen_addr_from_str (show_listen_addr l) = inr l.
Proof.
  intros Hl Hip Hport l. subst l. unfold listen_addr_from_str, show_listen_addr. simpl.
  assert (Hr : has_char "/" (show_ip ip +:+
    (if decide (default_port p = port) then "" else ":" +:+ show_uint port)) = false).
  { rewrite has_char_app, (law_ip _ Hl) by done. case_decide; [done|].
    rewrite has_char_app, show_uint_digits by done. done. }
  rewrite (listen_pieces ok) by done. cbn [head lookup list_lookup fmap option_fmap option_map].
  rewrite (law_protocol _ Hl). unfold listen_at. case_decide as Hd.
  - rewrite app_empty_r. destruct (law_bare _ Hl ip Hip) as (a & Ha & Hs).
    rewrite Ha. rewrite (law_port _ Hl) in Hd. destruct p; subst port; by rewrite Hs.
  - destruct (law_with_port _ Hl ip port Hip Hport) as (a & Ha & Hs).
    rewrite Ha. destruct p; by rewrite Hs.
Qed.

(** IPv6 addresses are printed without brackets: when the text of one address is
    that of another with the port appended, as [::1:9736] is for [::1], two
    different addresses have one text, and no parser can tell them apart. *)
Lemma ipv6_text_is_ambiguous p ip1 ip2 port :
  show_ip ip2 = show_ip ip1 +:+ ":" +:+ show_uint port → ip1 ≠ ip2 → default_port p ≠ port →
  let l1 := {| lis_protocol := p; lis_socket_addr := (ip1, port) |} in
  let l2 := {| lis_protocol := p; lis_socket_addr := (ip2, default_port p) |} in
  l1 ≠ l2 ∧ show_listen_addr l1 = show_listen_addr l2.
Proof.
  intros Ht Hip Hport l1 l2. split; [by intros [= ? ?]|].
  unfold show_listen_addr. simpl. rewrite decide_False, decide_True by done.
  by rewrite Ht, app_empty_r.
Qed.
End addresses.
