(* ===== verification/Client.v ===== *)
(** * The RPC client ([rpc/src/client.rs]) and the command line lnp-cli
    ([cli/src/command.rs], [cli/src/opts.rs]) *)

From Stdlib Require Import Ascii.
From S2P Require Import Prelude.
From S2P Require Import Bus.
From S2P Require Import Text.
From S2P Require Import Service.
From S2P Require Import Config.
From S2P Require Import ChannelRuntime.
From S2P Require Import Wallet.
From S2P Require Import LnpdRuntime.
From S2P Require Import ListenAddr.

Local Open Scope rust_scope.

(** ** State *)

Inductive ClientError `{Ext} :=
  | CeEsb (e : EsbError)
  | CeRpc (f : Failure)
  | CeOther (s : string).
#[export] Instance from_esb_client `{Ext} : From EsbError ClientError := CeEsb.

(** What the user reads: on the standard output and, for failures and
    unexpected messages, on the standard error stream. *)
Inductive Printed `{Ext} :=
  | PrAction (s : string)
  | PrResponse (m : RpcMsg)
  | PrProgress (s : string)
  | PrSuccess (details : option string)
  | PrFailure (f : Failure)
  | PrUnexpected (m : RpcMsg).

Record RpcClient `{Ext} := {
  cl_identity : ClientId;
  cl_response_queue : list RpcMsg;
  cl_polls : nat;                            (* polls of the bus so far *)
  cl_printed : list Printed }.

(** The bus as the client sees it: whether it can be joined, the random
    identity, and what each poll, which blocks until there is something,
    returns. *)
Class ClientBus `{Ext} := {
  bus_connect : ServiceAddr → option EsbError;
  random_identity : ClientId;
  recv_poll : nat → EsbError + list RpcMsg }.

Section client.
Context `{Sys, !ClientBus}.

Definition ClW (E A : Type) : Type := W RpcClient E A.

Definition client_with (connect : ServiceAddr) : ClientError + RpcClient :=
  match bus_connect connect with
  | Some e => inl (CeEsb e)
  | None => inr {| cl_identity := random_identity; cl_response_queue := [];
                   cl_polls := 0; cl_printed := [] |}
  end.

Definition set_queue (q : list RpcMsg) (r : RpcClient) : RpcClient := {|
  cl_identity := cl_identity r; cl_response_queue := q; cl_polls := cl_polls r;
  cl_printed := cl_printed r |}.
Definition count_poll (r : RpcClient) : RpcClient := {|
  cl_identity := cl_identity r; cl_response_queue := cl_response_queue r;
  cl_polls := S (cl_polls r); cl_printed := cl_printed r |}.
Definition print (p : Printed) {E} : ClW E unit :=
  update (λ r, {|
    cl_identity := cl_identity r; cl_response_queue := cl_response_queue r;
    cl_polls := cl_polls r; cl_printed := cl_printed r ++ [p] |}).

(** ** Requests and responses *)

Definition request (daemon : ServiceId) (req : RpcMsg) : ClW ClientError unit :=
  let! identity := self cl_identity in
  do? send_to BusIdRpc (Client identity) daemon (BusRpc req) in
  mreturn tt.

(** [self.esb.recv_poll()?], pushed one by one. *)
Definition poll_bus : ClW ClientError unit :=
  let! n := self cl_polls in
  do! update count_poll in
  let? polls := of_sum (recv_poll n) in
  update (λ r, set_queue (cl_response_queue r ++ polls) r).

(** [Vec::pop] takes the last element. *)
Definition pop_response : ClW ClientError RpcMsg :=
  let! queue := self cl_response_queue in
  let! msg := expect "We always have at least one element" (last queue) in
  do! update (set_queue (take (length queue - 1) queue)) in
  mreturn msg.

Definition response : ClW ClientError RpcMsg :=
  let! queue := self cl_response_queue in
  match queue with
  | [] => do! poll_bus in pop_response
  | _ :: _ => pop_response
  end.

Definition client_report_failure : ClW ClientError RpcMsg :=
  let! msg := response in
  match msg with
  | RpcFailure fail =>
      do! print (PrFailure fail) in
      mfail (CeRpc fail)
  | resp => mreturn resp
  end.

Definition report_response : ClW ClientError unit :=
  let! resp := client_report_failure in
  print (PrResponse resp).

(** [fuel] bounds the messages read; a run that needs more has not ended. *)
Fixpoint report_progress_from (fuel counter : nat) : ClW ClientError nat :=
  match fuel with
  | 0 => mpanic diverges
  | S fuel =>
      let counter := S counter in
      let! msg := client_report_failure in
      match msg with
      | RpcProgress info =>
          do! print (PrProgress info) in
          report_progress_from fuel counter
      | RpcSuccess details =>
          do! print (PrSuccess details) in
          mreturn counter
      | other =>
          do! print (PrUnexpected other) in
          mfail (CeOther "Unexpected server response")
      end
  end.
Definition client_report_progress (fuel : nat) : ClW ClientError nat :=
  report_progress_from fuel 0.

Definition client_connect (remote_peer : LnpAddr) : ClW ClientError unit :=
  do! request LnpBroker (RpcConnectPeer remote_peer) in
  report_response.
End client.

(** ** Commands *)

Class CliLib `{Ext} := {
  PartialNodeAddr : Type;
  partial_node_addr : PartialNodeAddr → N → NodeAddr;
  node_id_from_str : string → option NodeId;
  channel_id_from_str : string → option ChannelId }.

Section commands.
Context `{Sys, !Fmt, !LnpCore, !WalletLib, !LnpdLib, !AddrLib, !CliLib, !ClientBus}.

Inductive Command :=
  | CmdListen (bolt bifrost : bool) (ip_addr : N) (port : option N)
  | CmdConnect (peer : LnpAddr)
  | CmdPing (bolt bifrost : bool) (peer : NodeId)
  | CmdInfo (bolt bifrost : bool) (subject : option string)
  | CmdFunds
  | CmdPeers
  | CmdChannels
  | CmdOpen (peer : PartialNodeAddr) (funding_sat : N) (push_msat fee_rate : option N)
      (announce_channel : option bool) (channel_type : option ChannelType)
      (dust_limit to_self_delay htlc_max_count htlc_min_value htlc_max_total_value
       channel_reserve : option N)
  | CmdInvoice (amount : N) (asset : string)
  | CmdPay (invoice : Invoice) (channel : ChannelId) (amount_msat : option N).

Definition action_string (c : Command) : string :=
  match c with
  | CmdListen _ _ _ _ => "Binding to port"
  | CmdConnect _ => "Connecting to remore peer"
  | CmdPing _ _ _ => "Pinging peer"
  | CmdInfo _ _ _ => "Getting info"
  | CmdFunds => "Retrieving information about funds"
  | CmdPeers => "Retrieving information about peers"
  | CmdChannels => "Retrieving information about channels"
  | CmdOpen _ _ _ _ _ _ _ _ _ _ _ _ => "Opening channel"
  | CmdInvoice _ _ => "Creating invoice"
  | CmdPay _ _ _ => "Paying invoice"
  end.

(** [match (bolt, bifrost)] of a command that needs one of the flags. *)
Definition by_protocol {E A} (bolt bifrost : bool) (b f : A) : ClW E A :=
  match bolt, bifrost with
  | true, false => mreturn b
  | false, true => mreturn f
  | _, _ => mpanic "internal error: entered unreachable code"
  end.

Definition exec_info (bolt bifrost : bool) (subject : option string) : ClW ClientError unit :=
  do! match subject with
      | Some subj =>
          match node_id_from_str subj with
          | Some node_id =>
              let! service_id :=
                by_protocol bolt bifrost (PeerBolt node_id) (PeerBifrost node_id) in
              request service_id RpcGetInfo
          | None =>
              match channel_id_from_str subj with
              | Some channel_id => request (ChannelSvc channel_id) RpcGetInfo
              | None => mfail (CeOther ("Subject parameter must be either remote node address "
                  +:+ "or channel id represented by a hex string"))
              end
          end
      | None => request LnpBroker RpcGetInfo
      end in
  let! resp := response in
  match resp with
  | RpcNodeInfo _ | RpcPeerInfo _ | RpcChannelInfo _ => print (PrResponse resp)
  | _ => mfail (CeOther "Server returned unrecognizable response")
  end.

Definition exec_command (fuel : nat) (command : Command) : ClW ClientError unit :=
  match command with
  | CmdInfo bolt bifrost subject => exec_info bolt bifrost subject
  | CmdPeers => do! request LnpBroker RpcListPeers in report_response
  | CmdChannels => do! request LnpBroker RpcListChannels in report_response
  | CmdFunds => do! request LnpBroker RpcListFunds in report_response
  | CmdListen bolt bifrost ip_addr port =>
      let! addr :=
        by_protocol bolt bifrost (listen_bolt ip_addr port) (listen_bifrost ip_addr port) in
      do! request LnpBroker (RpcListen addr) in
      do! client_report_progress fuel in
      mreturn tt
  | CmdConnect peer =>
      do! request LnpBroker (RpcConnectPeer peer) in
      do! client_report_progress fuel in
      mreturn tt
  | CmdPing bolt bifrost peer =>
      let! service_id := by_protocol bolt bifrost (PeerBolt peer) (PeerBifrost peer) in
      request service_id RpcPingPeer
  | CmdOpen peer funding_sat push_msat fee_rate announce_channel channel_type dust_limit
      to_self_delay htlc_max_count htlc_min_value htlc_max_total_value channel_reserve =>
      let node_addr := partial_node_addr peer bolt_port in
      let! identity := self cl_identity in
      do! request LnpBroker (RpcCreateChannel {|
            cc_remote_peer := node_addr; cc_report_to := Some identity;
            cc_funding_sat := funding_sat; cc_push_msat := default 0%N push_msat;
            cc_fee_rate := fee_rate; cc_announce_channel := announce_channel;
            cc_channel_type := channel_type; cc_dust_limit := dust_limit;
            cc_to_self_delay := to_self_delay; cc_htlc_max_count := htlc_max_count;
            cc_htlc_min_value := htlc_min_value;
            cc_htlc_max_total_value := htlc_max_total_value;
            cc_channel_reserve := channel_reserve |}) in
      do! client_report_progress fuel in
      mreturn tt
  | CmdInvoice _ _ => mpanic "not yet implemented: Implement invoice generation"
  | CmdPay invoice channel_id amount_msat =>
      do! request Router (RpcPayInvoice {|
            pay_channel_id := channel_id; pay_invoice := invoice;
            pay_amount_msat := amount_msat |}) in
      do! client_report_progress fuel in
      mreturn tt
  end.

Definition exec (fuel : nat) (command : Command) : ClW ClientError unit :=
  do! print (PrAction (action_string command)) in
  exec_command fuel command.
End commands.

(** ** Amounts of assets ([AmountOfAsset] of [cli/src/opts.rs]) *)

Inductive AmountOfAssetParseError := NeedsValuePair | InvalidAmount.
Record AmountOfAsset := { aoa_asset : string; aoa_amount : N }.

Definition show_amount_of_asset (a : AmountOfAsset) : string :=
  show_uint (aoa_amount a) +:+ " " +:+ aoa_asset a.
Definition show_amount_of_asset_alt (a : AmountOfAsset) : string :=
  aoa_asset a +:+ ":" +:+ show_uint (aoa_amount a).

(** The two pieces around the separator; a third one is refused. *)
Definition value_pair (sep s : string) : AmountOfAssetParseError + string * string :=
  match split sep s with
  | [a; b] => inr (a, b)
  | _ => inl NeedsValuePair
  end.

Definition amount_of_asset_from_str (s : string) : AmountOfAssetParseError + AmountOfAsset :=
  let parsed (asset amount : string) :=
    match parse_uint u64_max amount with
    | Some n => inr {| aoa_asset := asset; aoa_amount := n |}
    | None => inl InvalidAmount
    end in
  if has_char ":"%char s then
    match value_pair ":" s with inr (asset, amount) => parsed asset amount | inl e => inl e end
  else if has_char " "%char s then
    match value_pair " " s with inr (amount, asset) => parsed asset amount | inl e => inl e end
  else inl NeedsValuePair.

(** An amount is read back from both of its texts, unless the name of the asset
    holds a separator. *)
Lemma amount_of_asset_reads_back a :
  (aoa_amount a ≤ u64_max)%N →
  has_char ":"%char (aoa_asset a) = false → has_char " "%char (aoa_asset a) = false →
  amount_of_asset_from_str (show_amount_of_asset a) = inr a ∧
  amount_of_asset_from_str (show_amount_of_asset_alt a) = inr a.
Proof.
  intros Hn Hc Hs. destruct a as [asset n]. simpl in *.
  unfold amount_of_asset_from_str, show_amount_of_asset, show_amount_of_asset_alt, value_pair.
  simpl. rewrite !has_char_app, !show_uint_digits, Hc by done. simpl. unfold split.
  split; rewrite split_go_first by (done || by apply show_uint_digits).
  - rewrite (split_go_none " "%char) by done. rewrite !app_nil_str.
    by rewrite (parse_show_uint _ _ Hn).
  - rewrite (split_go_none ":"%char) by (done || by apply show_uint_digits). rewrite !app_nil_str.
    by rewrite (parse_show_uint _ _ Hn).
Qed.
