(* ===== verification/Launch.v ===== *)
(** * The channel launch workflow ([src/lnpd/automata/launch.rs]) *)

From S2P Require Import Prelude.
From S2P Require Import Bus.
From S2P Require Import Service.
From S2P Require Import Files.
From S2P Require Import Config.
From S2P Require Import ChannelRuntime.
From S2P Require Import Wallet.
From S2P Require Import Rpc.
From S2P Require Import LnpdRuntime.

Local Open Scope rust_scope.

(** Marks the [unreachable!()] after a failed report, which always returns. *)
Definition after_failure : string := "internal error: entered unreachable code".

Section launch.
Context `{Sys, !Fmt, !LnpCore, !WalletLib, !WalletCodec, !LnpdLib, !Build}.

Definition CtlEvent : Type := Event CtlMsg.

(** [From<&Error> for Failure] *)
Definition failure_of_launch (e : LaunchError) : Failure :=
  {| code := FcLaunch; info := show_launch_error e |}.

(** ** Reports to the client: errors of sending them are swallowed *)

Definition tell_client {E} (client_id : ClientId) (report : RpcMsg) : LW E unit :=
  swallow (send_to BusIdRpc LnpBroker (Client client_id) (BusRpc report)).

Definition launch_report_failure {A} (client_id : ClientId) (err : LaunchError)
    : LW LaunchError A :=
  do! tell_client client_id (RpcFailure (failure_of_launch err)) in
  mfail err.
Definition launch_report_progress {E} (client_id : ClientId) (msg : string) : LW E unit :=
  tell_client client_id (RpcProgress msg).
Definition launch_report_success {E} (client_id : ClientId) (msg : string) : LW E unit :=
  tell_client client_id (RpcSuccess (Some msg)).
Definition report_progress_or_failure (client_id : ClientId) (result : LaunchError + string)
    : LW LaunchError unit :=
  do! tell_client client_id
    (match result with
     | inr val => RpcProgress val
     | inl err => RpcFailure (failure_of_launch err)
     end) in
  match result with inr _ => mreturn tt | inl err => mfail err end.

(** An unexpected message: reported, and the error is returned. *)
Definition launch_unexpected {A} (event : CtlEvent) (enquirer : ClientId) (stage : string)
    : LW LaunchError A :=
  do! launch_report_failure (A:=unit) enquirer
        (LeUnexpectedMessage (ev_message event) stage) in
  mpanic after_failure.

(** The result of a call with its error converted, for a report. *)
Definition attempt_from {E A} `{From E LaunchError} (m : LW E A) : LW LaunchError (LaunchError + A) :=
  attempt (q m : LW LaunchError A).

(** ** Transitions *)

(** [ChannelLauncher::with] *)
Definition launcher_with (enquirer : ClientId) (create_channel : CreateChannel)
    : LW LaunchError ChannelLauncher :=
  let! w := get in
  let temp_channel_id := random_temp_id (hist w) in
  let! handle := attempt_from (launch_daemon (Channeld (ActTemporary temp_channel_id))) in
  do! report_progress_or_failure enquirer
        (match handle with
         | inr handle => inr ("Launched new instance of " +:+ handle)
         | inl e => inl e
         end) in
  let! id := self identity in
  let! sent := attempt_from (send_to BusIdCtl id Signer
                 (BusCtl (CtlDeriveKeyset (temp_into_inner temp_channel_id)))) in
  do! report_progress_or_failure enquirer
        (match sent with
         | inr _ => inr "Deriving basepoint keys for the channel"
         | inl e => inl e
         end) in
  mreturn (ClInit temp_channel_id create_channel enquirer).

Definition daemon_launched (c : CreateChannel) : string :=
  "Channel daemon connecting to remote peer " +:+ show_node_addr (cc_remote_peer c)
    +:+ " is launched".

Definition launch_complete_launch (event : CtlEvent) (t : TempChannelId)
    (create_channel : CreateChannel) (enquirer : ClientId) : LW LaunchError ChannelLauncher :=
  do! debug_assert (bool_decide (ev_source event = service_of_temp t))
        "channel_launcher workflow inconsistency: `Hello` RPC CTL message originating not from a channel daemon" in
  do! launch_report_progress enquirer (daemon_launched create_channel) in
  mreturn (ClDeriving t create_channel enquirer).

Definition complete_derivation (event : CtlEvent) (t : TempChannelId) (keyset : LocalKeyset)
    (create_channel : CreateChannel) (enquirer : ClientId) : LW LaunchError ChannelLauncher :=
  do! debug_assert (bool_decide (ev_source event = Signer))
        "channel_launcher workflow inconsistency: `Keyset` RPC CTL message originating not from a sign daemon" in
  do! launch_report_progress enquirer "Key derivation complete" in
  mreturn (ClLaunching t create_channel enquirer keyset).

(** The request sent to the channel daemon: the node's defaults with the
    user's parameters. *)
Definition open_request (params : Policy * CommonParams * PeerParams)
    (create_channel : CreateChannel) (keyset : LocalKeyset) : OpenChannelWith :=
  let '(policy, common, local) := params in
  let '(common, local) := apply_params create_channel common local in {|
    ow_remote_peer := cc_remote_peer create_channel;
    ow_report_to := cc_report_to create_channel;
    ow_funding_sat := cc_funding_sat create_channel;
    ow_push_msat := cc_push_msat create_channel;
    ow_policy := policy;
    ow_common_params := common;
    ow_local_params := local;
    ow_local_keys := keyset |}.

Definition start_negotiation (event : CtlEvent) (t : TempChannelId) (keyset : LocalKeyset)
    (create_channel : CreateChannel) (enquirer : ClientId) : LW LaunchError ChannelLauncher :=
  let! params := self l_params in
  let! sent := attempt (event_send_ctl BusCtl event
                 (CtlOpenChannelWith (open_request params create_channel keyset))) in
  do! match sent with
      | inr _ => mreturn tt
      | inl err => launch_report_failure enquirer (LeEsb err)
      end in
  mreturn (ClNegotiating t enquirer).

Definition start_negotiation1 (event : CtlEvent) (t : TempChannelId)
    (create_channel : CreateChannel) (enquirer : ClientId) : LW LaunchError ChannelLauncher :=
  do! debug_assert (bool_decide (ev_source event = Signer))
        "channel_launcher workflow inconsistency: `Keyset` RPC CTL message originating not from a sign daemon" in
  match ev_message event with
  | CtlKeyset _ keyset =>
      do! launch_report_progress enquirer "Key derivation complete" in
      start_negotiation event t keyset create_channel enquirer
  | _ => launch_unexpected event enquirer "LAUNCHING"
  end.

Definition start_negotiation2 (event : CtlEvent) (t : TempChannelId) (keyset : LocalKeyset)
    (create_channel : CreateChannel) (enquirer : ClientId) : LW LaunchError ChannelLauncher :=
  match ev_message event with
  | CtlHello =>
      do! launch_report_progress enquirer (daemon_launched create_channel) in
      start_negotiation event t keyset create_channel enquirer
  | _ => launch_unexpected event enquirer "DERIVING"
  end.

(** The funding transaction is constructed and handed to the channel daemon. *)
Definition fund_channel (fuel : nat) (event : CtlEvent) (t : TempChannelId)
    (script : PubkeyScript) (amount : N) (feerate_per_kw : option N) (enquirer : ClientId)
    : LW LaunchError OutPoint :=
  let? psbt := on_wallet (construct_funding_psbt fuel t script amount feerate_per_kw) in
  let! funding_outpoint :=
    match channel_funding_outpoint psbt with
    | inl e => mfail (LeFundingStructure e)
    | inr o => mreturn o
    end in
  do? event_send_ctl BusCtl event (CtlFundingConstructed psbt) in
  do! launch_report_progress enquirer
        ("Constructed funding transaction with funding outpoint "
           +:+ show_outpoint funding_outpoint) in
  mreturn funding_outpoint.

Definition complete_negotiation (fuel : nat) (event : CtlEvent) (t : TempChannelId)
    (enquirer : ClientId) : LW LaunchError ChannelLauncher :=
  match ev_message event with
  | CtlConstructFunding f =>
      do! debug_assert (bool_decide (ev_source event = service_of_temp t))
            "channel_launcher workflow inconsistency: `ConstructFunding` RPC CTL message originating not from a channel daemon" in
      do! launch_report_progress enquirer "Remote peer accepted the channel" in
      let! res := attempt (fund_channel fuel event t (fch_script_pubkey f) (fch_amount f)
                             (fch_feerate_per_kw f) enquirer) in
      let! ' (txid, vout) :=
        match res with
        | inr o => mreturn o
        | inl err => launch_report_failure enquirer err
        end in
      (* [vout as u16] *)
      let channel_id := channel_id_with txid (vout mod 2 ^ 16)%N in
      do! update_chanel_id t channel_id in
      do! launch_report_progress enquirer
            ("Channel changed id from temporary " +:+ show_temp_id t
               +:+ " to permanent " +:+ show_channel_id channel_id) in
      mreturn (ClCommitting channel_id txid enquirer)
  | _ => launch_unexpected event enquirer "SIGNING"
  end.

Definition complete_commitment (event : CtlEvent) (txid : Txid) (enquirer : ClientId)
    : LW LaunchError ChannelLauncher :=
  match ev_message event with
  | CtlPublishFunding =>
      let! channel_id :=
        match ev_source event with
        | ChannelSvc channel_id => mreturn channel_id
        | _ => mpanic "channel_launcher workflow inconsistency: `PublishFunding` RPC CTL message originating not from a channel daemon"
        end in
      let! wallet := self l_wallet in
      let! psbt := expect "funding construction is broken" (get_funding_psbt txid wallet) in
      let! sent := attempt_from (event_send_ctl_service BusCtl event Signer (CtlSign psbt)) in
      do! report_progress_or_failure enquirer
            (match sent with
             | inr _ => inr ("Signing funding transaction " +:+ show_txid txid)
             | inl e => inl e
             end) in
      mreturn (ClSigning channel_id txid enquirer)
  | _ => launch_unexpected event enquirer "COMMITTING"
  end.

Definition complete_signatures (event : CtlEvent) (txid : Txid) (enquirer : ClientId)
    : LW LaunchError unit :=
  match ev_message event with
  | CtlSigned funding_psbt =>
      if decide (psbt_txid funding_psbt = txid) then
        do! debug_assert (bool_decide (ev_source event = Signer))
              "channel_launcher workflow inconsistency: `Signed` RPC CTL message originating not from a signing daemon" in
        do! launch_report_progress enquirer
              "Funding transaction is signed, publishing to bitcoin network" in
        do? publish funding_psbt in
        launch_report_success enquirer "Channel created and active"
      else
        do! launch_report_failure (A:=unit) enquirer
              (LeSignedTxidChanged txid (psbt_txid funding_psbt)) in
        mpanic after_failure
  | _ => launch_unexpected event enquirer "SIGNING"
  end.

(** The stage an event meets, unless it reports an error. *)
Definition launcher_stage (fuel : nat) (launcher : ChannelLauncher) (event : CtlEvent)
    : LW LaunchError (option ChannelLauncher) :=
  let some (m : LW LaunchError ChannelLauncher) :=
    let! l := m in mreturn (Some l) in
  match launcher with
  | ClInit t request enquirer =>
      some match ev_message event with
           | CtlHello => launch_complete_launch event t request enquirer
           | CtlKeyset _ keyset => complete_derivation event t keyset request enquirer
           | _ => launch_unexpected event enquirer "INIT"
           end
  | ClDeriving t request enquirer => some (start_negotiation1 event t request enquirer)
  | ClLaunching t request enquirer keyset =>
      some (start_negotiation2 event t keyset request enquirer)
  | ClNegotiating t enquirer => some (complete_negotiation fuel event t enquirer)
  | ClCommitting _ txid enquirer =>
      some match ev_message event with
           | CtlHello => mreturn launcher
           | _ => complete_commitment event txid enquirer
           end
  | ClSigning _ txid enquirer =>
      do! complete_signatures event txid enquirer in
      mreturn None
  end.

(** [StateMachine::next]; [None] when the workflow is over. *)
Definition launcher_next (fuel : nat) (launcher : ChannelLauncher) (event : CtlEvent)
    : LW LaunchError (option ChannelLauncher) :=
  match ev_message event with
  | CtlError _ _ error =>
      do? send_rpc (launcher_enquirer launcher)
            (RpcFailure {| code := FcChannel; info := error |}) in
      mreturn None
  | _ => launcher_stage fuel launcher event
  end.
End launch.
