(* ===== verification/Lnpd.v ===== *)
(** * The broker daemon lnpd ([src/lnpd/runtime.rs]) *)

From S2P Require Import Prelude.
From S2P Require Import Bus.
From S2P Require Import Service.
From S2P Require Import Files.
From S2P Require Import Config.
From S2P Require Import ChannelRuntime.
From S2P Require Import Wallet.
From S2P Require Import Rpc.
From S2P Require Import LnpdRuntime.
From S2P Require Import ListenAddr.
From S2P Require Import Launch.

Local Open Scope rust_scope.

Section lnpd.
Context `{Sys, !Fmt, !LnpCore, !WalletLib, !WalletCodec, !LnpdLib, !Build}.

(** ** Listening for peers *)

Definition listen (addr : NodeAddr) (protocol : Protocol) : LW LauncherErr string :=
  let! socket_addr := expect "tor is not supported" (socket_of_inet (na_addr addr)) in
  let socket := PsListen socket_addr in
  let! node_key_path := self l_node_key_path in
  let daemon := match protocol with
                | Bolt => PeerdBolt socket node_key_path
                | Bifrost => PeerdBifrost socket node_key_path
                end in
  let? handle := launch_daemon daemon in
  mreturn ("Launched new instance of " +:+ handle).

Definition listener_addr (node_id : NodeId) (l : ListenAddr) : NodeAddr :=
  {| na_id := node_id; na_addr := inet_of_socket (lis_socket_addr l) |}.

Fixpoint listen_all (l : list ListenAddr) : LW Error unit :=
  match l with
  | [] => mreturn tt
  | addr :: l =>
      let! node_id := self l_node_id in
      do? listen (listener_addr node_id addr) (lis_protocol addr) in
      listen_all l
  end.

Definition on_ready : LW Error unit :=
  do? launch_daemon Signd in
  do? launch_daemon Routed in
  do? launch_daemon Watchd in
  let! listens := self l_listens in
  listen_all (elements listens).

(** ** Messages of remote peers *)

Definition lnpd_handle_p2p (remote_id : NodeId) (message : LnMsg) : LW Error unit :=
  match message with
  | LnOpenChannel open_channel =>
      let temp := oc_temporary_channel_id open_channel in
      do? launch_daemon (Channeld (ActTemporary temp)) in
      let channeld_id := service_of_temp temp in
      let! ' (policy, common, local) := self l_params in
      let accept_channel := {|
        af_remote_id := remote_id;
        af_report_to := None;
        af_channel_req := open_channel;
        af_policy := policy;
        af_common_params := common;
        af_local_params := local;
        af_local_keys := dumb_keyset |} in
      update (map_accepting <[channeld_id := accept_channel]>)
  | LnChannelReestablish channel_reestablish =>
      let channel_id := cm_channel_id channel_reestablish in
      let! channels := self l_channels in
      if decide (channel_id ∈ channels) then
        do? send_to BusIdMsg (PeerBolt remote_id) (ChannelSvc channel_id)
              (BusBolt (LnChannelReestablish channel_reestablish)) in
        mreturn tt
      else
        do? launch_daemon (Channeld (ActStatic channel_id)) in
        update (map_reestablishing
                  <[ChannelSvc channel_id := (remote_id, channel_reestablish)]>)
  | _ => mreturn tt
  end.

(** ** Requests of clients *)

(** Amounts of the wallet's coins, summed by address. *)
Fixpoint sum_by_address (network : Network) (funds : list Funds) (acc : gmap AddressCompat N)
    : LW Error (gmap AddressCompat N) :=
  match funds with
  | [] => mreturn acc
  | f :: funds =>
      match address_from_script (f_script f) network with
      | None => mfail (from FeNoAddressRepresentation)
      | Some addr =>
          let! amount := u64 (default 0%N (acc !! addr) + f_amount f) in
          sum_by_address network funds (<[addr := amount]> acc)
      end
  end.

Definition available_funding : LW Error (gmap AddressCompat N) :=
  let? funds := on_wallet list_funds in
  let! wallet := self l_wallet in
  sum_by_address (fw_network wallet) funds ∅.

Definition node_info (r : Lnpd) (now : N) : NodeInfo := {|
  ni_node_id := l_node_id r;
  ni_listens := elements (l_listens r);
  ni_uptime := now - l_started r;
  ni_since := l_started r;
  ni_peers := {| lp_bolt := elements (l_bolt r); lp_bifrost := elements (l_bifrost r) |};
  ni_channels := elements (l_channels r) |}.

Definition peer_service (protocol : Protocol) (id : NodeId) : ServiceId :=
  match protocol with Bolt => PeerBolt id | Bifrost => PeerBifrost id end.

(** A peer that is connected, or whose daemon is being started. *)
Definition already_connected (r : Lnpd) (protocol : Protocol) (id : NodeId) : bool :=
  (bool_decide (protocol = Bolt) &&
     (bool_decide (is_Some (l_spawning r !! PeerBolt id)) || bool_decide (id ∈ l_bolt r)))
  || (bool_decide (protocol = Bifrost) &&
     (bool_decide (is_Some (l_spawning r !! PeerBifrost id)) || bool_decide (id ∈ l_bifrost r))).

Definition handle_listen (client_id : ClientId) (addr : ListenAddr) : LW Error unit :=
  let! listens := self l_listens in
  if decide (addr ∈ listens) then
    do? send_rpc client_id (RpcFailure {|
          code := FcLnpd;
          info := "Listener on " +:+ show_listen_addr addr
                    +:+ " already exists, ignoring request" |}) in
    mreturn tt
  else
    do! update (set_listens ({[addr]} ∪ listens)) in
    let! node_id := self l_node_id in
    let! resp := attempt (listen (listener_addr node_id addr) (lis_protocol addr)) in
    do? send_rpc client_id (into_success_or_failure resp) in
    mreturn tt.

Definition handle_connect (client_id : ClientId) (addr : LnpAddr) : LW Error unit :=
  let node_addr := la_node_addr addr in
  let! r := self (λ r, r) in
  if already_connected r (la_protocol addr) (na_id node_addr) then
    do? send_rpc client_id rpc_success in
    mreturn tt
  else
    let peer_socket := PsConnect node_addr in
    let node_key_path := l_node_key_path r in
    let peerd := match la_protocol addr with
                 | Bolt => PeerdBolt peer_socket node_key_path
                 | Bifrost => PeerdBifrost peer_socket node_key_path
                 end in
    let peer_service_id := peer_service (la_protocol addr) (na_id node_addr) in
    let! launched := attempt (launch_daemon peerd) in
    let! resp :=
      match launched with
      | inr handle =>
          do! update (map_spawning <[peer_service_id := client_id]>) in
          mreturn (inr ("Launched new instance of " +:+ handle))
      | inl err => mreturn (inl err)
      end in
    do? send_rpc client_id (to_progress_or_failure resp) in
    mreturn tt.

Definition lnpd_handle_rpc (client_id : ClientId) (message : RpcMsg) : LW Error unit :=
  match message with
  | RpcGetInfo =>
      let! t := now in
      let! info := self (λ r, node_info r t) in
      do? send_rpc client_id (RpcNodeInfo info) in mreturn tt
  | RpcListPeers =>
      let! peers := self (λ r, {| lp_bolt := elements (l_bolt r);
                                  lp_bifrost := elements (l_bifrost r) |}) in
      do? send_rpc client_id (RpcPeerList peers) in mreturn tt
  | RpcListChannels =>
      let! channels := self (λ r, elements (l_channels r)) in
      do? send_rpc client_id (RpcChannelList channels) in mreturn tt
  | RpcListFunds =>
      let! bitcoin_funds := available_funding in
      let? next_address := on_wallet next_funding_address in
      do? send_rpc client_id (RpcFundsInfo {|
            fi_bitcoin_funds := bitcoin_funds; fi_next_address := next_address |}) in
      mreturn tt
  | RpcListen addr => handle_listen client_id addr
  | RpcConnectPeer addr => handle_connect client_id addr
  | RpcCreateChannel create_channel =>
      let? launcher := launcher_with client_id create_channel in
      update (map_creating
        <[ChannelSvc (MkChannelId (launcher_channel_id launcher)) := launcher]>)
  | wrong_msg => mfail (wrong_esb_msg BusIdRpc (BusRpc wrong_msg))
  end.

(** ** Messages of other daemons *)

Definition register_daemon {E} (source : ServiceId) : LW E unit :=
  match source with
  | PeerBolt id => update (map_bolt (λ s, {[id]} ∪ s))
  | PeerBifrost id => update (map_bifrost (λ s, {[id]} ∪ s))
  | ChannelSvc id => update (map_channels (λ s, {[id]} ∪ s))
  | _ => mreturn tt
  end.

(** [creating_channels.remove(&key).unwrap_or_else(|| panic!(..))] *)
Definition take_launcher (key : ServiceId) (source : ServiceId) : LW Error ChannelLauncher :=
  let! creating := self l_creating in
  let! launcher := expect ("unregistered channel launcher for " +:+ show_service_id source)
                     (creating !! key) in
  do! update (map_creating (delete key)) in
  mreturn launcher.

Definition next_launcher (fuel : nat) (launcher : ChannelLauncher) (source : ServiceId)
    (message : CtlMsg) : LW Error ChannelLauncher :=
  let! id := self identity in
  let? next := launcher_next fuel launcher (event_with id source message) in
  expect "channel launcher should not be complete" next.

Definition handle_hello (fuel : nat) (source : ServiceId) : LW Error unit :=
  do! register_daemon source in
  let! id := self identity in
  let! r := self (λ r, r) in
  match l_creating r !! source with
  | Some channel_launcher =>
      do! update (map_creating (delete source)) in
      let? next := launcher_next fuel channel_launcher (event_with id source CtlHello) in
      match next with
      | Some l => update (map_creating <[source := l]>)
      | None => mreturn tt
      end
  | None =>
  match l_accepting r !! source with
  | Some accept_channel =>
      do! update (map_accepting (delete source)) in
      do? send_to BusIdCtl id source (BusCtl (CtlAcceptChannelFrom accept_channel)) in
      mreturn tt
  | None =>
  match l_reestablishing r !! source with
  | Some (remote_id, channel_reestablish) =>
      do! update (map_reestablishing (delete source)) in
      do? send_to BusIdMsg (PeerBolt remote_id) source
            (BusBolt (LnChannelReestablish channel_reestablish)) in
      mreturn tt
  | None =>
  match l_spawning r !! source with
  | Some enquirer =>
      do! update (map_spawning (delete source)) in
      do? send_rpc enquirer
            (RpcSuccess (Some ("Peer connected to " +:+ show_service_id source))) in
      mreturn tt
  | None => mreturn tt
  end end end end.

Definition handle_signed (fuel : nat) (source : ServiceId) (psbt : Psbt) : LW Error unit :=
  let txid := psbt_txid psbt in
  let! funding := self l_funding in
  let! launcher := expect ("unregistered channel launcher for " +:+ show_service_id source)
                     (funding !! txid) in
  do! update (map_funding (delete txid)) in
  let! id := self identity in
  let? none := launcher_next fuel launcher (event_with id source (CtlSigned psbt)) in
  debug_assert (match none with None => true | Some _ => false end)
    "Channel launcher must complete upon publishing funding transaction".

(** An error reported by, or about, the daemon [destination]. *)
Definition handle_error (fuel : nat) (destination : ServiceId) (message : CtlMsg)
    : LW Error unit :=
  let! launcher := take_launcher destination destination in
  let! id := self identity in
  swallow (launcher_next fuel launcher (event_with id destination message)).

Definition lnpd_handle_ctl (fuel : nat) (source : ServiceId) (message : CtlMsg)
    : LW Error unit :=
  match message with
  | CtlHello => handle_hello fuel source
  | CtlKeyset service_id _ =>
      let! launcher := take_launcher service_id service_id in
      let! launcher := next_launcher fuel launcher source message in
      update (map_creating <[service_id := launcher]>)
  | CtlConstructFunding _ =>
      let! launcher := take_launcher source source in
      let! launcher := next_launcher fuel launcher source message in
      update (map_creating
        <[ChannelSvc (MkChannelId (launcher_channel_id launcher)) := launcher]>)
  | CtlPublishFunding =>
      let! launcher := take_launcher source source in
      let! launcher := next_launcher fuel launcher source message in
      let! txid := expect "funding txid must be known at this stage"
                     (launcher_funding_txid launcher) in
      update (map_funding <[txid := launcher]>)
  | CtlSigned psbt => handle_signed fuel source psbt
  | CtlError destination _ _ | CtlEsbError destination _ =>
      handle_error fuel destination message
  | CtlReport report =>
      let msg := match rep_status report with
                 | StProgress msg => RpcProgress msg
                 | StSuccess msg => RpcSuccess msg
                 | StFailure msg => RpcFailure msg
                 end in
      swallow (send_rpc (rep_client report) msg)
  | CtlChannelUpdate old_id new_id =>
      do! update_chanel_id old_id new_id in mreturn tt
  | wrong_msg => mfail (wrong_esb_msg BusIdCtl (BusCtl wrong_msg))
  end.

(** ** [esb::Handler] *)

Definition lnpd_handle (fuel : nat) (bus : ServiceBus) (source : ServiceId) (message : BusMsg)
    : LW Error unit :=
  match bus, message, source with
  | BusIdMsg, BusBolt msg, PeerBolt remote_id => lnpd_handle_p2p remote_id msg
  | BusIdMsg, BusBolt _, service =>
      mpanic ("lnpd received peer message not from a peerd but from "
                +:+ show_service_id service)
  | BusIdCtl, BusCtl msg, source => lnpd_handle_ctl fuel source msg
  | BusIdRpc, BusRpc msg, Client client_id => lnpd_handle_rpc client_id msg
  | BusIdRpc, BusRpc _, service =>
      mpanic ("lnpd received RPC message not from a client but from "
                +:+ show_service_id service)
  | bus, msg, _ => mfail (wrong_esb_msg bus msg)
  end.

(** A message that could not be delivered: its sender is told. *)
Definition lnpd_handle_err (err : EsbError) : LW Error unit :=
  match err with
  | EsbSend source dest err =>
      let! id := self identity in
      do? send_to BusIdCtl id source (BusCtl (CtlEsbError dest err)) in
      mreturn tt
  | _ => mreturn tt
  end.

(** ** Start-up *)

(** A file that is too short and one that cannot be read end in the same panic; the texts
    are the heads of the code's. *)
Definition read_node_key_file {R} (key_file : PathBuf) : W R Error NodeId :=
  let! file := expect_ok "Unable to open key file" (file_open key_file) in
  let! w := get in
  let bytes := inode_data (disk w) (f_inode file) in
  if decide (32 ≤ length bytes) then
    expect "incorrect format of the node key file" (node_of_secret (take 32 bytes))
  else mpanic "incorrect format of the node key file".

(** [LNP_NODE_FUNDING_WALLET] *)
Definition wallet_name : string := "funding.wallet".

Definition lnpd_run (config : Config unit) (key_file : PathBuf)
    (listens : list ListenAddr) : W unit Error Lnpd :=
  let! node_id := read_node_key_file key_file in
  let! started := now in
  let? wallet := wallet_with (chain config) (path_push (data_dir config) wallet_name)
                   (electrum_url config) in
  mreturn {|
    l_config := config; l_node_key_path := key_file; l_node_id := node_id;
    l_listens := list_to_set listens; l_started := started; l_wallet := wallet;
    l_params := default_params; l_bolt := ∅; l_bifrost := ∅; l_channels := ∅;
    l_spawning := ∅; l_creating := ∅; l_funding := ∅; l_accepting := ∅;
    l_reestablishing := ∅ |}.
End lnpd.
