(* ===== verification/LnpdFacts.v ===== *)
(** * The launch workflow as a transition system, and the registries of lnpd

    The stages of a channel launch, the invariant of the maps in which lnpd
    keeps its launchers, and the panics of the handlers. *)

From S2P Require Import Prelude.
From S2P Require Import Bus.
From S2P Require Import Service.
From S2P Require Import Files.
From S2P Require Import Config.
From S2P Require Import ChannelRuntime.
From S2P Require Import Wallet.
From S2P Require Import WalletCorrect.
From S2P Require Import Rpc.
From S2P Require Import LnpdRuntime.
From S2P Require Import Launch.
From S2P Require Import Lnpd.

Local Open Scope rust_scope.

(** ** The stages of a launch *)

(** [launcher_step l msg l']: the message the launcher in state [l] waits for,
    and the state it takes. *)
Inductive launcher_step `{LnpCore} : ChannelLauncher → CtlMsg → ChannelLauncher → Prop :=
  | ls_hello_first t r e : launcher_step (ClInit t r e) CtlHello (ClDeriving t r e)
  | ls_keyset_first t r e s k :
      launcher_step (ClInit t r e) (CtlKeyset s k) (ClLaunching t r e k)
  | ls_keyset_second t r e s k :
      launcher_step (ClDeriving t r e) (CtlKeyset s k) (ClNegotiating t e)
  | ls_hello_second t r e k :
      launcher_step (ClLaunching t r e k) CtlHello (ClNegotiating t e)
  | ls_fund t e f txid vout :
      launcher_step (ClNegotiating t e) (CtlConstructFunding f)
        (ClCommitting (channel_id_with txid vout) txid e)
  | ls_hello_again c txid e :
      launcher_step (ClCommitting c txid e) CtlHello (ClCommitting c txid e)
  | ls_publish c c' txid e :
      launcher_step (ClCommitting c txid e) CtlPublishFunding (ClSigning c' txid e).

(** How a launch ends: with an error reported by a daemon, or signed. *)
Inductive launcher_ends `{LnpCore, !WalletLib} : ChannelLauncher → CtlMsg → Prop :=
  | le_error l d req err : launcher_ends l (CtlError d req err)
  | le_signed c psbt e : launcher_ends (ClSigning c (psbt_txid psbt) e) (CtlSigned psbt).

#[export] Hint Constructors launcher_step launcher_ends : returns.

Section steps.
Context `{Sys, !Fmt, !LnpCore, !WalletLib, !WalletCodec, !LnpdLib, !Build}.

Lemma launch_unexpected_returns {A} ev e stage (P : A → Prop) :
  returns (launch_unexpected ev e stage) P.
Proof. unfold launch_unexpected. returns_auto. Qed.
Lemma debug_assert_returns {S E} b why (P : unit → Prop) :
  P tt → returns (debug_assert (S:=S) (E:=E) b why) P.
Proof. intros HP. unfold debug_assert. case_match; auto with returns. Qed.
#[local] Hint Resolve launch_unexpected_returns : returns.

Lemma start_negotiation_returns ev t k r e (P : ChannelLauncher → Prop) :
  P (ClNegotiating t e) → returns (start_negotiation ev t k r e) P.
Proof. intros. unfold start_negotiation. returns_auto. Qed.
#[local] Hint Resolve start_negotiation_returns : returns.

Lemma complete_signatures_returns ev txid e :
  returns (complete_signatures ev txid e)
    (λ _, ∃ psbt, ev_message ev = CtlSigned psbt ∧ psbt_txid psbt = txid).
Proof.
  unfold complete_signatures. destruct (ev_message ev) eqn:Em; auto with returns.
  case_decide; [|apply returns_bind; intros; apply returns_mpanic].
  do 3 (apply returns_bind; intros). intros ? ? ? _. eauto.
Qed.

(** Every stage moves on as the workflow says. *)
Definition moves (l : ChannelLauncher) (msg : CtlMsg) (o : option ChannelLauncher) : Prop :=
  match o with Some l' => launcher_step l msg l' | None => launcher_ends l msg end.

Lemma launcher_next_returns fuel l ev :
  returns (launcher_next fuel l ev) (moves l (ev_message ev)).
Proof.
  unfold launcher_next.
  assert (∀ m : LW LaunchError ChannelLauncher,
    returns m (launcher_step l (ev_message ev)) →
    returns (let! l' := m in mreturn (Some l')) (moves l (ev_message ev))) as Hsome.
  { intros m Hm. eapply returns_bind_2; [exact Hm|]. intros l' Hl'. by apply returns_mreturn. }
  destruct (ev_message ev) eqn:Em; try (apply returns_bind; intros; apply returns_mreturn; constructor).
  all: rewrite <-Em in *; unfold launcher_stage; destruct l; try (apply Hsome; unfold start_negotiation1,
    start_negotiation2, complete_negotiation, complete_commitment, launch_complete_launch,
    complete_derivation; rewrite ?Em; returns_auto; fail).
  all: eapply returns_bind_2; [apply complete_signatures_returns|].
  all: intros _ (psbt & -> & <-); apply returns_mreturn; constructor.
Qed.
End steps.

(** ** Calls on the wallet *)

(** The panics of the wallet: the PSBT library, an address that has no
    representation, overflow in a debug build, and a loop that never ends. *)
Definition wallet_panic `{Build} (p : string) : Prop :=
  p = "funding PSBT construction is broken" ∨ p = "hardcoded funding output number" ∨
  p = "Incorrect scriptPubkey to represents address" ∨ p = diverges ∨
  (debug_assertions = true ∧ p = "attempt to compute with overflow").

Section wallet_calls.
Context `{Sys, !Fmt, !LnpCore, !WalletLib, !WalletCodec, !LnpdLib, !Build}.

Lemma u64_upholds {S E} (I : S → Prop) n : upholds I wallet_panic (u64 (E:=E) n).
Proof.
  intros s Hs. unfold u64. case_decide; [by split|].
  destruct debug_assertions eqn:Ed; simpl; [|by split].
  split; [done|]. intros ? [= <-]. do 4 right. by split.
Qed.
#[local] Hint Resolve u64_upholds : upholds.

Definition any (w : FundingWallet) : Prop := True.
#[local] Abbreviation calm := (upholds (on_rt any) wallet_panic).

Lemma save_calm : calm save.
Proof. unfold save. upholds_auto. Qed.
Lemma electrum_calm {E A} `{From ElectrumErr E} o (reply : History → string + A) :
  calm (electrum (E:=E) o reply).
Proof. unfold electrum. upholds_auto. Qed.
#[local] Hint Resolve save_calm electrum_calm : upholds.
Lemma list_funds_calm : calm list_funds.
Proof. unfold list_funds, lookup_funds. upholds_auto. Qed.
Lemma take_funds_calm t acc l : calm (take_funds (E:=FundingErr) t acc l).
Proof. revert acc. induction l as [|f l IH]; intros acc; simpl; upholds_auto. Qed.
Lemma get_calm {E} : calm (get (E:=E)).
Proof. apply upholds_get. Qed.
Lemma fee_loop_calm fuel d inputs script amount change rate fee :
  calm (fee_loop fuel d inputs script amount change rate fee).
Proof.
  revert fee. induction fuel as [|fuel IH]; intros fee; simpl.
  - apply upholds_mpanic. unfold wallet_panic. auto 10.
  - upholds_auto; try apply upholds_expect; unfold wallet_panic; auto 10.
Qed.
#[local] Hint Resolve list_funds_calm take_funds_calm fee_loop_calm : upholds.
Lemma construct_calm fuel t script amount rate :
  calm (construct_funding_psbt fuel t script amount rate).
Proof. unfold construct_funding_psbt. upholds_auto. Qed.
Lemma next_address_calm : calm next_funding_address.
Proof.
  unfold next_funding_address. upholds_auto. apply upholds_expect.
  unfold wallet_panic. auto 10.
Qed.

(** The wallet only ever gains pending fundings. *)
Definition gains (w w' : FundingWallet) : Prop :=
  ∀ t, is_Some (pending_of w !! t) → is_Some (pending_of w' !! t).

Lemma construct_gains fuel t script amount rate :
  respects (λ w w', gains (rt w) (rt w')) (construct_funding_psbt fuel t script amount rate).
Proof.
  intros w. pose proof (construct_guarded fuel t script amount rate w) as Hg.
  destruct (construct_funding_psbt fuel t script amount rate w) as [[psbt|e|p] w'] eqn:E;
    simpl; [|by unfold gains; rewrite Hg..].
  apply construct_fresh_coins in E as (p & Hp & _). intros t' Ht'. rewrite Hp.
  destruct (decide (t' = psbt_txid psbt)) as [->|];
    [by rewrite lookup_insert_eq | by rewrite lookup_insert_ne].
Qed.
Lemma list_funds_gains : respects (λ w w', gains (rt w) (rt w')) list_funds.
Proof. intros w t Ht. destruct (list_funds_pending w) as [<- _]. done. Qed.

(** A call on the wallet keeps an invariant of lnpd that survives gains. *)
Context (I : Lnpd → Prop) (ok : string → Prop).
Context (I_gains : ∀ r x, gains (l_wallet r) x → I r → I (set_wallet x r)).
Context (ok_wallet : ∀ p, wallet_panic p → ok p).

Lemma on_wallet_upholds {E A} (m : FW E A) :
  calm m → respects (λ w w', gains (rt w) (rt w')) m → upholds (on_rt I) ok (on_wallet m).
Proof.
  intros Hm Hg w Hw. unfold on_wallet, on_part.
  specialize (Hg (mk_world (l_wallet (rt w)) (hist w) (disk w))).
  destruct (Hm (mk_world (l_wallet (rt w)) (hist w) (disk w)) Logic.I) as [_ Hp].
  destruct (m _) as [r w']. simpl in *. split; [by apply I_gains|].
  intros p Ep. apply ok_wallet. by apply Hp.
Qed.
End wallet_calls.

(** ** The registries *)

Section registries.
Context `{Sys, !Fmt, !LnpCore, !WalletLib, !WalletCodec, !LnpdLib, !Build}.

(** The wallet knows the funding of a launcher that has one. *)
Definition launcher_ok (r : Lnpd) (l : ChannelLauncher) : Prop :=
  match l with
  | ClCommitting _ txid _ | ClSigning _ txid _ => is_Some (pending_of (l_wallet r) !! txid)
  | _ => True
  end.

Definition service_of_launcher (l : ChannelLauncher) : ServiceId :=
  ChannelSvc (MkChannelId (launcher_channel_id l)).

(** A launcher is registered under the id of its channel daemon until its
    funding is being signed, and under the funding transaction from then on. *)
Definition registries_ok (r : Lnpd) : Prop :=
  (∀ k l, l_creating r !! k = Some l →
     k = service_of_launcher l ∧ launcher_ok r l ∧ ∀ c t e, l ≠ ClSigning c t e) ∧
  (∀ t l, l_funding r !! t = Some l → launcher_ok r l ∧ ∃ c e, l = ClSigning c t e).

(** The funding output of a PSBT belongs to the transaction of the PSBT. *)
Definition outpoint_of_psbt : Prop :=
  ∀ psbt txid vout, channel_funding_outpoint psbt = inr (txid, vout) → txid = psbt_txid psbt.

Lemma launcher_ok_gains r x l :
  gains (l_wallet r) x → launcher_ok r l → launcher_ok (set_wallet x r) l.
Proof. intros Hg. destruct l; simpl; auto. Qed.
Lemma registries_ok_gains r x :
  gains (l_wallet r) x → registries_ok r → registries_ok (set_wallet x r).
Proof.
  intros Hg [Hc Hf]. split.
  - intros k l Hl. destruct (Hc k l Hl) as (? & ? & ?). eauto using launcher_ok_gains.
  - intros t l Hl. destruct (Hf t l Hl) as (? & ?). eauto using launcher_ok_gains.
Qed.

(** What may make a launcher panic on an event. *)
Definition keyset_not_from_signd : string :=
  "channel_launcher workflow inconsistency: `Keyset` RPC CTL message originating not from a sign daemon".
Definition signed_not_from_signd : string :=
  "channel_launcher workflow inconsistency: `Signed` RPC CTL message originating not from a signing daemon".

Definition next_panic (ev : CtlEvent) (p : string) : Prop :=
  (debug_assertions = true ∧ ev_source ev ≠ Signer ∧ p = keyset_not_from_signd) ∨
  (wallet_panic p ∧ ∃ f, ev_message ev = CtlConstructFunding f) ∨
  (debug_assertions = true ∧ ev_source ev ≠ Signer ∧ p = signed_not_from_signd ∧
     ∃ psbt, ev_message ev = CtlSigned psbt).

Section next.
Context (ev : CtlEvent).
#[local] Abbreviation kept := (upholds (on_rt registries_ok) (next_panic ev)).

Lemma debug_assert_kept {E} b why :
  (b = false → debug_assertions = true → next_panic ev why) →
  kept (debug_assert (E:=E) b why).
Proof.
  intros Hb. unfold debug_assert. destruct (debug_assertions) eqn:Ed, b; simpl;
    try apply upholds_mreturn. apply upholds_mpanic. by apply Hb.
Qed.
Lemma tell_client_kept {E} c r : kept (tell_client (E:=E) c r).
Proof. unfold tell_client. upholds_auto. Qed.
#[local] Hint Resolve tell_client_kept : upholds.
Lemma launch_report_progress_kept {E} c m : kept (launch_report_progress (E:=E) c m).
Proof. unfold launch_report_progress. upholds_auto. Qed.
Lemma launch_report_failure_kept {A} c e : kept (launch_report_failure (A:=A) c e).
Proof. unfold launch_report_failure. upholds_auto. Qed.
#[local] Hint Resolve launch_report_progress_kept launch_report_failure_kept : upholds.

(** The [unreachable!()] after a failed report is never reached. *)
Lemma after_report_kept {A} c e :
  kept (do! launch_report_failure (A:=unit) c e in mpanic after_failure : LW LaunchError A).
Proof.
  intros w Hw. destruct (launch_report_failure_kept (A:=unit) c e w Hw) as [H1' H2'].
  unfold bind. destruct (launch_report_failure c e w) as [[a|e'|p] w'] eqn:E; simpl in *.
  - exfalso. revert E. unfold launch_report_failure, bind.
    by destruct (tell_client _ _ _) as [[]?].
  - by split.
  - split; [done|]. intros ? [= <-]. by apply H2'.
Qed.
Lemma launch_unexpected_kept {A} c stage : kept (launch_unexpected (A:=A) ev c stage).
Proof. apply after_report_kept. Qed.
Lemma report_progress_or_failure_kept c r : kept (report_progress_or_failure c r).
Proof. unfold report_progress_or_failure. upholds_auto. Qed.
Lemma event_send_ctl_kept m : kept (event_send_ctl BusCtl ev m).
Proof. unfold event_send_ctl. upholds_auto. Qed.
Lemma event_send_ctl_service_kept s m : kept (event_send_ctl_service BusCtl ev s m).
Proof. unfold event_send_ctl_service. upholds_auto. Qed.
Lemma update_chanel_id_kept {E} o n : kept (update_chanel_id (E:=E) o n).
Proof. unfold update_chanel_id. upholds_auto. Qed.
#[local] Hint Resolve launch_unexpected_kept report_progress_or_failure_kept
  event_send_ctl_kept event_send_ctl_service_kept update_chanel_id_kept : upholds.

Lemma keyset_assert_kept {E} :
  kept (debug_assert (E:=E) (bool_decide (ev_source ev = Signer)) keyset_not_from_signd).
Proof.
  apply debug_assert_kept. intros Hs%bool_decide_eq_false Hd. left. by split_and!.
Qed.
Lemma start_negotiation_kept t k r e : kept (start_negotiation ev t k r e).
Proof. unfold start_negotiation. upholds_auto. Qed.
#[local] Hint Resolve start_negotiation_kept keyset_assert_kept : upholds.
Lemma start_negotiation1_kept t r e : kept (start_negotiation1 ev t r e).
Proof. unfold start_negotiation1. apply upholds_bind; upholds_auto. Qed.
Lemma start_negotiation2_kept t k r e : kept (start_negotiation2 ev t k r e).
Proof. unfold start_negotiation2. upholds_auto. Qed.
Lemma complete_derivation_kept t k r e : kept (complete_derivation ev t k r e).
Proof. unfold complete_derivation. upholds_auto. Qed.
Lemma launch_complete_launch_kept t r e :
  ev_source ev = service_of_temp t → kept (launch_complete_launch ev t r e).
Proof.
  intros Hsrc. unfold launch_complete_launch. rewrite bool_decide_eq_true_2 by done.
  apply upholds_bind; [by apply debug_assert_kept|upholds_auto].
Qed.
Lemma publish_kept psbt : kept (publish psbt).
Proof. unfold publish, electrum. upholds_auto. Qed.
#[local] Hint Resolve publish_kept : upholds.
Lemma complete_signatures_kept txid e : kept (complete_signatures ev txid e).
Proof.
  unfold complete_signatures. destruct (ev_message ev) as [] eqn:Em;
    try apply launch_unexpected_kept.
  case_decide; [|apply after_report_kept].
  apply upholds_bind; [apply debug_assert_kept|unfold launch_report_success; upholds_auto].
  intros Hs%bool_decide_eq_false Hd. right. right. rewrite Em. by eauto.
Qed.

(** [knows t]: the wallet has a pending funding with this transaction. *)
Definition knows (t : Txid) (w : World Lnpd) : Prop :=
  is_Some (pending_of (l_wallet (rt w)) !! t).
#[local] Abbreviation ens :=
  (ensures (on_rt registries_ok) (next_panic ev)).

Lemma keeps_knows {E A} t (m : LW E A) :
  kept m → respects (same l_wallet) m → ens (knows t) m (λ _, knows t).
Proof.
  intros Hm Hs. eapply ensures_frame; [done|exact Hs|]. unfold knows. by intros w w' [-> _].
Qed.

Lemma construct_ens fuel t script amount rate :
  (∃ f, ev_message ev = CtlConstructFunding f) →
  ens (λ _, True) (on_wallet (construct_funding_psbt fuel t script amount rate))
    (λ psbt, knows (psbt_txid psbt)).
Proof.
  intros Hev w HI _.
  assert (∀ p, wallet_panic p → next_panic ev p) as Hok by (intros; right; left; by split).
  destruct (on_wallet_upholds registries_ok (next_panic ev) registries_ok_gains Hok
    _ (construct_calm fuel t script amount rate) (construct_gains fuel t script amount rate)
    w HI) as [H1' H2'].
  split_and!; [done..|]. unfold on_wallet, on_part, knows.
  destruct (construct_funding_psbt _ _ _ _ _ _) as [[psbt|e|p] w'] eqn:E; try done.
  simpl. intros ? [= <-]. apply construct_fresh_coins in E as (p & -> & _).
  rewrite lookup_insert_eq. by eexists.
Qed.

Lemma progress_same {E T} (f : Lnpd → T) c m :
  respects (same f) (launch_report_progress (E:=E) c m).
Proof. unfold launch_report_progress, tell_client. respects_auto. Qed.
Lemma event_send_ctl_same {T} (f : Lnpd → T) m : respects (same f) (event_send_ctl BusCtl ev m).
Proof. unfold event_send_ctl. respects_auto. Qed.
Lemma update_chanel_id_same {E T} (f : Lnpd → T) o n :
  (∀ g r, f r = f (map_channels g r)) → respects (same f) (update_chanel_id (E:=E) o n).
Proof. intros. unfold update_chanel_id. respects_auto. Qed.
#[local] Hint Resolve progress_same event_send_ctl_same update_chanel_id_same : respects.

Lemma fund_channel_ens fuel t script amount rate e :
  outpoint_of_psbt → (∃ f, ev_message ev = CtlConstructFunding f) →
  ens (λ _, True) (fund_channel fuel ev t script amount rate e) (λ o, knows o.1).
Proof.
  intros Hlaw Hev. unfold fund_channel.
  eapply ensures_bind; [apply ensures_q, construct_ens, Hev|]. intros psbt. simpl.
  destruct (channel_funding_outpoint psbt) as [err|[txid vout]] eqn:Eo.
  { apply (ensures_bind _ _ _ _ _ (λ _ _, False)); [apply ensures_mfail|]. by intros ? w _ []. }
  apply Hlaw in Eo as ->.
  apply (ensures_bind _ _ _ _ _ (λ o w, knows (psbt_txid psbt) w ∧ o = (psbt_txid psbt, vout)));
    [by apply ensures_mreturn|]. intros o.
  apply (ensures_mono _ _ (λ w, knows o.1 w) _ _ (λ o, knows o.1));
    [by intros w [? ->]|done|].
  eapply ensures_bind; [apply keeps_knows; [upholds_auto|respects_auto]|]. intros [].
  eapply ensures_bind; [apply keeps_knows; [upholds_auto|respects_auto]|]. intros [].
  by apply ensures_mreturn.
Qed.

Lemma complete_negotiation_ens fuel t e :
  outpoint_of_psbt → ev_source ev = service_of_temp t →
  ens (λ _, True) (complete_negotiation fuel ev t e) (λ l w, launcher_ok (rt w) l).
Proof.
  intros Hlaw Hsrc. unfold complete_negotiation.
  destruct (ev_message ev) eqn:Em;
    try (by apply (ensures_returns _ _ _ _ (λ _, False));
           [apply launch_unexpected_kept|apply launch_unexpected_returns|]).
  rewrite bool_decide_eq_true_2 by done.
  eapply ensures_bind; [apply ensures_upholds, debug_assert_kept; done|]. intros [].
  eapply ensures_bind; [apply ensures_upholds; upholds_auto|]. intros [].
  eapply ensures_bind; [apply ensures_attempt, fund_channel_ens; eauto|]. intros res.
  apply (ensures_bind _ _ _ _ _ (λ o, knows o.1)).
  { destruct res as [err|o]; [|by apply ensures_mreturn].
    eapply ensures_returns; [upholds_auto|apply (returns_bind (λ _, False)); intros;
      apply returns_mfail|done]. }
  intros [txid vout]. simpl.
  eapply ensures_bind; [apply keeps_knows; [upholds_auto|respects_auto]|]. intros known.
  eapply ensures_bind; [apply keeps_knows; [upholds_auto|respects_auto]|]. intros [].
  by apply ensures_mreturn.
Qed.

(** A state that has no funding transaction needs nothing of the wallet. *)
Definition unfunded (l : ChannelLauncher) : Prop := launcher_funding_txid l = None.

Lemma unfunded_ens P (m : LW LaunchError ChannelLauncher) :
  kept m → returns m unfunded → ens P m (λ l w, launcher_ok (rt w) l).
Proof. intros Hm Hr. eapply ensures_returns; [done|done|]. by intros [] s. Qed.

Lemma complete_commitment_ens txid e :
  (∃ c, ev_source ev = ChannelSvc c) →
  ens (knows txid) (complete_commitment ev txid e) (λ l w, launcher_ok (rt w) l).
Proof.
  intros [c Hsrc]. unfold complete_commitment. rewrite Hsrc.
  destruct (ev_message ev); try (by apply unfunded_ens;
    [apply launch_unexpected_kept|apply launch_unexpected_returns]).
  intros w HI [p Hp]. revert w HI Hp.
  assert (∀ psbt, ens (knows txid)
    (let! sent := attempt_from (event_send_ctl_service BusCtl ev Signer (CtlSign psbt)) in
     do! report_progress_or_failure e
       (match sent with inr _ => inr ("Signing funding transaction " +:+ show_txid txid)
                      | inl e => inl e end) in
     mreturn (ClSigning c txid e)) (λ l w, launcher_ok (rt w) l)) as Hrest.
  { intros psbt. unfold attempt_from, report_progress_or_failure, tell_client.
    eapply ensures_bind; [apply keeps_knows;
      [upholds_auto|unfold event_send_ctl_service; respects_auto]|]. intros sent.
    eapply ensures_bind; [apply keeps_knows; [upholds_auto|respects_auto]|]. intros [].
    by apply ensures_mreturn. }
  intros w HI Hp. unfold self, get_funding_psbt. rewrite !bind_mreturn, !bind_gets.
  unfold pending_of in Hp. rewrite Hp. simpl. rewrite !bind_mreturn.
  apply (Hrest (pf_psbt p) w HI). unfold knows, pending_of. by rewrite Hp.
Qed.

(** The event comes from the channel daemon of the launcher, or it is one of
    those that other daemons send. *)
Definition source_ok (l : ChannelLauncher) : Prop :=
  ev_source ev = service_of_launcher l ∨
  (∃ s k, ev_message ev = CtlKeyset s k) ∨ (∃ psbt, ev_message ev = CtlSigned psbt).

#[local] Hint Resolve debug_assert_returns launch_unexpected_returns : returns.
#[local] Hint Extern 1 (unfunded _) => reflexivity : returns.

(** The stages whose handler depends on where the event comes from. *)
Lemma init_stage_ens t r e P :
  source_ok (ClInit t r e) →
  ens P (match ev_message ev with
         | CtlHello => launch_complete_launch ev t r e
         | CtlKeyset _ keyset => complete_derivation ev t keyset r e
         | _ => launch_unexpected ev e "INIT"
         end) (λ l w, launcher_ok (rt w) l).
Proof.
  intros Hsrc. apply unfunded_ens.
  - unfold source_ok in Hsrc. destruct (ev_message ev); try apply launch_unexpected_kept.
    + apply launch_complete_launch_kept. by destruct Hsrc as [|[(? & ? & ?)|[? ?]]].
    + apply complete_derivation_kept.
  - unfold launch_complete_launch, complete_derivation. returns_auto.
Qed.
Lemma negotiating_stage_ens fuel t e P :
  outpoint_of_psbt → source_ok (ClNegotiating t e) →
  ens P (complete_negotiation fuel ev t e) (λ l w, launcher_ok (rt w) l).
Proof.
  intros Hlaw [Hsrc|Hmsg].
  - eapply ensures_mono; [| |apply complete_negotiation_ens; [done|exact Hsrc]]; done.
  - apply unfunded_ens.
    + unfold complete_negotiation. destruct (ev_message ev); try apply launch_unexpected_kept.
      by destruct Hmsg as [(? & ? & ?)|[? ?]].
    + unfold complete_negotiation. destruct (ev_message ev); try apply launch_unexpected_returns.
      by destruct Hmsg as [(? & ? & ?)|[? ?]].
Qed.
Lemma committing_stage_ens c txid e :
  source_ok (ClCommitting c txid e) →
  ens (λ w, launcher_ok (rt w) (ClCommitting c txid e))
    (match ev_message ev with
     | CtlHello => mreturn (ClCommitting c txid e)
     | _ => complete_commitment ev txid e
     end) (λ l w, launcher_ok (rt w) l).
Proof.
  intros Hsrc.
  assert (ens (knows txid) (complete_commitment ev txid e) (λ l w, launcher_ok (rt w) l)).
  { destruct Hsrc as [Hsrc|Hmsg]; [apply complete_commitment_ens; eauto|].
    unfold complete_commitment. destruct (ev_message ev);
      try (by apply unfunded_ens; [apply launch_unexpected_kept|apply launch_unexpected_returns]).
    by destruct Hmsg as [(? & ? & ?)|[? ?]]. }
  destruct (ev_message ev); try done. by apply ensures_mreturn.
Qed.

Lemma launcher_next_ens fuel l :
  outpoint_of_psbt → source_ok l →
  ens (λ w, launcher_ok (rt w) l) (launcher_next fuel l ev)
    (λ o w, match o with Some l' => launcher_ok (rt w) l' | None => True end).
Proof.
  intros Hlaw Hsrc. unfold launcher_next.
  assert (∀ (P : World Lnpd → Prop) (m : LW LaunchError ChannelLauncher),
    ens P m (λ l w, launcher_ok (rt w) l) →
    ens P (let! l' := m in mreturn (Some l'))
      (λ o w, match o with Some l' => launcher_ok (rt w) l' | None => True end)) as Hsome.
  { intros P m Hm. eapply ensures_bind; [exact Hm|]. intros l'. by apply ensures_mreturn. }
  set (Q := λ (o : option ChannelLauncher) w,
    match o with Some l' => launcher_ok (rt w) l' | None => True end) in *.
  assert (∀ P, ens P (do? send_rpc (launcher_enquirer l) (RpcFailure {| code := FcChannel;
    info := match ev_message ev with CtlError _ _ e => e | _ => "" end |}) in mreturn None
      : LW LaunchError (option ChannelLauncher)) Q) as Herr.
  { intros P. eapply ensures_returns; [upholds_auto|
      apply (returns_bind (λ o, o = None)); intros; by apply returns_mreturn|].
    by intros ? ? ->. }
  assert (ens (λ w, launcher_ok (rt w) l) (launcher_stage fuel l ev) Q) as Hstage.
  { destruct l; unfold launcher_stage; try apply Hsome.
    - by apply init_stage_ens.
    - apply unfunded_ens; [apply start_negotiation2_kept|].
      unfold start_negotiation2, start_negotiation. returns_auto.
    - apply unfunded_ens; [apply start_negotiation1_kept|].
      unfold start_negotiation1, start_negotiation. returns_auto.
    - by apply negotiating_stage_ens.
    - by apply committing_stage_ens.
    - apply (ensures_bind _ _ _ _ _ (λ _ _, True)).
      + by apply (ensures_returns _ _ _ _ (λ _, True));
          [apply complete_signatures_kept|intros ? ? ? _|].
      + intros []. by apply ensures_mreturn. }
  destruct (ev_message ev) eqn:Em; try exact Hstage. apply Herr.
Qed.
End next.
End registries.
