(* ===== verification/LnpdSafety.v ===== *)
(** * Invariant and panics of lnpd *)

From S2P Require Import Prelude.
From S2P Require Import Bus.
From S2P Require Import Service.
From S2P Require Import Files.
From S2P Require Import Config.
From S2P Require Import ChannelRuntime.
From S2P Require Import Wallet.
From S2P Require Import WalletCorrect.
From S2P Require Import Rpc.
From S2P Require Import LnpdRuntime.
From S2P Require Import Launch.
From S2P Require Import Lnpd.
From S2P Require Import LnpdFacts.

Local Open Scope rust_scope.

(** The launcher a control message is for, by the key it is registered under. *)
Definition launcher_key `{Ext} (src : ServiceId) (msg : CtlMsg) : option ServiceId :=
  match msg with
  | CtlKeyset s _ => Some s
  | CtlConstructFunding _ | CtlPublishFunding => Some src
  | CtlError d _ _ | CtlEsbError d _ => Some d
  | _ => None
  end.

(** What makes lnpd panic, with the registries [r] it has when the message
    arrives. *)
Inductive lnpd_panic `{!Ext, !Fmt, !WalletLib, !Build} (r : Lnpd) :
    ServiceBus → ServiceId → BusMsg → string → Prop :=
  | lp_not_a_peer src m : (∀ n, src ≠ PeerBolt n) →
      lnpd_panic r BusIdMsg src (BusBolt m)
        ("lnpd received peer message not from a peerd but from " +:+ show_service_id src)
  | lp_not_a_client src m : (∀ c, src ≠ Client c) →
      lnpd_panic r BusIdRpc src (BusRpc m)
        ("lnpd received RPC message not from a client but from " +:+ show_service_id src)
  | lp_unregistered src msg key : launcher_key src msg = Some key → l_creating r !! key = None →
      lnpd_panic r BusIdCtl src (BusCtl msg)
        ("unregistered channel launcher for " +:+ show_service_id key)
  | lp_not_funding src psbt : l_funding r !! psbt_txid psbt = None →
      lnpd_panic r BusIdCtl src (BusCtl (CtlSigned psbt))
        ("unregistered channel launcher for " +:+ show_service_id src)
  | lp_wallet_funding src f p : wallet_panic p →
      lnpd_panic r BusIdCtl src (BusCtl (CtlConstructFunding f)) p
  | lp_wallet_funds c p : wallet_panic p →
      lnpd_panic r BusIdRpc (Client c) (BusRpc RpcListFunds) p
  | lp_debug_keyset src msg : debug_assertions = true →
      (∀ s k, msg = CtlKeyset s k → src ≠ Signer) →
      lnpd_panic r BusIdCtl src (BusCtl msg) keyset_not_from_signd
  | lp_debug_signed src psbt : debug_assertions = true → src ≠ Signer →
      lnpd_panic r BusIdCtl src (BusCtl (CtlSigned psbt)) signed_not_from_signd.

Section safety.
Context `{Sys, !Fmt, !LnpCore, !WalletLib, !WalletCodec, !LnpdLib, !Build}.
Context (outpoint_law : outpoint_of_psbt).
Context (socket_law : ∀ a, socket_of_inet (inet_of_socket a) = Some a).

(** ** The maps *)

Lemma registries_delete k r : registries_ok r → registries_ok (map_creating (delete k) r).
Proof.
  intros [Hc Hf]. split; [|done]. simpl. intros k' l [_ Hl]%lookup_delete_Some.
  by apply Hc in Hl.
Qed.
Lemma registries_delete_funding t r :
  registries_ok r → registries_ok (map_funding (delete t) r).
Proof.
  intros [Hc Hf]. split; [done|]. simpl. intros t' l [_ Hl]%lookup_delete_Some.
  by apply Hf in Hl.
Qed.
Lemma registries_insert k l r :
  k = service_of_launcher l → launcher_ok r l → (∀ c t e, l ≠ ClSigning c t e) →
  registries_ok r → registries_ok (map_creating <[k := l]> r).
Proof.
  intros Hk Hl Hs [Hc Hf]. split; [|done]. simpl.
  intros k' l' [[<- <-]|[_ Hl']]%lookup_insert_Some; [done|]. by apply Hc in Hl'.
Qed.
Lemma registries_insert_funding c t e r :
  launcher_ok r (ClSigning c t e) → registries_ok r →
  registries_ok (map_funding <[t := ClSigning c t e]> r).
Proof.
  intros Hl [Hc Hf]. split; [done|]. simpl.
  intros t' l' [[<- <-]|[_ Hl']]%lookup_insert_Some; [by eauto|]. by apply Hf in Hl'.
Qed.

Definition safe_at (r : Lnpd) (bus : ServiceBus) (src : ServiceId) (msg : BusMsg) {E A}
    (x : Res E A * World Lnpd) : Prop :=
  registries_ok (rt x.2) ∧ ∀ p, x.1 = Panic p → lnpd_panic r bus src msg p.

(** A handler that cannot panic. *)
Lemma calm_safe r bus src msg {A} (m : LW Error A) w :
  upholds (on_rt registries_ok) (λ _, False) m → registries_ok (rt w) →
  safe_at r bus src msg (m w).
Proof. intros Hm Hw. destruct (Hm w Hw) as [? Hp]. split; [done|]. intros p ?%Hp. done. Qed.

Lemma next_panic_lnpd r id src msg p :
  next_panic (event_with id src msg) p → lnpd_panic r BusIdCtl src (BusCtl msg) p.
Proof.
  intros [(? & ? & ->)|[(? & f & Hf)|(? & ? & -> & psbt & Hs)]]; simpl in *; subst;
    by constructor.
Qed.

Lemma take_launcher_run key src w :
  take_launcher key src w =
    match l_creating (rt w) !! key with
    | Some l => (Ok l, with_rt (map_creating (delete key)) w)
    | None => (Panic ("unregistered channel launcher for " +:+ show_service_id src), w)
    end.
Proof. unfold take_launcher, self. rewrite bind_gets. by destruct (l_creating (rt w) !! key). Qed.

(** ** Launchers *)

Lemma next_launcher_ens fuel l src msg :
  source_ok (event_with LnpBroker src msg) l → (∀ d r e, msg ≠ CtlError d r e) →
  (∀ c t e, l ≠ ClSigning c t e) →
  ensures (on_rt registries_ok) (next_panic (event_with LnpBroker src msg))
    (λ w, launcher_ok (rt w) l) (next_launcher fuel l src msg)
    (λ l' w, launcher_ok (rt w) l' ∧ launcher_step l msg l').
Proof.
  intros Hsrc Hne Hl w HI Hw. unfold next_launcher, self. rewrite bind_gets. simpl.
  destruct (launcher_next_ens _ fuel l outpoint_law Hsrc w HI Hw) as (H1' & H2' & H3').
  pose proof (launcher_next_returns fuel l (event_with LnpBroker src msg) w) as Hret.
  unfold bind, q. destruct (launcher_next _ _ _ w) as [[o|e|p] w']; simpl in *.
  - specialize (Hret _ _ eq_refl). destruct o as [l'|]; simpl in *.
    + split_and!; [done|done|]. intros ? [= <-]. split; [exact (H3' _ eq_refl)|done].
    + exfalso. inversion Hret; subst; [by eapply Hne|by eapply Hl].
  - by split_and!.
  - split_and!; [done| |done]. intros ? [= <-]. auto.
Qed.

(** Taking the launcher of [key], moving it on and doing [k] with it. *)
Lemma next_then_safe fuel key src msg (k : ChannelLauncher → LW Error unit) w :
  registries_ok (rt w) → launcher_key src msg = Some key →
  (key = src ∨ ∃ s ks, msg = CtlKeyset s ks) → (∀ d r e, msg ≠ CtlError d r e) →
  (∀ l l' w', service_of_launcher l = key → launcher_step l msg l' →
     launcher_ok (rt w') l' → registries_ok (rt w') → 
     registries_ok (rt (k l' w').2) ∧ ∀ p, (k l' w').1 ≠ Panic p) →
  safe_at (rt w) BusIdCtl src (BusCtl msg)
    ((let! l := take_launcher key key in
      let! l := next_launcher fuel l src msg in k l) w).
Proof.
  intros HI Hkey Hsrc Hne Hk. unfold bind at 1. rewrite take_launcher_run.
  destruct (l_creating (rt w) !! key) as [l|] eqn:El.
  2: { split; [done|]. intros ? [= <-]. by econstructor. }
  destruct (proj1 HI _ _ El) as (Ek & Hlok & Hl).
  assert (source_ok (event_with LnpBroker src msg) l) as Hok.
  { destruct Hsrc as [->|(s & ks & ->)]; [by left|right; left; by eauto]. }
  destruct (next_launcher_ens fuel l src msg Hok Hne Hl
    (with_rt (map_creating (delete key)) w)) as (H1' & H2' & H3');
    [by apply registries_delete|done|].
  unfold bind. destruct (next_launcher _ _ _ _ _) as [[l'|e|p] w']; simpl in *.
  - destruct (H3' _ eq_refl) as [Hl' Hstep]. destruct (Hk l l' w') as [HI' Hnp]; [done..|].
    split; [done|]. intros p Hp. by apply Hnp in Hp.
  - by split.
  - split; [done|]. intros ? [= <-]. eapply next_panic_lnpd. by apply H2'.
Qed.

(** ** Handlers *)

Lemma handle_keyset_safe fuel src key keys w :
  registries_ok (rt w) →
  safe_at (rt w) BusIdCtl src (BusCtl (CtlKeyset key keys))
    (lnpd_handle_ctl fuel src (CtlKeyset key keys) w).
Proof.
  intros HI. apply next_then_safe; [done|done|right; by eauto|done|].
  intros l l' w' Hk Hstep Hok HI'. split; [|done].
  apply registries_insert; [|done| |done].
  - rewrite <-Hk. by inversion Hstep.
  - intros. by inversion Hstep.
Qed.

Lemma handle_construct_safe fuel src f w :
  registries_ok (rt w) →
  safe_at (rt w) BusIdCtl src (BusCtl (CtlConstructFunding f))
    (lnpd_handle_ctl fuel src (CtlConstructFunding f) w).
Proof.
  intros HI. apply next_then_safe; [done|done|by left|done|].
  intros l l' w' Hk Hstep Hok HI'. split; [|done].
  apply registries_insert; [done|done| |done]. intros. by inversion Hstep.
Qed.

Lemma handle_publish_safe fuel src w :
  registries_ok (rt w) →
  safe_at (rt w) BusIdCtl src (BusCtl CtlPublishFunding)
    (lnpd_handle_ctl fuel src CtlPublishFunding w).
Proof.
  intros HI. apply next_then_safe; [done|done|by left|done|].
  intros l l' w' Hk Hstep Hok HI'. inversion Hstep; subst. simpl in *.
  split; [|done]. by apply registries_insert_funding.
Qed.

Lemma handle_error_safe fuel src d msg w :
  registries_ok (rt w) → launcher_key src msg = Some d → (∀ s k, msg ≠ CtlKeyset s k) →
  safe_at (rt w) BusIdCtl src (BusCtl msg) (handle_error fuel d msg w).
Proof.
  intros HI Hkey Hnk. unfold handle_error. unfold bind at 1. rewrite take_launcher_run.
  destruct (l_creating (rt w) !! d) as [l|] eqn:El.
  2: { split; [done|]. intros ? [= <-]. by econstructor. }
  destruct (proj1 HI _ _ El) as (Ek & Hlok & _). unfold self. rewrite bind_gets. simpl.
  destruct (launcher_next_ens (event_with LnpBroker d msg) fuel l outpoint_law
    (or_introl Ek) (with_rt (map_creating (delete d)) w)) as (H1' & H2' & _);
    [by apply registries_delete|done|].
  unfold swallow. destruct (launcher_next _ _ _ _) as [[o|e|p] w']; simpl in *;
    (split; [done|]); try done.
  intros ? [= <-]. specialize (H2' _ eq_refl).
  destruct H2' as [(? & ? & ->)|[(? & f & Hf)|(? & ? & -> & psbt & Hs)]]; simpl in *; subst;
    [by apply lp_debug_keyset; [done|intros ? ? ->; destruct (Hnk _ _ eq_refl)]|by constructor|done].
Qed.

Lemma handle_signed_safe fuel src psbt w :
  registries_ok (rt w) →
  safe_at (rt w) BusIdCtl src (BusCtl (CtlSigned psbt)) (handle_signed fuel src psbt w).
Proof.
  intros HI. unfold handle_signed, self. rewrite bind_gets.
  destruct (l_funding (rt w) !! psbt_txid psbt) as [l|] eqn:El.
  2: { split; [done|]. intros ? [= <-]. by constructor. }
  destruct (proj2 HI _ _ El) as (Hok & c & e & ->). simpl. rewrite bind_mreturn.
  unfold update. rewrite bind_modify, bind_gets. simpl.
  set (ev := event_with LnpBroker src (CtlSigned psbt)).
  set (w1 := with_rt (map_funding (delete (psbt_txid psbt))) w).
  destruct (launcher_next_ens ev fuel (ClSigning c (psbt_txid psbt) e) outpoint_law
    (or_intror (or_intror (ex_intro _ psbt eq_refl))) w1) as (H1' & H2' & _);
    [by apply registries_delete_funding|done|].
  pose proof (launcher_next_returns fuel (ClSigning c (psbt_txid psbt) e) ev w1) as Hret.
  unfold bind, q. destruct (launcher_next _ _ ev w1) as [[o|err|p] w']; simpl in *.
  - specialize (Hret _ _ eq_refl). destruct o as [l'|]; [by inversion Hret|].
    unfold debug_assert. simpl. rewrite andb_false_r. by split.
  - by split.
  - split; [done|]. intros ? [= <-]. apply (next_panic_lnpd _ LnpBroker). by apply H2'.
Qed.

Lemma map_set_registry_ok f r : registries_ok r → registries_ok (map_channels f r).
Proof. done. Qed.

Lemma register_daemon_ok ok src :
  upholds (on_rt registries_ok) ok (register_daemon (E:=Error) src).
Proof. unfold register_daemon. upholds_auto. Qed.

Lemma handle_hello_safe fuel src w :
  registries_ok (rt w) →
  safe_at (rt w) BusIdCtl src (BusCtl CtlHello) (handle_hello fuel src w).
Proof.
  intros HI. unfold handle_hello.
  destruct (register_daemon_ok (λ _, False) src w HI) as [HI1 Hp1].
  unfold bind at 1. destruct (register_daemon src w) as [[[]|e|p] w1] eqn:E1; simpl in *;
    [|by split|by destruct (Hp1 p)].
  unfold self. rewrite !bind_gets. simpl.
  destruct (l_creating (rt w1) !! src) as [l|] eqn:El.
  2: { apply calm_safe; [|done]. upholds_auto. }
  destruct (proj1 HI1 _ _ El) as (-> & Hlok & Hl). unfold update. rewrite bind_modify.
  set (ev := event_with LnpBroker (service_of_launcher l) CtlHello).
  set (w2 := with_rt (map_creating (delete (service_of_launcher l))) w1).
  destruct (launcher_next_ens ev fuel l outpoint_law (or_introl eq_refl) w2)
    as (HI3 & Hp3 & Hq3); [by apply registries_delete|done|].
  pose proof (launcher_next_returns fuel l ev w2) as Hret.
  unfold bind, q. destruct (launcher_next _ _ ev w2) as [[o|err|p] w']; simpl in *.
  - specialize (Hret _ _ eq_refl). specialize (Hq3 _ eq_refl).
    destruct o as [l'|]; [|by split]. split; [|done]. simpl in *.
    apply registries_insert; [by inversion Hret|done| |done]. intros. by inversion Hret.
  - by split.
  - split; [done|]. intros ? [= <-]. apply (next_panic_lnpd _ LnpBroker). by apply Hp3.
Qed.

Lemma lnpd_handle_ctl_safe fuel src msg w :
  registries_ok (rt w) →
  safe_at (rt w) BusIdCtl src (BusCtl msg) (lnpd_handle_ctl fuel src msg w).
Proof.
  intros HI.
  destruct msg; lazymatch goal with
    | |- safe_at _ _ _ (BusCtl CtlHello) _ => apply handle_hello_safe
    | |- safe_at _ _ _ (BusCtl (CtlConstructFunding _)) _ => apply handle_construct_safe
    | |- safe_at _ _ _ (BusCtl CtlPublishFunding) _ => apply handle_publish_safe
    | |- safe_at _ _ _ (BusCtl (CtlSigned _)) _ => apply handle_signed_safe
    | |- safe_at _ _ _ (BusCtl (CtlKeyset _ _)) _ => apply handle_keyset_safe
    | |- safe_at _ _ _ (BusCtl (CtlError _ _ _)) _ => apply handle_error_safe
    | |- safe_at _ _ _ (BusCtl (CtlEsbError _ _)) _ => apply handle_error_safe
    | _ => apply calm_safe; [simpl; unfold update_chanel_id; upholds_auto|]
    end; done.
Qed.

(** ** Clients and peers *)

Lemma listen_safe ok node_id addr p :
  upholds (on_rt registries_ok) ok (listen (listener_addr node_id addr) p).
Proof.
  unfold listen, listener_addr. simpl. rewrite socket_law.
  apply upholds_bind; [apply upholds_mreturn|]. intros a. unfold launch_daemon. upholds_auto.
Qed.
#[local] Hint Resolve listen_safe : upholds.

Lemma launcher_with_safe ok c r :
  upholds (on_rt registries_ok) ok (launcher_with c r).
Proof.
  unfold launcher_with, attempt_from, report_progress_or_failure, tell_client, launch_daemon.
  upholds_auto.
Qed.

Lemma launcher_with_init c r :
  returns (launcher_with c r) (λ l, ∃ t, l = ClInit t r c).
Proof. unfold launcher_with. returns_auto. Qed.

Lemma sum_by_address_safe network funds acc :
  upholds (on_rt registries_ok) wallet_panic (sum_by_address network funds acc).
Proof.
  revert acc. induction funds as [|f funds IH]; intros acc; simpl; [apply upholds_mreturn|].
  destruct (address_from_script _ _); [|apply upholds_mfail].
  apply upholds_bind; [apply u64_upholds|auto].
Qed.

Lemma on_wallet_safe {E A} (m : FW E A) :
  upholds (on_rt any) wallet_panic m → respects (λ w w', gains (rt w) (rt w')) m →
  upholds (on_rt registries_ok) wallet_panic (on_wallet m).
Proof.
  intros Hm Hg. by apply (on_wallet_upholds registries_ok wallet_panic registries_ok_gains).
Qed.

Lemma next_address_gains : respects (λ w w', gains (rt w) (rt w')) next_funding_address.
Proof.
  intros w t Ht. unfold next_funding_address, self. rewrite bind_gets.
  destruct (derive_script _ _); [done|]. by destruct (address_from_script _ _).
Qed.

Lemma list_funds_safe c :
  upholds (on_rt registries_ok) wallet_panic (lnpd_handle_rpc c RpcListFunds).
Proof.
  simpl. unfold available_funding. apply upholds_bind.
  - apply upholds_bind; [|intros funds].
    + apply upholds_q, on_wallet_safe; [apply list_funds_calm|apply list_funds_gains].
    + apply upholds_bind; [upholds_auto|]. intros x. apply sum_by_address_safe.
  - intros funds. apply upholds_bind; [|upholds_auto].
    apply upholds_q, on_wallet_safe; [apply next_address_calm|apply next_address_gains].
Qed.

Lemma lnpd_handle_rpc_safe c msg w :
  registries_ok (rt w) →
  safe_at (rt w) BusIdRpc (Client c) (BusRpc msg) (lnpd_handle_rpc c msg w).
Proof.
  intros HI. destruct msg; try (by split).
  all: try (apply calm_safe; [|done]; simpl; unfold handle_listen, handle_connect, launch_daemon, now;
    upholds_auto; fail).
  - destruct (list_funds_safe c w HI) as [HI' Hp]. split; [done|].
    intros p ?%Hp. by constructor.
  - simpl. destruct (launcher_with_safe (λ _, False) c c0 w HI) as [HI' Hp].
    pose proof (launcher_with_init c c0 w) as Hret. unfold bind, q.
    destruct (launcher_with c c0 w) as [[l|e|p] w'] eqn:E; simpl in *;
      [|by split|by destruct (Hp p)].
    destruct (Hret _ _ eq_refl) as [t ->]. split; [|done]. by apply registries_insert.
Qed.

Lemma lnpd_handle_p2p_safe n msg w :
  registries_ok (rt w) →
  safe_at (rt w) BusIdMsg (PeerBolt n) (BusBolt msg) (lnpd_handle_p2p n msg w).
Proof.
  intros HI. apply calm_safe; [|done]. unfold lnpd_handle_p2p, launch_daemon. upholds_auto.
Qed.

Lemma lnpd_handle_safe fuel bus src msg w :
  registries_ok (rt w) → safe_at (rt w) bus src msg (lnpd_handle fuel bus src msg w).
Proof.
  intros HI.
  assert (∀ p, lnpd_panic (rt w) bus src msg p →
    safe_at (rt w) bus src msg (E:=Error) (A:=unit) (Panic p, w)) as Hpanic.
  { intros p Hp. split; [done|]. by intros ? [= <-]. }
  destruct bus, msg as [ln| |ctl|rpc]; try (by split).
  - destruct src; try (apply Hpanic; by constructor). by apply lnpd_handle_rpc_safe.
  - destruct src; try (apply Hpanic; by constructor). by apply lnpd_handle_p2p_safe.
  - by apply lnpd_handle_ctl_safe.
Qed.

(** A run of lnpd: the messages it handled. *)
Inductive lnpd_reaches (fuel : nat) (w0 : World Lnpd) : World Lnpd → Prop :=
  | lr_start : lnpd_reaches fuel w0 w0
  | lr_step w bus src msg r w' :
      lnpd_reaches fuel w0 w → lnpd_handle fuel bus src msg w = (r, w') →
      (∀ p, r ≠ Panic p) → lnpd_reaches fuel w0 w'.

Lemma lnpd_reaches_ok fuel w0 w :
  registries_ok (rt w0) → lnpd_reaches fuel w0 w → registries_ok (rt w).
Proof.
  intros Hw0. induction 1 as [|w bus src msg r w' Hr IH Hh Hp]; [done|].
  destruct (lnpd_handle_safe fuel bus src msg w IH) as [HI _]. by rewrite Hh in HI.
Qed.
End safety.

Section theorems.
Context `{Sys, !Fmt, !LnpCore, !WalletLib, !WalletCodec, !LnpdLib, !Build}.

(** C25. lnpd panics only on the messages, and with the texts, listed by [lnpd_panic]:
    messages from services of the wrong kind, control messages for a launcher that is
    not registered, the panics of the wallet, and the debug assertions; the other
    [expect]s and [panic!]s of lnpd and of the launch workflow (an unfinished launcher,
    a missing funding transaction, an unknown funding construction, a publishing request
    not from a channel daemon) are unreachable. *)
Theorem lnpd_panics_only_for_listed_causes fuel w0 w bus src msg p w' :
  outpoint_of_psbt → (∀ a, socket_of_inet (inet_of_socket a) = Some a) →
  l_creating (rt w0) = ∅ → l_funding (rt w0) = ∅ → lnpd_reaches fuel w0 w →
  lnpd_handle fuel bus src msg w = (Panic p, w') → lnpd_panic (rt w) bus src msg p.
Proof.
  intros Hlaw Hsock Hc Hf Hr Hp.
  assert (registries_ok (rt w0)) as HI0 by (by split; rewrite ?Hc, ?Hf).
  destruct (lnpd_handle_safe Hlaw Hsock fuel bus src msg w) as [_ Hs];
    [by eapply lnpd_reaches_ok|]. rewrite Hp in Hs. by apply Hs.
Qed.

(** C23. In every state lnpd reaches, a channel launcher is registered under the service
    id of its own channel daemon until its funding is being signed, and from then on
    under the id of its funding transaction; and a launcher that has a funding
    transaction has it among the pending fundings of the wallet. *)
Theorem lnpd_registries_invariant fuel w0 w :
  outpoint_of_psbt → (∀ a, socket_of_inet (inet_of_socket a) = Some a) →
  l_creating (rt w0) = ∅ → l_funding (rt w0) = ∅ → lnpd_reaches fuel w0 w →
  registries_ok (rt w).
Proof.
  intros Hlaw Hsock Hc Hf Hr. eapply lnpd_reaches_ok; [done|done| |done].
  by split; rewrite ?Hc, ?Hf.
Qed.
End theorems.
