(* ===== verification/LnpdCorrect.v ===== *)
(** * Properties of lnpd and of the launch workflow *)

From S2P Require Import Prelude.
From S2P Require Import Bus.
From S2P Require Import Service.
From S2P Require Import Files.
From S2P Require Import Config.
From S2P Require Import ChannelRuntime.
From S2P Require Import Wallet.
From S2P Require Import WalletCorrect.
From S2P Require Import Rpc.
From S2P Require Import LnpdRuntime.
From S2P Require Import ListenAddr.
From S2P Require Import Launch.
From S2P Require Import Lnpd.
From S2P Require Import LnpdFacts.

Local Open Scope rust_scope.

(** Errors that have been told to the client. *)
Create HintDb told discriminated.

(** ** The launch workflow *)

Section launch.
Context `{Sys, !Fmt, !LnpCore, !WalletLib, !WalletCodec, !LnpdLib, !Build}.

Lemma tell_client_run {E} c r w : ∃ ok,
  tell_client (E:=E) c r w = (Ok tt, record_op (OpSend {| env_bus := BusIdRpc;
    env_src := LnpBroker; env_dest := Client c; env_msg := BusRpc r |}) ok w).
Proof.
  unfold tell_client, swallow, send_to, perform.
  destruct (esb_reply _ _); [by exists false | by exists true].
Qed.

(** The events that take the launcher [l] to its end; what else the node does
    between them is not constrained. *)
Inductive launch_run (fuel : nat) : ChannelLauncher → list CtlEvent → Prop :=
  | launch_over l ev w w' :
      launcher_next fuel l ev w = (Ok None, w') → launch_run fuel l [ev]
  | launch_step l ev w w' l' evs :
      launcher_next fuel l ev w = (Ok (Some l'), w') → launch_run fuel l' evs →
      launch_run fuel l (ev :: evs).

(** A daemon reported an error, which ended the launch. *)
Definition aborted (msgs : list CtlMsg) : Prop :=
  ∃ pre d r err, msgs = pre ++ [CtlError d r err].

Lemma aborted_cons m msgs : aborted msgs → aborted (m :: msgs).
Proof. intros (pre & d & r & err & ->). by exists (m :: pre), d, r, err. Qed.

(** What is left of the workflow in each stage. *)
Inductive rest_of_launch : ChannelLauncher → list CtlMsg → Prop :=
  | rol_sign c txid e psbt : rest_of_launch (ClSigning c txid e) [CtlSigned psbt]
  | rol_commit c txid e n psbt :
      rest_of_launch (ClCommitting c txid e)
        (replicate n CtlHello ++ [CtlPublishFunding; CtlSigned psbt])
  | rol_fund t e f n psbt :
      rest_of_launch (ClNegotiating t e)
        (CtlConstructFunding f :: replicate n CtlHello ++ [CtlPublishFunding; CtlSigned psbt])
  | rol_hello t r e k msgs :
      rest_of_launch (ClNegotiating t e) msgs →
      rest_of_launch (ClLaunching t r e k) (CtlHello :: msgs)
  | rol_keyset t r e s k msgs :
      rest_of_launch (ClNegotiating t e) msgs →
      rest_of_launch (ClDeriving t r e) (CtlKeyset s k :: msgs)
  | rol_hello_first t r e msgs :
      rest_of_launch (ClDeriving t r e) msgs →
      rest_of_launch (ClInit t r e) (CtlHello :: msgs)
  | rol_keyset_first t r e s k msgs :
      rest_of_launch (ClLaunching t r e k) msgs →
      rest_of_launch (ClInit t r e) (CtlKeyset s k :: msgs).

Lemma rest_of_launch_step l m l' msgs :
  launcher_step l m l' → rest_of_launch l' msgs → rest_of_launch l (m :: msgs).
Proof.
  intros Hs Hr. destruct Hs; inversion Hr; subst; try (by repeat constructor).
  - by apply rol_commit with (n := S n).
  - by apply rol_commit with (n := 0).
Qed.

Lemma launch_run_rest fuel l evs :
  launch_run fuel l evs →
  aborted (ev_message <$> evs) ∨ rest_of_launch l (ev_message <$> evs).
Proof.
  induction 1 as [l ev w w' E|l ev w w' l' evs E Hr IH];
    apply (launcher_next_returns fuel l ev) in E; simpl in *.
  - inversion E as [l0 d r err Em|c psbt e El Em]; [left|right; constructor].
    by exists [], d, r, err.
  - destruct IH as [IH|IH]; [left; by apply aborted_cons|right].
    by eapply rest_of_launch_step.
Qed.

(** C26. The events that take a channel launch from its start to its end, whatever lnpd
    does between them, are those of the workflow: the channel daemon's hello and its
    keyset in either order, the construction of the funding, any number of hellos after
    the channel changed its id, the request to publish, and the signed funding; or the
    launch ends with an error reported by a daemon. *)
Theorem launch_follows_workflow fuel t req e evs :
  launch_run fuel (ClInit t req e) evs →
  aborted (ev_message <$> evs) ∨
  ∃ s k f n psbt,
    let rest := CtlConstructFunding f :: replicate n CtlHello ++
                [CtlPublishFunding; CtlSigned psbt] in
    ev_message <$> evs = CtlHello :: CtlKeyset s k :: rest ∨
    ev_message <$> evs = CtlKeyset s k :: CtlHello :: rest.
Proof.
  intros [|Hr]%launch_run_rest; [by left|right].
  inversion Hr as [| | | | |t' r' e' m1 Hr1 Et Em|t' r' e' s k m1 Hr1 Et Em]; subst;
    inversion Hr1 as [| | |t2 r2 e2 k2 m2 Hr2|t2 r2 e2 s2 k2 m2 Hr2| |]; subst;
    inversion Hr2; subst; eexists _, _, _, _, _; simpl; first [by left|by right].
Qed.

(** The requests to open a channel among some operations. *)
Definition open_requests (h : History) : list Envelope :=
  omap (λ e, match env_msg e with BusCtl (CtlOpenChannelWith _) => Some e | _ => None end)
    (attempted h).

(** [requests m w l]: among the operations of [m] from [w], these requests. *)
Definition requests {A} (m : LW LaunchError A) (w : World Lnpd) (l : list Envelope) : Prop :=
  ∃ ops, hist (m w).2 = hist w ++ ops ∧ open_requests ops = l.

Lemma requests_some (m : LW LaunchError ChannelLauncher) w l :
  requests m w l → requests (let! x := m in mreturn (Some x)) w l.
Proof. unfold requests, bind. by destruct (m w) as [[a|e|p] w']. Qed.

Lemma requests_after_progress {A} c msg (k : unit → LW LaunchError A) w l :
  (∀ w', rt w' = rt w → requests (k tt) w' l) →
  requests (bind (launch_report_progress c msg) k) w l.
Proof.
  intros Hk. unfold requests, launch_report_progress.
  destruct (tell_client_run (E:=LaunchError) c (RpcProgress msg) w) as [ok E].
  rewrite (bind_ok _ _ _ _ _ E).
  match goal with |- context [k tt ?w1] =>
    destruct (Hk w1 eq_refl) as (ops & Eh & Hops) end. rewrite Eh. simpl. rewrite <-app_assoc.
  eexists. split; [done|]. unfold open_requests, attempted in *. by rewrite omap_app.
Qed.

Definition request_of (ev : CtlEvent) (w : World Lnpd) (req : CreateChannel)
    (k : LocalKeyset) : Envelope := {|
  env_bus := BusIdCtl; env_src := ev_service ev; env_dest := ev_source ev;
  env_msg := BusCtl (CtlOpenChannelWith (open_request (l_params (rt w)) req k)) |}.

Lemma start_negotiation_requests ev t k r e w :
  requests (start_negotiation ev t k r e) w [request_of ev w r k].
Proof.
  unfold requests, start_negotiation, self. rewrite bind_gets.
  unfold event_send_ctl, send_to, perform, attempt, bind at 1.
  destruct (esb_reply _ _) as [err|]; simpl; [|by eexists].
  unfold launch_report_failure. unfold bind.
  match goal with |- context [tell_client e ?r ?w1] =>
    destruct (tell_client_run (E:=LaunchError) e r w1) as [ok ->] end.
  simpl. rewrite <-app_assoc. by eexists.
Qed.

(** The hello of the channel daemon came first. *)
Lemma deriving_requests fuel ev t req e w s k :
  ev_message ev = CtlKeyset s k → ev_source ev = Signer →
  requests (launcher_next fuel (ClDeriving t req e) ev) w [request_of ev w req k].
Proof.
  intros Em Hs. unfold launcher_next. rewrite Em. unfold launcher_stage, start_negotiation1.
  rewrite Em, bool_decide_eq_true_2 by done. apply requests_some.
  unfold debug_assert. simpl. rewrite andb_false_r.
  apply requests_after_progress. intros w' Hw'.
  unfold request_of. rewrite <-Hw'. apply start_negotiation_requests.
Qed.

(** The request to open the channel answers the daemon whose message completed the
    preparation: when the keyset came first it answers the hello of the channel daemon,
    but when the hello came first it answers signd's keyset and goes to signd, not to
    the channel daemon. *)
Theorem open_request_goes_to_last_daemon fuel ev t req e w k :
  (* the keyset came first: the request answers the channel daemon's hello *)
  (ev_message ev = CtlHello →
     requests (launcher_next fuel (ClLaunching t req e k) ev) w [request_of ev w req k]) ∧
  (* the channel daemon came first: the request answers signd *)
  (∀ s, ev_message ev = CtlKeyset s k → ev_source ev = Signer →
     requests (launcher_next fuel (ClDeriving t req e) ev) w [request_of ev w req k] ∧
     ∀ c, env_dest (request_of ev w req k) ≠ ChannelSvc c).
Proof.
  split.
  - intros Em. unfold launcher_next. rewrite Em. unfold launcher_stage, start_negotiation2.
    rewrite Em. apply requests_some, requests_after_progress. intros w' Hw'.
    unfold request_of. rewrite <-Hw'. apply start_negotiation_requests.
  - intros s Em Hs. split; [by eapply deriving_requests|]. simpl. by rewrite Hs.
Qed.

(** ** Errors and the client *)

(** lnpd has tried to send the failure [e] to the client [c]. *)
Definition tells (c : ClientId) (e : LaunchError) (w w' : World Lnpd) : Prop :=
  ∃ ops env, hist w' = hist w ++ ops ∧ env ∈ attempted ops ∧ env_dest env = Client c ∧
    env_msg env = BusRpc (RpcFailure (failure_of_launch e)).

#[local] Abbreviation grows := (same (λ _ : Lnpd, tt)).

Lemma tells_after c e w w1 w' : grows w w1 → tells c e w1 w' → tells c e w w'.
Proof.
  intros [_ [ops Eh]] (ops' & env & Eh' & Henv & Hd & Hm). exists (ops ++ ops'), env.
  rewrite Eh', Eh, <-app_assoc, attempted_app. split_and!; [done| |done|done].
  apply elem_of_app. by right.
Qed.

(** Every error that [m] returns has been told to the client. *)
Definition err_told {A} (c : ClientId) (m : LW LaunchError A) : Prop :=
  ∀ w e w', m w = (Err e, w') → tells c e w w'.

Lemma err_told_bind {A B} c (m : LW LaunchError A) (k : A → LW LaunchError B) :
  respects grows m → err_told c m → (∀ a, err_told c (k a)) → err_told c (bind m k).
Proof.
  intros Hg Hm Hk w e w'. specialize (Hg w). unfold bind.
  destruct (m w) as [[a|e'|p] w1] eqn:E; simpl in *; [|intros [= <- <-]; by apply Hm|done].
  intros E'. eapply tells_after; [done|by eapply Hk].
Qed.
Lemma err_told_report {A} c e : err_told c (launch_report_failure (A:=A) c e).
Proof.
  intros w e' w'. unfold launch_report_failure, bind.
  destruct (tell_client_run (E:=LaunchError) c (RpcFailure (failure_of_launch e)) w) as [ok ->].
  intros [= <- <-]. eexists [_], _. split; [done|]. split; [by apply list_elem_of_here|done].
Qed.
Lemma err_told_never {A} c (m : LW LaunchError A) :
  (∀ w e w', m w ≠ (Err e, w')) → err_told c m.
Proof. intros Hm w e w' E. by apply Hm in E. Qed.
Lemma err_told_mreturn {A} c (a : A) : err_told c (mreturn a).
Proof. by apply err_told_never. Qed.
Lemma err_told_mpanic {A} c p : err_told (A:=A) c (mpanic p).
Proof. by apply err_told_never. Qed.
Lemma err_told_attempt {A} c {E} (m : LW E A) : err_told c (attempt m).
Proof. apply err_told_never. intros w e w'. unfold attempt. by destruct (m w) as [[]?]. Qed.
Lemma err_told_self {A} c (f : Lnpd → A) : err_told c (self f).
Proof. by apply err_told_never. Qed.
Lemma err_told_tell {A} c c' r (k : LW LaunchError A) :
  err_told c k → err_told c (do! tell_client c' r in k).
Proof.
  intros Hk. apply err_told_bind; [unfold tell_client; respects_auto| |done].
  apply err_told_never. intros w e w'.
  by destruct (tell_client_run (E:=LaunchError) c' r w) as [ok ->].
Qed.
Lemma err_told_assert c b why : err_told c (debug_assert b why).
Proof. apply err_told_never. intros w e w'. unfold debug_assert. by case_match. Qed.
Lemma err_told_unexpected {A} c ev stage : err_told c (launch_unexpected (A:=A) ev c stage).
Proof.
  apply err_told_bind; [unfold launch_report_failure, tell_client; respects_auto|
    apply err_told_report|]. intros _. by apply err_told_never.
Qed.
Lemma err_told_expect {A} c why (o : option A) : err_told c (expect why o).
Proof. apply err_told_never. by destruct o. Qed.
Lemma err_told_progress_or_failure c r : err_told c (report_progress_or_failure c r).
Proof.
  destruct r as [e|m]; [apply (err_told_report (A:=unit) c e)|].
  apply err_told_tell, err_told_mreturn.
Qed.

Lemma debug_assert_grows {E} b why : respects grows (debug_assert (E:=E) b why).
Proof. unfold debug_assert. respects_auto. Qed.
Lemma tell_client_grows {E} c r : respects grows (tell_client (E:=E) c r).
Proof. unfold tell_client. respects_auto. Qed.
Lemma report_failure_grows {A} c e : respects grows (launch_report_failure (A:=A) c e).
Proof. unfold launch_report_failure, tell_client. respects_auto. Qed.
Lemma progress_or_failure_grows c r : respects grows (report_progress_or_failure c r).
Proof. unfold report_progress_or_failure, tell_client. respects_auto. Qed.
Lemma event_ctl_grows ev m : respects grows (event_send_ctl BusCtl ev m).
Proof. unfold event_send_ctl. respects_auto. Qed.
Lemma on_wallet_grows {E A} (m : FW E A) :
  respects (same (λ _, tt)) m → respects grows (on_wallet m).
Proof.
  intros Hm w. specialize (Hm (mk_world (l_wallet (rt w)) (hist w) (disk w))).
  unfold on_wallet, on_part. destruct (m _) as [r w']. destruct Hm as [_ Hm]. by split.
Qed.
#[local] Hint Resolve err_told_mreturn err_told_mpanic err_told_attempt err_told_self err_told_assert
  err_told_unexpected err_told_expect err_told_progress_or_failure err_told_report : told.
#[local] Hint Resolve debug_assert_grows tell_client_grows event_ctl_grows
  report_failure_grows progress_or_failure_grows : respects.

Local Ltac told :=
  repeat first
    [ progress intros
    | solve [auto with told]
    | apply err_told_tell
    | match goal with
      | |- err_told _ (bind _ _) => apply err_told_bind; [respects_auto| |]
      | |- err_told _ (match ?x with _ => _ end) => destruct x
      end ].

Lemma start_negotiation_told ev t k r e : err_told e (start_negotiation ev t k r e).
Proof. unfold start_negotiation, event_send_ctl. told. Qed.
#[local] Hint Resolve start_negotiation_told : told.
Lemma start_negotiation1_told ev t r e : err_told e (start_negotiation1 ev t r e).
Proof. unfold start_negotiation1, launch_report_progress. told. Qed.
Lemma start_negotiation2_told ev t k r e : err_told e (start_negotiation2 ev t k r e).
Proof. unfold start_negotiation2, launch_report_progress. told. Qed.
Lemma complete_launch_told ev t r e : err_told e (launch_complete_launch ev t r e).
Proof. unfold launch_complete_launch, launch_report_progress. told. Qed.
Lemma complete_derivation_told ev t k r e : err_told e (complete_derivation ev t k r e).
Proof. unfold complete_derivation, launch_report_progress. told. Qed.
Lemma fund_channel_grows fuel ev t s a f e : respects grows (fund_channel fuel ev t s a f e).
Proof.
  unfold fund_channel, launch_report_progress.
  assert (respects grows (on_wallet (construct_funding_psbt fuel t s a f))).
  { apply on_wallet_grows. unfold construct_funding_psbt, list_funds, lookup_funds, save.
    pose proof (@u64_respects). pose proof (@take_funds_respects). pose proof @electrum_same.
    pose proof @fee_loop_respects. respects_auto. }
  respects_auto.
Qed.
Lemma update_id_told c o n : err_told c (update_chanel_id o n).
Proof. unfold update_chanel_id, update, self. by apply err_told_never. Qed.
Lemma update_id_grows {E} o n : respects grows (update_chanel_id (E:=E) o n).
Proof. unfold update_chanel_id. respects_auto. Qed.
#[local] Hint Resolve fund_channel_grows update_id_grows : respects.
#[local] Hint Resolve update_id_told : told.
Lemma complete_negotiation_told fuel ev t e : err_told e (complete_negotiation fuel ev t e).
Proof. unfold complete_negotiation, launch_report_progress. told. Qed.
Lemma complete_commitment_told ev txid e : err_told e (complete_commitment ev txid e).
Proof.
  unfold complete_commitment, attempt_from, event_send_ctl_service.
  destruct (ev_message ev); auto with told. destruct (ev_source ev); told.
Qed.
#[local] Hint Resolve start_negotiation1_told start_negotiation2_told complete_launch_told
  complete_derivation_told complete_negotiation_told complete_commitment_told : told.

(** The one error that is not: the signed transaction could not be finalized, or not
    be published.  All that the client is sent is the progress report that precedes. *)
Definition publishing_report (c : ClientId) : Envelope := {|
  env_bus := BusIdRpc; env_src := LnpBroker; env_dest := Client c;
  env_msg := BusRpc (RpcProgress
    "Funding transaction is signed, publishing to bitcoin network") |}.
Definition unpublished (l : ChannelLauncher) (msg : CtlMsg) (e : LaunchError)
    (w w' : World Lnpd) : Prop :=
  ∃ c psbt client fe, l = ClSigning c (psbt_txid psbt) client ∧ msg = CtlSigned psbt ∧
    e = LeFunding fe ∧ attempted (hist w') = attempted (hist w) ++ [publishing_report client].

Lemma publish_error psbt (w : World Lnpd) e w' :
  publish psbt w = (Err e, w') → attempted (hist w') = attempted (hist w).
Proof.
  unfold publish, electrum, q, query. destruct (psbt_finalize psbt); [by intros [= <- <-]|].
  destruct (broadcast _ _); intros [= <- <-]. simpl. by rewrite attempted_app, app_nil_r.
Qed.

Lemma complete_signatures_told ev txid c w e w' :
  complete_signatures ev txid c w = (Err e, w') →
  tells c e w w' ∨ ∃ psbt fe, ev_message ev = CtlSigned psbt ∧ psbt_txid psbt = txid ∧
    e = LeFunding fe ∧ attempted (hist w') = attempted (hist w) ++ [publishing_report c].
Proof.
  destruct (ev_message ev) eqn:Em;
    try (intros E; left; revert E; unfold complete_signatures; rewrite Em;
      apply err_told_unexpected).
  unfold complete_signatures. rewrite Em. case_decide as Htxid.
  2: { intros E. left. revert E. apply err_told_bind; [respects_auto|apply err_told_report|told]. }
  unfold debug_assert, launch_report_progress, launch_report_success.
  unfold bind at 1. destruct (debug_assertions && _); [done|]. simpl.
  match goal with |- bind (tell_client c ?r) _ ?w1 = _ → _ =>
    destruct (tell_client_run (E:=LaunchError) c r w1) as [ok Eok] end.
  rewrite (bind_ok _ _ _ _ _ Eok). unfold bind, q. intros E. right. exists p.
  destruct (publish p _) as [[a|err|pc] w1] eqn:Ep; [|simplify_eq|done].
  - exfalso. revert E.
    match goal with |- tell_client c ?r ?w1 = _ → _ =>
      by destruct (tell_client_run (E:=LaunchError) c r w1) as [ok' ->] end.
  - exists err. split_and!; [done..|]. apply publish_error in Ep. rewrite Ep. simpl.
    by rewrite attempted_app.
Qed.

(** ** Launches and proposals of peers *)

#[local] Abbreviation waits := (same l_accepting).

Lemma on_wallet_waits {E A} (m : FW E A) :
  respects (same (λ _, tt)) m → respects waits (on_wallet m).
Proof.
  intros Hm w. specialize (Hm (mk_world (l_wallet (rt w)) (hist w) (disk w))).
  unfold on_wallet, on_part. destruct (m _) as [r w']. destruct Hm as [_ Hm]. by split.
Qed.
Lemma construct_history fuel t s a f : respects (same (λ _, tt)) (construct_funding_psbt fuel t s a f).
Proof.
  unfold construct_funding_psbt, list_funds, lookup_funds, save.
  pose proof (@u64_respects). pose proof (@take_funds_respects). pose proof @electrum_same.
  pose proof @fee_loop_respects. respects_auto.
Qed.
#[local] Hint Resolve on_wallet_waits construct_history : respects.
Lemma launcher_stage_waits fuel l ev : respects waits (launcher_stage fuel l ev).
Proof.
  unfold launcher_stage, launch_complete_launch, complete_derivation, start_negotiation1,
    start_negotiation2, start_negotiation, complete_negotiation, fund_channel, complete_commitment,
    complete_signatures, launch_unexpected, launch_report_failure, launch_report_progress,
    launch_report_success, report_progress_or_failure, tell_client, debug_assert, publish, electrum,
    update_chanel_id, event_send_ctl, event_send_ctl_service, attempt_from.
  destruct l; respects_auto.
Qed.
Lemma launcher_next_waits fuel l ev : respects waits (launcher_next fuel l ev).
Proof.
  pose proof (launcher_stage_waits fuel l ev) as Hs. unfold launcher_next.
  destruct (ev_message ev); try exact Hs. unfold launch_report_failure, tell_client. respects_auto.
Qed.

(** C27. Every error with which a step of a channel launch fails, except on an error
    message of a daemon, is one that lnpd tries to report, with its code and text, to
    the client that asked for the channel. The one exception is a signed funding
    transaction that could not be finalized or published: all that lnpd tries to send in
    this step is the report that the transaction is being published, and nothing of the
    error. *)
Theorem launch_errors_reach_client fuel l ev w e w' :
  (∀ d r s, ev_message ev ≠ CtlError d r s) →
  launcher_next fuel l ev w = (Err e, w') →
  tells (launcher_enquirer l) e w w' ∨ unpublished l (ev_message ev) e w w'.
Proof.
  intros Hne E.
  assert (launcher_stage fuel l ev w = (Err e, w')) as Es.
  { revert E. unfold launcher_next. destruct (ev_message ev) eqn:Em; try done. by edestruct Hne. }
  assert (∀ c (m : LW LaunchError ChannelLauncher), err_told c m →
    err_told c (let! x := m in mreturn (Some x))) as Hsome.
  { intros c m Hm w1 e1 w2. unfold bind. destruct (m w1) as [[]?] eqn:Em; try done.
    intros [= <- <-]. by apply Hm. }
  destruct l; unfold launcher_stage in Es; simpl.
  1-5: left; revert Es; apply Hsome; told.
  - revert Es. unfold bind. destruct (complete_signatures _ _ _ w) as [[]?] eqn:Em; try done.
    intros [= <- <-]. apply complete_signatures_told in Em as [|(psbt & fe & -> & <- & -> & Ha)];
      [by left|right]. by eexists _, _, _, _.
Qed.
End launch.

(** ** Requests of clients *)

Section clients.
Context `{Sys, !Fmt, !LnpCore, !WalletLib, !WalletCodec, !LnpdLib, !Build}.

(** Daemons that were started. *)
Definition launched (h : History) : list Daemon :=
  omap (λ x, match x with (OpLaunch d, true) => Some d | _ => None end) h.

Definition peer_daemon (r : Lnpd) (addr : LnpAddr) : Daemon :=
  match la_protocol addr with
  | Bolt => PeerdBolt (PsConnect (la_node_addr addr)) (l_node_key_path r)
  | Bifrost => PeerdBifrost (PsConnect (la_node_addr addr)) (l_node_key_path r)
  end.

Definition peer_of (addr : LnpAddr) : ServiceId :=
  peer_service (la_protocol addr) (na_id (la_node_addr addr)).

Lemma launched_app h1 h2 : launched (h1 ++ h2) = launched h1 ++ launched h2.
Proof. apply omap_app. Qed.

(** What a request to connect does: nothing for a peer that is known, and for
    another it starts one daemon and waits for its hello. *)
Lemma connect_known c addr w :
  already_connected (rt w) (la_protocol addr) (na_id (la_node_addr addr)) = true →
  let w' := (handle_connect c addr w).2 in
  rt w' = rt w ∧ launched (hist w') = launched (hist w).
Proof.
  intros Hk. unfold handle_connect, self. rewrite bind_gets. rewrite Hk.
  unfold send_rpc, self, send_to, perform. unfold bind, gets, q.
  destruct (esb_reply _ _); simpl; by rewrite launched_app, app_nil_r.
Qed.

Lemma connect_new c addr w r w' :
  already_connected (rt w) (la_protocol addr) (na_id (la_node_addr addr)) = false →
  handle_connect c addr w = (r, w') →
  (∃ h, launch_reply (hist w) (peer_daemon (rt w) addr) = inr h ∧
     launched (hist w') = launched (hist w) ++ [peer_daemon (rt w) addr] ∧
     rt w' = map_spawning <[peer_of addr := c]> (rt w)) ∨
  (∃ e, launch_reply (hist w) (peer_daemon (rt w) addr) = inl e ∧
     launched (hist w') = launched (hist w) ∧ rt w' = rt w).
Proof.
  intros Hk. unfold handle_connect, self. rewrite bind_gets. rewrite Hk.
  unfold launch_daemon, exec_daemon, query, attempt. unfold bind at 1.
  fold (peer_daemon (rt w) addr) (peer_of addr).
  destruct (launch_reply _ _) as [e|h] eqn:El.
  - unfold send_rpc, self, send_to, perform. unfold bind, gets, q, mreturn, update, modify.
    simpl. destruct (esb_reply _ _); intros [= <- <-]; right; exists e; simpl;
      rewrite !launched_app; by rewrite !app_nil_r.
  - unfold send_rpc, self, send_to, perform. unfold bind, gets, q, mreturn, update, modify.
    simpl. destruct (esb_reply _ _); intros [= <- <-]; left; exists h; simpl;
      rewrite !launched_app; by rewrite !app_nil_r.
Qed.

Lemma spawning_is_known r c addr :
  already_connected (map_spawning <[peer_of addr := c]> r) (la_protocol addr)
    (na_id (la_node_addr addr)) = true.
Proof.
  unfold already_connected, peer_of, peer_service. destruct (la_protocol addr); simpl;
    rewrite lookup_insert_eq; by rewrite bool_decide_eq_true_2 by eauto.
Qed.

(** After a request to connect to a peer whose daemon could be launched, a second
    request to connect to the same peer, by whatever client, launches no daemon and
    changes no registry. *)
Theorem connecting_again_launches_nothing c c' addr w r w1 :
  handle_connect c addr w = (r, w1) →
  (∀ e, launch_reply (hist w) (peer_daemon (rt w) addr) ≠ inl e) →
  length (launched (hist w1)) ≤ S (length (launched (hist w))) ∧
  let w2 := (handle_connect c' addr w1).2 in
  launched (hist w2) = launched (hist w1) ∧ rt w2 = rt w1.
Proof.
  intros E Hok.
  destruct (already_connected (rt w) (la_protocol addr) (na_id (la_node_addr addr))) eqn:Hk.
  - destruct (connect_known c addr w Hk) as [Er El]. rewrite E in Er, El. simpl in *.
    split; [rewrite El; lia|]. destruct (connect_known c' addr w1) as [? ?]; [by rewrite Er|done].
  - destruct (connect_new c addr w r w1 Hk E) as [(h & _ & El & Er)|(e & Ee & _)];
      [|by destruct (Hok e)].
    split; [rewrite El, length_app; simpl; lia|].
    destruct (connect_known c' addr w1) as [? ?]; [|done]. rewrite Er. apply spawning_is_known.
Qed.

(** ** Listening *)

(** When the daemon that should listen on a new address cannot be launched, the
    address nevertheless stays registered: asking again launches nothing and is answered
    that the listener already exists. *)
Theorem failed_listener_blocks_retry c c' addr w r w1 e :
  (∀ a, socket_of_inet (inet_of_socket a) = Some a) →
  addr ∉ l_listens (rt w) → handle_listen c addr w = (r, w1) →
  (∀ d, launch_reply (hist w) d = inl e) →
  launched (hist w1) = launched (hist w) ∧ addr ∈ l_listens (rt w1) ∧
  let w2 := (handle_listen c' addr w1).2 in
  rt w2 = rt w1 ∧ launched (hist w2) = launched (hist w1) ∧
  attempted (hist w2) = attempted (hist w1) ++ [{|
    env_bus := BusIdRpc; env_src := LnpBroker; env_dest := Client c';
    env_msg := BusRpc (RpcFailure {| code := FcLnpd;
      info := "Listener on " +:+ show_listen_addr addr +:+ " already exists, ignoring request" |}) |}].
Proof.
  intros Hsock Hnew E Hfail.
  assert (launched (hist w1) = launched (hist w) ∧ addr ∈ l_listens (rt w1)) as [El Hin].
  { revert E. unfold handle_listen, self. rewrite bind_gets, decide_False by done.
    unfold update. rewrite bind_modify, bind_gets. unfold listen, listener_addr. simpl.
    rewrite Hsock. simpl. unfold launch_daemon, exec_daemon, query, attempt, bind, q, self, gets.
    simpl. rewrite Hfail. unfold send_rpc, self, send_to, perform, bind, gets. simpl.
    destruct (esb_reply _ _); intros [= <- <-]; simpl; rewrite !launched_app, !app_nil_r;
      set_solver. }
  split_and!; [done..|]. unfold handle_listen, self. rewrite bind_gets, decide_True by done.
  unfold send_rpc, self, send_to, perform, bind, gets, q. simpl.
  destruct (esb_reply _ _); simpl; by rewrite launched_app, attempted_app, app_nil_r.
Qed.

(** ** The identifiers of channels *)

(** Changing the id of a channel replaces the temporary id by the permanent one in
    the registry, touches no other channel, keeps the number of channels when the
    temporary id was known and the permanent one was not, and tells whether the
    temporary id was known. *)
Theorem update_channel_id_renames {E} old_id new_id w :
  ∃ w', update_chanel_id (E:=E) old_id new_id w =
      (Ok (bool_decide (channel_id_from_temp old_id ∈ l_channels (rt w))), w') ∧
    hist w' = hist w ∧
    (∀ c, c ∈ l_channels (rt w') ↔
       c = new_id ∨ (c ∈ l_channels (rt w) ∧ c ≠ channel_id_from_temp old_id)) ∧
    (channel_id_from_temp old_id ∈ l_channels (rt w) → new_id ∉ l_channels (rt w) →
       size (l_channels (rt w')) = size (l_channels (rt w))).
Proof.
  eexists. unfold update_chanel_id, self, update. rewrite bind_gets, bind_modify.
  split; [done|]. simpl. split_and!; [done|clear; set_solver|].
  intros Hold Hnew. rewrite size_union by (clear -Hnew; set_solver). rewrite size_singleton.
  rewrite size_difference by (clear -Hold; set_solver). rewrite size_singleton.
  assert (size (l_channels (rt w)) ≠ 0) as Hs.
  { rewrite size_non_empty_iff. clear -Hold. set_solver. }
  lia.
Qed.

(** ** Funds by address *)

Definition at_address (network : Network) (a : AddressCompat) (funds : list Funds) : list Funds :=
  filter (λ f, address_from_script (f_script f) network = Some a) funds.

Lemma sum_by_address_ok network funds acc w :
  (∀ a, default 0%N (acc !! a) + total funds ≤ u64_max)%N →
  (∀ f, f ∈ funds → is_Some (address_from_script (f_script f) network)) →
  ∃ res, sum_by_address network funds acc w = (Ok res, w) ∧
    ∀ a, default 0%N (res !! a) = (default 0%N (acc !! a) + total (at_address network a funds))%N.
Proof.
  revert acc. induction funds as [|f funds IH]; intros acc Hmax Haddr; simpl.
  { exists acc. split; [done|]. intros a. change (at_address network a []) with (@nil Funds). simpl. lia. }
  destruct (Haddr f) as [addr Ea]; [by apply list_elem_of_here|]. rewrite Ea.
  pose proof (Hmax addr) as Hm. simpl in Hm.
  assert (default 0%N (acc !! addr) + f_amount f ≤ u64_max)%N as Hf by lia.
  rewrite (bind_ok _ _ _ _ _ (u64_ok _ _ Hf)).
  destruct (IH (<[addr := (default 0 (acc !! addr) + f_amount f)%N]> acc)) as (res & Er & Hr).
  - intros a. destruct (decide (a = addr)) as [->|Hne].
    + rewrite lookup_insert_eq. simpl. lia.
    + rewrite lookup_insert_ne by done. specialize (Hmax a). simpl in Hmax. lia.
  - intros g Hg. apply Haddr. by apply list_elem_of_further.
  - exists res. split; [done|]. intros a. rewrite Hr. unfold at_address. rewrite filter_cons.
    destruct (decide (a = addr)) as [->|Hne].
    + rewrite lookup_insert_eq, decide_True by done. simpl. lia.
    + rewrite lookup_insert_ne, decide_False by congruence. done.
Qed.

(** The funds reported to a client are, address by address, the sums of the amounts
    of the listed coins of this address, when every coin's script has an address and the
    total fits 64 bits. *)
Theorem available_funding_adds_up w w1 funds :
  on_wallet list_funds w = (Ok funds, w1) → (total funds ≤ u64_max)%N →
  (∀ f, f ∈ funds → is_Some (address_from_script (f_script f) (fw_network (l_wallet (rt w1))))) →
  ∃ res, available_funding w = (Ok res, w1) ∧
    ∀ a, default 0%N (res !! a) =
      total (at_address (fw_network (l_wallet (rt w1))) a funds).
Proof.
  intros Hl Htot Haddr. unfold available_funding. rewrite (bind_ok _ _ _ _ _ (q_ok _ _ _ _ Hl)).
  unfold self. rewrite bind_gets.
  destruct (sum_by_address_ok (fw_network (l_wallet (rt w1))) funds ∅ w1) as (res & Er & Hr);
    [|done|].
  { intros a. rewrite lookup_empty. simpl. lia. }
  exists res. split; [done|]. intros a. rewrite Hr, lookup_empty. simpl. lia.
Qed.

(** ** Channels requested by peers *)

Definition accept_of (r : Lnpd) (n : NodeId) (m : OpenChannel) : AcceptChannelFrom :=
  let '(policy, common, local) := l_params r in {|
    af_remote_id := n; af_report_to := None; af_policy := policy;
    af_common_params := common; af_local_params := local; af_local_keys := dumb_keyset;
    af_channel_req := m |}.

(** The hello of a channel daemon that is launched for a peer's proposal. *)
Lemma hello_accepts fuel c accept w :
  l_creating (rt w) !! ChannelSvc c = None → l_accepting (rt w) !! ChannelSvc c = Some accept →
  let w' := (handle_hello fuel (ChannelSvc c) w).2 in
  attempted (hist w') = attempted (hist w) ++ [{|
    env_bus := BusIdCtl; env_src := LnpBroker; env_dest := ChannelSvc c;
    env_msg := BusCtl (CtlAcceptChannelFrom accept) |}] ∧
  c ∈ l_channels (rt w') ∧ l_accepting (rt w') = delete (ChannelSvc c) (l_accepting (rt w)).
Proof.
  intros Hc Ha. unfold handle_hello, register_daemon, update, self.
  rewrite bind_modify, !bind_gets. simpl. rewrite Hc, Ha.
  unfold send_to, perform, bind, modify, q. simpl.
  destruct (esb_reply _ _); simpl; rewrite attempted_app; simpl; (split_and!; [done|set_solver|done]).
Qed.

Lemma hello_launches fuel c l w :
  l_creating (rt w) !! ChannelSvc c = Some l →
  l_accepting (rt (handle_hello fuel (ChannelSvc c) w).2) = l_accepting (rt w).
Proof.
  intros Hc. unfold handle_hello, register_daemon, update, self.
  rewrite bind_modify, !bind_gets. simpl. rewrite Hc. rewrite bind_modify.
  set (w1 := with_rt _ _). unfold bind, q.
  match goal with |- context [launcher_next fuel l ?ev w1] =>
    destruct (launcher_next_waits fuel l ev w1) as [E _]; destruct (launcher_next fuel l ev w1) as [[o|e|p] w2] end.
  all: simpl in E; try destruct o; simpl; by rewrite <-E.
Qed.

(** C37. When lnpd handles a remote peer's proposal of a channel without an error, it
    has launched one channel daemon for its temporary id, and the proposal, with the
    default parameters of the node, waits under the daemon's service id. Whenever later
    the hello of this id is handled while the proposal still waits, and no launch of the
    node itself is registered under the id, the only message lnpd tries to send is
    exactly this proposal, once and to this daemon, which is then registered, and the
    proposal no longer waits. When a launch of the node is registered under the id,
    which the peer can choose, the hello is taken for the launch and the proposal stays
    where it is. *)
Theorem remote_request_reaches_its_channel_daemon fuel n m w w1 :
  lnpd_handle_p2p n (LnOpenChannel m) w = (Ok tt, w1) →
  let temp := oc_temporary_channel_id m in
  let channeld := service_of_temp temp in
  let proposal := accept_of (rt w) n m in
  launched (hist w1) = launched (hist w) ++ [Channeld (ActTemporary temp)] ∧
  l_accepting (rt w1) = <[channeld := proposal]> (l_accepting (rt w)) ∧
  ∀ w2, l_accepting (rt w2) !! channeld = Some proposal →
    let w3 := (handle_hello fuel channeld w2).2 in
    match l_creating (rt w2) !! channeld with
    | None =>
        attempted (hist w3) = attempted (hist w2) ++ [{|
          env_bus := BusIdCtl; env_src := LnpBroker; env_dest := channeld;
          env_msg := BusCtl (CtlAcceptChannelFrom proposal) |}] ∧
        channel_id_from_temp temp ∈ l_channels (rt w3) ∧
        l_accepting (rt w3) = delete channeld (l_accepting (rt w2))
    | Some _ => l_accepting (rt w3) !! channeld = Some proposal
    end.
Proof.
  intros E temp channeld proposal. simpl in E. unfold launch_daemon, exec_daemon, self in E. run_inv E.
  apply query_ok in Hrun as [_ ->]. subst proposal. unfold accept_of. simpl in E.
  destruct (l_params (rt w)) as [[policy common] local] eqn:Ep.
  unfold update in E. injection E as <-. simpl.
  split; [by rewrite launched_app|]. split; [done|].
  intros w2 Hw2. unfold channeld, service_of_temp in *.
  destruct (l_creating (rt w2) !! _) as [l|] eqn:Hc; [by rewrite (hello_launches fuel _ l)|].
  by apply hello_accepts.
Qed.
End clients.
