(* ===== verification/ClientCorrect.v ===== *)
(** * What the client reads, and what lnpd answers it

    The order in which the client reads its messages, the end of its progress
    loop, and the answers lnpd gives to the requests of lnp-cli. *)

From S2P Require Import Prelude.
From S2P Require Import Bus.
From S2P Require Import Text.
From S2P Require Import Service.
From S2P Require Import Files.
From S2P Require Import Config.
From S2P Require Import ChannelRuntime.
From S2P Require Import Wallet.
From S2P Require Import WalletCorrect.
From S2P Require Import Rpc.
From S2P Require Import LnpdRuntime.
From S2P Require Import ListenAddr.
From S2P Require Import Launch.
From S2P Require Import Lnpd.
From S2P Require Import LnpdFacts.
From S2P Require Import LnpdCorrect.
From S2P Require Import Client.

Local Open Scope rust_scope.

(** ** The messages the client will read *)

Section reading.
Context `{Sys, !ClientBus}.

(** The messages of [k] polls from the [n]-th on: of what one poll brings, the
    client takes the last message first.  A poll that fails or brings nothing
    ends the reading. *)
Fixpoint upcoming (n k : nat) : option (list RpcMsg) :=
  match k with
  | 0 => Some []
  | S k =>
      match recv_poll n, upcoming (S n) k with
      | inr (m :: ms), Some rest => Some (reverse (m :: ms) ++ rest)
      | _, _ => None
      end
  end.
Definition unread (k : nat) (r : RpcClient) : option (list RpcMsg) :=
  match upcoming (cl_polls r) k with
  | Some rest => Some (reverse (cl_response_queue r) ++ rest)
  | None => None
  end.

(** Reading changes nothing but what is left to read. *)
Definition only_reads (w w' : World RpcClient) : Prop :=
  cl_printed (rt w') = cl_printed (rt w) ∧ cl_identity (rt w') = cl_identity (rt w) ∧
  hist w' = hist w.

Lemma reverse_head {A} (q : list A) m rest :
  reverse q = m :: rest → last q = Some m ∧ reverse (take (length q - 1) q) = rest.
Proof.
  intros E. apply (f_equal reverse) in E. rewrite reverse_involutive, reverse_cons in E.
  subst q. rewrite last_snoc. split; [done|].
  rewrite length_app, Nat.add_sub, take_app_length. apply reverse_involutive.
Qed.

Lemma pop_reads k m rest w :
  cl_response_queue (rt w) ≠ [] → unread k (rt w) = Some (m :: rest) →
  ∃ w', pop_response w = (Ok m, w') ∧ unread k (rt w') = Some rest ∧ only_reads w w'.
Proof.
  intros Hq. unfold unread. destruct (upcoming _ _) as [later|] eqn:Hk; [|done]. intros [= E].
  destruct (reverse (cl_response_queue (rt w))) as [|m' q] eqn:Er.
  { destruct Hq. by rewrite <- (reverse_involutive (cl_response_queue (rt w))), Er. }
  simpl in E. injection E as -> E. apply reverse_head in Er as [El Er].
  unfold pop_response, self, update. rewrite bind_gets, El. simpl.
  eexists. split; [reflexivity|]. simpl. unfold only_reads. simpl.
  by rewrite Hk, Er, E.
Qed.

Lemma response_reads k m rest w :
  unread k (rt w) = Some (m :: rest) →
  ∃ k' w', response w = (Ok m, w') ∧ unread k' (rt w') = Some rest ∧ only_reads w w'.
Proof.
  intros E. unfold response, self at 1. rewrite bind_gets.
  destruct (cl_response_queue (rt w)) as [|m0 q0] eqn:Hq.
  2:{ destruct (pop_reads k m rest w) as (w' & ?); [by rewrite Hq|done|]. by exists k, w'. }
  destruct k as [|k]; [by unfold unread in E; simpl in E; rewrite Hq in E|].
  unfold unread in E. simpl in E. rewrite Hq in E.
  destruct (recv_poll _) as [|[|m1 ms]] eqn:Hp; try done.
  destruct (upcoming _ k) as [later|] eqn:Hk; [|done]. simpl in E.
  unfold poll_bus, self, update.
  erewrite bind_ok; [|rewrite bind_gets, bind_modify, Hp; reflexivity].
  edestruct (pop_reads k m rest) as (w' & E1 & E2 & E3); [| |exists k, w'; split; [exact E1|]].
  - by simpl; rewrite Hq.
  - unfold unread. simpl. rewrite Hk, Hq. done.
  - done.
Qed.

(** ** The progress loop *)

Definition is_progress (m : RpcMsg) : bool :=
  match m with RpcProgress _ => true | _ => false end.

(** What is printed of the message that ends the loop, and what the loop
    returns after having read [n] messages. *)
Definition ending (m : RpcMsg) : Printed :=
  match m with
  | RpcSuccess d => PrSuccess d
  | RpcFailure f => PrFailure f
  | other => PrUnexpected other
  end.
Definition verdict (n : nat) (m : RpcMsg) : Res ClientError nat :=
  match m with
  | RpcSuccess _ => Ok n
  | RpcFailure f => Err (CeRpc f)
  | _ => Err (CeOther "Unexpected server response")
  end.

Lemma failure_reads k m rest w :
  unread k (rt w) = Some (m :: rest) →
  match m with RpcFailure _ => False | _ => True end →
  ∃ k' w', client_report_failure w = (Ok m, w') ∧ unread k' (rt w') = Some rest ∧ only_reads w w'.
Proof.
  intros Hu Hm. destruct (response_reads _ _ _ _ Hu) as (k' & w' & E & ?).
  exists k', w'. split; [|done]. unfold client_report_failure. rewrite (bind_ok _ _ _ _ _ E).
  by destruct m.
Qed.

Lemma progress_from fuel counter k ps m rest w :
  unread k (rt w) = Some (map RpcProgress ps ++ m :: rest) → is_progress m = false →
  length ps < fuel →
  ∃ k' w', report_progress_from fuel counter w = (verdict (S (length ps) + counter) m, w') ∧
    cl_printed (rt w') = cl_printed (rt w) ++ map PrProgress ps ++ [ending m] ∧
    unread k' (rt w') = Some rest ∧ hist w' = hist w.
Proof.
  intros Hu Hm. revert fuel counter k w Hu.
  induction ps as [|p ps IH]; intros [|fuel] counter k w Hu Hf; simpl in *; try lia.
  - destruct (response_reads _ _ _ _ Hu) as (k' & w' & E & Hu' & Hp & Hi & Hh).
    exists k'. unfold client_report_failure. rewrite <- Hh, <- Hp.
    destruct m; try discriminate Hm; unfold bind, print, update, modify; rewrite E; simpl;
      eexists; (split; [reflexivity|done]).
  - destruct (failure_reads _ _ _ _ Hu I) as (k1 & w1 & E1 & Hu1 & Hp1 & _ & Hh1).
    rewrite (bind_ok _ _ _ _ _ E1). unfold print, update. rewrite bind_modify.
    edestruct (IH fuel (S counter) k1) as (k' & w' & -> & Hp & Hu' & Hh);
      [exact Hu1|lia|].
    exists k', w'. split; [f_equal; f_equal; lia|]. rewrite Hp, Hh. simpl.
    by rewrite Hp1, <- app_assoc.
Qed.

(** C36. The progress loop of a client ends with the first message that is not a report
    of progress, provided the messages reach it: it prints every report before that
    message, then the message, returns the number of messages read after a success and
    the error after a failure or a message of another kind, and leaves the messages
    after it unread. *)
Theorem progress_ends_with_first_answer fuel k ps m rest w :
  unread k (rt w) = Some (map RpcProgress ps ++ m :: rest) → is_progress m = false →
  length ps < fuel →
  ∃ k' w', client_report_progress fuel w = (verdict (S (length ps)) m, w') ∧
    cl_printed (rt w') = cl_printed (rt w) ++ map PrProgress ps ++ [ending m] ∧
    unread k' (rt w') = Some rest ∧ hist w' = hist w.
Proof.
  intros Hu Hm Hf. unfold client_report_progress.
  pose proof (progress_from fuel 0 k ps m rest w Hu Hm Hf) as Hr. by rewrite Nat.add_0_r in Hr.
Qed.
End reading.

(** ** The answers of lnpd *)

Section answers.
Context `{Sys, !Fmt, !LnpCore, !WalletLib, !WalletCodec, !LnpdLib, !Build}.

(** The RPC messages handed over to the bus, with the clients they are for. *)
Definition answer_of (e : Envelope) : option (ClientId * RpcMsg) :=
  match env_dest e, env_msg e with
  | Client c, BusRpc m => Some (c, m)
  | _, _ => None
  end.
Definition answers (h : History) : list (ClientId * RpcMsg) := omap answer_of (sent h).
Lemma answers_app h1 h2 : answers (h1 ++ h2) = answers h1 ++ answers h2.
Proof. unfold answers. by rewrite sent_app, omap_app. Qed.

(** Steps that answer nobody. *)
Definition quiet {R} : relation (World R) := λ w w', answers (hist w') = answers (hist w).
#[local] Instance quiet_preorder {R} : PreOrder (quiet (R:=R)).
Proof. split; [by intros w|]. intros w1 w2 w3 E1 E2. unfold quiet in *. congruence. Qed.

Lemma query_quiet {R E A} (reply : History → E + A) o :
  (∀ e, o ≠ OpSend e) → respects quiet (query (R:=R) reply o).
Proof.
  intros Ho w. unfold query, quiet. destruct (reply _); simpl; rewrite answers_app;
    destruct o; simpl; try (by destruct (Ho e)); by rewrite app_nil_r.
Qed.
Lemma fs_quiet {R} o : respects quiet (fs (R:=R) o).
Proof.
  intros w. unfold fs, perform, quiet. destruct (io_reply _ _); simpl; by rewrite answers_app, app_nil_r.
Qed.
Lemma update_quiet {R E} (f : R → R) : respects quiet (update (E:=E) f).
Proof. by intros w. Qed.
Lemma with_disk_quiet {R E} (g : Disk → Disk) : respects quiet (modify (E:=E) (with_disk (R:=R) g)).
Proof. by intros w. Qed.
Lemma on_wallet_quiet {E A} (m : FW E A) : respects quiet m → respects quiet (on_wallet m).
Proof.
  intros Hm w. specialize (Hm (mk_world (l_wallet (rt w)) (hist w) (disk w))).
  unfold on_wallet, on_part. by destruct (m _) as [r w'].
Qed.
#[local] Hint Resolve query_quiet fs_quiet update_quiet with_disk_quiet on_wallet_quiet : respects.

Lemma save_quiet : respects quiet save.
Proof. unfold save, file_create, file_seek_start, file_write, file_sync. respects_auto. Qed.
Lemma electrum_quiet {E A} `{From ElectrumErr E} {R} o (reply : History → string + A) :
  respects quiet (electrum (R:=R) o reply).
Proof. unfold electrum. apply respects_q, query_quiet. done. Qed.
#[local] Hint Resolve save_quiet electrum_quiet : respects.
Lemma list_funds_quiet : respects quiet list_funds.
Proof. unfold list_funds, lookup_funds. respects_auto. Qed.
Lemma next_address_quiet : respects quiet next_funding_address.
Proof. unfold next_funding_address. respects_auto. Qed.
Lemma sum_by_address_quiet network funds acc : respects quiet (sum_by_address network funds acc).
Proof.
  revert acc. induction funds as [|f funds IH]; intros acc; simpl; [respects_auto|].
  unfold u64. respects_auto.
Qed.
#[local] Hint Resolve list_funds_quiet next_address_quiet sum_by_address_quiet : respects.
Lemma available_funding_quiet : respects quiet available_funding.
Proof. unfold available_funding. respects_auto. Qed.
Lemma launch_quiet d : respects quiet (launch_daemon d).
Proof. by apply query_quiet. Qed.
#[local] Hint Resolve available_funding_quiet launch_quiet : respects.
Lemma listen_quiet addr p : respects quiet (listen addr p).
Proof. unfold listen. respects_auto. Qed.
#[local] Hint Resolve listen_quiet : respects.

(** A call that answers the client [c] once when it succeeds, with a message for
    which [Q] holds then, and nobody when it does not. *)
Definition answering {A} (c : ClientId) (Q : RpcMsg → World Lnpd → Prop) (m : LW Error A) : Prop :=
  ∀ w, match m w with
       | (Ok _, w') => ∃ msg, answers (hist w') = answers (hist w) ++ [(c, msg)] ∧ Q msg w'
       | (_, w') => answers (hist w') = answers (hist w)
       end.

Lemma answering_bind {A B} c Q (m : LW Error A) (k : A → LW Error B) :
  respects quiet m → (∀ a, answering c Q (k a)) → answering c Q (bind m k).
Proof.
  intros Hm Hk w. specialize (Hm w). unfold bind. destruct (m w) as [[a|e|p] w1]; [|done..].
  specialize (Hk a w1). rewrite <- Hm. done.
Qed.
Lemma answering_send c (Q : RpcMsg → World Lnpd → Prop) msg :
  (∀ w, Q msg w) → answering c Q (bind (q (send_rpc c msg)) (λ _, mreturn tt)).
Proof.
  intros HQ w. unfold send_rpc, self, send_to, perform. unfold bind, gets, q. simpl.
  destruct (esb_reply _ _); simpl; rewrite answers_app; [by rewrite app_nil_r|].
  exists msg. by split.
Qed.
Lemma answering_fail {A} c Q e : answering (A:=A) c Q (mfail e).
Proof. by intros w. Qed.

(** The kind of answer each request gets; a peer that is being connected is
    registered with the client that waits for it. *)
Definition fits (req : RpcMsg) (c : ClientId) (m : RpcMsg) (w : World Lnpd) : Prop :=
  match req, m with
  | RpcGetInfo, RpcNodeInfo _ | RpcListPeers, RpcPeerList _
  | RpcListChannels, RpcChannelList _ | RpcListFunds, RpcFundsInfo _ => True
  | RpcListen _, (RpcSuccess _ | RpcFailure _) => True
  | RpcConnectPeer _, (RpcSuccess _ | RpcFailure _) => True
  | RpcConnectPeer addr, RpcProgress _ => l_spawning (rt w) !! peer_of addr = Some c
  | _, _ => False
  end.

Lemma answering_listen c addr : answering c (fits (RpcListen addr) c) (handle_listen c addr).
Proof.
  unfold handle_listen. apply answering_bind; [respects_auto|]. intros listens.
  case_decide; [by apply answering_send|].
  apply answering_bind; [respects_auto|]. intros _.
  apply answering_bind; [respects_auto|]. intros node_id.
  apply answering_bind; [respects_auto|]. intros [e|s]; by apply answering_send.
Qed.
Lemma answering_connect c addr :
  answering c (fits (RpcConnectPeer addr) c) (handle_connect c addr).
Proof.
  intros w. unfold handle_connect, self. rewrite bind_gets.
  destruct (already_connected _ _ _); [by apply (answering_send c (fits (RpcConnectPeer addr) c))|].
  unfold launch_daemon, exec_daemon, query, attempt. unfold bind at 1.
  fold (peer_daemon (rt w) addr) (peer_of addr).
  destruct (launch_reply _ _) as [e|h];
    unfold send_rpc, self, send_to, perform; unfold bind, gets, q, mreturn, update, modify;
    simpl; destruct (esb_reply _ _); simpl; rewrite !answers_app, ?app_nil_r; try done;
    eexists; (split; [reflexivity|]); simpl; [done|]. apply lookup_insert_eq.
Qed.

Lemma answering_rpc c req :
  (∀ cc, req ≠ RpcCreateChannel cc) → answering c (fits req c) (lnpd_handle_rpc c req).
Proof.
  intros Hreq. destruct req; unfold lnpd_handle_rpc; try by apply answering_fail.
  1-4: repeat first [by apply answering_send
    | apply answering_bind; [unfold now; respects_auto|intros ?]].
  - apply answering_listen.
  - apply answering_connect.
  - by destruct (Hreq c0).
Qed.
Lemma answered_request fuel c req w w' :
  (∀ cc, req ≠ RpcCreateChannel cc) →
  lnpd_handle fuel BusIdRpc (Client c) (BusRpc req) w = (Ok tt, w') →
  ∃ m, answers (hist w') = answers (hist w) ++ [(c, m)] ∧ fits req c m w'.
Proof. intros Hreq E. pose proof (answering_rpc c req Hreq w) as Ha. simpl in E. by rewrite E in Ha. Qed.

(** C35. Every request of a client but the one to open a channel is answered at most
    once: with exactly one message to that client, of the kind the request asks for,
    when lnpd handles the request without an error (a request to connect that is in
    progress leaves the client registered as waiting for the peer), and with no message
    at all when the handling fails. *)
Theorem requests_are_answered_unless_they_fail fuel c req w r w' :
  (∀ cc, req ≠ RpcCreateChannel cc) →
  lnpd_handle fuel BusIdRpc (Client c) (BusRpc req) w = (r, w') →
  match r with
  | Ok _ => ∃ m, answers (hist w') = answers (hist w) ++ [(c, m)] ∧ fits req c m w'
  | _ => answers (hist w') = answers (hist w)
  end.
Proof.
  intros Hreq E. pose proof (answering_rpc c req Hreq w) as Ha. simpl in E. rewrite E in Ha.
  by destruct r.
Qed.
End answers.

(** ** Commands and their answers *)

Section commands_end.
Context `{Sys, !Fmt, !LnpCore, !WalletLib, !WalletCodec, !LnpdLib, !Build}.
Context `{!AddrLib, !CliLib, !ClientBus}.

(** The request a command makes of lnpd, channel openings apart. *)
Definition broker_request (cmd : Command) : option RpcMsg :=
  match cmd with
  | CmdInfo _ _ None => Some RpcGetInfo
  | CmdPeers => Some RpcListPeers
  | CmdChannels => Some RpcListChannels
  | CmdFunds => Some RpcListFunds
  | CmdListen true false ip port => Some (RpcListen (listen_bolt ip port))
  | CmdListen false true ip port => Some (RpcListen (listen_bifrost ip port))
  | CmdConnect addr => Some (RpcConnectPeer addr)
  | _ => None
  end.

(** What the user reads of the answer. *)
Definition shown (m : RpcMsg) : Printed :=
  match m with
  | RpcSuccess d => PrSuccess d
  | RpcFailure f => PrFailure f
  | m => PrResponse m
  end.

(** The bus takes the request of the client. *)
Definition bus_takes (w : World RpcClient) : Prop := ∀ e, esb_reply (hist w) (OpSend e) = None.

Lemma request_made p d req k ms w :
  bus_takes w → unread k (rt w) = Some ms →
  ∃ w', bind (print p) (λ _, request d req) w = (Ok tt, w') ∧
    unread k (rt w') = Some ms ∧ cl_printed (rt w') = cl_printed (rt w) ++ [p].
Proof.
  intros Hb Hu. unfold print, request, self, send_to, perform, update.
  rewrite bind_modify. unfold bind, gets, q. simpl. rewrite Hb.
  eexists. by split.
Qed.

Lemma report_response_reads k m rest w :
  unread k (rt w) = Some (m :: rest) → match m with RpcFailure _ => False | _ => True end →
  ∃ w', report_response w = (Ok tt, w') ∧
    cl_printed (rt w') = cl_printed (rt w) ++ [PrResponse m].
Proof.
  intros Hu Hm. destruct (failure_reads _ _ _ _ Hu Hm) as (k' & w1 & E & _ & Hp & _).
  unfold report_response. rewrite (bind_ok _ _ _ _ _ E). eexists. split; [reflexivity|].
  simpl. by rewrite Hp.
Qed.

Lemma bind_assoc {S E A B C} (m : M S E A) (k : A → M S E B) (k' : B → M S E C) s :
  bind (bind m k) k' s = bind m (λ a, bind (k a) k') s.
Proof. unfold bind. by destruct (m s) as [[]?]. Qed.

(** A command is: say what is done, ask, read the answer. *)
Definition reader (fuel : nat) (cmd : Command) : ClW ClientError unit :=
  match cmd with
  | CmdInfo _ _ _ =>
      let! resp := response in
      match resp with
      | RpcNodeInfo _ | RpcPeerInfo _ | RpcChannelInfo _ => print (PrResponse resp)
      | _ => mfail (CeOther "Server returned unrecognizable response")
      end
  | CmdListen _ _ _ _ | CmdConnect _ =>
      do! client_report_progress fuel in mreturn tt
  | _ => report_response
  end.
Lemma exec_reads fuel cmd req w :
  broker_request cmd = Some req →
  exec fuel cmd w =
  bind (bind (print (PrAction (action_string cmd))) (λ _, request LnpBroker req))
    (λ _, reader fuel cmd) w.
Proof.
  intros Hreq. unfold exec. rewrite bind_assoc.
  destruct cmd as [[] [] ip port|addr|? ? ?|? ? [subj|]| | | |? ? ? ? ? ? ? ? ? ? ? ?|? ?|? ? ?];
    try discriminate Hreq; by injection Hreq as <-.
Qed.

Lemma reader_reads fuel cmd req c k m rest (wl : World Lnpd) w :
  broker_request cmd = Some req → fits req c m wl → is_progress m = false →
  unread k (rt w) = Some (m :: rest) →
  ∃ w', reader (S fuel) cmd w =
      (match m with RpcFailure f => Err (CeRpc f) | _ => Ok tt end, w') ∧
    cl_printed (rt w') = cl_printed (rt w) ++ [shown m].
Proof.
  intros Hreq Hfit Hm Hu.
  destruct (response_reads _ _ _ _ Hu) as (k' & w1 & E & _ & Hp & _).
  destruct (progress_from (S fuel) 0 k [] m rest w Hu Hm) as (k2 & w2 & E2 & Hp2 & _);
    [simpl; lia|].
  destruct cmd as [[] [] ip port|addr|? ? ?|? ? [subj|]| | | |? ? ? ? ? ? ? ? ? ? ? ?|? ?|? ? ?];
    try discriminate Hreq; injection Hreq as <-; destruct m; try done; unfold reader.
  all: try by apply (report_response_reads k _ rest).
  all: try by (unfold client_report_progress; unfold bind; rewrite E2; eexists; split;
    [reflexivity|by rewrite Hp2]).
  rewrite (bind_ok _ _ _ _ _ E). eexists. split; [reflexivity|]. simpl. by rewrite Hp.
Qed.

(** The hello of a peer that somebody waits for. *)
Lemma hello_answers fuel src c w w' :
  l_creating (rt w) !! src = None → l_accepting (rt w) !! src = None →
  l_reestablishing (rt w) !! src = None → l_spawning (rt w) !! src = Some c →
  lnpd_handle fuel BusIdCtl src (BusCtl CtlHello) w = (Ok tt, w') →
  ∃ d, answers (hist w') = answers (hist w) ++ [(c, RpcSuccess d)].
Proof.
  intros Hc Ha Hr Hs. cbn [lnpd_handle lnpd_handle_ctl]. unfold handle_hello.
  assert (∃ w1, register_daemon (E:=Error) src w = (Ok tt, w1) ∧ hist w1 = hist w ∧
    l_creating (rt w1) = l_creating (rt w) ∧ l_accepting (rt w1) = l_accepting (rt w) ∧
    l_reestablishing (rt w1) = l_reestablishing (rt w) ∧
    l_spawning (rt w1) = l_spawning (rt w)) as (w1 & E & Eh & Ec & Ea & Er & Es).
  { unfold register_daemon. destruct src; by eexists. }
  rewrite (bind_ok _ _ _ _ _ E). unfold self. rewrite !bind_gets, Ec, Ea, Er, Es.
  rewrite Hc, Ha, Hr, Hs. unfold update. rewrite bind_modify.
  unfold send_rpc, self, send_to, perform. unfold bind, gets, q. simpl.
  destruct (esb_reply _ _); intros [= <-]. simpl. rewrite answers_app, Eh. by eexists.
Qed.

(** C12. A command of lnp-cli that asks lnpd for something, channel openings apart, ends
    when lnpd handles the request without an error and its messages reach the client:
    lnpd sends one answer, and the command prints it and ends, with the error that the
    answer reports if it is a failure; only the answer to a request to connect may be a
    report of progress instead, and then the hello of the peer makes lnpd send a second
    message, on which the command ends, as long as no other client has since asked to
    connect to the same peer. *)
Theorem commands_end_with_their_answer fuel cmd req wc wl wl1 :
  broker_request cmd = Some req → bus_takes wc →
  lnpd_handle fuel BusIdRpc (Client (cl_identity (rt wc))) (BusRpc req) wl = (Ok tt, wl1) →
  ∃ m, answers (hist wl1) = answers (hist wl) ++ [(cl_identity (rt wc), m)] ∧
    ((is_progress m = false ∧ ∀ k rest, unread k (rt wc) = Some (m :: rest) →
       ∃ wc', exec 1 cmd wc =
           (match m with RpcFailure f => Err (CeRpc f) | _ => Ok tt end, wc') ∧
         cl_printed (rt wc') = cl_printed (rt wc) ++ [PrAction (action_string cmd); shown m]) ∨
     (∃ addr s, cmd = CmdConnect addr ∧ m = RpcProgress s ∧
       ∀ wl2 wl3 src, src = peer_of addr →
         l_spawning (rt wl2) !! src = l_spawning (rt wl1) !! src →
         l_creating (rt wl2) !! src = None → l_accepting (rt wl2) !! src = None →
         l_reestablishing (rt wl2) !! src = None →
         lnpd_handle fuel BusIdCtl src (BusCtl CtlHello) wl2 = (Ok tt, wl3) →
         ∃ d, answers (hist wl3) =
             answers (hist wl2) ++ [(cl_identity (rt wc), RpcSuccess d)] ∧
           ∀ k rest, unread k (rt wc) = Some (m :: RpcSuccess d :: rest) →
             ∃ wc', exec 2 cmd wc = (Ok tt, wc') ∧
               cl_printed (rt wc') = cl_printed (rt wc) ++
                 [PrAction (action_string cmd); PrProgress s; PrSuccess d])).
Proof.
  intros Hreq Hb El.
  destruct (answered_request fuel (cl_identity (rt wc)) req wl wl1) as (m & Ea & Hfit);
    [|done|].
  { by destruct cmd as [[] [] ip port|addr|? ? ?|? ? [subj|]| | | |? ? ? ? ? ? ? ? ? ? ? ?|? ?|? ? ?];
      try discriminate Hreq; injection Hreq as <-. }
  exists m. split; [done|]. destruct (is_progress m) eqn:Hm.
  - right. destruct m as [| | | | | | | | | | |s| | | | | | | |]; try discriminate Hm.
    destruct cmd as [[] [] ip port|addr|? ? ?|? ? [subj|]| | | |? ? ? ? ? ? ? ? ? ? ? ?|? ?|? ? ?];
      try discriminate Hreq; injection Hreq as <-; try done. simpl in Hfit.
    exists addr, s. split_and!; [done|done|]. intros wl2 wl3 src -> Hs Hcr Hac Hre E3.
    rewrite Hfit in Hs. destruct (hello_answers _ _ _ _ _ Hcr Hac Hre Hs E3) as (d & Ed).
    exists d. split; [done|]. intros k rest Hu.
    destruct (request_made (PrAction (action_string (CmdConnect addr))) LnpBroker
      (RpcConnectPeer addr) _ _ _ Hb Hu) as (w1 & E1 & Hu1 & Hp1).
    rewrite (exec_reads _ _ (RpcConnectPeer addr)) by done. rewrite (bind_ok _ _ _ _ _ E1).
    destruct (progress_from 2 0 k [s] (RpcSuccess d) rest w1 Hu1) as (k2 & w2 & E2 & Hp2 & _);
      [done|simpl; lia|].
    unfold reader, client_report_progress. rewrite (bind_ok _ _ _ _ _ E2).
    eexists. split; [reflexivity|]. by rewrite Hp2, Hp1, <- app_assoc.
  - left. split; [done|]. intros k rest Hu.
    destruct (request_made (PrAction (action_string cmd)) LnpBroker req _ _ _ Hb Hu)
      as (w1 & E1 & Hu1 & Hp1).
    rewrite (exec_reads _ _ req) by done. rewrite (bind_ok _ _ _ _ _ E1).
    destruct (reader_reads 0 cmd req _ k m rest wl1 w1 Hreq Hfit Hm Hu1) as (w2 & -> & Hp2).
    eexists. split; [reflexivity|]. by rewrite Hp2, Hp1, <- app_assoc.
Qed.
End commands_end.
