(* ===== verification/Watch.v ===== *)
(** * The chain watcher ([src/watchd/runtime.rs], [src/watchd/worker.rs])

    watchd runs four threads: the runtime on the service bus, the Electrum
    processor, the watcher that forwards the processor's updates over a bridge
    to the runtime, and a pacemaker.  Each thread is modelled with a world of
    its own; the two [mpsc] channels between them are queues, and a channel whose
    receiver is gone refuses messages.  The threads interleave in [watch_step]. *)

From Stdlib Require Import SpecFloat.
From S2P Require Import Prelude.
From S2P Require Import Bus.
From S2P Require Import Service.
From S2P Require Import Files.
From S2P Require Import Config.

Local Open Scope rust_scope.

(** The Electrum client, with errors the daemon never looks into. *)
Class ElectrumLib `{Ext} := {
  Transaction : Type;
  tx_txid : Transaction → Txid;                  (* Transaction::txid *)
  HeaderNotification : Type;
  electrum_from_config : History → string → option Opaque;
  block_headers_pop : History → Opaque + option HeaderNotification;
  transaction_get : History → Txid → Opaque + Transaction;
  batch_transaction_get : History → list Txid → Opaque + list Transaction }.

(** ** The Electrum processor *)

Inductive ElectrumCmd :=
  | Reconnect (url : string)
  | PopHeader
  | GetTrasactions
  | TrackTransaction (txid : Txid)
  | UntrackTransaction (txid : Txid).

Section processor.
Context `{Sys, !ElectrumLib}.

Inductive ElectrumUpdate :=
  | EuConnecting
  | EuConnected
  | EuComplete
  | EuLastBlock (h : HeaderNotification)
  | EuLastBlockUpdate (h : HeaderNotification)
  | EuFeeEstimate (a b c : spec_float)
  | EuTxBatch (txs : list Transaction) (progress : spec_float)
  | EuChannelDisconnected
  | EuError (e : Opaque).

(** The processor with its end of the update channel: the updates the watcher
    has not received yet, and whether there is a watcher. *)
Record ElectrumProcessor := {
  ep_tracks : list Txid;
  ep_updates : list ElectrumUpdate;
  ep_receiver : bool }.

Definition set_tracks (l : list Txid) (p : ElectrumProcessor) : ElectrumProcessor :=
  {| ep_tracks := l; ep_updates := ep_updates p; ep_receiver := ep_receiver p |}.
Definition push_update (u : ElectrumUpdate) (p : ElectrumProcessor) : ElectrumProcessor :=
  {| ep_tracks := ep_tracks p; ep_updates := ep_updates p ++ [u]; ep_receiver := ep_receiver p |}.

(** [self.sender.send(u).expect(why)] *)
Definition send_update {E} (why : string) (u : ElectrumUpdate) : W ElectrumProcessor E unit :=
  let! alive := self ep_receiver in
  if alive : bool then update (push_update u) else mpanic why.

Definition connect_electrum {R} (url : string) : W R Opaque unit :=
  perform (λ h, electrum_from_config h url) (OpNet (NetConnect url)).

Definition ep_reconnect (url : string) : W ElectrumProcessor Opaque unit := connect_electrum url.

Definition pop_header : W ElectrumProcessor Opaque (option ElectrumUpdate) :=
  let! res := query block_headers_pop (OpNet NetHeaders) in
  mreturn (EuLastBlockUpdate <$> res).

Definition zero_f32 : spec_float := S754_zero false.

Definition get_transactions (txids : list Txid)
    : W ElectrumProcessor Opaque (option ElectrumUpdate) :=
  let! tracks := self ep_tracks in
  match tracks with
  | [] => mreturn None
  | _ =>
      let! res := query (λ h, batch_transaction_get h txids) (OpNet (NetTxBatch txids)) in
      mreturn (Some (EuTxBatch res zero_f32))
  end.

Definition transaction_update (txid : Txid)
    : W ElectrumProcessor Opaque (option ElectrumUpdate) :=
  let! res := query (λ h, transaction_get h txid) (OpNet (NetTx txid)) in
  mreturn (Some (EuTxBatch [res] zero_f32)).

Definition ep_track_transaction (txid : Txid)
    : W ElectrumProcessor Opaque (option ElectrumUpdate) :=
  let! tracks := self ep_tracks in
  do! update (set_tracks (tracks ++ [txid])) in
  transaction_update txid.

Definition unwrap_none : string := "called `Option::unwrap()` on a `None` value".

(** The first occurrence is removed. *)
Definition ep_untrack_transaction (txid : Txid)
    : W ElectrumProcessor Opaque (option ElectrumUpdate) :=
  let! tracks := self ep_tracks in
  let! found := expect unwrap_none (list_find (λ x, x = txid) tracks) in
  do! update (set_tracks (delete found.1 tracks)) in
  transaction_update txid.

Definition ep_command (cmd : ElectrumCmd) : W ElectrumProcessor Opaque (option ElectrumUpdate) :=
  match cmd with
  | Reconnect url => do! ep_reconnect url in mreturn None
  | PopHeader => pop_header
  | GetTrasactions =>
      let! txs := self ep_tracks in
      get_transactions txs
  | TrackTransaction txid => ep_track_transaction txid
  | UntrackTransaction txid => ep_untrack_transaction txid
  end.

Definition ep_process {E} (cmd : ElectrumCmd) : W ElectrumProcessor E unit :=
  let! resp := attempt (ep_command cmd) in
  match resp with
  | inr (Some msg) => send_update "electrum watcher channel is broken" msg
  | inr None => mreturn tt
  | inl err => send_update "electrum connection is broken" (EuError err)
  end.

(** One round of [ElectrumProcessor::run]: a command, or a channel without senders. *)
Definition ep_round {E} (received : option ElectrumCmd) : W ElectrumProcessor E unit :=
  match received with
  | Some cmd => ep_process cmd
  | None => send_update "electrum watcher channel is broken" EuChannelDisconnected
  end.

(** ** The watcher *)

(** [send_over_bridge]; the bridge is a controller of its own, whose identity is
    [Loopback]. *)
Definition send_over_bridge (req : BusMsg) : W unit Error unit :=
  do? send_to BusIdBridge Loopback Watch req in
  mreturn tt.

Definition found_tx (tx : Transaction) : CtlMsg :=
  CtlTxFound {| ts_txid := tx_txid tx; ts_block_pos := None |}.

Fixpoint forward_transactions {E} (txs : list Transaction) : W unit E unit :=
  match txs with
  | [] => mreturn tt
  | tx :: txs =>
      do! expect_ok "unable forward electrum notifications over the bridge"
            (send_over_bridge (BusCtl (found_tx tx))) in
      forward_transactions txs
  end.

(** [WatcherRuntime::run] once an update has been received. *)
Definition watcher_run {E} (msg : ElectrumUpdate) : W unit E unit :=
  match msg with
  | EuTxBatch transactions _ => forward_transactions transactions
  | _ => mreturn tt
  end.
End processor.

(** ** The runtime *)

(** [ElectrumWorker]: the sending end of the command channel. *)
Record ElectrumWorker := {
  wk_queue : list ElectrumCmd;
  wk_alive : bool }.

Record WatchRuntime := {
  wr_worker : ElectrumWorker;
  wr_track_list : gmap Txid (N * ServiceId) }.

Definition set_worker (x : ElectrumWorker) (r : WatchRuntime) : WatchRuntime :=
  {| wr_worker := x; wr_track_list := wr_track_list r |}.
Definition set_track_list (x : gmap Txid (N * ServiceId)) (r : WatchRuntime) : WatchRuntime :=
  {| wr_worker := wr_worker r; wr_track_list := x |}.
Definition push_cmd (c : ElectrumCmd) (k : ElectrumWorker) : ElectrumWorker :=
  {| wk_queue := wk_queue k ++ [c]; wk_alive := wk_alive k |}.

Inductive WatcherChannelFailure := ChannelFailure.

Section runtime.
Context `{Sys, !Fmt}.

#[export] Instance watch_handler : Handler WatchRuntime := {|
  identity := λ _, Watch;
  enquirer := λ _, None |}.

Definition worker_cmd (c : ElectrumCmd) : W WatchRuntime WatcherChannelFailure unit :=
  let! k := self wr_worker in
  if wk_alive k then update (set_worker (push_cmd c k)) else mfail ChannelFailure.

Definition worker_reconnect (url : string) : W WatchRuntime WatcherChannelFailure unit :=
  worker_cmd (Reconnect url).
Definition track_transaction (txid : Txid) : W WatchRuntime WatcherChannelFailure unit :=
  worker_cmd (TrackTransaction txid).
Definition untrack_transaction (txid : Txid) : W WatchRuntime WatcherChannelFailure unit :=
  worker_cmd (UntrackTransaction txid).

Definition untrack {E} (txid : Txid) : W WatchRuntime E unit :=
  let! l := self wr_track_list in
  update (set_track_list (delete txid l)).

(** [block_pos.map(|b| b.pos).unwrap_or_default()] *)
Definition found_position (s : TxStatus) : N :=
  match ts_block_pos s with Some b => bp_pos b | None => 0%N end.

Definition watch_handle_bridge (request : CtlMsg) : W WatchRuntime Error unit :=
  match request with
  | CtlTxFound tx_status =>
      let! l := self wr_track_list in
      match l !! ts_txid tx_status with
      | Some (required_height, service_id) =>
          if decide (found_position tx_status ≤ required_height)%N then
            do! untrack (ts_txid tx_status) in
            do! swallow (untrack_transaction (ts_txid tx_status)) in
            do? send_to BusIdCtl Watch service_id (BusCtl (CtlTxFound tx_status)) in
            mreturn tt
          else mreturn tt
      | None => mreturn tt
      end
  | wrong_msg => mfail (wrong_esb_msg BusIdBridge (BusCtl wrong_msg))
  end.

Definition watch_handle_p2p (_ : ServiceId) (_ : LnMsg) : W WatchRuntime Error unit := mreturn tt.

Definition watch_handle_ctl (source : ServiceId) (message : CtlMsg) : W WatchRuntime Error unit :=
  match message with
  | CtlTrack txid depth =>
      let! l := self wr_track_list in
      do! update (set_track_list (<[txid := (depth, source)]> l)) in
      swallow (track_transaction txid)
  | CtlUntrack txid =>
      do! untrack txid in
      swallow (untrack_transaction txid)
  | wrong_msg => mfail (wrong_esb_msg BusIdCtl (BusCtl wrong_msg))
  end.

Definition watch_handle (bus : ServiceBus) (source : ServiceId) (message : BusMsg)
    : W WatchRuntime Error unit :=
  match bus, message, source with
  | BusIdBridge, BusCtl msg, Loopback => watch_handle_bridge msg
  | BusIdMsg, BusBolt msg, source => watch_handle_p2p source msg
  | BusIdCtl, BusCtl msg, source => watch_handle_ctl source msg
  | bus, msg, _ => mfail (wrong_esb_msg bus msg)
  end.
Definition watch_handle_err (_ : EsbError) : W WatchRuntime Error unit := mreturn tt.
End runtime.

(** ** Start-up *)

Section start.
Context `{Sys, !ElectrumLib}.

(** [ElectrumWorker::with] and [ElectrumProcessor::with]: the worker thread
    starts with nothing to track. *)
Definition worker_with {R} (url : string) : W R Opaque (ElectrumWorker * ElectrumProcessor) :=
  do! connect_electrum url in
  mreturn ({| wk_queue := []; wk_alive := true |},
           {| ep_tracks := []; ep_updates := []; ep_receiver := true |}).

(** [run]: the runtime and, in its own thread, the processor. *)
Definition watchd_run (config : Config unit) : W unit Error (WatchRuntime * ElectrumProcessor) :=
  let! started := attempt (worker_with (electrum_url config)) in
  match started with
  | inl _ => mfail EElectrumConnectivity
  | inr (worker, processor) =>
      mreturn ({| wr_worker := worker; wr_track_list := ∅ |}, processor)
  end.
End start.

(** ** The threads together *)

Section system.
Context `{Sys, !Fmt, !ElectrumLib}.

(** What the bridge carries are the messages the watcher has sent and the
    runtime has not handled yet. *)
Record Watchd := {
  wd_runtime : World WatchRuntime;
  wd_processor : World ElectrumProcessor;
  wd_watcher : World unit;
  wd_bridge : list BusMsg }.

Definition bridged (w w' : World unit) : list BusMsg :=
  env_msg <$> sent (drop (length (hist w)) (hist w')).

Definition is_panic {E A} (r : Res E A) : bool := match r with Panic _ => true | _ => false end.

(** The command at the head of the queue has been processed.  A panic ends the
    thread: its queue is gone and nothing can be sent to it. *)
Definition after_command {E A} (r : Res E A) (rest : list ElectrumCmd) : ElectrumWorker :=
  if is_panic r then {| wk_queue := []; wk_alive := false |}
  else {| wk_queue := rest; wk_alive := true |}.
Definition after_update {E A} (r : Res E A) (rest : list ElectrumUpdate)
    (p : ElectrumProcessor) : ElectrumProcessor :=
  if is_panic r then {| ep_tracks := ep_tracks p; ep_updates := []; ep_receiver := false |}
  else {| ep_tracks := ep_tracks p; ep_updates := rest; ep_receiver := true |}.

Inductive watch_step : Watchd → option (ServiceId * BusMsg) → Watchd → Prop :=
  | wst_message bus src msg rw rw' r p w b :
      bus ≠ BusIdBridge → watch_handle bus src msg rw = (r, rw') →
      watch_step {| wd_runtime := rw; wd_processor := p; wd_watcher := w; wd_bridge := b |}
        (Some (src, msg))
        {| wd_runtime := rw'; wd_processor := p; wd_watcher := w; wd_bridge := b |}
  | wst_bridge msg rw rw' r p w b :
      watch_handle BusIdBridge Loopback msg rw = (r, rw') →
      watch_step {| wd_runtime := rw; wd_processor := p; wd_watcher := w; wd_bridge := msg :: b |}
        None
        {| wd_runtime := rw'; wd_processor := p; wd_watcher := w; wd_bridge := b |}
  | wst_command c rest rw p p' (r : Res Opaque unit) w b :
      wr_worker (rt rw) = {| wk_queue := c :: rest; wk_alive := true |} →
      ep_round (Some c) p = (r, p') →
      watch_step {| wd_runtime := rw; wd_processor := p; wd_watcher := w; wd_bridge := b |}
        None
        {| wd_runtime := with_rt (set_worker (after_command r rest)) rw;
           wd_processor := p'; wd_watcher := w; wd_bridge := b |}
  | wst_pace c rw p w b :
      c = GetTrasactions ∨ c = PopHeader → wk_alive (wr_worker (rt rw)) = true →
      watch_step {| wd_runtime := rw; wd_processor := p; wd_watcher := w; wd_bridge := b |}
        None
        {| wd_runtime := with_rt (λ r, set_worker (push_cmd c (wr_worker r)) r) rw;
           wd_processor := p; wd_watcher := w; wd_bridge := b |}
  | wst_update u rest rw p w w' (r : Res Error unit) b :
      ep_receiver (rt p) = true → ep_updates (rt p) = u :: rest → watcher_run u w = (r, w') →
      watch_step {| wd_runtime := rw; wd_processor := p; wd_watcher := w; wd_bridge := b |}
        None
        {| wd_runtime := rw; wd_processor := with_rt (after_update r rest) p;
           wd_watcher := w'; wd_bridge := b ++ bridged w w' |}.

(** Runs, with the messages the runtime got from the service bus, each of them
    allowed in the state it arrives in. *)
Inductive watch_reaches (allowed : WatchRuntime → BusMsg → Prop) (s0 : Watchd) :
    list (ServiceId * BusMsg) → Watchd → Prop :=
  | wr_start : watch_reaches allowed s0 [] s0
  | wr_step reqs s o s' :
      watch_reaches allowed s0 reqs s → watch_step s o s' →
      (∀ src msg, o = Some (src, msg) → allowed (rt (wd_runtime s)) msg) →
      watch_reaches allowed s0 (reqs ++ option_list o) s'.

(** watchd when its threads have been started. *)
Definition watch_started (s : Watchd) : Prop :=
  rt (wd_runtime s) = {| wr_worker := {| wk_queue := []; wk_alive := true |};
                         wr_track_list := ∅ |} ∧
  rt (wd_processor s) = {| ep_tracks := []; ep_updates := []; ep_receiver := true |} ∧
  hist (wd_runtime s) = [] ∧ wd_bridge s = [].
End system.
