(* ===== verification/WatchCorrect.v ===== *)
(** * Properties of the chain watcher *)

From S2P Require Import Prelude.
From S2P Require Import Bus.
From S2P Require Import Service.
From S2P Require Import Files.
From S2P Require Import Watch.

Local Open Scope rust_scope.

(** ** The worker's list of transactions *)

Section tracks.
Context `{Sys, !Fmt, !ElectrumLib}.

(** What a list of tracked transactions becomes when the commands are processed;
    [None] when one of them kills the processor. *)
Definition command_tracks (tracks : list Txid) (c : ElectrumCmd) : option (list Txid) :=
  match c with
  | TrackTransaction t => Some (tracks ++ [t])
  | UntrackTransaction t => (λ x, delete x.1 tracks) <$> list_find (λ x, x = t) tracks
  | _ => Some tracks
  end.
Fixpoint queue_tracks (tracks : list Txid) (cs : list ElectrumCmd) : option (list Txid) :=
  match cs with
  | [] => Some tracks
  | c :: cs => command_tracks tracks c ≫= λ l, queue_tracks l cs
  end.

Lemma queue_tracks_app tracks cs1 cs2 :
  queue_tracks tracks (cs1 ++ cs2) = queue_tracks tracks cs1 ≫= λ l, queue_tracks l cs2.
Proof.
  revert tracks. induction cs1 as [|c cs1 IH]; intros tracks; simpl; [done|].
  destruct (command_tracks tracks c); simpl; [apply IH|done].
Qed.

Lemma delete_other (tracks : list Txid) i t t' :
  tracks !! i = Some t → t' ≠ t → t' ∈ tracks → t' ∈ delete i tracks.
Proof.
  intros Hi Hne [j Hj]%list_elem_of_lookup. apply list_elem_of_lookup.
  destruct (decide (j < i)) as [Hlt|].
  - exists j. by rewrite list_lookup_delete_lt.
  - destruct (decide (i = j)) as [->|]; [congruence|].
    exists (j - 1). rewrite list_lookup_delete_ge by lia. by replace (S (j - 1)) with j by lia.
Qed.

Lemma command_tracks_found tracks t :
  t ∈ tracks → ∃ l, command_tracks tracks (UntrackTransaction t) = Some l ∧
    ∀ t', t' ∈ tracks → t' ≠ t → t' ∈ l.
Proof.
  intros Ht. simpl. destruct (list_find_elem_of (λ x, x = t) tracks t Ht eq_refl) as [[i t'] Ef].
  rewrite Ef. exists (delete i tracks). split; [done|].
  apply list_find_Some in Ef as (Hi & -> & _). intros. by eapply delete_other.
Qed.

(** Asking the Electrum server leaves the processor alone and never panics. *)
Lemma ep_query_run {A} (reply : History → Opaque + A) (f : A → option ElectrumUpdate) o
    (p : World ElectrumProcessor) :
  ∃ r p', (let! res := query reply o in mreturn (f res)) p = (r, p') ∧
    rt p' = rt p ∧ is_panic r = false.
Proof. unfold bind, query. destruct (reply _); eexists _, _; by split. Qed.

Lemma ep_command_run c (p : World ElectrumProcessor) :
  ∃ r p', ep_command c p = (r, p') ∧ ep_receiver (rt p') = ep_receiver (rt p) ∧
    match command_tracks (ep_tracks (rt p)) c with
    | Some l => is_panic r = false ∧ ep_tracks (rt p') = l
    | None => is_panic r = true
    end.
Proof.
  destruct c as [url| | |t|t]; simpl.
  - unfold ep_reconnect, connect_electrum, perform, bind.
    destruct (electrum_from_config _ _); eexists _, _; by split_and!.
  - destruct (ep_query_run block_headers_pop (fmap EuLastBlockUpdate) (OpNet NetHeaders) p)
      as (r & p' & E' & E & Hp). exists r, p'. split; [exact E'|by rewrite E].
  - unfold self, get_transactions. rewrite bind_gets. unfold self. rewrite bind_gets.
    destruct (ep_tracks (rt p)) as [|t l] eqn:El; [by eexists _, _; split_and!|].
    destruct (ep_query_run (λ h, batch_transaction_get h (t :: l))
      (λ res, Some (EuTxBatch res zero_f32)) (OpNet (NetTxBatch (t :: l))) p)
      as (r & p' & E' & E & Hp). exists r, p'. split; [exact E'|by rewrite E, El].
  - unfold ep_track_transaction, self, update. rewrite bind_gets, bind_modify.
    destruct (ep_query_run (λ h, transaction_get h t) (λ res, Some (EuTxBatch [res] zero_f32))
      (OpNet (NetTx t)) (with_rt (set_tracks (ep_tracks (rt p) ++ [t])) p))
      as (r & p' & E' & E & Hp). exists r, p'. split; [exact E'|by rewrite E].
  - unfold ep_untrack_transaction, self, update. rewrite bind_gets.
    destruct (list_find _ (ep_tracks (rt p))) as [[i t']|] eqn:Ef; simpl;
      [|by eexists _, _; split_and!].
    rewrite bind_mreturn, bind_modify. simpl.
    destruct (ep_query_run (λ h, transaction_get h t) (λ res, Some (EuTxBatch [res] zero_f32))
      (OpNet (NetTx t)) (with_rt (set_tracks (delete i (ep_tracks (rt p)))) p))
      as (r & p' & E' & E & Hp). exists r, p'. split; [exact E'|by rewrite E].
Qed.

(** A command leaves the list as [command_tracks] says, and the thread dies
    exactly where that is undefined, as long as its updates are received. *)
Lemma ep_round_tracks (p : World ElectrumProcessor) c (r : Res Opaque unit) p' :
  ep_round (Some c) p = (r, p') →
  ep_receiver (rt p') = ep_receiver (rt p) ∧
  (ep_receiver (rt p) = true →
   is_panic r = bool_decide (command_tracks (ep_tracks (rt p)) c = None)) ∧
  (command_tracks (ep_tracks (rt p)) c = None → is_panic r = true) ∧
  (∀ l, command_tracks (ep_tracks (rt p)) c = Some l → ep_tracks (rt p') = l).
Proof.
  unfold ep_round, ep_process, attempt, bind.
  destruct (ep_command_run c p) as (r1 & p1 & -> & Er & Hc).
  destruct (command_tracks _ c) as [l|].
  - destruct Hc as [Hp <-].
    destruct r1 as [[u|]|e|w]; simpl in *; try done; unfold send_update, self, gets, bind;
      try (rewrite Er; destruct (ep_receiver (rt p)) eqn:Ea);
      intros [= <- <-]; simpl; (split_and!; [done| |done|by intros ? [= <-]]); done.
  - destruct r1; try done. intros [= <- <-]. by split_and!.
Qed.
End tracks.

(** ** The worker stays alive *)

Section worker.
Context `{Sys, !Fmt, !ElectrumLib}.

(** What the service bus may make the worker stumble over: a request to stop
    tracking what is not tracked. *)
Definition stray_untrack (r : WatchRuntime) (msg : BusMsg) : Prop :=
  ∃ t, msg = BusCtl (CtlUntrack t) ∧ wr_track_list r !! t = None.

(** The transactions the runtime tracks are among [l]. *)
Definition tracks_within (l : list Txid) (r : WatchRuntime) : Prop :=
  ∀ t, is_Some (wr_track_list r !! t) → t ∈ l.

Definition worker_sound (s : Watchd) : Prop :=
  ep_receiver (rt (wd_processor s)) = true →
  wk_alive (wr_worker (rt (wd_runtime s))) = true ∧
  ∃ l, queue_tracks (ep_tracks (rt (wd_processor s))) (wk_queue (wr_worker (rt (wd_runtime s))))
         = Some l ∧ tracks_within l (rt (wd_runtime s)).

(** What a handler of the runtime does to the command channel and to its list. *)
Definition handled (r r' : WatchRuntime) : Prop :=
  ∃ cs, wr_worker r' = {| wk_queue := wk_queue (wr_worker r) ++ cs; wk_alive := true |} ∧
    ∀ l, tracks_within l r → ∃ l', queue_tracks l cs = Some l' ∧ tracks_within l' r'.

Lemma worker_cmd_run c (w : World WatchRuntime) :
  wk_alive (wr_worker (rt w)) = true →
  swallow (E':=Error) (worker_cmd c) w =
    (Ok tt, with_rt (set_worker (push_cmd c (wr_worker (rt w)))) w).
Proof. intros Ha. unfold swallow, worker_cmd, self. rewrite bind_gets, Ha. done. Qed.

Lemma untrack_run {E} t (w : World WatchRuntime) :
  untrack (E:=E) t w = (Ok tt, with_rt (set_track_list (delete t (wr_track_list (rt w)))) w).
Proof. done. Qed.

Lemma handled_refl r : wk_alive (wr_worker r) = true → handled r r.
Proof.
  intros Ha. exists []. rewrite app_nil_r. split; [by destruct r as [[] ?]; simpl in *; subst|].
  intros l Hl. by exists l.
Qed.

Lemma handled_untrack t r :
  wk_alive (wr_worker r) = true → is_Some (wr_track_list r !! t) →
  handled r (set_worker (push_cmd (UntrackTransaction t) (wr_worker r))
               (set_track_list (delete t (wr_track_list r)) r)).
Proof.
  intros Ha Ht. exists [UntrackTransaction t]. unfold push_cmd. simpl. rewrite Ha.
  split; [done|]. intros l Hl.
  destruct (command_tracks_found l t) as (l' & E & Hl'); [by apply Hl|].
  exists l'. simpl in E. rewrite E. split; [done|]. intros t'. simpl.
  intros [x [Hne Hx]%lookup_delete_Some]. apply Hl'; [apply Hl; by exists x|done].
Qed.

Lemma handled_track t d src r :
  wk_alive (wr_worker r) = true →
  handled r (set_worker (push_cmd (TrackTransaction t) (wr_worker r))
               (set_track_list (<[t := (d, src)]> (wr_track_list r)) r)).
Proof.
  intros Ha. exists [TrackTransaction t]. unfold push_cmd. simpl. rewrite Ha.
  split; [done|]. intros l Hl. exists (l ++ [t]). split; [done|]. intros t' Ht'. simpl in Ht'.
  apply elem_of_app. destruct (decide (t' = t)) as [->|]; [right; by apply list_elem_of_here|left].
  rewrite lookup_insert_ne in Ht' by done. by apply Hl.
Qed.

Lemma watch_handle_handled bus src msg (w : World WatchRuntime) :
  wk_alive (wr_worker (rt w)) = true →
  (bus = BusIdCtl → ¬ stray_untrack (rt w) msg) →
  handled (rt w) (rt (watch_handle bus src msg w).2) ∧
  is_panic (watch_handle bus src msg w).1 = false.
Proof.
  intros Ha Hs.
  assert (handled (rt w) (rt w)) as Hrefl by (by apply handled_refl).
  destruct bus, msg as [| |m|]; try (by split).
  - (* control messages *)
    destruct m; try (by split).
    + unfold watch_handle, watch_handle_ctl, self, update, track_transaction.
      rewrite bind_gets, bind_modify, worker_cmd_run by done. split; [|done].
      exact (handled_track _ _ _ _ Ha).
    + unfold watch_handle, watch_handle_ctl, untrack_transaction.
      rewrite (bind_ok _ _ _ _ _ (untrack_run txid w)), worker_cmd_run by done.
      split; [|done]. apply (handled_untrack txid (rt w)); [done|].
      destruct (wr_track_list (rt w) !! txid) eqn:Et; [done|]. exfalso. apply Hs; [done|].
      by exists txid.
  - (* the bridge *)
    destruct src; try (by split). destruct m; try (by split).
    unfold watch_handle, watch_handle_bridge, self, untrack_transaction.
    rewrite bind_gets. destruct (wr_track_list (rt w) !! ts_txid s) as [[d svc]|] eqn:Et;
      [|by split]. case_decide; [|by split].
    rewrite (bind_ok _ _ _ _ _ (untrack_run (ts_txid s) w)). cbv beta.
    set (w1 := with_rt _ w). rewrite (bind_ok _ _ _ _ _ (worker_cmd_run _ w1 Ha)).
    unfold send_to, perform, bind, q. destruct (esb_reply _ _); simpl;
      (split; [|done]); apply (handled_untrack (ts_txid s) (rt w)); by rewrite ?Et.
Qed.
End worker.

(** ** Runs *)

Section runs.
Context `{Sys, !Fmt, !ElectrumLib}.

Lemma worker_sound_step s o s' :
  worker_sound s → watch_step s o s' →
  (∀ src msg, o = Some (src, msg) → ¬ stray_untrack (rt (wd_runtime s)) msg) →
  worker_sound s'.
Proof.
  intros HI Hs Hstray. unfold worker_sound in *.
  destruct Hs as [bus src msg rw rw' r p w b Hb E|msg rw rw' r p w b E
    |c rest rw p p' r w b Ek E|c rw p w b Hc Ha|u rest rw p w w' r b Hr Eu E]; simpl in *.
  - intros Hp. destruct (HI Hp) as (Ha & l & El & Hl).
    destruct (watch_handle_handled bus src msg rw Ha) as [(cs & Ew & Hcs) _]; [by eauto|].
    rewrite E in Ew, Hcs. simpl in *. rewrite Ew. split; [done|].
    destruct (Hcs l Hl) as (l' & El' & Hl'). exists l'. simpl. by rewrite queue_tracks_app, El.
  - intros Hp. destruct (HI Hp) as (Ha & l & El & Hl).
    destruct (watch_handle_handled BusIdBridge Loopback msg rw Ha) as [(cs & Ew & Hcs) _];
      [done|]. change (watch_handle BusIdBridge Loopback msg rw = (r, rw')) in E.
    rewrite E in Ew, Hcs. simpl in *. rewrite Ew. split; [done|].
    destruct (Hcs l Hl) as (l' & El' & Hl'). exists l'. simpl. by rewrite queue_tracks_app, El.
  - apply ep_round_tracks in E as (Er & Hpanic & _ & Ht). rewrite Er. intros Hp.
    destruct (HI Hp) as (Ha & l & El & Hl). rewrite Ek in El. simpl in El.
    apply bind_Some in El as (l1 & E1 & El). unfold after_command.
    rewrite Hpanic, E1, bool_decide_eq_false_2 by done. simpl.
    rewrite (Ht _ E1). split; [done|]. by exists l.
  - intros Hp. destruct (HI Hp) as (_ & l & El & Hl). split; [done|]. exists l.
    rewrite queue_tracks_app, El. split; [|done]. by destruct Hc as [->| ->].
  - unfold after_update. destruct (is_panic r); simpl; [done|]. intros _. apply HI, Hr.
Qed.

(** C30. As long as no service asks to untrack a transaction that is not tracked, and
    the watcher thread lives, no interleaving of requests, commands, Electrum replies
    and notifications kills the Electrum thread of watchd. *)
Theorem worker_survives s0 reqs s :
  watch_started s0 → watch_reaches (λ r msg, ¬ stray_untrack r msg) s0 reqs s →
  ep_receiver (rt (wd_processor s)) = true →
  wk_alive (wr_worker (rt (wd_runtime s))) = true.
Proof.
  intros (Er & Ep & _) Hr. assert (worker_sound s) as Hs; [|by intros Hp; apply Hs].
  induction Hr as [|reqs s o s' Hr IH Hs Ho]; [|by eapply worker_sound_step].
  intros _. rewrite Er, Ep. split; [done|]. exists []. split; [done|].
  intros t [x Hx]. simpl in Hx. by rewrite lookup_empty in Hx.
Qed.

(** A request to untrack a transaction that is not tracked kills the Electrum
    thread, and from then on every request to track a transaction is accepted and
    registered although nothing can track it any more. *)
Theorem stray_untrack_stops_tracking t src1 t' d src2 rw1 p w b rw2 r2 :
  wr_worker (rt rw1) = {| wk_queue := []; wk_alive := true |} →
  t ∉ ep_tracks (rt p) → 
  watch_handle BusIdCtl src1 (BusCtl (CtlUntrack t)) rw1 = (r2, rw2) →
  ∃ rw3 p3, watch_step
      {| wd_runtime := rw2; wd_processor := p; wd_watcher := w; wd_bridge := b |} None
      {| wd_runtime := rw3; wd_processor := p3; wd_watcher := w; wd_bridge := b |} ∧
    wr_worker (rt rw3) = {| wk_queue := []; wk_alive := false |} ∧
    ∃ rw4, watch_handle BusIdCtl src2 (BusCtl (CtlTrack t' d)) rw3 = (Ok tt, rw4) ∧
      wr_track_list (rt rw4) !! t' = Some (d, src2) ∧
      wr_worker (rt rw4) = {| wk_queue := []; wk_alive := false |}.
Proof.
  intros Ek Ht E. unfold watch_handle, watch_handle_ctl, untrack_transaction in E.
  rewrite (bind_ok _ _ _ _ _ (untrack_run t rw1)), worker_cmd_run in E by (simpl; by rewrite Ek).
  injection E as <- <-.
  set (rw2 := with_rt _ _).
  assert (wr_worker (rt rw2) = {| wk_queue := [UntrackTransaction t]; wk_alive := true |}) as Ek2
    by (unfold rw2; simpl; by rewrite Ek).
  destruct (ep_round (E:=Opaque) (Some (UntrackTransaction t)) p) as [r p'] eqn:Ep.
  assert (is_panic r = true) as Hpanic.
  { apply ep_round_tracks in Ep as (_ & _ & Hnone & _). apply Hnone. simpl.
    destruct (list_find _ _) as [[i x]|] eqn:Ef; [|done].
    apply list_find_Some in Ef as (Hi & -> & _). exfalso. apply Ht. by eapply list_elem_of_lookup_2. }
  do 2 eexists. split; [by eapply wst_command|]. unfold after_command. rewrite Hpanic.
  split; [done|]. eexists. split; [done|]. simpl. by rewrite lookup_insert_eq.
Qed.
End runs.

(** ** Notifications *)

Section notifications.
Context `{Sys, !Fmt, !ElectrumLib}.

Definition notification (svc : ServiceId) (s : TxStatus) : Envelope := {|
  env_bus := BusIdCtl; env_src := Watch; env_dest := svc; env_msg := BusCtl (CtlTxFound s) |}.

(** Notifications about [t] among operations, and requests to track it. *)
Definition found_of (t : Txid) (h : History) : list ServiceId :=
  omap (λ e, match env_msg e with
             | BusCtl (CtlTxFound s) => if decide (ts_txid s = t) then Some (env_dest e) else None
             | _ => None
             end) (attempted h).
Definition trackers_of (t : Txid) (reqs : list (ServiceId * BusMsg)) : list ServiceId :=
  omap (λ x : ServiceId * BusMsg,
    match x.2 with
    | BusCtl (CtlTrack t' _) => if decide (t' = t) then Some x.1 else None
    | _ => None
    end) reqs.
Definition tracker (t : Txid) (r : WatchRuntime) : list ServiceId :=
  match wr_track_list r !! t with Some (_, svc) => [svc] | None => [] end.

(** What the runtime does with a message: nothing that matters here, take a
    transaction in or out of its list, or notify the one who tracks it. *)
Inductive watch_effect (bus : ServiceBus) (w : World WatchRuntime) (src : ServiceId)
    (msg : BusMsg) :
    World WatchRuntime → Prop :=
  | we_same w' : wr_track_list (rt w') = wr_track_list (rt w) → hist w' = hist w →
      watch_effect bus w src msg w'
  | we_track t d w' : bus = BusIdCtl → msg = BusCtl (CtlTrack t d) →
      wr_track_list (rt w') = <[t := (d, src)]> (wr_track_list (rt w)) → hist w' = hist w →
      watch_effect bus w src msg w'
  | we_untrack t w' : wr_track_list (rt w') = delete t (wr_track_list (rt w)) →
      hist w' = hist w → watch_effect bus w src msg w'
  | we_found s d svc ok w' : msg = BusCtl (CtlTxFound s) →
      wr_track_list (rt w) !! ts_txid s = Some (d, svc) →
      wr_track_list (rt w') = delete (ts_txid s) (wr_track_list (rt w)) →
      hist w' = hist w ++ [(OpSend (notification svc s), ok)] → watch_effect bus w src msg w'.

Lemma worker_cmd_same {E} c (w : World WatchRuntime) :
  ∃ w', swallow (E':=E) (worker_cmd c) w = (Ok tt, w') ∧
    wr_track_list (rt w') = wr_track_list (rt w) ∧ hist w' = hist w.
Proof.
  unfold swallow, worker_cmd, self. rewrite bind_gets.
  destruct (wk_alive _); eexists; by split_and!.
Qed.

Lemma watch_handle_effect bus src msg w :
  watch_effect bus w src msg (watch_handle bus src msg w).2.
Proof.
  assert (∀ bus w', w' = w → watch_effect bus w src msg w') as Hsame.
  { intros ? ? ->. by apply we_same. }
  destruct bus, msg as [| |m|]; try (by apply Hsame).
  - destruct m; try (by apply Hsame).
    + unfold watch_handle, watch_handle_ctl, self, update, track_transaction.
      rewrite bind_gets, bind_modify.
      destruct (worker_cmd_same (E:=Error) (TrackTransaction txid)
        (with_rt (set_track_list (<[txid := (depth, src)]> (wr_track_list (rt w)))) w))
        as (w' & -> & El & Eh). by eapply we_track.
    + unfold watch_handle, watch_handle_ctl, untrack_transaction.
      rewrite (bind_ok _ _ _ _ _ (untrack_run txid w)).
      destruct (worker_cmd_same (E:=Error) (UntrackTransaction txid)
        (with_rt (set_track_list (delete txid (wr_track_list (rt w)))) w))
        as (w' & -> & El & Eh). by apply (we_untrack _ _ _ _ txid).
  - destruct src; try (by apply Hsame). destruct m; try (by apply Hsame).
    unfold watch_handle, watch_handle_bridge, self, untrack_transaction. rewrite bind_gets.
    destruct (wr_track_list (rt w) !! ts_txid s) as [[d svc]|] eqn:Et; [|by apply Hsame].
    case_decide; [|by apply Hsame].
    rewrite (bind_ok _ _ _ _ _ (untrack_run (ts_txid s) w)). cbv beta.
    set (w1 := with_rt _ w).
    destruct (worker_cmd_same (E:=Error) (UntrackTransaction (ts_txid s)) w1)
      as (w2 & E2 & El & Eh). rewrite (bind_ok _ _ _ _ _ E2).
    unfold send_to, perform, bind, q.
    destruct (esb_reply _ _); simpl; (eapply we_found; [done|exact Et|done|]);
      simpl; by rewrite Eh.
Qed.

(** Every notification, and the tracker still waiting, answers a request of its
    own. *)
Definition asked_for (reqs : list (ServiceId * BusMsg)) (w : World WatchRuntime) : Prop :=
  ∀ t, found_of t (hist w) ++ tracker t (rt w) ⊆+ trackers_of t reqs.

Lemma found_of_app t h1 h2 : found_of t (h1 ++ h2) = found_of t h1 ++ found_of t h2.
Proof. unfold found_of. rewrite attempted_app. apply omap_app. Qed.

Lemma tracker_delete t t' w' r :
  wr_track_list (rt w') = delete t' (wr_track_list r) →
  tracker t (rt w') ⊆+ tracker t r.
Proof.
  intros El. unfold tracker. rewrite El. destruct (decide (t' = t)) as [->|].
  - rewrite lookup_delete_eq. apply submseteq_nil_l.
  - by rewrite lookup_delete_ne.
Qed.

Lemma asked_for_quiet bus reqs src msg w w' :
  asked_for reqs w → watch_effect bus w src msg w' →
  asked_for reqs w' ∨ ∃ t d, bus = BusIdCtl ∧ msg = BusCtl (CtlTrack t d) ∧
    wr_track_list (rt w') = <[t := (d, src)]> (wr_track_list (rt w)) ∧ hist w' = hist w.
Proof.
  intros Ha He.
  destruct He as [w' El Eh|t d w' Eb Em El Eh|t w' El Eh|s d svc ok w' Em Et El Eh];
    [left|right; by exists t, d|left|left]; intros t'; specialize (Ha t'); rewrite Eh.
  - unfold tracker. by rewrite El.
  - etrans; [|exact Ha]. apply submseteq_app; [done|by eapply tracker_delete].
  - etrans; [|exact Ha]. rewrite found_of_app, <-app_assoc. apply submseteq_app; [done|].
    unfold found_of, attempted, tracker. simpl. rewrite El.
    destruct (decide (ts_txid s = t')) as [<-|Hne]; simpl.
    + by rewrite lookup_delete_eq, Et.
    + by rewrite lookup_delete_ne.
Qed.

Lemma asked_for_effect bus reqs src msg w w' :
  asked_for reqs w → watch_effect bus w src msg w' → asked_for (reqs ++ [(src, msg)]) w'.
Proof.
  intros Ha He. destruct (asked_for_quiet _ _ _ _ _ _ Ha He) as [Hq|(t & d & _ & -> & El & Eh)];
    intros t'; unfold trackers_of; rewrite omap_app.
  { etrans; [apply Hq|]. by apply submseteq_inserts_r. }
  rewrite Eh. unfold tracker. rewrite El. specialize (Ha t'). unfold tracker in Ha. simpl.
  destruct (decide (t = t')) as [->|Hne].
  - rewrite lookup_insert_eq. apply submseteq_app; [|done].
    etrans; [|exact Ha]. by apply submseteq_inserts_r.
  - rewrite lookup_insert_ne by done. by rewrite app_nil_r.
Qed.

(** C21. In every run of watchd, whatever the interleaving of its threads, the services
    notified about a transaction are, with multiplicities, among those that asked to
    track it: every request to track is answered at most once, and nobody else is
    notified. *)
Theorem notifications_were_asked_for s0 reqs s t :
  watch_started s0 → watch_reaches (λ _ _, True) s0 reqs s →
  found_of t (hist (wd_runtime s)) ⊆+ trackers_of t reqs.
Proof.
  intros (Er & _ & Eh & _) Hr. assert (asked_for reqs (wd_runtime s)) as Ha.
  2: { etrans; [|apply Ha]. by apply submseteq_inserts_r. }
  induction Hr as [|reqs s o s' Hr IH Hs _].
  { intros t'. rewrite Er, Eh. unfold tracker. simpl. by rewrite lookup_empty. }
  destruct Hs as [bus src msg rw rw' r p w b Hb E|msg rw rw' r p w b E
    |c rest rw p p' r w b Ek E|c rw p w b Hc Hal|u rest rw p w w' r b Hr' Eu E]; simpl in *.
  - eapply asked_for_effect; [exact IH|].
    pose proof (watch_handle_effect bus src msg rw) as He. by rewrite E in He.
  - rewrite app_nil_r. pose proof (watch_handle_effect BusIdBridge Loopback msg rw) as He.
    change (watch_handle BusIdBridge Loopback msg rw = (r, rw')) in E. rewrite E in He.
    by destruct (asked_for_quiet _ _ _ _ _ _ IH He) as [|(? & ? & ? & _)].
  - rewrite app_nil_r. exact IH.
  - rewrite app_nil_r. exact IH.
  - rewrite app_nil_r. exact IH.
Qed.

Lemma bridge_found_run s d svc w :
  wr_track_list (rt w) !! ts_txid s = Some (d, svc) → (found_position s ≤ d)%N →
  ∃ r w', watch_handle BusIdBridge Loopback (BusCtl (CtlTxFound s)) w = (r, w') ∧
    hist w' = hist w ++ [(OpSend (notification svc s),
                          bool_decide (esb_reply (hist w) (OpSend (notification svc s)) = None))] ∧
    wr_track_list (rt w') = delete (ts_txid s) (wr_track_list (rt w)).
Proof.
  intros Et Hd. unfold watch_handle, watch_handle_bridge, self, untrack_transaction.
  rewrite bind_gets, Et, decide_True by done.
  rewrite (bind_ok _ _ _ _ _ (untrack_run (ts_txid s) w)). cbv beta.
  set (w1 := with_rt _ w).
  destruct (worker_cmd_same (E:=Error) (UntrackTransaction (ts_txid s)) w1)
    as (w2 & E2 & El & Eh). rewrite (bind_ok _ _ _ _ _ E2).
  unfold send_to, perform, bind, q. rewrite Eh. fold (notification svc s).
  change (hist w1) with (hist w).
  destruct (esb_reply _ _); simpl; eexists _, _; (split; [done|]);
    simpl; (split; [by rewrite Eh|by rewrite El]).
Qed.

(** What decides whether a found transaction is announced is the position that the
    notification carries within its block, and the depth asked for is an upper bound of
    it; since the watcher never reports a position, the first notification is announced
    whatever the depth, and the transaction is no longer tracked. *)
Theorem depth_is_compared_with_position t d svc w :
  wr_track_list (rt w) !! t = Some (d, svc) →
  (∀ s, ts_txid s = t →
     let w' := (watch_handle BusIdBridge Loopback (BusCtl (CtlTxFound s)) w).2 in
     if decide (d < found_position s)%N
     then w' = w
     else attempted (hist w') = attempted (hist w) ++ [notification svc s] ∧
          wr_track_list (rt w') = delete t (wr_track_list (rt w))) ∧
  (∀ tx, tx_txid tx = t →
     attempted (hist (watch_handle BusIdBridge Loopback (BusCtl (found_tx tx)) w).2) =
       attempted (hist w) ++ [notification svc {| ts_txid := t; ts_block_pos := None |}]).
Proof.
  intros Et. split.
  - intros s <-. case_decide.
    { unfold watch_handle, watch_handle_bridge, self. by rewrite bind_gets, Et, decide_False by lia. }
    destruct (bridge_found_run s d svc w Et) as (r & w' & -> & Eh & El); [lia|]. simpl.
    by rewrite Eh, attempted_app.
  - intros tx <-. unfold found_tx.
    destruct (bridge_found_run {| ts_txid := tx_txid tx; ts_block_pos := None |} d svc w Et)
      as (r & w' & -> & Eh & _); [unfold found_position; simpl; lia|]. simpl. by rewrite Eh, attempted_app.
Qed.
(** The way of a transaction through the threads. *)
Lemma ep_track_run t tx (p : World ElectrumProcessor) (r : Res Opaque unit) p' :
  ep_receiver (rt p) = true → transaction_get (hist p) t = inr tx →
  ep_round (Some (TrackTransaction t)) p = (r, p') →
  r = Ok tt ∧ ep_receiver (rt p') = true ∧
  ep_updates (rt p') = ep_updates (rt p) ++ [EuTxBatch [tx] zero_f32].
Proof.
  intros Hr Hget. unfold ep_round, ep_process, attempt, ep_command, ep_track_transaction,
    transaction_update, query, self, update, bind, send_update, gets, modify, mreturn. simpl.
  rewrite Hget. simpl. unfold self. rewrite bind_gets. simpl. rewrite Hr. by intros [= <- <-].
Qed.

Lemma watcher_bridges tx (w : World unit) (r : Res Error unit) w' :
  (∀ m, esb_reply (hist w) (OpSend m) = None) →
  watcher_run (EuTxBatch [tx] zero_f32) w = (r, w') →
  bridged w w' = [BusCtl (found_tx tx)].
Proof.
  intros Hesb. unfold watcher_run, forward_transactions, expect_ok, send_over_bridge, send_to,
    perform, q, bind. rewrite Hesb. intros [= <- <-]. unfold bridged. simpl.
  by rewrite drop_app_length.
Qed.

(** A request to track, and the three steps of the threads that follow it. *)
Lemma tracking_runs t d src rw p w tx :
  wr_worker (rt rw) = {| wk_queue := []; wk_alive := true |} →
  ep_receiver (rt p) = true → ep_updates (rt p) = [] →
  transaction_get (hist p) t = inr tx → tx_txid tx = t →
  (∀ m, esb_reply (hist w) (OpSend m) = None) →
  ∃ rw1 s2 s3 s4, let found := notification src {| ts_txid := t; ts_block_pos := None |} in
    watch_handle BusIdCtl src (BusCtl (CtlTrack t d)) rw = (Ok tt, rw1) ∧ hist rw1 = hist rw ∧
    watch_step {| wd_runtime := rw1; wd_processor := p; wd_watcher := w; wd_bridge := [] |} None s2 ∧
    watch_step s2 None s3 ∧ watch_step s3 None s4 ∧
    hist (wd_runtime s2) = hist rw ∧ hist (wd_runtime s3) = hist rw ∧
    hist (wd_runtime s4) =
      hist rw ++ [(OpSend found, bool_decide (esb_reply (hist rw) (OpSend found) = None))] ∧
    wr_track_list (rt (wd_runtime s4)) !! t = None.
Proof.
  intros Ek Hr Hu Hget Htx Hesb.
  destruct (watch_handle BusIdCtl src (BusCtl (CtlTrack t d)) rw) as [r1 rw1] eqn:E1.
  unfold watch_handle, watch_handle_ctl, self, update, track_transaction in E1.
  rewrite bind_gets, bind_modify, worker_cmd_run in E1 by (simpl; by rewrite Ek).
  injection E1 as <- <-. set (rw1 := with_rt _ _) in *.
  assert (wr_worker (rt rw1) = {| wk_queue := [TrackTransaction t]; wk_alive := true |}) as Ek1
    by (unfold rw1; simpl; by rewrite Ek).
  (* the command *)
  destruct (ep_round (E:=Opaque) (Some (TrackTransaction t)) p) as [r2 p2] eqn:E2.
  pose proof (wst_command (TrackTransaction t) [] rw1 p p2 r2 w [] Ek1 E2) as S2.
  destruct (ep_track_run t tx p r2 p2 Hr Hget E2) as (-> & Hr2 & Hu2). rewrite Hu in Hu2.
  (* the update *)
  destruct (watcher_run (E:=Error) (EuTxBatch [tx] zero_f32) w) as [r3 w3] eqn:E3.
  pose proof (wst_update (EuTxBatch [tx] zero_f32) [] (with_rt (set_worker (after_command
    (Ok tt : Res Opaque unit) [])) rw1) p2 w w3 r3 [] Hr2 Hu2 E3) as S3.
  rewrite (watcher_bridges tx w r3 w3 Hesb E3) in S3. simpl in S3.
  (* the announcement *)
  set (rw3 := with_rt _ rw1) in *. subst t.
  destruct (bridge_found_run {| ts_txid := tx_txid tx; ts_block_pos := None |} d src rw3)
    as (r4 & rw4 & E4 & Eh & El);
    [unfold rw3, rw1; simpl; by rewrite lookup_insert_eq|unfold found_position; simpl; lia|].
  pose proof (wst_bridge (BusCtl (found_tx tx)) rw3 rw4 r4
    (with_rt (after_update r3 []) p2) w3 [] E4) as S4.
  eexists _, _, _, _. split_and!; [done..|exact S2|exact S3|exact S4|done|done|exact Eh|].
  simpl. rewrite El. by rewrite lookup_delete_eq.
Qed.

(** C31. When a service asks to track a transaction that the Electrum server knows and
    nothing else is in the way, there is a run of the threads of watchd after which the
    service has been notified, exactly once, and the transaction is no longer tracked.
    *)
Theorem tracked_transaction_is_announced t d src rw p w tx s0 :
  s0 = {| wd_runtime := rw; wd_processor := p; wd_watcher := w; wd_bridge := [] |} →
  wr_worker (rt rw) = {| wk_queue := []; wk_alive := true |} →
  ep_receiver (rt p) = true → ep_updates (rt p) = [] →
  transaction_get (hist p) t = inr tx → tx_txid tx = t →
  (∀ m, esb_reply (hist w) (OpSend m) = None) →
  ∃ s, watch_reaches (λ _ _, True) s0 [(src, BusCtl (CtlTrack t d))] s ∧
    attempted (hist (wd_runtime s)) = attempted (hist rw) ++
      [notification src {| ts_txid := t; ts_block_pos := None |}] ∧
    wr_track_list (rt (wd_runtime s)) !! t = None.
Proof.
  intros -> Ek Hr Hu Hget Htx Hesb.
  destruct (tracking_runs t d src rw p w tx Ek Hr Hu Hget Htx Hesb)
    as (rw1 & s2 & s3 & s4 & E1 & _ & S2 & S3 & S4 & _ & _ & Eh & El).
  exists s4. split; [|split; [by rewrite Eh, attempted_app|done]].
  pose proof (wst_message BusIdCtl src _ rw rw1 _ p w [] ltac:(done) E1) as S1.
  change [(src, BusCtl (CtlTrack t d))] with
      ((([] ++ option_list (Some (src, BusCtl (CtlTrack t d)))) ++ option_list None) ++
        option_list None ++ option_list (A:=ServiceId * BusMsg) None).
  rewrite app_assoc.
  do 4 (eapply wr_step; [|first [exact S4|exact S3|exact S2|exact S1]|done]). constructor.
Qed.
End notifications.
