(* ===== verification/Wire.v ===== *)
(** * Addresses and payment requests as bytes

    The conversions of a service id to and from the bytes that name it on the buses
    ([rpc/src/service_id.rs]), and the encoding of a request to pay an invoice, which
    carries the invoice as text ([rpc/src/messages.rs]).  The strict encoding of the
    fields comes from other crates: a [Codec] each. *)

From Stdlib Require Import Ascii String.
From S2P Require Import Prelude.
From S2P Require Import Bus.

Local Open Scope rust_scope.

(** ** Text of arbitrary bytes: [String::from_utf8_lossy] *)

Definition between (a b x : N) : bool := ((a <=? x) && (x <=? b))%N.
Definition continuation : N → bool := between 0x80 0xBF.

(** How many bytes follow the first byte of a sequence; [None] for a byte that starts none. *)
Definition utf8_tail (b : N) : option nat :=
  if between 0 0x7F b then Some 0
  else if between 0xC2 0xDF b then Some 1
  else if between 0xE0 0xEF b then Some 2
  else if between 0xF0 0xF4 b then Some 3
  else None.

(** Which second byte may follow [b]: no overlong forms, surrogates or values past the last. *)
Definition utf8_second (b : N) : N → bool :=
  if (b =? 0xE0)%N then between 0xA0 0xBF
  else if (b =? 0xED)%N then between 0x80 0x9F
  else if (b =? 0xF0)%N then between 0x90 0xBF
  else if (b =? 0xF4)%N then between 0x80 0x8F
  else continuation.

Fixpoint passing (ps : list (N → bool)) (bs : list N) : nat :=
  match ps, bs with
  | p :: ps', c :: bs' => if p c then S (passing ps' bs') else 0
  | _, _ => 0
  end.

(** Whether [b] starts a sequence in [b :: bs], and how many bytes of [bs] belong to it. *)
Definition utf8_head (b : N) (bs : list N) : bool * nat :=
  match utf8_tail b with
  | Some n =>
      let k := passing (take n [utf8_second b; continuation; continuation]) bs in
      (bool_decide (k = n), k)
  | None => (false, 0)
  end.

Definition replacement : list N := [0xEF; 0xBF; 0xBD]%N.

(** [keep] bytes of the sequence are still to be copied, or [skip] still to be left out. *)
Fixpoint lossy_go (keep skip : nat) (bs : list N) : list N :=
  match bs with
  | [] => []
  | b :: bs' =>
      match keep, skip with
      | S k, _ => b :: lossy_go k skip bs'
      | 0, S d => lossy_go 0 d bs'
      | 0, 0 =>
          let '(valid, k) := utf8_head b bs' in
          if valid then b :: lossy_go k 0 bs' else replacement ++ lossy_go 0 k bs'
      end
  end.
Definition from_utf8_lossy (bs : list N) : list N := lossy_go 0 0 bs.

Fixpoint utf8_go (keep : nat) (bs : list N) : bool :=
  match bs, keep with
  | [], _ => bool_decide (keep = 0)
  | _ :: bs', S k => utf8_go k bs'
  | b :: bs', 0 => let '(valid, k) := utf8_head b bs' in valid && utf8_go k bs'
  end.
Definition is_utf8 (bs : list N) : bool := utf8_go 0 bs.

Definition string_of_bytes (bs : list N) : string := String.string_of_list_ascii (map ascii_of_N bs).

(** ** The encodings of other crates *)

Section codecs.
Context `{Ext}.

(** [strict_encoding::Error] *)
Inductive CodingError :=
  | DataIntegrityError (why : string)
  | EnumValueNotKnown (name : string) (value : N)
  | DataNotEntirelyConsumed
  | CodingOther (e : Opaque).

(** [StrictEncode] and [StrictDecode] of a type; what follows the value stays to be read. *)
Record Codec (A : Type) := {
  strict_enc : A → CodingError + list N;
  strict_dec : list N → CodingError + (A * list N) }.
#[local] Arguments strict_enc {A}.
#[local] Arguments strict_dec {A}.

Class WireLib := {
  byte_codec : Codec N;
  node_codec : Codec NodeId;
  channel_codec : Codec ChannelId;
  client_codec : Codec ClientId;
  app_codec : Codec BifrostApp;
  name_codec : Codec N;                              (* ServiceName *)
  text_codec : Codec string;
  amount_codec : Codec (option N);                   (* Option<u64> *)
  service_name_from_str : string → option N;
  invoice_to_string : Invoice → string;
  InvoiceErr : Type;
  invoice_from_str : string → InvoiceErr + Invoice;
  show_invoice_err : InvoiceErr → string }.

(** A value whose encoding is read back, whatever follows it. *)
Definition reads_back {A} (c : Codec A) (a : A) : Prop :=
  ∀ bs rest, strict_enc c a = inr bs → strict_dec c (bs ++ rest) = inr (a, rest).

(** Writing to and reading from memory. *)
Definition Writer : Type → Type := M (list N) CodingError.
Definition put {A} (c : Codec A) (a : A) : Writer nat := λ out,
  match strict_enc c a with
  | inr bs => (Ok (length bs), out ++ bs)
  | inl e => (Err e, out)
  end.
Definition take_field {A} (c : Codec A) : Writer A := λ bs,
  match strict_dec c bs with
  | inr (a, rest) => (Ok a, rest)
  | inl e => (Err e, bs)
  end.
End codecs.
Arguments strict_enc {_ A}.
Arguments strict_dec {_ A}.

(** ** Service ids *)

Section service_id.
Context `{WireLib}.

(** What the derived [StrictEncode] and [StrictDecode] do: the tag, then the field. *)
Definition encode_service_id (s : ServiceId) : Writer nat :=
  let! n := put byte_codec (service_tag s) in
  let! k := match s with
            | PeerBolt i | PeerBifrost i => put node_codec i
            | ChannelSvc c => put channel_codec c
            | Client c => put client_codec c
            | MsgApp a | ChannelApp a => put app_codec a
            | OtherSvc name => put name_codec name
            | _ => mreturn 0
            end in
  mreturn (n + k).

Definition decode_service_id : Writer ServiceId :=
  let! tag := take_field byte_codec in
  match tag with
  | 0 => mreturn Loopback
  | 0x20 => mreturn LnpBroker
  | 0x27 => mreturn Watch
  | 0x26 => mreturn Router
  | 0x21 => let! i := take_field node_codec in mreturn (PeerBolt i)
  | 0x22 => let! i := take_field node_codec in mreturn (PeerBifrost i)
  | 0x23 => let! c := take_field channel_codec in mreturn (ChannelSvc c)
  | 2 => let! c := take_field client_codec in mreturn (Client c)
  | 0x1F => mreturn Signer
  | 0x25 => let! a := take_field app_codec in mreturn (MsgApp a)
  | 0x24 => let! a := take_field app_codec in mreturn (ChannelApp a)
  | 0xFF => let! name := take_field name_codec in mreturn (OtherSvc name)
  | tag => mfail (EnumValueNotKnown "ServiceId" tag)
  end%N.

(** [strict_serialize] and [strict_deserialize] *)
Definition serialize {A} (encode : A → Writer nat) (a : A) : Res CodingError (list N) :=
  match encode a [] with
  | (Ok _, bs) => Ok bs
  | (Err e, _) => Err e
  | (Panic p, _) => Panic p
  end.
Definition deserialize {A} (decode : Writer A) (bs : list N) : Res CodingError A :=
  match decode bs with
  | (Ok a, []) => Ok a
  | (Ok _, _ :: _) => Err DataNotEntirelyConsumed
  | (Err e, _) => Err e
  | (Panic p, _) => Panic p
  end.

(** [From<ServiceId> for Vec<u8>] and [From<Vec<u8>> for ServiceId] *)
Definition bytes_of_service_id (s : ServiceId) : Res Empty_set (list N) :=
  match serialize encode_service_id s with
  | Ok bs => Ok bs
  | Err _ => Panic "Memory-based encoding does not fail"
  | Panic p => Panic p
  end.

Definition service_id_of_bytes (bs : list N) : Res Empty_set ServiceId :=
  match deserialize decode_service_id bs with
  | Ok s => Ok s
  | Err _ =>
      match service_name_from_str (string_of_bytes (from_utf8_lossy bs)) with
      | Some name => Ok (OtherSvc name)
      | None => Panic "ClientName conversion never fails"
      end
  | Panic p => Panic p
  end.
End service_id.

(** ** Requests to pay an invoice *)

Section pay_invoice.
Context `{WireLib}.

Definition encode_pay_invoice (p : PayInvoice) : Writer nat :=
  let! a := put channel_codec (pay_channel_id p) in
  let! b := put text_codec (invoice_to_string (pay_invoice p)) in
  let! c := put amount_codec (pay_amount_msat p) in
  mreturn (a + b + c).

Definition decode_pay_invoice : Writer PayInvoice :=
  let! channel := take_field channel_codec in
  let! text := take_field text_codec in
  let! invoice := match invoice_from_str text with
                  | inr i => mreturn i
                  | inl err => mfail (DataIntegrityError
                      ("invalid bech32 lightning invoice: " +:+ show_invoice_err err))
                  end in
  let! amount := take_field amount_codec in
  mreturn {| pay_channel_id := channel; pay_invoice := invoice; pay_amount_msat := amount |}.
End pay_invoice.

(** ** Properties of the text of bytes *)

Lemma passing_le ps bs : passing ps bs ≤ length ps.
Proof.
  revert bs. induction ps as [|p ps IH]; intros [|c bs]; simpl; try lia.
  destruct (p c); [specialize (IH bs)|]; lia.
Qed.

Lemma passing_bytes ps bs : passing ps bs ≤ length bs.
Proof.
  revert bs. induction ps as [|p ps IH]; intros [|c bs]; simpl; try lia.
  destruct (p c); [specialize (IH bs)|]; lia.
Qed.

(** Only the bytes that pass matter. *)
Lemma passing_take ps bs rest : passing ps bs = length ps →
  passing ps (take (length ps) bs ++ rest) = length ps.
Proof.
  revert bs. induction ps as [|p ps IH]; intros [|c bs]; simpl; try done.
  destruct (p c); [|done]. intros [= ?]. by rewrite IH.
Qed.

Lemma utf8_head_take b bs k rest : utf8_head b bs = (true, k) →
  k ≤ length bs ∧ utf8_head b (take k bs ++ rest) = (true, k).
Proof.
  unfold utf8_head. destruct (utf8_tail b) as [n|] eqn:En; [|done].
  set (ps := take n _). intros [= Hn <-]. apply bool_decide_eq_true in Hn.
  assert (length ps = n) as Hl.
  { unfold ps. rewrite length_take. unfold utf8_tail in En. simpl.
    repeat case_match; simplify_eq; lia. }
  split; [apply passing_bytes|]. rewrite Hn, <-Hl, passing_take by (by rewrite Hl).
  by rewrite bool_decide_true.
Qed.

Lemma lossy_keep k bs : k ≤ length bs → lossy_go k 0 bs = take k bs ++ lossy_go 0 0 (drop k bs).
Proof.
  revert bs. induction k as [|k IH]; intros [|b bs] Hk; try done; simpl in *; try lia.
  by rewrite IH by lia.
Qed.
Lemma lossy_skip k bs : lossy_go 0 k bs = lossy_go 0 0 (drop k bs).
Proof. revert bs. induction k as [|k IH]; intros [|b bs]; [done..|]. apply (IH bs). Qed.
Lemma utf8_keep k bs rest : k = length bs → utf8_go k (bs ++ rest) = utf8_go 0 rest.
Proof. revert k. induction bs; intros [|k] [=]; [done|]. simpl. by apply IHbs. Qed.

(** The result is text, as a Rust string has to be, and text is left as it is. *)
Lemma lossy_is_utf8 bs : is_utf8 (from_utf8_lossy bs) = true.
Proof.
  unfold is_utf8, from_utf8_lossy. remember (length bs) as n eqn:Hn.
  assert (length bs ≤ n) as Hle by lia. clear Hn. revert bs Hle.
  induction n as [|n IH]; intros [|b bs] Hle; simpl in *; try done; [lia|].
  destruct (utf8_head b bs) as [[] k] eqn:Eh.
  - apply (utf8_head_take _ _ _ (lossy_go 0 0 (drop k bs))) in Eh as [Hk Eh].
    rewrite lossy_keep by done. simpl. rewrite Eh. simpl.
    rewrite utf8_keep by (by rewrite length_take_le). apply IH. rewrite length_drop. lia.
  - simpl. rewrite lossy_skip. apply IH. rewrite length_drop. lia.
Qed.

Lemma lossy_of_utf8 bs : is_utf8 bs = true → from_utf8_lossy bs = bs.
Proof.
  unfold is_utf8, from_utf8_lossy. generalize 0 at 1 2. induction bs as [|b bs IH]; intros [|k]; simpl; try done.
  - destruct (utf8_head b bs) as [[] j]; [|done]. simpl. intros. by rewrite IH.
  - intros. by rewrite IH.
Qed.

(** ** Properties of the encodings *)

Section reading.
Context `{WireLib}.

Lemma put_inv {A} (c : Codec A) a out n out' : put c a out = (Ok n, out') →
  ∃ bs, strict_enc c a = inr bs ∧ n = length bs ∧ out' = out ++ bs.
Proof. unfold put. destruct (strict_enc c a) as [e|bs]; [done|]. intros [= <- <-]. eauto. Qed.

Lemma take_field_read {A} (c : Codec A) a bs rest :
  reads_back c a → strict_enc c a = inr bs → take_field c (bs ++ rest) = (Ok a, rest).
Proof. intros Hc He. unfold take_field. by rewrite (Hc bs rest He). Qed.

(** The fields of an address, and of a request, are read back. *)
Definition service_reads_back (s : ServiceId) : Prop :=
  reads_back byte_codec (service_tag s) ∧
  match s with
  | PeerBolt i | PeerBifrost i => reads_back node_codec i
  | ChannelSvc c => reads_back channel_codec c
  | Client c => reads_back client_codec c
  | MsgApp a | ChannelApp a => reads_back app_codec a
  | OtherSvc name => reads_back name_codec name
  | _ => True
  end.

Definition pay_reads_back (p : PayInvoice) : Prop :=
  reads_back channel_codec (pay_channel_id p) ∧
  reads_back text_codec (invoice_to_string (pay_invoice p)) ∧
  reads_back amount_codec (pay_amount_msat p) ∧
  invoice_from_str (invoice_to_string (pay_invoice p)) = inr (pay_invoice p).

Lemma put_read {A} (c : Codec A) a out n out' : put c a out = (Ok n, out') → reads_back c a →
  ∃ bs, n = length bs ∧ out' = out ++ bs ∧ ∀ rest, take_field c (bs ++ rest) = (Ok a, rest).
Proof.
  intros (bs & He & -> & ->)%put_inv Hc. exists bs. split_and!; [done..|].
  intros rest. by apply take_field_read.
Qed.

Lemma service_id_decodes s n bs rest :
  service_reads_back s → encode_service_id s [] = (Ok n, bs) →
  n = length bs ∧ decode_service_id (bs ++ rest) = (Ok s, rest).
Proof.
  intros [Htag Hs] E. unfold encode_service_id in E. run_inv E.
  unfold decode_service_id, bind.
  destruct s; run_inv Hrun0.
  all: destruct (put_read _ _ _ _ _ Hrun Htag) as (tag & -> & -> & Ht).
  all: try (simpl; by rewrite Ht, Nat.add_0_r).
  all: destruct (put_read _ _ _ _ _ Hrun0 Hs) as (fld & -> & -> & Hf); simpl;
    rewrite length_app, <-app_assoc, Ht; simpl; by rewrite Hf.
Qed.
End reading.

Section theorems.
Context `{WireLib}.

(** C39. The bytes that name a service on the buses are read back as this service. Bytes
    that name none are read as another, unknown, service, and its own bytes are not the
    ones received: what answers it goes elsewhere. *)
Theorem service_id_reads_back :
  (∀ s bs, service_reads_back s → bytes_of_service_id s = Ok bs → service_id_of_bytes bs = Ok s) ∧
  (∀ s bs, service_reads_back s → service_id_of_bytes bs = Ok s →
     deserialize decode_service_id bs = Ok s ∨
     (∃ name, s = OtherSvc name) ∧ bytes_of_service_id s ≠ Ok bs).
Proof.
  assert (∀ s bs, service_reads_back s → bytes_of_service_id s = Ok bs →
    deserialize decode_service_id bs = Ok s) as Hread.
  { intros s bs Hs. unfold bytes_of_service_id, serialize, deserialize.
    destruct (encode_service_id s []) as [[n| |] out] eqn:E; try done. intros [= <-].
    destruct (service_id_decodes s n out [] Hs E) as [_ Hd]. rewrite app_nil_r in Hd. by rewrite Hd. }
  split; intros s bs Hs Hb; unfold service_id_of_bytes in *; [by rewrite (Hread s bs Hs Hb)|].
  destruct (deserialize decode_service_id bs) as [s'|e|p] eqn:Ed; [left|right|done]; [congruence|].
  destruct (service_name_from_str _) as [name|]; [|done]. injection Hb as <-.
  split; [by eexists|]. intros Hb. by rewrite (Hread _ _ Hs Hb) in Ed.
Qed.

(** C40. A request to pay an invoice is read back from what is written for it, and what
    follows it stays to be read; the length reported is the number of bytes written. A
    request whose text is no invoice is refused with the parser's reason. *)
Theorem pay_invoice_reads_back :
  (∀ p out n out', pay_reads_back p → encode_pay_invoice p out = (Ok n, out') →
     ∃ bs, n = length bs ∧ out' = out ++ bs ∧
       ∀ rest, decode_pay_invoice (bs ++ rest) = (Ok p, rest)) ∧
  (∀ bs c r1 text r2 err, take_field channel_codec bs = (Ok c, r1) →
     take_field text_codec r1 = (Ok text, r2) → invoice_from_str text = inl err →
     decode_pay_invoice bs = (Err (DataIntegrityError
       ("invalid bech32 lightning invoice: " +:+ show_invoice_err err)), r2)).
Proof.
  split.
  - intros p out n out' (Hc & Ht & Ha & Hi) E. unfold encode_pay_invoice in E. run_inv E.
    destruct (put_read _ _ _ _ _ Hrun Hc) as (b1 & -> & -> & E1).
    destruct (put_read _ _ _ _ _ Hrun0 Ht) as (b2 & -> & -> & E2).
    destruct (put_read _ _ _ _ _ Hrun1 Ha) as (b3 & -> & -> & E3).
    exists (b1 ++ b2 ++ b3). rewrite !length_app, !app_assoc. split_and!; [lia|done|].
    intros rest. unfold decode_pay_invoice, bind.
    rewrite <-!app_assoc, E1, E2, Hi. simpl. rewrite E3. by destruct p.
  - intros bs c r1 text r2 err E1 E2 E3. unfold decode_pay_invoice, bind. by rewrite E1, E2, E3.
Qed.
End theorems.
