(* ===== verification/Peerd.v ===== *)
(** * The peer connection daemon ([src/peerd/runtime.rs])

    peerd runs two threads: the listener, which reads the remote peer's messages
    and puts them on a bridge, and the runtime, which writes to the peer and
    passes what comes over the bridge to the daemons. *)

From S2P Require Import Prelude.
From S2P Require Import Bus.
From S2P Require Import Service.
From S2P Require Import Files.
From S2P Require Import ChannelRuntime.

Local Open Scope rust_scope.

(** Whether [warn!] evaluates its arguments. *)
Class LogLevel := warn_enabled : bool.

Section data.
Context `{Ext}.

Record PeerRuntime := {
  p_protocol : Protocol;
  p_identity : ServiceId;
  p_local_id : NodeId;
  p_remote_id : option NodeId;
  p_local_socket : option InetSocketAddr;
  p_remote_socket : InetSocketAddr;
  p_connect : bool;
  p_channels : gset ActiveChannelId;
  p_started : N;
  p_messages_sent : N;
  p_messages_received : N;
  p_awaited_pong : option N }.

Definition set_connect (b : bool) (r : PeerRuntime) : PeerRuntime := {|
  p_protocol := p_protocol r; p_identity := p_identity r; p_local_id := p_local_id r;
  p_remote_id := p_remote_id r; p_local_socket := p_local_socket r;
  p_remote_socket := p_remote_socket r; p_connect := b; p_channels := p_channels r;
  p_started := p_started r; p_messages_sent := p_messages_sent r;
  p_messages_received := p_messages_received r; p_awaited_pong := p_awaited_pong r |}.
Definition set_peer_channels (c : gset ActiveChannelId) (r : PeerRuntime) : PeerRuntime := {|
  p_protocol := p_protocol r; p_identity := p_identity r; p_local_id := p_local_id r;
  p_remote_id := p_remote_id r; p_local_socket := p_local_socket r;
  p_remote_socket := p_remote_socket r; p_connect := p_connect r; p_channels := c;
  p_started := p_started r; p_messages_sent := p_messages_sent r;
  p_messages_received := p_messages_received r; p_awaited_pong := p_awaited_pong r |}.
Definition set_counters (sent received : N) (r : PeerRuntime) : PeerRuntime := {|
  p_protocol := p_protocol r; p_identity := p_identity r; p_local_id := p_local_id r;
  p_remote_id := p_remote_id r; p_local_socket := p_local_socket r;
  p_remote_socket := p_remote_socket r; p_connect := p_connect r; p_channels := p_channels r;
  p_started := p_started r; p_messages_sent := sent;
  p_messages_received := received; p_awaited_pong := p_awaited_pong r |}.
Definition set_awaited_pong (n : option N) (r : PeerRuntime) : PeerRuntime := {|
  p_protocol := p_protocol r; p_identity := p_identity r; p_local_id := p_local_id r;
  p_remote_id := p_remote_id r; p_local_socket := p_local_socket r;
  p_remote_socket := p_remote_socket r; p_connect := p_connect r; p_channels := p_channels r;
  p_started := p_started r; p_messages_sent := p_messages_sent r;
  p_messages_received := p_messages_received r; p_awaited_pong := n |}.

#[export] Instance peerd_handler : Handler PeerRuntime := {|
  identity := p_identity;
  enquirer := λ _, None |}.

(** The identity of peerd: the remote peer's, or its own where that is not known. *)
Definition peerd_identity (protocol : Protocol) (local_id : NodeId) (remote_id : option NodeId)
    : ServiceId :=
  let id := default local_id remote_id in
  match protocol with Bolt => PeerBolt id | Bifrost => PeerBifrost id end.

(** The runtime that [run] builds for a connection. *)
Definition peerd_start (protocol : Protocol) (local_id : NodeId) (remote_id : option NodeId)
    (local_socket : option InetSocketAddr) (remote_socket : InetSocketAddr) (connect : bool)
    (started : N) : PeerRuntime := {|
  p_protocol := protocol;
  p_identity := peerd_identity protocol local_id remote_id;
  p_local_id := local_id;
  p_remote_id := remote_id;
  p_local_socket := local_socket;
  p_remote_socket := remote_socket;
  p_connect := connect;
  p_channels := ∅;
  p_started := started;
  p_messages_sent := 0;
  p_messages_received := 0;
  p_awaited_pong := None |}.
End data.

Section peerd.
Context `{Sys, !Fmt, !LnpCore, !Build, !LogLevel}.

Definition PW (E A : Type) : Type := W PeerRuntime E A.

(** [self.sender.send_message(m)] *)
Definition send_message (m : LnMsg + BfMsg) : PW PresentationError unit :=
  perform (λ h, peer_reply h m) (OpPeerSend m).

(** [self.messages_sent += 1] and [self.messages_received += 1]; a [usize]. *)
Definition count_sent {E} : PW E unit :=
  let! r := self (λ r, r) in
  let! n := u64 (p_messages_sent r + 1) in
  update (set_counters n (p_messages_received r)).
Definition count_received {E} : PW E unit :=
  let! r := self (λ r, r) in
  let! n := u64 (p_messages_received r + 1) in
  update (set_counters (p_messages_sent r) n).

Definition update_channels {E} (f : gset ActiveChannelId → gset ActiveChannelId) : PW E unit :=
  let! c := self p_channels in
  update (set_peer_channels (f c)).

(** The id under which a channel is known once its funding is created. *)
Definition funded_id (f : FundingCreated) : ActiveChannelId :=
  ActStatic (channel_id_with (fc_funding_txid f) (fc_funding_output_index f)).
Definition rename_funded {E} (f : FundingCreated) : PW E unit :=
  update_channels (λ c, {[funded_id f]} ∪ (c ∖ {[ActTemporary (fc_temporary_channel_id f)]})).

Definition peerd_on_ready : PW Error unit :=
  let! connect := self p_connect in
  if connect : bool then
    let! protocol := self p_protocol in
    do? (match protocol with
         | Bolt => send_message (inl (LnInit None))
         | Bifrost => send_message (inr (BfInit None))
         end) in
    update (set_connect false)
  else mreturn tt.

(** ** Messages of the daemons to the peer *)

Definition handle_bolt (_ : ServiceId) (message : LnMsg) : PW Error unit :=
  do! count_sent in
  do? send_message (inl message) in
  match message with
  | LnOpenChannel m => update_channels (λ c, {[ActTemporary (oc_temporary_channel_id m)]} ∪ c)
  | LnAcceptChannel m => update_channels (λ c, {[ActTemporary (ac_temporary_channel_id m)]} ∪ c)
  | LnFundingCreated f => rename_funded f
  | LnFundingSigned _ => mreturn tt
  | LnChannelReestablish m => update_channels (λ c, {[ActStatic (cm_channel_id m)]} ∪ c)
  | _ => mreturn tt
  end.

Definition handle_bifrost (_ : ServiceId) (message : BfMsg) : PW Error unit :=
  do! count_sent in
  do? send_message (inr message) in
  mreturn tt.

Definition peerd_handle_ctl (_ : ServiceId) (request : CtlMsg) : PW Error unit :=
  mfail (wrong_esb_msg BusIdCtl (BusCtl request)).

(** ** Pings *)

Definition noise (h : History) (len : N) : list N := random_byte h <$> seq 0 (N.to_nat len).

Definition ping : PW Error unit :=
  let! r := self (λ r, r) in
  do! (if bool_decide (is_Some (p_awaited_pong r)) && warn_enabled
       then do! expect "peer id is known at this stage" (p_remote_id r) in mreturn tt
       else mreturn tt) in
  let! w := get in
  let len := random_size (hist w) 0 in
  let pong_size := random_size (hist w) 1 in
  let p := {| ignored := noise (hist w) len; pong_size := pong_size |} in
  do! count_sent in
  do? (match p_protocol r with
       | Bolt => send_message (inl (LnPing p))
       | Bifrost => send_message (inr (BfPing p))
       end) in
  update (set_awaited_pong (Some pong_size)).

Definition pong (pong_size : N) : PW Error unit :=
  let! w := get in
  let noise := noise (hist w) pong_size in
  do! count_sent in
  do? (match p_protocol (rt w) with
       | Bolt => send_message (inl (LnPong noise))
       | Bifrost => send_message (inr (BfPong noise))
       end) in
  mreturn tt.

(** The size of the reply only matters for the log. *)
Definition on_pong {E} (_ : list N) : PW E unit := update (set_awaited_pong None).

(** ** Messages of the peer *)

Definition to_daemon (dest : ServiceId) (msg : BusMsg) : PW Error unit :=
  let! id := self identity in
  do? send_to BusIdMsg id dest msg in
  mreturn tt.

Definition handle_bridge_bolt (msg : LnMsg) : PW Error unit :=
  do! count_received in
  match msg with
  | LnPing p => pong (pong_size p)
  | LnPong noise => on_pong noise
  | LnChannelReestablish _ | LnOpenChannel _ => to_daemon LnpBroker (BusBolt msg)
  | LnAcceptChannel m => to_daemon (service_of_temp (ac_temporary_channel_id m)) (BusBolt msg)
  | LnFundingCreated f =>
      do! to_daemon (service_of_temp (fc_temporary_channel_id f)) (BusBolt msg) in
      rename_funded f
  | LnFundingSigned m => to_daemon (ChannelSvc (fs_channel_id m)) (BusBolt msg)
  | LnFundingLocked m | LnUpdateAddHtlc m | LnUpdateFulfillHtlc m | LnUpdateFailHtlc m
  | LnUpdateFailMalformedHtlc m => to_daemon (ChannelSvc (cm_channel_id m)) (BusBolt msg)
  | _ => mreturn tt
  end.

Definition handle_bridge_bifrost (msg : BfMsg) : PW Error unit :=
  do! count_received in
  match msg with
  | BfPing p => pong (pong_size p)
  | BfPong blob => on_pong blob
  | BfMessage app _ => to_daemon (MsgApp app) (BusBifrost msg)
  | _ => mreturn tt
  end.

Definition peerd_handle_bridge (request : BusMsg) : PW Error unit :=
  match request with
  | BusCtl CtlPingPeer => ping
  | BusBolt msg => handle_bridge_bolt msg
  | BusBifrost msg => handle_bridge_bifrost msg
  | wrong_msg => mfail (wrong_esb_msg BusIdBridge wrong_msg)
  end.

(** ** Clients *)

Definition peer_info (r : PeerRuntime) (now : N) : PeerInfo := {|
  pi_local_id := p_local_id r;
  pi_remote_id := option_list (p_remote_id r);
  pi_local_socket := p_local_socket r;
  pi_remote_socket := [p_remote_socket r];
  pi_uptime := now - p_started r;
  pi_since := p_started r;
  pi_messages_sent := p_messages_sent r;
  pi_messages_received := p_messages_received r;
  pi_channels := set_map as_slice32 (p_channels r);
  pi_connected := negb (p_connect r);
  pi_awaits_pong := bool_decide (is_Some (p_awaited_pong r)) |}.

Definition peerd_handle_rpc (client_id : ClientId) (message : RpcMsg) : PW Error unit :=
  match message with
  | RpcGetInfo =>
      let! t := now in
      let! info := self (λ r, peer_info r t) in
      do? send_rpc client_id (RpcPeerInfo info) in
      mreturn tt
  | wrong_msg => mfail (wrong_esb_msg BusIdRpc (BusRpc wrong_msg))
  end.

Definition peerd_handle (bus : ServiceBus) (source : ServiceId) (message : BusMsg)
    : PW Error unit :=
  match bus, message, source with
  | BusIdMsg, BusBolt msg, source => handle_bolt source msg
  | BusIdMsg, BusBifrost msg, source => handle_bifrost source msg
  | BusIdCtl, BusCtl msg, source => peerd_handle_ctl source msg
  | BusIdBridge, msg, _ => peerd_handle_bridge msg
  | BusIdRpc, BusRpc msg, Client client_id => peerd_handle_rpc client_id msg
  | BusIdRpc, BusRpc _, service =>
      mpanic ("internal error: entered unreachable code: lnpd received RPC message not from a client but from "
                +:+ show_service_id service)
  | bus, msg, _ => mfail (wrong_esb_msg bus msg)
  end.
Definition peerd_handle_err (_ : EsbError) : PW Error unit := mreturn tt.

(** ** The listener *)

(** The listener's state is its identity. *)
Definition peer_send_over_bridge (req : BusMsg) : W ServiceId Error unit :=
  let! id := self (λ id, id) in
  do? send_to BusIdBridge Loopback id req in
  mreturn tt.

Definition listener_handle (message : LnMsg + BfMsg) : W ServiceId Error unit :=
  peer_send_over_bridge (match message with inl m => BusBolt m | inr m => BusBifrost m end).

Definition listener_handle_err (err : Error) : W ServiceId Error unit :=
  match err with
  | EPeer PresTransportTimedOut => peer_send_over_bridge (BusCtl CtlPingPeer)
  | _ => mfail err
  end.
End peerd.
