(* ===== verification/PeerdCorrect.v ===== *)
(** * Properties of the peer connection daemon *)

From Stdlib Require Import ZArith.
From S2P Require Import Prelude.
From S2P Require Import Bus.
From S2P Require Import Service.
From S2P Require Import Files.
From S2P Require Import ChannelRuntime.
From S2P Require Import Peerd.

Local Open Scope rust_scope.

(** Messages written to the remote peer, whether it worked or not. *)
Definition peer_sends `{Ext} (h : History) : list (LnMsg + BfMsg) :=
  omap (λ x : Op * bool, match x.1 with OpPeerSend m => Some m | _ => None end) h.

Lemma peer_sends_app `{Ext} (h1 h2 : History) :
  peer_sends (h1 ++ h2) = peer_sends h1 ++ peer_sends h2.
Proof. apply omap_app. Qed.

(** ** Where the messages of the peer go *)

Section routes.
Context `{Ext}.

(** The service that the code hands a message of the peer to.  For messages of the other
    kinds, pings and pongs apart, its handlers have a TODO, to forward them to their
    daemon. *)
Definition route_bolt (m : LnMsg) : option ServiceId :=
  match m with
  | LnOpenChannel _ | LnChannelReestablish _ => Some LnpBroker
  | LnAcceptChannel m => Some (service_of_temp (ac_temporary_channel_id m))
  | LnFundingCreated m => Some (service_of_temp (fc_temporary_channel_id m))
  | LnFundingSigned m => Some (ChannelSvc (fs_channel_id m))
  | LnFundingLocked m | LnUpdateAddHtlc m | LnUpdateFulfillHtlc m | LnUpdateFailHtlc m
  | LnUpdateFailMalformedHtlc m => Some (ChannelSvc (cm_channel_id m))
  | LnInit _ | LnPing _ | LnPong _ | LnOther _ => None
  end.
Definition route_bifrost (m : BfMsg) : option ServiceId :=
  match m with BfMessage app _ => Some (MsgApp app) | _ => None end.
Definition route (m : LnMsg + BfMsg) : option ServiceId :=
  match m with inl m => route_bolt m | inr m => route_bifrost m end.

Definition bus_msg (m : LnMsg + BfMsg) : BusMsg :=
  match m with inl m => BusBolt m | inr m => BusBifrost m end.

(** The pong a message asks for, by its size. *)
Definition asks_pong (m : LnMsg + BfMsg) : option N :=
  match m with inl (LnPing p) | inr (BfPing p) => Some (pong_size p) | _ => None end.
Definition is_pong (size : N) (m : LnMsg + BfMsg) : Prop :=
  match m with
  | inl (LnPong noise) | inr (BfPong noise) => N.of_nat (length noise) = size
  | _ => False
  end.
End routes.

Section peerd.
Context `{Sys, !Fmt, !LnpCore, !Build, !LogLevel}.

Lemma count_run (c : World PeerRuntime → N) (f : N → PeerRuntime → PeerRuntime) {E} w :
  (c w < u64_max)%N →
  (let! n := u64 (c w + 1) in update (f n)) w
    = (Ok tt : Res E unit, with_rt (f (c w + 1)%N) w).
Proof. intros Hc. unfold bind, u64. by rewrite decide_True by lia. Qed.

Lemma count_sent_run {E} w :
  (p_messages_sent (rt w) < u64_max)%N →
  count_sent (E:=E) w = (Ok tt, with_rt
    (set_counters (p_messages_sent (rt w) + 1) (p_messages_received (rt w))) w).
Proof.
  intros Hc. unfold count_sent, self. rewrite bind_gets.
  exact (count_run (λ w, p_messages_sent (rt w))
    (λ n, set_counters n (p_messages_received (rt w))) w Hc).
Qed.
Lemma count_received_run {E} w :
  (p_messages_received (rt w) < u64_max)%N →
  count_received (E:=E) w = (Ok tt, with_rt
    (set_counters (p_messages_sent (rt w)) (p_messages_received (rt w) + 1)) w).
Proof.
  intros Hc. unfold count_received, self. rewrite bind_gets.
  exact (count_run (λ w, p_messages_received (rt w))
    (λ n, set_counters (p_messages_sent (rt w)) n) w Hc).
Qed.

Lemma noise_length h n : N.of_nat (length (noise h n)) = n.
Proof. unfold noise. rewrite length_fmap, length_seq. lia. Qed.

(** What a call adds to what was sent to daemons and to the peer. *)
Definition emits {E A} (m : PW E A) (w : World PeerRuntime) (l : list Envelope)
    (P : list (LnMsg + BfMsg) → Prop) : Prop :=
  ∃ r w', m w = (r, w') ∧ attempted (hist w') = attempted (hist w) ++ l ∧
  ∃ k, peer_sends (hist w') = peer_sends (hist w) ++ k ∧ P k.

Lemma emits_nothing {E A} (m : PW E A) w :
  hist (m w).2 = hist w → emits m w [] (λ k, k = []).
Proof.
  intros Eh. exists (m w).1, (m w).2. split; [by destruct (m w)|]. rewrite Eh, app_nil_r.
  split; [done|]. exists []. by rewrite app_nil_r.
Qed.

Lemma update_channels_run {E} f w :
  update_channels (E:=E) f w = (Ok tt, with_rt (set_peer_channels (f (p_channels (rt w)))) w).
Proof. done. Qed.

Lemma to_daemon_emits dest msg w :
  emits (to_daemon dest msg) w [{|
    env_bus := BusIdMsg; env_src := p_identity (rt w); env_dest := dest; env_msg := msg |}]
    (λ k, k = []).
Proof.
  unfold emits, to_daemon, self. rewrite bind_gets. unfold send_to, perform, bind, q. simpl.
  destruct (esb_reply _ _); simpl; (eexists _, _; split; [done|]); simpl;
    rewrite attempted_app, peer_sends_app; (split; [done|by exists []]).
Qed.

Lemma rename_after_emits f dest msg w :
  emits (do! to_daemon dest msg in rename_funded f) w [{|
    env_bus := BusIdMsg; env_src := p_identity (rt w); env_dest := dest; env_msg := msg |}]
    (λ k, k = []).
Proof.
  destruct (to_daemon_emits dest msg w) as (r & w' & E & He). unfold emits, bind. rewrite E.
  destruct r; by eexists _, _.
Qed.

Lemma pong_emits n w :
  (p_messages_sent (rt w) < u64_max)%N →
  emits (pong n) w [] (λ k, ∃ m, k = [m] ∧ is_pong n m).
Proof.
  intros Hc. unfold emits, pong. unfold bind at 1, get.
  rewrite (bind_ok _ _ _ _ _ (count_sent_run w Hc)).
  unfold send_message, perform, bind, q.
  destruct (p_protocol (rt w)); simpl; destruct (peer_reply _ _); simpl;
    (eexists _, _; split; [done|]); simpl; rewrite attempted_app, peer_sends_app;
    (split; [done|]); (eexists; split; [done|]); (eexists; split; [done|]);
    simpl; apply noise_length.
Qed.

(** C17. Every message of the remote peer for which the code has a destination (lnpd,
    the channel daemon of the message's temporary or permanent channel id, or the
    Bifrost application) is handed over to it, unchanged and once. The other messages,
    pings and pongs apart, are those that a TODO of the handlers wants to be forwarded
    to their daemon: they are dropped. And the peer gets a reply only to a ping: one
    pong of the size asked for. *)
Theorem peer_messages_reach_their_daemon src m w :
  (p_messages_received (rt w) < u64_max)%N → (p_messages_sent (rt w) < u64_max)%N →
  emits (peerd_handle BusIdBridge src (bus_msg m)) w
    (match route m with
     | Some dest => [{| env_bus := BusIdMsg; env_src := p_identity (rt w);
                        env_dest := dest; env_msg := bus_msg m |}]
     | None => []
     end)
    (λ k, match asks_pong m with
          | Some size => ∃ reply, k = [reply] ∧ is_pong size reply
          | None => k = []
          end).
Proof.
  intros Hr Hs.
  destruct m as [m|m]; unfold emits; simpl;
    [unfold handle_bridge_bolt|unfold handle_bridge_bifrost];
    rewrite (bind_ok _ _ _ _ _ (count_received_run w Hr)); set (w1 := with_rt _ w);
    destruct m; simpl;
    first [exact (to_daemon_emits _ _ w1) | exact (rename_after_emits _ _ _ w1)
          | exact (pong_emits _ w1 Hs) | by apply (emits_nothing (mreturn (E:=Error) tt) w1)
          | by apply (emits_nothing (on_pong (E:=Error) []) w1)].
Qed.

(** ** Channels *)

(** The registry of channels after the funding of a channel has been created by
    this node or by the remote one. *)
Theorem funding_renames_channel src f w w' :
  (peerd_handle BusIdMsg src (BusBolt (LnFundingCreated f)) w = (Ok tt, w') ∨
   peerd_handle BusIdBridge src (BusBolt (LnFundingCreated f)) w = (Ok tt, w')) →
  p_channels (rt w') = {[funded_id f]} ∪
    (p_channels (rt w) ∖ {[ActTemporary (fc_temporary_channel_id f)]}).
Proof.
  assert (∀ E A (m : PW E A) a w1 w2, respects (same p_channels) m → m w1 = (Ok a, w2) →
    p_channels (rt w2) = p_channels (rt w1)) as Hsame.
  { intros E A m a w1 w2 Hm Em. specialize (Hm w1). rewrite Em in Hm. symmetry. apply Hm. }
  assert (∀ (R : relation (World PeerRuntime)) `{!PreOrder R} n,
    respects R (u64 (E:=Error) n)) as Hu.
  { intros R ? n s. unfold u64. case_decide; [done|]. by destruct debug_assertions. }
  intros [E|E]; simpl in E.
  - unfold handle_bolt in E. run_inv E.
    apply Hsame in Hrun; [|unfold count_sent; respects_auto].
    apply Hsame in Hrun0; [|unfold send_message; respects_auto].
    unfold rename_funded in E. rewrite update_channels_run in E. injection E as <-. simpl.
    by rewrite Hrun0, Hrun.
  - unfold handle_bridge_bolt in E. run_inv E.
    apply Hsame in Hrun; [|unfold count_received; respects_auto].
    apply Hsame in Hrun0; [|unfold to_daemon; respects_auto].
    unfold rename_funded in E. rewrite update_channels_run in E. injection E as <-. simpl.
    by rewrite Hrun0, Hrun.
Qed.
(** ** Panics *)

Definition overflow (p : string) : Prop :=
  debug_assertions = true ∧ p = "attempt to compute with overflow".

(** What makes peerd panic, with the state it is in when the message arrives. *)
Inductive peer_panic (r : PeerRuntime) : ServiceBus → ServiceId → BusMsg → string → Prop :=
  | pp_not_a_client src m : (∀ c, src ≠ Client c) →
      peer_panic r BusIdRpc src (BusRpc m)
        ("internal error: entered unreachable code: lnpd received RPC message not from a client but from "
           +:+ show_service_id src)
  | pp_no_remote_id src : warn_enabled = true → p_remote_id r = None →
      is_Some (p_awaited_pong r) →
      peer_panic r BusIdBridge src (BusCtl CtlPingPeer) "peer id is known at this stage"
  | pp_overflow bus src msg p : overflow p → peer_panic r bus src msg p.

Definition any_peer (r : PeerRuntime) : Prop := True.
#[local] Abbreviation steady := (upholds (on_rt any_peer) overflow).

Lemma u64_steady {E} n : steady (u64 (E:=E) n).
Proof.
  intros w _. unfold u64. case_decide; [by split|].
  unfold overflow. destruct debug_assertions eqn:Ed; (split; [done|]); [|done].
  intros ? [= <-]. by split.
Qed.
#[local] Hint Resolve u64_steady : upholds.
Lemma count_sent_steady {E} : steady (count_sent (E:=E)).
Proof. unfold count_sent. upholds_auto. Qed.
Lemma count_received_steady {E} : steady (count_received (E:=E)).
Proof. unfold count_received. upholds_auto. Qed.
Lemma send_message_steady m : steady (send_message m).
Proof. unfold send_message. upholds_auto. Qed.
#[local] Hint Resolve count_sent_steady count_received_steady send_message_steady : upholds.
Lemma rename_funded_steady {E} f : steady (rename_funded (E:=E) f).
Proof. unfold rename_funded, update_channels. upholds_auto. Qed.
Lemma to_daemon_steady d m : steady (to_daemon d m).
Proof. unfold to_daemon. upholds_auto. Qed.
Lemma pong_steady n : steady (pong n).
Proof. unfold pong. apply upholds_bind; [apply upholds_get|]. intros. upholds_auto. Qed.
#[local] Hint Resolve rename_funded_steady to_daemon_steady pong_steady : upholds.

Lemma ping_panic src w p w' :
  ping w = (Panic p, w') → peer_panic (rt w) BusIdBridge src (BusCtl CtlPingPeer) p.
Proof.
  unfold ping, self. rewrite bind_gets. intros E.
  destruct (bool_decide (is_Some (p_awaited_pong (rt w))) && warn_enabled) eqn:Ea.
  - destruct (p_remote_id (rt w)) as [n|] eqn:En.
    + match type of E with ?m w = _ => assert (steady m) as Hm end.
      { apply upholds_bind; [apply upholds_mreturn|intros].
        apply upholds_bind; [apply upholds_get|intros]. upholds_auto. }
      destruct (Hm w I) as [_ Hp]. rewrite E in Hp. apply pp_overflow. by apply Hp.
    + apply andb_prop in Ea as [Ha%bool_decide_eq_true Hw].
      injection E as <- _. by apply pp_no_remote_id.
  - match type of E with ?m w = _ => assert (steady m) as Hm end.
    { apply upholds_bind; [apply upholds_mreturn|intros].
      apply upholds_bind; [apply upholds_get|intros]. upholds_auto. }
    destruct (Hm w I) as [_ Hp]. rewrite E in Hp. apply pp_overflow. by apply Hp.
Qed.

(** C33. peerd panics only on RPC messages that are not from a client, on a second ping
    before the pong of a peer whose id is not known when warnings are logged, and, in
    debug builds, when a message counter overflows. *)
Theorem peerd_panics_only_for_listed_causes bus src msg w p w' :
  peerd_handle bus src msg w = (Panic p, w') → peer_panic (rt w) bus src msg p.
Proof.
  assert (∀ m : PW Error unit, steady m → m w = (Panic p, w') →
    peer_panic (rt w) bus src msg p) as Hm.
  { intros m Hm E. apply pp_overflow. destruct (Hm w I) as [_ Hp]. rewrite E in Hp. by apply Hp. }
  destruct bus, msg as [m|m|m|m]; try done.
  - destruct src; try (intros [= <- _]; by apply pp_not_a_client).
    apply Hm. simpl. unfold peerd_handle_rpc, now. upholds_auto.
  - apply Hm. simpl. unfold handle_bolt, update_channels. upholds_auto.
  - apply Hm. simpl. unfold handle_bifrost. upholds_auto.
  - apply Hm. simpl. unfold handle_bridge_bolt, on_pong. upholds_auto.
  - apply Hm. simpl. unfold handle_bridge_bifrost, on_pong. upholds_auto.
  - destruct m; try done. apply ping_panic.
Qed.

(** ** Waiting for a pong *)

Lemma guard_inv (b : bool) p (o : option NodeId) (w w' : World PeerRuntime) u :
  (if b then do! expect (E:=Error) p o in mreturn tt else mreturn tt) w = (Ok u, w') → w' = w.
Proof. destruct b, o; intros E; run_inv E; congruence. Qed.
Lemma count_sent_inv {E} (w w' : World PeerRuntime) u :
  count_sent (E:=E) w = (Ok u, w') →
  hist w' = hist w ∧ p_protocol (rt w') = p_protocol (rt w).
Proof.
  unfold count_sent, self. rewrite bind_gets. unfold bind, u64.
  case_decide; [by intros [= <- <-]|]. destruct debug_assertions; [done|by intros [= <- <-]].
Qed.
Lemma send_message_inv m (w w' : World PeerRuntime) u :
  send_message m w = (Ok u, w') →
  rt w' = rt w ∧ peer_sends (hist w') = peer_sends (hist w) ++ [m].
Proof.
  unfold send_message, perform. destruct (peer_reply _ _); [done|]. intros [= <- <-]. simpl.
  by rewrite peer_sends_app.
Qed.

Lemma pong_ends_wait src noise w :
  (p_messages_received (rt w) < u64_max)%N →
  p_awaited_pong (rt (peerd_handle BusIdBridge src (BusBolt (LnPong noise)) w).2) = None.
Proof.
  intros Hc. simpl. unfold handle_bridge_bolt.
  by rewrite (bind_ok _ _ _ _ _ (count_received_run w Hc)).
Qed.

Theorem pong_of_any_size_ends_wait src src' w w' noise :
  (∀ h i, 4 ≤ random_size h i ≤ 32)%N →
  peerd_handle BusIdBridge src (BusCtl CtlPingPeer) w = (Ok tt, w') →
  ∃ size, p_awaited_pong (rt w') = Some size ∧ (4 ≤ size ≤ 32)%N ∧
    (∃ p, peer_sends (hist w') = peer_sends (hist w) ++
       [match p_protocol (rt w) with Bolt => inl (LnPing p) | Bifrost => inr (BfPing p) end] ∧
       pong_size p = size ∧ (4 ≤ N.of_nat (length (ignored p)) ≤ 32)%N) ∧
    ((p_messages_received (rt w') < u64_max)%N →
     p_awaited_pong (rt (peerd_handle BusIdBridge src' (BusBolt (LnPong noise)) w').2) = None).
Proof.
  intros Hsize E. simpl in E. unfold ping, self in E. rewrite bind_gets in E. run_inv E.
  apply guard_inv in Hrun as ->. apply count_sent_inv in Hrun0 as (Eh & Ep).
  assert (∃ p, send_message (match p_protocol (rt w) with
      | Bolt => inl (LnPing p) | Bifrost => inr (BfPing p) end) x1 = (Ok x3, x4) ∧
    p = {| ignored := Peerd.noise (hist w) (random_size (hist w) 0);
           pong_size := random_size (hist w) 1 |}) as (p & Es & Hp).
  { destruct (p_protocol (rt w)); eauto. }
  apply send_message_inv in Es as (Er & Es). injection E as <-. simpl.
  exists (random_size (hist w) 1). split; [done|]. split; [apply Hsize|]. split.
  - exists p. rewrite Es, Eh. split; [done|]. rewrite Hp. simpl. rewrite noise_length.
    split; [done|apply Hsize].
  - intros Hc. by apply (pong_ends_wait src').
Qed.
End peerd.
