(* ===== verification/Routed.v ===== *)
(** * The routing daemon ([src/routed/runtime.rs])

    routed feeds the routing table of lnp-core with what channel daemons and
    peers tell, and computes the routes of payments. *)

From S2P Require Import Prelude.
From S2P Require Import Bus.
From S2P Require Import Service.

Local Open Scope rust_scope.

Section data.
Context `{Ext}.

(** [lnp::p2p::bolt::PaymentRequest] *)
Record PaymentRequest := {
  pr_amount_msat : N;
  pr_payment_hash : HashLock;
  pr_node_id : NodeId;
  pr_min_final_cltv_expiry : N }.

(** [lnp::router::gossip::UpdateMsg], as far as routed builds it. *)
Inductive UpdateMsg :=
  | DirectChannelAdd (i : LocalChannelInfo)
  | DirectChannelRemove (c : ChannelId)
  | DirectChannelUpdate (c : ChannelId) (local_amount_msat remote_amount_msat : N).

Record GossipErr := { gossip_err : Opaque }.
#[export] Instance from_gossip : From GossipErr Error := λ e, EGossipRouter (gossip_err e).
End data.

(** The router of lnp-core and the invoice library. *)
Class RouterLib `{Ext} := {
  LnRouter : Type;
  router_default : LnRouter;
  router_update_from_peer : LnRouter → LnMsg → LnRouter * (GossipErr + unit);
  router_update_from_local : LnRouter → UpdateMsg → LnRouter * (GossipErr + unit);
  router_compute_route : LnRouter → PaymentRequest → LnRouter * list Hop;
  payment_hash : Invoice → Slice32;
  payee_pub_key : Invoice → list N;                  (* recover_payee_pub_key().serialize() *)
  amount_milli_satoshis : Invoice → option N;
  min_final_cltv_expiry : Invoice → N;
  pubkey_from_slice : list N → option NodeId;        (* PublicKey::from_slice, NodeId::from *)
  hash_lock_from_inner : Slice32 → HashLock }.

Section routed.
Context `{Sys, !Fmt, !RouterLib}.

Record RouteRuntime := {
  rr_router : LnRouter;
  rr_enquirer : option ClientId }.

Definition set_router (x : LnRouter) (r : RouteRuntime) : RouteRuntime := {|
  rr_router := x; rr_enquirer := rr_enquirer r |}.
Definition set_rr_enquirer (c : option ClientId) (r : RouteRuntime) : RouteRuntime := {|
  rr_router := rr_router r; rr_enquirer := c |}.

(** [run] *)
Definition routed_start : RouteRuntime := {|
  rr_router := router_default; rr_enquirer := None |}.

#[export] Instance routed_handler : Handler RouteRuntime := {|
  identity := λ _, Router;
  enquirer := rr_enquirer |}.

Definition RW (E A : Type) : Type := W RouteRuntime E A.

(** A call on [self.router] *)
Definition on_router {E A} (f : LnRouter → LnRouter * (E + A)) : RW E A :=
  let! router := self rr_router in
  let '(router', res) := f router in
  do! update (set_router router') in
  of_sum res.

Definition routed_handle_p2p (_ : ServiceId) (message : LnMsg) : RW Error unit :=
  do? on_router (λ r, router_update_from_peer r message) in
  mreturn tt.

Definition invoice_hash_lock (invoice : Invoice) : HashLock :=
  hash_lock_from_inner (payment_hash invoice).

(** [min_final_cltv_expiry() as u32] truncates. *)
Definition compute_route (invoice : Invoice) (amount_msat : option N)
    : RW PaymentError (list Hop) :=
  let! pk := expect "Invoice library is broken" (pubkey_from_slice (payee_pub_key invoice)) in
  let! amount := ok_or AmountUnknown
    (match amount_msat with Some a => Some a | None => amount_milli_satoshis invoice end) in
  let payment := {|
    pr_amount_msat := amount;
    pr_payment_hash := invoice_hash_lock invoice;
    pr_node_id := pk;
    pr_min_final_cltv_expiry := (min_final_cltv_expiry invoice mod 2 ^ 32)%N |} in
  let! route := on_router (λ r, let '(r', route) := router_compute_route r payment in
                                (r', inr route)) in
  do! swallow (report_progress "Route computed") in
  mreturn route.

Definition routed_handle_rpc (client_id : ClientId) (message : RpcMsg) : RW Error unit :=
  match message with
  | RpcPayInvoice p =>
      do! update (set_rr_enquirer (Some client_id)) in
      let hash_lock := invoice_hash_lock (pay_invoice p) in
      let? route := compute_route (pay_invoice p) (pay_amount_msat p) in
      match route with
      | [] => mfail (from RouteNotFound)
      | _ =>
          do? send_ctl (ChannelSvc (pay_channel_id p)) (CtlPayment route hash_lock client_id) in
          mreturn tt
      end
  | wrong_msg => mfail (wrong_esb_msg BusIdRpc (BusRpc wrong_msg))
  end.

Definition routed_handle_ctl (source : ServiceId) (message : CtlMsg) : RW Error unit :=
  let local (m : UpdateMsg) : RW Error unit :=
    do? on_router (λ r, router_update_from_local r m) in mreturn tt in
  match message with
  | CtlHello => do? send_ctl source message in mreturn tt
  | CtlChannelCreated channel_info => local (DirectChannelAdd channel_info)
  | CtlChannelClosed channel_id => local (DirectChannelRemove channel_id)
  | CtlChannelBalanceUpdate channel_id local_amount_msat remote_amount_msat =>
      local (DirectChannelUpdate channel_id local_amount_msat remote_amount_msat)
  | wrong_msg => mfail (wrong_esb_msg BusIdCtl (BusCtl wrong_msg))
  end.

Definition routed_handle (bus : ServiceBus) (source : ServiceId) (message : BusMsg)
    : RW Error unit :=
  match bus, message, source with
  | BusIdMsg, BusBolt msg, source => routed_handle_p2p source msg
  | BusIdCtl, BusCtl msg, source => routed_handle_ctl source msg
  | BusIdRpc, BusRpc msg, Client client_id => routed_handle_rpc client_id msg
  | BusIdRpc, BusRpc _, service =>
      mpanic ("internal error: entered unreachable code: lnpd received RPC message not from a client but from "
                +:+ show_service_id service)
  | bus, msg, _ => mfail (wrong_esb_msg bus msg)
  end.

Definition routed_handle_err (err : EsbError) : RW Error unit :=
  do! report_failure (E:=Error) (failure_of_esb err) in
  mreturn tt.
End routed.
