(* ===== verification/RoutedCorrect.v ===== *)
(** * Properties of the routing daemon *)

From S2P Require Import Prelude.
From S2P Require Import Bus.
From S2P Require Import Service.
From S2P Require Import Routed.

Local Open Scope rust_scope.

Section routed.
Context `{Sys, !Fmt, !RouterLib}.

(** ** What a payment asks of the router *)

(** The payment the invoice and the client's amount describe. *)
Definition payment_request (p : PayInvoice) : option PaymentRequest :=
  node ← pubkey_from_slice (payee_pub_key (pay_invoice p));
  amount ← match pay_amount_msat p with
           | Some a => Some a
           | None => amount_milli_satoshis (pay_invoice p)
           end;
  Some {|
    pr_amount_msat := amount;
    pr_payment_hash := invoice_hash_lock (pay_invoice p);
    pr_node_id := node;
    pr_min_final_cltv_expiry := (min_final_cltv_expiry (pay_invoice p) mod 2 ^ 32)%N |}.

Definition is_payment (e : Envelope) : Prop :=
  match env_msg e with BusCtl (CtlPayment _ _ _) => True | _ => False end.
#[export] Instance is_payment_dec e : Decision (is_payment e).
Proof. unfold is_payment. destruct (env_msg e) as [| |[]|]; apply _. Defined.

(** Payments that were handed over to channel daemons. *)
Definition payments (h : History) : list Envelope := filter is_payment (sent h).
Lemma payments_app h1 h2 : payments (h1 ++ h2) = payments h1 ++ payments h2.
Proof. unfold payments. by rewrite sent_app, filter_app. Qed.

(** A report to the client does not count as a payment. *)
Lemma report_payments {E E'} `{!From EsbError E} st (w : World RouteRuntime) :
  ∃ w', swallow (E':=E') (report_status (E:=E) st) w = (Ok tt, w') ∧ rt w' = rt w ∧
    payments (hist w') = payments (hist w).
Proof.
  destruct (swallow_report (E:=E) (E':=E') st w) as (w' & Ew & Er & _ & ops & Eh & HF).
  exists w'. split_and!; [done..|]. rewrite Eh, payments_app.
  assert (payments ops = []) as ->; [|by rewrite app_nil_r].
  clear -HF. induction HF as [|[o ok] ops Ho _ IH]; [done|].
  change ((o, ok) :: ops) with ([(o, ok)] ++ ops). rewrite payments_app, IH, app_nil_r.
  destruct o as [e| | | | |], ok; try done. simpl in Ho. unfold payments, sent. simpl.
  rewrite filter_cons_False; [done|]. unfold is_payment.
  destruct (env_msg e) as [| |[]|]; naive_solver.
Qed.

(** ** Computing the route *)

Definition routes (p : PayInvoice) (r : RouteRuntime) : option (LnRouter * list Hop) :=
  router_compute_route (rr_router r) <$> payment_request p.

(** The reasons for which there is no payment to route. *)
Definition no_payment (p : PayInvoice) : Res PaymentError (list Hop) :=
  match pubkey_from_slice (payee_pub_key (pay_invoice p)) with
  | None => Panic "Invoice library is broken"
  | Some _ => Err AmountUnknown
  end.

Lemma compute_route_run p w :
  ∃ w', rr_enquirer (rt w') = rr_enquirer (rt w) ∧ payments (hist w') = payments (hist w) ∧
    compute_route (pay_invoice p) (pay_amount_msat p) w = (match routes p (rt w) with
      | Some (_, route) => Ok route
      | None => no_payment p
      end, w').
Proof.
  unfold compute_route, routes, payment_request, no_payment.
  destruct (pubkey_from_slice _) as [node|]; simpl; [|by eexists].
  destruct (match pay_amount_msat p with Some a => Some a | None => _ end) as [amount|];
    simpl; [|by eexists].
  unfold on_router, self. rewrite !bind_mreturn. cbv zeta.
  match goal with |- context [router_compute_route _ ?x] => set (req := x) end.
  unfold bind at 1. rewrite bind_gets.
  destruct (router_compute_route _ req) as [router' route]. simpl.
  set (w1 := with_rt (set_router router') w).
  unfold report_progress. destruct (report_payments (E:=Error) (E':=PaymentError)
    (StProgress "Route computed") w1) as (w' & Ew & Er & Ep).
  exists w'. rewrite Er, Ep. split_and!; [done..|]. by rewrite (bind_ok _ _ _ _ _ Ew).
Qed.

(** ** Payments *)

Definition payment_of (p : PayInvoice) (client : ClientId) (route : list Hop) : Envelope := {|
  env_bus := BusIdCtl; env_src := Router; env_dest := ChannelSvc (pay_channel_id p);
  env_msg := BusCtl (CtlPayment route (invoice_hash_lock (pay_invoice p)) client) |}.
Definition failure_report (client : ClientId) (err : EsbError) : Envelope := {|
  env_bus := BusIdCtl; env_src := Router; env_dest := LnpBroker;
  env_msg := BusCtl (CtlReport {|
    rep_client := client; rep_status := StFailure (failure_of_esb err) |}) |}.

Lemma failure_reaches_enquirer err client (w : World RouteRuntime) :
  rr_enquirer (rt w) = Some client →
  attempted (hist (routed_handle_err err w).2) = attempted (hist w) ++ [failure_report client err].
Proof.
  intros Ec. unfold routed_handle_err, report_failure, report_status, self, swallow, bind, gets.
  simpl. rewrite Ec. unfold send_to, perform, q. simpl.
  destruct (esb_reply _ _); simpl; by rewrite attempted_app.
Qed.

Lemma payment_outcome p client w :
  let call := routed_handle BusIdRpc (Client client) (BusRpc (RpcPayInvoice p)) w in
  match call.1 with
  | Ok _ => ∃ router route, routes p (rt w) = Some (router, route) ∧ route ≠ [] ∧
      payments (hist call.2) = payments (hist w) ++ [payment_of p client route]
  | Err _ => payments (hist call.2) = payments (hist w) ∧
      ∀ err, attempted (hist (routed_handle_err err call.2).2)
        = attempted (hist call.2) ++ [failure_report client err]
  | Panic _ => pubkey_from_slice (payee_pub_key (pay_invoice p)) = None
  end.
Proof.
  simpl. unfold update. rewrite bind_modify. set (w1 := with_rt _ w).
  destruct (compute_route_run p w1) as (w2 & Ec & Ep & Er).
  assert (∀ err, attempted (hist (routed_handle_err err w2).2)
    = attempted (hist w2) ++ [failure_report client err]) as Hfail.
  { intros err. apply failure_reaches_enquirer. by rewrite Ec. }
  destruct (routes p (rt w1)) as [[router route]|] eqn:Eroute.
  - rewrite (bind_ok _ _ _ _ _ (q_ok _ _ _ _ Er)).
    destruct route as [|hop route]; [by split|].
    unfold send_ctl, send_ctl_to, self. unfold bind, q, gets, send_to, perform. simpl.
    destruct (esb_reply _ _); simpl.
    + rewrite payments_app, app_nil_r. split; [done|].
      intros err. apply failure_reaches_enquirer. exact Ec.
    + exists router, (hop :: route). rewrite payments_app, Ep. by split_and!.
  - unfold no_payment in Er. destruct (pubkey_from_slice _) eqn:Epk.
    + rewrite (bind_err _ _ _ _ _ (q_err _ _ _ _ Er)). by split.
    + unfold bind at 1, q. by rewrite Er.
Qed.

(** C19. Paying an invoice either hands over exactly one payment, along the non-empty
    route that the router computed for the invoice's payee, hash and amount, to the
    daemon of the channel that the client named, or hands over no payment and fails in a
    way that the error handler of routed reports to this client; it panics only if the
    invoice library returns a broken key. *)
Theorem payment_is_ordered_or_reported p client w :
  let call := routed_handle BusIdRpc (Client client) (BusRpc (RpcPayInvoice p)) w in
  match call.1 with
  | Ok _ => ∃ router route, routes p (rt w) = Some (router, route) ∧ route ≠ [] ∧
      payments (hist call.2) = payments (hist w) ++ [payment_of p client route]
  | Err _ => payments (hist call.2) = payments (hist w) ∧
      ∀ err, attempted (hist (routed_handle_err err call.2).2)
        = attempted (hist call.2) ++ [failure_report client err]
  | Panic _ => pubkey_from_slice (payee_pub_key (pay_invoice p)) = None
  end.
Proof. apply payment_outcome. Qed.

(** ** Failures of other messages *)

Lemma on_router_same {E A} (f : LnRouter → LnRouter * (E + A)) :
  respects (same rr_enquirer) (on_router f).
Proof. unfold on_router. respects_auto. Qed.
#[local] Hint Resolve on_router_same : respects.

Lemma not_rpc_keeps_enquirer bus src msg :
  bus ≠ BusIdRpc → respects (same rr_enquirer) (routed_handle bus src msg).
Proof.
  intros Hb. destruct bus, msg as [m|m|m|m]; try done; simpl; try (by respects_auto).
  - unfold routed_handle_p2p. respects_auto.
  - unfold routed_handle_ctl. respects_auto.
Qed.

Lemma payment_sets_enquirer p client w :
  rr_enquirer (rt (routed_handle BusIdRpc (Client client) (BusRpc (RpcPayInvoice p)) w).2)
    = Some client.
Proof.
  simpl. unfold update. rewrite bind_modify. set (w1 := with_rt _ w).
  change (Some client) with (rr_enquirer (rt w1)). symmetry.
  match goal with |- _ = rr_enquirer (rt (?m w1).2) =>
    assert (respects (same rr_enquirer) m) as Hm end.
  { unfold compute_route. respects_auto. }
  by destruct (Hm w1).
Qed.

Theorem unrelated_failure_blamed_on_payment p client bus src msg w :
  let w1 := (routed_handle BusIdRpc (Client client) (BusRpc (RpcPayInvoice p)) w).2 in
  bus ≠ BusIdRpc →
  let w2 := (routed_handle bus src msg w1).2 in
  ∀ err, attempted (hist (routed_handle_err err w2).2)
    = attempted (hist w2) ++ [failure_report client err].
Proof.
  intros w1 Hb w2 err. apply failure_reaches_enquirer. unfold w2.
  destruct (not_rpc_keeps_enquirer bus src msg Hb w1) as [<- _]. apply payment_sets_enquirer.
Qed.
End routed.
