(* ===== verification/Signd.v ===== *)
(** * The signing daemon ([src/signd/runtime.rs]) *)

From S2P Require Import Prelude.
From S2P Require Import Bus.
From S2P Require Import Service.
From S2P Require Import Files.
From S2P Require Import Config.

Local Open Scope rust_scope.

Section errors.
Context `{Ext}.
Record DeriveErr := { derive_err : Opaque }.
Record SigningErr := { signing_err : Opaque }.
#[export] Instance from_derive : From DeriveErr Error := λ e, EDerivation (derive_err e).
#[export] Instance from_signing : From SigningErr Error := λ e, ESigning (signing_err e).
End errors.

(** The key libraries: bitcoin's BIP 32, the signing accounts of the wallet
    library, and the keyset of lnp-core.  A decoder takes its bytes off the
    front. *)
Class SignLib `{Ext} := {
  XpubIdentifier : Type;
  ChildNumber : Type;
  ExtendedPrivKey : Type;
  SignAccount : Type;                          (* MemorySigningAccount *)
  Fingerprint : Type;
  child_from_hardened_idx : N → option ChildNumber;
  decode_master_id : list N → StrictErr + XpubIdentifier * list N;
  decode_derivation : list N → StrictErr + list ChildNumber * list N;
  decode_xpriv : list N → StrictErr + ExtendedPrivKey * list N;
  account_with : XpubIdentifier → list ChildNumber → ExtendedPrivKey → SignAccount;
  account_xpriv : SignAccount → ExtendedPrivKey;
  account_key_fingerprint : SignAccount → Fingerprint;
  derive_priv : ExtendedPrivKey → list ChildNumber → DeriveErr + ExtendedPrivKey;
  keyset_with : Fingerprint → list ChildNumber → ExtendedPrivKey → LocalKeyset;
  sign_all : list SignAccount → Psbt → Psbt * (SigningErr + N);
  chain_is_testnet : Chain → bool }.

Section signd.
Context `{Sys, !Fmt, !SignLib}.

(** The provider's accounts. *)
Record SignRuntime := {
  sg_chain : Chain;
  sg_provider : list SignAccount }.

#[export] Instance signd_handler : Handler SignRuntime := {|
  identity := λ _, Signer;
  enquirer := λ _, None |}.

Definition GW (E A : Type) : Type := W SignRuntime E A.

(** [LNP_NODE_MASTER_KEY_FILE] *)
Definition master_key_name : string := "master.key".

(** ** Start-up: the signing account is read from the master key file *)

Definition provider {R} (config : Config unit) : W R Error (list SignAccount) :=
  let wallet_path := path_push (data_dir config) master_key_name in
  let? file := file_open wallet_path in
  let! w := get in
  let! ' (master_id, bytes) :=
    q (of_sum (decode_master_id (inode_data (disk w) (f_inode file)))) in
  let! ' (derivation, bytes) := q (of_sum (decode_derivation bytes)) in
  let! ' (xpriv, _) := q (of_sum (decode_xpriv bytes)) in
  mreturn [account_with master_id derivation xpriv].

Definition signd_with {R} (config : Config unit) : W R Error SignRuntime :=
  let! accounts := provider config in
  mreturn {| sg_chain := chain config; sg_provider := accounts |}.

(** ** Requests *)

(** [u32::from_be_bytes] of the first four bytes, and the index of the channel
    in the derivation path: the highest bit is the hardening flag. *)
Definition u32_from_be_bytes (bs : list N) : N := foldl (λ acc b, acc * 256 + b)%N 0%N bs.
Definition channel_index (slice32 : Slice32) : N :=
  N.land (u32_from_be_bytes (take 4 slice32)) 0x7FFFFFFF.

Definition chain_index (c : Chain) : N := if chain_is_testnet c then 1 else 0.

(** The indexes of [[chain_index, 1, 0, channel_index]], each hardened. *)
Fixpoint hardened_path {E} (l : list N) : GW E (list ChildNumber) :=
  match l with
  | [] => mreturn []
  | idx :: l =>
      let! c := expect "hardcoded index" (child_from_hardened_idx idx) in
      let! rest := hardened_path l in
      mreturn (c :: rest)
  end.

Definition derive_keyset (source : ServiceId) (slice32 : Slice32) : GW Error unit :=
  let channel_index := channel_index slice32 in
  let! r := self (λ r, r) in
  match sg_provider r with
  | [] => mreturn tt
  | account :: _ =>
      let! path := hardened_path [chain_index (sg_chain r); 1; 0; channel_index]%N in
      let? channel_xpriv := of_sum (derive_priv (account_xpriv account) path) in
      let keyset := keyset_with (account_key_fingerprint account) path channel_xpriv in
      let! id := self identity in
      do? send_to BusIdCtl id source
            (BusCtl (CtlKeyset (ChannelSvc (MkChannelId slice32)) keyset)) in
      mreturn tt
  end.

Definition signd_handle_ctl (source : ServiceId) (message : CtlMsg) : GW Error unit :=
  match message with
  | CtlSign psbt =>
      let! accounts := self sg_provider in
      let '(psbt, res) := sign_all accounts psbt in
      do? of_sum res in
      do? send_to BusIdCtl Signer source (BusCtl (CtlSigned psbt)) in
      mreturn tt
  | CtlDeriveKeyset slice32 => derive_keyset source slice32
  | wrong_msg => mfail (wrong_esb_msg BusIdCtl (BusCtl wrong_msg))
  end.

(** [CtlMsg::with_error] *)
Definition ctl_with_error (destination : ServiceId) (message : CtlMsg) (err : Error) : CtlMsg :=
  CtlError destination (show_bus_msg (BusCtl message)) (show_error err).

Definition signd_handle (bus : ServiceBus) (source : ServiceId) (message : BusMsg)
    : GW Error unit :=
  match bus, message, source with
  | BusIdCtl, BusCtl msg, source =>
      let! res := attempt (signd_handle_ctl source msg) in
      match res with
      | inl err =>
          let! id := self identity in
          do? send_to BusIdCtl id source (BusCtl (ctl_with_error source msg err)) in
          mfail err
      | inr _ => mreturn tt
      end
  | bus, msg, _ => mfail (wrong_esb_msg bus msg)
  end.
Definition signd_handle_err (_ : EsbError) : GW Error unit := mreturn tt.
End signd.
