(* ===== verification/SigndCorrect.v ===== *)
(** * Properties of the signing daemon *)

From Stdlib Require Import ZArith.
From S2P Require Import Prelude.
From S2P Require Import Bus.
From S2P Require Import Service.
From S2P Require Import Files.
From S2P Require Import Config.
From S2P Require Import Signd.

Local Open Scope rust_scope.

(** ** The index of a channel in the derivation path *)

Lemma channel_index_mod s : channel_index s = (u32_from_be_bytes (take 4 s) mod 2 ^ 31)%N.
Proof. unfold channel_index. change 0x7FFFFFFF%N with (N.ones 31). apply N.land_ones. Qed.
Lemma channel_index_bound s : (channel_index s < 2 ^ 31)%N.
Proof. rewrite channel_index_mod. by apply N.mod_lt. Qed.

(** Only the first four bytes count, and of the first one the lower seven bits. *)
Lemma channel_index_bytes b0 b1 b2 b3 l :
  channel_index (b0 :: b1 :: b2 :: b3 :: l)
    = ((b0 mod 128 * 2 ^ 24 + (b1 * 2 ^ 16 + b2 * 2 ^ 8 + b3)) mod 2 ^ 31)%N.
Proof.
  rewrite channel_index_mod. unfold u32_from_be_bytes. simpl take. simpl foldl.
  rewrite (N.div_mod b0 128) at 1 by done.
  replace ((((0 * 256 + (128 * (b0 / 128) + b0 mod 128)) * 256 + b1) * 256 + b2) * 256 + b3)%N
    with ((b0 mod 128 * 2 ^ 24 + (b1 * 2 ^ 16 + b2 * 2 ^ 8 + b3)) + b0 / 128 * 2 ^ 31)%N by lia.
  by rewrite N.Div0.mod_add.
Qed.

Section signd.
Context `{Sys, !Fmt, !SignLib}.

(** BIP 32: an index below 2^31 can be hardened. *)
Definition hardening_law : Prop :=
  ∀ i, (i < 2 ^ 31)%N → is_Some (child_from_hardened_idx i).

(** ** What signd owes a request *)

(** The derivation path of a channel's keys. *)
Definition channel_path (r : SignRuntime) (s : Slice32) : option (list ChildNumber) :=
  mapM child_from_hardened_idx [chain_index (sg_chain r); 1; 0; channel_index s]%N.

Definition derivation (r : SignRuntime) (s : Slice32) : option (Error + LocalKeyset) :=
  account ← head (sg_provider r);
  path ← channel_path r s;
  Some (match derive_priv (account_xpriv account) path with
        | inl e => inl (from e)
        | inr xpriv => inr (keyset_with (account_key_fingerprint account) path xpriv)
        end).

(** The reply to a control message: none for a derivation without an account. *)
Definition answer (r : SignRuntime) (msg : CtlMsg) : option (Error + CtlMsg) :=
  match msg with
  | CtlSign psbt =>
      Some (match sign_all (sg_provider r) psbt with
            | (_, inl e) => inl (from e)
            | (psbt, inr _) => inr (CtlSigned psbt)
            end)
  | CtlDeriveKeyset s =>
      (λ d, match d with
            | inl e => inl e
            | inr keys => inr (CtlKeyset (ChannelSvc (MkChannelId s)) keys)
            end) <$> derivation r s
  | _ => Some (inl (wrong_esb_msg BusIdCtl (BusCtl msg)))
  end.

Definition reply_to (src : ServiceId) (m : CtlMsg) : Envelope := {|
  env_bus := BusIdCtl; env_src := Signer; env_dest := src; env_msg := BusCtl m |}.

(** [m w] does what [ans] says, with at most one more attempt when the bus fails. *)
Definition does_answer (src : ServiceId) (ans : option (Error + CtlMsg)) (w : World SignRuntime)
    (x : Res Error unit * World SignRuntime) : Prop :=
  rt x.2 = rt w ∧
  match ans with
  | None => x = (Ok tt, w)
  | Some (inl e) => x = (Err e, w)
  | Some (inr m) =>
      attempted (hist x.2) = attempted (hist w) ++ [reply_to src m] ∧
      match x.1 with
      | Ok _ => sent (hist x.2) = sent (hist w) ++ [reply_to src m]
      | Err e => ∃ err, e = EEsb err
      | Panic _ => False
      end
  end.

Lemma send_answers src m w :
  does_answer src (Some (inr m)) w
    ((do? send_to BusIdCtl Signer src (BusCtl m) in mreturn tt) w).
Proof.
  unfold does_answer, send_to, perform, bind, q. simpl.
  destruct (esb_reply _ _); simpl; rewrite attempted_app; (split; [done|]); (split; [done|]).
  - by eexists.
  - by rewrite sent_app.
Qed.

Lemma hardened_path_run {E} l (w : World SignRuntime) :
  hardening_law → Forall (λ i, i < 2 ^ 31)%N l →
  ∃ path, mapM child_from_hardened_idx l = Some path ∧
    hardened_path (E:=E) l w = (Ok path, w).
Proof.
  intros Hlaw. induction 1 as [|i l Hi _ (path & Ep & IH)]; [by exists []|].
  destruct (Hlaw i Hi) as [c Ec]. exists (c :: path). simpl. rewrite Ec, Ep. split; [done|].
  simpl. rewrite bind_mreturn. by rewrite (bind_ok _ _ _ _ _ IH).
Qed.

Lemma handle_ctl_answers src msg w :
  hardening_law → does_answer src (answer (rt w) msg) w (signd_handle_ctl src msg w).
Proof.
  intros Hlaw. destruct msg; try (by split).
  - unfold answer. simpl. unfold self. rewrite bind_gets.
    destruct (sign_all _ p) as [psbt [e|n]]; [by split|]. apply send_answers.
  - simpl. unfold derive_keyset, self. rewrite bind_gets. unfold derivation.
    destruct (sg_provider (rt w)) as [|account l]; [by split|]. simpl. unfold channel_path.
    destruct (hardened_path_run (E:=Error)
      [chain_index (sg_chain (rt w)); 1; 0; channel_index s]%N w Hlaw) as (path & -> & Er).
    { repeat constructor; try done; [|apply channel_index_bound].
      unfold chain_index. by destruct (chain_is_testnet _). }
    simpl. rewrite (bind_ok _ _ _ _ _ Er).
    destruct (derive_priv _ path) as [e|xpriv]; [by split|].
    exact (send_answers _ _ w).
Qed.

(** The whole answer of signd to a control message. *)
Definition error_reply (src : ServiceId) (msg : CtlMsg) (e : Error) : Envelope :=
  reply_to src (ctl_with_error src msg e).

(** C20. signd answers every control message to its source without touching its own
    state and without panicking: with the signed transaction or the keyset of the
    derivation path of the channel id when signing and derivation succeed, with an error
    message otherwise (and with both when the reply cannot be sent), and it stays silent
    only on a derivation without an account. *)
Theorem signd_answers_every_request src msg w :
  hardening_law →
  let call := signd_handle BusIdCtl src (BusCtl msg) w in
  rt call.2 = rt w ∧ (∀ p, call.1 ≠ Panic p) ∧
  match answer (rt w) msg with
  | None => call = (Ok tt, w)
  | Some (inl e) =>
      attempted (hist call.2) = attempted (hist w) ++ [error_reply src msg e] ∧ call.1 ≠ Ok tt
  | Some (inr m) =>
      (call.1 = Ok tt ∧ sent (hist call.2) = sent (hist w) ++ [reply_to src m]) ∨
      ∃ err, attempted (hist call.2)
        = attempted (hist w) ++ [reply_to src m; error_reply src msg (EEsb err)]
  end.
Proof.
  intros Hlaw. simpl. pose proof (handle_ctl_answers src msg w Hlaw) as (Er & Ha).
  destruct (signd_handle_ctl src msg w) as [[[]|e|p] w1] eqn:E; simpl in *.
  - rewrite (bind_ok _ _ _ _ _ (attempt_ok _ _ _ _ E)). simpl. split_and!; [done..|].
    destruct (answer (rt w) msg) as [[e|m]|]; [done| |done]. left. by destruct Ha.
  - rewrite (bind_ok _ _ _ _ _ (attempt_err _ _ _ _ E)). simpl.
    unfold self. rewrite bind_gets. unfold send_to, perform, bind, q. simpl.
    destruct (answer (rt w) msg) as [[e'|m]|] eqn:Eans; [| |done].
    + injection Ha as -> ->. destruct (esb_reply _ _); simpl; rewrite attempted_app; by split_and!.
    + destruct Ha as (Ha & err & ->). destruct (esb_reply _ _); simpl; (split_and!; [done..|]);
        right; exists err; by rewrite attempted_app, Ha, <-app_assoc.
  - destruct (answer (rt w) msg) as [[e|m]|]; [done| |done]. by destruct Ha.
Qed.

(** ** Channels that share their keys *)

Lemma hardened_path_keeps {E} l (w : World SignRuntime) : (hardened_path (E:=E) l w).2 = w.
Proof.
  induction l as [|i l IH]; [done|]. simpl. unfold bind, expect.
  destruct (child_from_hardened_idx i); simpl; [|done].
  unfold mreturn. destruct (hardened_path l w) as [[]?]; simpl in *; by subst.
Qed.

(** The first thing signd tries to send when it is asked for keys under [s]. *)
Definition answers_first (src : ServiceId) (s : Slice32) (w : World SignRuntime) (reply : Envelope) : Prop :=
  attempted (hist w) ++ [reply] `prefix_of`
    attempted (hist (signd_handle BusIdCtl src (BusCtl (CtlDeriveKeyset s)) w).2).
Definition keyset_reply (src : ServiceId) (s : Slice32) (keys : LocalKeyset) : Envelope :=
  reply_to src (CtlKeyset (ChannelSvc (MkChannelId s)) keys).

Definition keys_of (w : World SignRuntime) (s : Slice32) (keys : LocalKeyset) : Prop :=
  ∃ account path xpriv, head (sg_provider (rt w)) = Some account ∧
    hardened_path (E:=Error) [chain_index (sg_chain (rt w)); 1; 0; channel_index s]%N w = (Ok path, w) ∧
    derive_priv (account_xpriv account) path = inr xpriv ∧
    keys = keyset_with (account_key_fingerprint account) path xpriv.

(** Nothing is sent, or the keys. *)
Lemma derive_keyset_sends src s w :
  hist (derive_keyset src s w).2 = hist w ∨
  ∃ keys, keys_of w s keys ∧
    attempted (hist (derive_keyset src s w).2) = attempted (hist w) ++ [keyset_reply src s keys].
Proof.
  unfold derive_keyset, self, keys_of. rewrite bind_gets.
  destruct (sg_provider (rt w)) as [|account l]; [by left|].
  set (idx := [chain_index (sg_chain (rt w)); 1; 0; channel_index s]%N).
  pose proof (hardened_path_keeps (E:=Error) idx w) as Hk.
  destruct (hardened_path idx w) as [[path|e|p] w1] eqn:Ep; simpl in Hk; subst w1;
    [rewrite (bind_ok _ _ _ _ _ Ep)|left; by rewrite (bind_err _ _ _ _ _ Ep)
    |left; by rewrite (bind_panic _ _ _ _ _ Ep)].
  destruct (derive_priv (account_xpriv account) path) as [e|xpriv] eqn:Ed; [by left|].
  right. eexists. split; [by eexists account, path, xpriv|].
  exact (proj1 (proj2 (send_answers src _ w))).
Qed.
Lemma keys_of_sent src s w keys : keys_of w s keys →
  attempted (hist (derive_keyset src s w).2) = attempted (hist w) ++ [keyset_reply src s keys].
Proof.
  intros (account & path & xpriv & Ea & Ep & Ed & ->). unfold derive_keyset, self. rewrite bind_gets.
  destruct (sg_provider (rt w)) as [|account' l]; [done|]. injection Ea as ->.
  rewrite (bind_ok _ _ _ _ _ Ep), Ed. exact (proj1 (proj2 (send_answers src _ w))).
Qed.

(** The handler adds at most an error message. *)
Lemma signd_handle_adds src msg w : ∃ more,
  attempted (hist (signd_handle BusIdCtl src (BusCtl msg) w).2) =
    attempted (hist (signd_handle_ctl src msg w).2) ++ more ∧
  (more = [] ∨ ∃ e, more = [error_reply src msg e]).
Proof.
  simpl. destruct (signd_handle_ctl src msg w) as [[[]|e|p] w1] eqn:E; simpl.
  - rewrite (bind_ok _ _ _ _ _ (attempt_ok _ _ _ _ E)). exists []. rewrite app_nil_r. auto.
  - rewrite (bind_ok _ _ _ _ _ (attempt_err _ _ _ _ E)). exists [error_reply src msg e].
    split; [|by eauto]. unfold self, send_to, perform, bind, q, gets. simpl.
    destruct (esb_reply _ _); simpl; by rewrite attempted_app.
  - rewrite (bind_panic _ _ _ _ _ (attempt_panic _ _ _ _ E)). exists []. rewrite app_nil_r. auto.
Qed.

Lemma answers_first_keys src s w keys :
  answers_first src s w (keyset_reply src s keys) ↔ keys_of w s keys.
Proof.
  unfold answers_first.
  destruct (signd_handle_adds src (CtlDeriveKeyset s) w) as (more & -> & Hmore). split.
  - intros [rest Hr]. destruct (derive_keyset_sends src s w) as [Eh|(keys' & Hk & Ea)].
    + simpl in Hr. rewrite Eh, <-app_assoc in Hr. apply app_inv_head in Hr.
      by destruct Hmore as [->|[e ->]].
    + simpl in Hr. rewrite Ea, <-!app_assoc in Hr. apply app_inv_head in Hr. by simplify_eq/=.
  - intros Hk. simpl. rewrite (keys_of_sent src s w keys Hk). by apply prefix_app_r.
Qed.

(** C34. The keys of a channel depend on 31 bits of its temporary id: when signd, asked
    for the keyset of an id, first tries to send certain keys, it does so too, in the
    same state, for every id whose first four bytes agree, the highest bit aside,
    whatever the rest of the two ids. *)
Theorem close_ids_share_their_keys src b0 b0' b1 b2 b3 l l' w keys :
  (b0 mod 128 = b0' mod 128)%N →
  let s := b0 :: b1 :: b2 :: b3 :: l in let s' := b0' :: b1 :: b2 :: b3 :: l' in
  answers_first src s w (keyset_reply src s keys) →
  answers_first src s' w (keyset_reply src s' keys).
Proof.
  intros Hb s s'. rewrite !answers_first_keys. unfold keys_of.
  assert (channel_index s = channel_index s') as -> by (unfold s, s'; by rewrite !channel_index_bytes, Hb).
  done.
Qed.
End signd.
