(* ===== verification/Init.v ===== *)
(** * The executable of lnpd and the initialization of a node
    ([src/bin/lnpd.rs], [src/lnpd/opts.rs]) *)

From S2P Require Import Prelude.
From S2P Require Import Bus.
From S2P Require Import Text.
From S2P Require Import Service.
From S2P Require Import Files.
From S2P Require Import Config.
From S2P Require Import ChannelRuntime.
From S2P Require Import Wallet.
From S2P Require Import LnpdRuntime.
From S2P Require Import ListenAddr.
From S2P Require Import Lnpd.
From S2P Require Import Signd.

Local Open Scope rust_scope.

Record MiniscriptErr `{Ext} := { miniscript_err : Opaque }.
#[export] Instance from_miniscript `{Ext} : From MiniscriptErr Error :=
  λ e, EMiniscript (miniscript_err e).

(** What initialization uses of the terminal, of BIP 32, of the wallet library
    and of internet2's [LocalNode]. *)
Class InitLib `{SignLib, !WalletLib} := {
  dir_exists : History → PathBuf → bool;
  read_password : History → IoErr + string;
  xpriv_from_str : string → DeriveErr + ExtendedPrivKey;
  derivation_path_from_str : string → option (list ChildNumber);
  xpriv_identifier : ExtendedPrivKey → XpubIdentifier;
  encode_master_id : XpubIdentifier → list N;
  encode_derivation : list ChildNumber → list N;
  encode_xpriv : ExtendedPrivKey → list N;
  account_master_id : SignAccount → XpubIdentifier;
  (** [Descriptor::Wpkh] over a [DerivationAccount] with the account path and
      the terminal [0..=1/*] *)
  wpkh_descriptor : XpubIdentifier → ExtendedPrivKey → list N → MiniscriptErr + Descriptor;
  SecretKey : Type;
  derive_seckey : SignAccount → list ChildNumber → SecretKey;
  secret_bytes : SecretKey → list N;
  local_node_id : SecretKey → NodeId }.

Section init.
Context `{Sys, !Fmt, !LnpCore, !WalletLib, !WalletCodec, !LnpdLib, !AddrLib, !Build}.
Context `{!SignLib, !InitLib}.
Context {R : Type}.

(** [Path::exists] of a file *)
Definition path_exists {E} (p : PathBuf) : W R E bool :=
  gets (λ w, bool_decide (is_Some (d_names (disk w) !! p))).

(** [value.strict_encode(&mut file)?] *)
Definition encode_to (file : File) (bytes : list N) : W R Error File :=
  let? file := (let? f := file_write file bytes in mreturn f : W _ StrictErr _) in
  mreturn file.

(** ** The signing account *)

Definition create_account (wallet_path : PathBuf) : W R Error SignAccount :=
  let! h := gets hist in
  let? text := of_sum (read_password h) in
  let? xpriv := of_sum (xpriv_from_str text) in
  let! derivation := expect "hardcoded derivation path" (derivation_path_from_str "m/9735h") in
  let? xpriv_account := of_sum (derive_priv xpriv derivation) in
  let xpubid := xpriv_identifier xpriv in
  let? file := file_create wallet_path in
  let! file := encode_to file (encode_master_id xpubid) in
  let! file := encode_to file (encode_derivation derivation) in
  let! file := encode_to file (encode_xpriv xpriv_account) in
  mreturn (account_with xpubid derivation xpriv_account).

Definition open_account (wallet_path : PathBuf) : W R Error SignAccount :=
  let? file := file_open wallet_path in
  let! w := get in
  let! ' (master_id, bytes) :=
    q (of_sum (decode_master_id (inode_data (disk w) (f_inode file)))) in
  let! ' (derivation, bytes) := q (of_sum (decode_derivation bytes)) in
  let! ' (account_xpriv, _) := q (of_sum (decode_xpriv bytes)) in
  mreturn (account_with master_id derivation account_xpriv).

Definition init_account (wallet_path : PathBuf) : W R Error SignAccount :=
  let! found := path_exists wallet_path in
  if (found : bool) then open_account wallet_path else create_account wallet_path.

(** ** The funding wallet *)

Definition create_funding_wallet (config : Config unit) (account : SignAccount)
    (wallet_path : PathBuf) : W R Error FundingWallet :=
  let account_path := [chain_index (chain config); 2]%N in
  let! path := expect "hardcoded derivation indexes"
    (mapM child_from_hardened_idx account_path) in
  let? account_xpriv := of_sum (derive_priv (account_xpriv account) path) in
  let? descriptor :=
    of_sum (wpkh_descriptor (account_master_id account) account_xpriv account_path) in
  let? wallet := wallet_new (chain config) wallet_path descriptor (electrum_url config) in
  mreturn wallet.

Definition init_funding_wallet (config : Config unit) (account : SignAccount)
    (wallet_path : PathBuf) : W R Error FundingWallet :=
  let! found := path_exists wallet_path in
  if (found : bool) then
    let? wallet := wallet_with (chain config) wallet_path (electrum_url config) in
    mreturn wallet
  else create_funding_wallet config account wallet_path.

(** ** The key of the node *)

Definition create_node_key (config : Config unit) (account : SignAccount)
    (key_path : PathBuf) : W R Error NodeId :=
  let! derivation_path := expect "hardcoded derivation path" (derivation_path_from_str
    ("m/9735h/" +:+ show_uint (chain_index (chain config)) +:+ "h/0h")) in
  let node_secret := derive_seckey account derivation_path in
  let! key_file := expect_ok "Unable to create node key file" (file_create key_path) in
  let! key_file := expect_ok "Unable to save generated node key file"
    (file_write key_file (secret_bytes node_secret)) in
  mreturn (local_node_id node_secret).

Definition init_node_key (config : Config unit) (account : SignAccount)
    (key_path : PathBuf) : W R Error NodeId :=
  let! found := path_exists key_path in
  if (found : bool) then read_node_key_file key_path
  else create_node_key config account key_path.

(** [init] prints what it returns here, and exits. *)
Definition init_node (config : Config unit) (key_path : PathBuf)
    : W R Error (SignAccount * FundingWallet * NodeId) :=
  let! h := gets hist in
  do! (if dir_exists h (data_dir config) then mreturn tt
       else do? fs (FsCreateDir (data_dir config)) in mreturn tt) in
  let! account := init_account (path_push (data_dir config) master_key_name) in
  let! wallet := init_funding_wallet config account
                   (path_push (data_dir config) wallet_name) in
  let! node_key := init_node_key config account key_path in
  mreturn (account, wallet, node_key).
End init.

(** ** The executable *)

Record LnpdOpts := {
  lo_key_file : PathBuf;
  lo_shared : SharedOpts;
  lo_listen : option (list ListenAddr);
  lo_listen_all : bool;
  lo_bolt : option (option N);
  lo_bifrost : option (option N);
  lo_init : bool                       (* [command]: [Some(Command::Init)] *) }.

Section lnpd_main.
Context `{Sys, !Fmt, !LnpCore, !WalletLib, !WalletCodec, !LnpdLib, !AddrLib, !Build}.
Context `{!SignLib, !InitLib}.

(** The addresses to listen on. *)
Definition listen_list {S E} (opts : LnpdOpts) : M S E (list ListenAddr) :=
  match lo_listen opts with
  | Some list => mreturn list
  | None =>
      if negb (lo_listen_all opts) then mreturn []
      else
        let list := match lo_bifrost opts with
                    | Some port => [listen_bifrost ip_unspecified port]
                    | None => []
                    end in
        let list := list ++ match lo_bolt opts with
                            | Some port => [listen_bolt ip_unspecified port]
                            | None => []
                            end in
        match list with
        | [] => mpanic ("either --bolt or --bifrost option must be given with the empty "
                  +:+ "--listen-all flag")
        | list => mreturn list
        end
  end.

(** The process exits after the initialization, or runs the daemon. *)
Inductive LnpdEnd :=
  | InitDone (account : SignAccount) (wallet : FundingWallet) (node_key : NodeId)
  | LnpdRuns (runtime : Lnpd).

(** From the options as [Opts::process] leaves them, with their paths expanded. *)
Definition lnpd_main (opts : LnpdOpts) : W unit Error LnpdEnd :=
  let config := config_from (lo_shared opts) tt in
  let key_file := lo_key_file opts in
  let! listen := listen_list opts in
  if lo_init opts then
    let! ' (account, wallet, node_key) := init_node config key_file in
    mreturn (InitDone account wallet node_key)
  else
    let! runtime := expect_ok "running lnpd runtime" (lnpd_run config key_file listen) in
    mreturn (LnpdRuns runtime).
End lnpd_main.
