(* ===== verification/InitCorrect.v ===== *)
(** * Initialization and the daemons agree

    What [lnpd init] leaves on the disk is what signd and lnpd read when they
    start. *)

From S2P Require Import Prelude.
From S2P Require Import Bus.
From S2P Require Import Text.
From S2P Require Import Service.
From S2P Require Import Files.
From S2P Require Import Config.
From S2P Require Import ChannelRuntime.
From S2P Require Import Wallet.
From S2P Require Import WalletCorrect.
From S2P Require Import LnpdRuntime.
From S2P Require Import ListenAddr.
From S2P Require Import Lnpd.
From S2P Require Import Signd.
From S2P Require Import Init.

Local Open Scope rust_scope.

(** ** Disks that only gain files *)

(** Inode numbers are not reused. *)
Definition disk_ok (d : Disk) : Prop := ∀ p i, d_names d !! p = Some i → i < d_next d.

(** What a name shows stays. *)
Definition keeps_files (d d' : Disk) : Prop :=
  disk_ok d' ∧ ∀ p bs, path_data d p = Some bs → path_data d' p = Some bs.

Lemma keeps_refl d : disk_ok d → keeps_files d d.
Proof. by split. Qed.
Lemma keeps_trans d1 d2 d3 : keeps_files d1 d2 → keeps_files d2 d3 → keeps_files d1 d3.
Proof. intros [_ H1] [H2 H3]. split; [done|]. eauto. Qed.

(** [d'] is [d] with a new file: [p], which holds [bs]. *)
Record gains_file (d : Disk) (p : PathBuf) (bs : list N) (d' : Disk) : Prop := {
  gf_names : d_names d' = <[p := d_next d]> (d_names d);
  gf_next : d_next d' = S (d_next d);
  gf_old i : i ≠ d_next d → inode_data d' i = inode_data d i;
  gf_new : inode_data d' (d_next d) = bs }.

Lemma gains_create d p : d_names d !! p = None → gains_file d p [] (disk_create p d).2.
Proof.
  intros Hp. unfold disk_create. rewrite Hp. split; simpl; try done.
  - intros i Hi. unfold inode_data. simpl. by rewrite lookup_insert_ne.
  - unfold inode_data. simpl. by rewrite lookup_insert_eq.
Qed.
Lemma gains_write d p bs d' h bs' :
  gains_file d p bs d' → f_inode h = d_next d → f_pos h = length bs →
  gains_file d p (bs ++ bs') (disk_write h bs' d').
Proof.
  intros [Hn Hx Ho Hb] Hi Hp. split; try done.
  - intros i Hne. unfold inode_data, disk_write. simpl. rewrite Hi, lookup_insert_ne by done.
    by apply Ho.
  - rewrite <- Hi, disk_write_data, Hi, Hb, Hp. unfold overwrite.
    rewrite Nat.sub_diag, app_nil_r, take_ge, drop_ge by lia. by rewrite app_nil_r.
Qed.
Lemma gains_keeps d p bs d' :
  disk_ok d → d_names d !! p = None → gains_file d p bs d' →
  keeps_files d d' ∧ path_data d' p = Some bs.
Proof.
  intros Hok Hp [Hn Hx Ho Hb]. split; [split|].
  - intros p' i. rewrite Hn, Hx. destruct (decide (p = p')) as [<-|].
    + rewrite lookup_insert_eq. intros [= <-]. lia.
    + rewrite lookup_insert_ne by done. intros ?%Hok. lia.
  - intros p' bs'. unfold path_data. rewrite Hn. destruct (decide (p = p')) as [<-|].
    { by rewrite Hp. }
    rewrite lookup_insert_ne by done. destruct (d_names d !! p') as [i|] eqn:Ei; [|done].
    simpl. rewrite Ho; [done|]. apply Hok in Ei. lia.
  - unfold path_data. rewrite Hn, lookup_insert_eq. simpl. by rewrite Hb.
Qed.

Section init.
Context `{Sys, !Fmt, !LnpCore, !WalletLib, !WalletCodec, !LnpdLib, !AddrLib, !Build}.
Context `{!SignLib, !InitLib}.

(** What the encoders of the libraries promise, and [LocalNode]. *)
Record init_laws : Prop := {
  law_master_id x rest : decode_master_id (encode_master_id x ++ rest) = inr (x, rest);
  law_derivation x rest : decode_derivation (encode_derivation x ++ rest) = inr (x, rest);
  law_xpriv x rest : decode_xpriv (encode_xpriv x ++ rest) = inr (x, rest);
  law_wallet : wallet_round_trip;
  law_secret_length s : length (secret_bytes s) = 32;
  law_secret s : node_of_secret (secret_bytes s) = Some (local_node_id s) }.

(** ** What the files say *)

Definition account_of (bytes : list N) : option SignAccount :=
  match decode_master_id bytes with
  | inl _ => None
  | inr (master_id, bytes) =>
      match decode_derivation bytes with
      | inl _ => None
      | inr (derivation, bytes) =>
          match decode_xpriv bytes with
          | inl _ => None
          | inr (xpriv, _) => Some (account_with master_id derivation xpriv)
          end
      end
  end.
Definition wallet_of (bytes : list N) : option WalletData :=
  match decode_wallet bytes with inr d => Some d | inl _ => None end.
Definition key_of (bytes : list N) : option NodeId :=
  if decide (32 ≤ length bytes) then node_of_secret (take 32 bytes) else None.

(** The file [p] exists, and says [a] to a reader. *)
Definition says {A} (d : Disk) (p : PathBuf) (read : list N → option A) (a : A) : Prop :=
  ∃ bs, path_data d p = Some bs ∧ read bs = Some a.
Lemma says_kept {A} d d' p (read : list N → option A) a :
  keeps_files d d' → says d p read a → says d' p read a.
Proof. intros [_ Hk] (bs & Hp & Ha). exists bs. eauto. Qed.

(** A step of the initialization leaves other files alone and makes its file
    say what it returns. *)
Definition prepares {R A B} (p : PathBuf) (read : list N → option A) (f : B → A)
    (m : W R Error B) : Prop :=
  ∀ w b w', disk_ok (disk w) → m w = (Ok b, w') →
    keeps_files (disk w) (disk w') ∧ says (disk w') p read (f b).

Lemma prepares_if_missing {R A B} p (read : list N → option A) (f : B → A)
    (open create : W R Error B) :
  (∀ w b w', open w = (Ok b, w') → disk w' = disk w ∧ says (disk w) p read (f b)) →
  (∀ w b w', d_names (disk w) !! p = None → create w = (Ok b, w') →
     ∃ bs, gains_file (disk w) p bs (disk w') ∧ read bs = Some (f b)) →
  prepares p read f (let! found := path_exists p in if (found : bool) then open else create).
Proof.
  intros Hopen Hcreate w b w' Hok. unfold path_exists. rewrite bind_gets.
  case_bool_decide as He; intros E.
  - apply Hopen in E as [-> Hs]. split; [by apply keeps_refl|done].
  - apply eq_None_not_Some in He. destruct (Hcreate _ _ _ He E) as (bs & Hg & Hr).
    destruct (gains_keeps _ _ _ _ Hok He Hg) as [Hk Hp]. split; [done|]. by exists bs.
Qed.

(** ** Writing a new file *)

Definition appends {R} (d : Disk) (p : PathBuf) (bs : list N) (f : File) (w : World R) : Prop :=
  gains_file d p bs (disk w) ∧ f_inode f = d_next d ∧ f_pos f = length bs.

Lemma create_appends {R} p (w : World R) f w' :
  d_names (disk w) !! p = None → file_create p w = (Ok f, w') → appends (disk w) p [] f w'.
Proof.
  intros Hp E. apply file_create_ok in E as (_ & Ef & Ed & Ei). unfold appends.
  rewrite Ed, Ei. split_and!; [by apply gains_create| |done]. unfold disk_create. by rewrite Hp.
Qed.
Lemma write_appends {R} d p bs f b (w : World R) f' w' :
  appends d p bs f w → file_write f b w = (Ok f', w') → appends d p (bs ++ b) f' w'.
Proof.
  intros (Hg & Hi & Hp) E.
  assert (f_pos f' = f_pos f + length b) as Hp'.
  { revert E. unfold file_write. intros E. run_inv E. destruct x as [e|[]]; by run_inv E. }
  apply file_write_ok in E as (_ & Ed & Ei). unfold appends. rewrite Ed, Ei, Hp', length_app, Hp.
  split_and!; [by apply gains_write|done|done].
Qed.
Lemma encode_appends {R} d p bs f b (w : World R) f' w' :
  appends d p bs f w → encode_to f b w = (Ok f', w') → appends d p (bs ++ b) f' w'.
Proof. unfold encode_to. intros Ha E. run_inv E. by eapply write_appends. Qed.

(** ** The steps *)

Lemma account_of_encoded id der key :
  init_laws →
  account_of ((encode_master_id id ++ encode_derivation der) ++ encode_xpriv key)
    = Some (account_with id der key).
Proof.
  intros Hl. unfold account_of. rewrite <- app_assoc, (law_master_id Hl), (law_derivation Hl).
  rewrite <- (app_nil_r (encode_xpriv key)). by rewrite (law_xpriv Hl).
Qed.

Lemma of_sum_ok {S E A} (r : E + A) (s : S) a s' :
  of_sum r s = (Ok a, s') → r = inr a ∧ s' = s.
Proof. destruct r; [done|]. by intros [= <- <-]. Qed.

Lemma init_account_ok {R} p : init_laws → prepares (R:=R) p account_of id (init_account p).
Proof.
  intros Hl. apply prepares_if_missing; intros w a w'.
  - unfold open_account. intros E. run_inv E. apply file_open_ok in Hrun as (_ & Ed & Ep).
    apply of_sum_ok in Hrun0 as [Hd1 ->]. destruct x0 as [master_id b1]. run_inv E.
    apply of_sum_ok in Hrun as [Hd2 ->]. destruct x0 as [derivation b2]. run_inv E.
    apply of_sum_ok in Hrun as [Hd3 ->]. destruct x0 as [xpriv b3]. run_inv E. split; [done|].
    exists (inode_data (disk w) (f_inode x)). unfold path_data. rewrite Ep.
    split; [done|]. unfold account_of. rewrite Ed in Hd1. by rewrite Hd1, Hd2, Hd3.
  - intros Hp. unfold create_account. intros E. run_inv E.
    repeat match goal with Hs : of_sum _ _ = (Ok _, _) |- _ => apply of_sum_ok in Hs as [? ->] end.
    eexists. split; [|by apply account_of_encoded].
    repeat match goal with
    | Hf : file_create _ _ = _ |- _ => apply (create_appends _ _ _ _ Hp) in Hf
    | Ha : appends _ _ _ ?f ?w, He : encode_to ?f _ ?w = _ |- _ =>
        apply (encode_appends _ _ _ _ _ _ _ _ Ha) in He; clear Ha
    end.
    match goal with Ha : appends _ _ _ _ _ |- _ => by destruct Ha as [Hg _] end.
Qed.

(** Opening a wallet writes nothing. *)
Lemma wallet_init_disk {R} n d f url (w : World R) fw w' :
  init n d f url w = (Ok fw, w') → disk w' = disk w.
Proof.
  unfold init, electrum. intros E. run_inv E. apply query_ok in Hrun as [_ ->].
  revert Hrun0. unfold building, update_fees, electrum, query, bind, q, self, gets, update, modify.
  simpl. destruct (estimate_fee _); [done|]. simpl. destruct (SpecFloat.SFeqb _ _); simpl; by intros [= <- <-].
Qed.

Lemma init_wallet_ok {R} config account p :
  init_laws →
  prepares (R:=R) p wallet_of fw_data (init_funding_wallet config account p).
Proof.
  intros Hl. apply prepares_if_missing; intros w fw w'.
  - intros E. run_inv E. pose proof Hrun as Hd.
    apply wallet_with_ok in Hd as (i & Hi & Hdec). split.
    + revert Hrun. unfold wallet_with. intros E. run_inv E.
      apply file_open_ok in Hrun as (_ & Ed & _). apply of_sum_ok in Hrun0 as [_ ->].
      match type of Hrun1 with _ = (Ok _, ?w1) =>
        assert (disk w1 = disk w) by (by destruct (descriptor_network _ _); run_inv Hrun1) end.
      match type of E with (if ?b then _ else _) _ = _ => destruct b end; [|done].
      apply wallet_init_disk in E. congruence.
    + exists (inode_data (disk w) i). unfold path_data, wallet_of. by rewrite Hi, Hdec.
  - intros Hp. unfold create_funding_wallet. intros E. run_inv E.
    repeat match goal with Hs : of_sum _ _ = (Ok _, _) |- _ => apply of_sum_ok in Hs as [? ->] end.
    match goal with Hw : wallet_new _ _ _ _ _ = _ |- _ => rename Hw into E; unfold wallet_new in E end.
    run_inv E. pose proof (init_ok _ _ _ _ _ _ _ E) as Hd.
    apply wallet_init_disk in E as ->.
    match goal with Hf : file_create _ _ = _ |- _ => apply (create_appends _ _ _ _ Hp) in Hf end.
    match goal with Ha : appends _ _ _ ?f ?w, He : file_write ?f _ ?w = _ |- _ =>
      apply (write_appends _ _ _ _ _ _ _ _ Ha) in He as [Hg _] end.
    eexists. split; [done|]. simpl. unfold wallet_of. rewrite Hd.
    match goal with |- context [encode_wallet ?d] => pose proof (law_wallet Hl d []) as Hr end.
    rewrite app_nil_r in Hr. by rewrite Hr.
Qed.

Lemma init_key_ok {R} config account p :
  init_laws → prepares (R:=R) p key_of id (init_node_key config account p).
Proof.
  intros Hl. apply prepares_if_missing; intros w n w'.
  - unfold read_node_key_file. intros E. run_inv E.
    apply file_open_ok in Hrun as (_ & Ed & Ep). rewrite Ed in E.
    destruct (decide _) as [Hlen|] eqn:Hdec; [|done].
    run_inv E. split; [done|]. exists (inode_data (disk w) (f_inode x)).
    unfold path_data, key_of. rewrite Ep. split; [done|]. by rewrite decide_True.
  - intros Hp. unfold create_node_key. intros E. run_inv E.
    match goal with Hf : file_create _ _ = _ |- _ => apply (create_appends _ _ _ _ Hp) in Hf end.
    match goal with Ha : appends _ _ _ ?f ?w, He : file_write ?f _ ?w = _ |- _ =>
      apply (write_appends _ _ _ _ _ _ _ _ Ha) in He as [Hg _] end.
    eexists. split; [done|]. simpl. unfold key_of. rewrite (law_secret_length Hl).
    rewrite decide_True, take_ge by (rewrite ?(law_secret_length Hl); lia). apply (law_secret Hl).
Qed.

(** ** Starting the daemons *)

Definition io_works : Prop := ∀ h o, io_reply h o = None.

Lemma open_works {R} p bs (w : World R) :
  io_works → path_data (disk w) p = Some bs →
  ∃ f w', file_open p w = (Ok f, w') ∧ disk w' = disk w ∧ inode_data (disk w) (f_inode f) = bs.
Proof.
  intros Hio. unfold path_data. destruct (d_names (disk w) !! p) as [i|] eqn:Ei; [|done].
  intros [= Hbs]. unfold file_open, fs, perform, bind, get. rewrite Hio. simpl. rewrite Ei.
  eexists _, _. split; [reflexivity|]. done.
Qed.

Lemma signd_starts {R} config account (w : World R) :
  io_works → says (disk w) (path_push (data_dir config) master_key_name) account_of account →
  ∃ w', signd_with config w =
    (Ok {| sg_chain := chain config; sg_provider := [account] |}, w').
Proof.
  intros Hio (bs & Hp & Ha). destruct (open_works _ _ _ Hio Hp) as (f & w' & E & Ed & Ei).
  exists w'. unfold signd_with, provider. apply bind_ok with (a := [account]) (s1 := w').
  rewrite (bind_ok _ _ _ _ _ (q_ok _ _ _ _ E)). unfold get. unfold bind at 1. simpl.
  rewrite Ed, Ei. revert Ha. unfold account_of.
  destruct (decode_master_id bs) as [|[? b1]]; [done|]. unfold bind at 1. simpl.
  destruct (decode_derivation b1) as [|[? b2]]; [done|]. unfold bind at 1. simpl.
  destruct (decode_xpriv b2) as [|[? ?]]; [done|]. by intros [= <-].
Qed.

Lemma lnpd_starts_with config key_path listens node data (w : World unit) r w' :
  says (disk w) key_path key_of node →
  says (disk w) (path_push (data_dir config) wallet_name) wallet_of data →
  lnpd_run config key_path listens w = (Ok r, w') →
  l_node_id r = node ∧ fw_data (l_wallet r) = data.
Proof.
  intros (bk & Hk & Ek) (bw & Hw & Ew). unfold lnpd_run, now. intros E. run_inv E. simpl.
  unfold read_node_key_file in Hrun. run_inv Hrun.
  match goal with Ho : file_open _ _ = _ |- _ => apply file_open_ok in Ho as (_ & Ed & Ep) end.
  unfold path_data in Hk. rewrite Ep in Hk. injection Hk as Hk. rewrite Ed, Hk in Hrun.
  unfold key_of in Ek. destruct (decide _); [|done]. run_inv Hrun. split; [congruence|].
  match goal with Ho : wallet_with _ _ _ _ = _ |- _ =>
    apply wallet_with_ok in Ho as (i & Hi & Hdec) end.
  rewrite Ed in Hi, Hdec. unfold path_data in Hw. rewrite Hi in Hw. injection Hw as <-.
  unfold wallet_of in Ew. rewrite Hdec in Ew. congruence.
Qed.

(** C13. Initialization of a node overwrites no file, and the daemons started afterwards
    on the disk it leaves work with what it reported: signd starts, when files can be
    opened, with the signing account, and lnpd, when it starts, has the identity of the
    node key and the data of the funding wallet, whether initialization created these
    files or found them. *)
Theorem init_prepares_the_daemons {R} config key_path (w : World R) account wallet node w' :
  init_laws → disk_ok (disk w) →
  init_node config key_path w = (Ok (account, wallet, node), w') →
  (∀ p bs, path_data (disk w) p = Some bs → path_data (disk w') p = Some bs) ∧
  (∀ R' (w2 : World R'), disk w2 = disk w' → io_works →
     ∃ w3, signd_with config w2 =
       (Ok {| sg_chain := chain config; sg_provider := [account] |}, w3)) ∧
  (∀ listens w2 r w3, disk w2 = disk w' → lnpd_run config key_path listens w2 = (Ok r, w3) →
     l_node_id r = node ∧ fw_data (l_wallet r) = fw_data wallet).
Proof.
  intros Hl Hok. unfold init_node. intros E. run_inv E.
  match goal with Hok : disk_ok (disk ?w0), Ha : init_account _ ?w1 = _ |- _ =>
    assert (disk w1 = disk w0) as Hd1;
    [destruct (dir_exists (hist w0) _); run_inv Hrun; [done|];
     match goal with Hf : fs _ _ = _ |- _ => by apply fs_ok in Hf as -> end|] end.
  match goal with Ha : init_account _ _ = _ |- _ =>
    apply init_account_ok in Ha as [K1 S1]; [|done|by rewrite Hd1] end.
  match goal with Ha : init_funding_wallet _ _ _ _ = _ |- _ =>
    apply init_wallet_ok in Ha as [K2 S2]; [|done|by destruct K1] end.
  match goal with Ha : init_node_key _ _ _ _ = _ |- _ =>
    apply init_key_ok in Ha as [K3 S3]; [|done|by destruct K2] end.
  rewrite Hd1 in K1. pose proof (keeps_trans _ _ _ K2 K3) as K23. split_and!.
  - apply (keeps_trans _ _ _ K1 K23).
  - intros R' w2 Ed Hio. apply signd_starts; [done|]. rewrite Ed. by apply (says_kept _ _ _ _ _ K23).
  - intros listens w2 r w3 Ed. apply lnpd_starts_with; rewrite Ed; [done|].
    by apply (says_kept _ _ _ _ _ K3).
Qed.
End init.
