(* ===== verification/Args.v ===== *)
(** * Daemons as processes and as threads

    The launcher's command lines ([src/lnpd/daemons.rs]), the options of the
    daemons ([src/opts.rs], [src/*/opts.rs], [src/peerd/config.rs]) and their
    executables ([src/bin/]), up to the call that runs the daemon. *)

From S2P Require Import Prelude.
From S2P Require Import Bus.
From S2P Require Import Text.
From S2P Require Import Service.
From S2P Require Import Files.
From S2P Require Import Config.
From S2P Require Import ChannelRuntime.
From S2P Require Import Wallet.
From S2P Require Import LnpdRuntime.
From S2P Require Import ListenAddr.
From S2P Require Import Lnpd.

Local Open Scope rust_scope.

(** ** The command line of a daemon *)

Section launcher.
Context `{Fmt}.
Context (slice_to_hex : Slice32 → string).

(** [std::env::args().skip(1).filter(..)]: what lnpd hands on of its own
    command line [env]. *)
Definition inherited (env : list string) : list string :=
  filter (λ arg, existsb (λ pat, String.prefix pat arg)
    ["--listen"; "--bolt"; "--bifrost"] = false) env.

Definition protocol_args (p : option Protocol) : list string :=
  match p with
  | Some Bolt => ["--bolt"]
  | Some Bifrost => ["--bifrost"]
  | None => []
  end.
Definition scheme (p : Protocol) : string :=
  match p with Bolt => "bolt://" | Bifrost => "bifrost://" end.

Definition daemon_args (d : Daemon) : list string :=
  match d with
  | PeerdBolt (PsListen (ip, port)) _ | PeerdBifrost (PsListen (ip, port)) _ =>
      ["--listen"; show_ip ip; "--port"; show_uint port]
  | PeerdBolt (PsConnect node_addr) _ => ["--connect"; scheme Bolt +:+ show_node_addr node_addr]
  | PeerdBifrost (PsConnect node_addr) _ =>
      ["--connect"; scheme Bifrost +:+ show_node_addr node_addr]
  | Channeld channel_id =>
      [slice_to_hex (as_slice32 channel_id)] ++
      match act_channel_id channel_id with Some _ => ["--reestablish"] | None => [] end
  | _ => []
  end.

Definition cmd_args (env : list string) (d : Daemon) : list string :=
  inherited env ++ protocol_args (daemon_protocol d) ++ daemon_args d.
End launcher.

(** ** What is run *)

Inductive FramingProtocol := Brontide | Brontozaur.

(** The call that runs a daemon, with its arguments; [peerd::Config] is the
    protocol. *)
Inductive Job `{Ext} :=
  | JobSignd (config : Config unit)
  | JobPeerd (config : Config Protocol) (threaded : bool) (framing : FramingProtocol)
      (local_node : NodeId) (socket : PeerSocket)
  | JobChanneld (config : Config unit) (channel_id : ActiveChannelId)
  | JobRouted (config : Config unit)
  | JobWatchd (config : Config unit).

Section run_impl.
Context `{Sys, !Fmt, !LnpCore, !WalletLib, !LnpdLib} {R : Type}.

Definition run_impl (d : Daemon) (config : Config unit) : W R Error Job :=
  match d with
  | Signd => mreturn (JobSignd config)
  | PeerdBolt socket key_file =>
      let! local_node := read_node_key_file key_file in
      let threaded := threaded config in
      let config := config_with config Bolt in
      mreturn (JobPeerd config threaded Brontide local_node socket)
  | PeerdBifrost socket key_file =>
      let threaded := threaded config in
      let! local_node := read_node_key_file key_file in
      let config := config_with config Bifrost in
      mreturn (JobPeerd config threaded Brontozaur local_node socket)
  | Channeld channel_id => mreturn (JobChanneld config channel_id)
  | Routed => mreturn (JobRouted config)
  | Watchd => mreturn (JobWatchd config)
  end.
End run_impl.

(** ** Options *)

Section options.
Context `{Ext}.

Record PeerdOpts := {
  po_listen : option (option N);
  po_connect : option LnpAddr;
  po_port : option N;
  po_bolt : bool;
  po_bifrost : bool;
  po_key_file : PathBuf;
  po_shared : SharedOpts }.
Record ChanneldOpts := {
  co_key_file : PathBuf;
  co_channel_id : ChannelId;
  co_reestablish : bool;
  co_shared : SharedOpts }.
End options.

(** The operating system's part: the expansion of paths and addresses
    ([shell_setup], [shell_expand_dir]). *)
Class Shell := {
  setup_shared : SharedOpts → SharedOpts;
  expand_key_file : SharedOpts → PathBuf → PathBuf }.

Section peerd_options.
Context `{Ext, !Shell, !AddrLib}.

Definition set_shared (key_file : PathBuf) (shared : SharedOpts) (o : PeerdOpts) : PeerdOpts := {|
  po_listen := po_listen o; po_connect := po_connect o; po_port := po_port o;
  po_bolt := po_bolt o; po_bifrost := po_bifrost o;
  po_key_file := key_file; po_shared := shared |}.

Definition peerd_process {S E} (o : PeerdOpts) : M S E PeerdOpts :=
  do! match po_connect o with
      | Some peer =>
          if (po_bolt o && bool_decide (la_protocol peer = Bifrost))
             || (po_bifrost o && bool_decide (la_protocol peer = Bolt))
          then mpanic "Provided connection address does not match P2P protocol flag"
          else mreturn tt
      | None => mreturn tt
      end in
  let shared := setup_shared (po_shared o) in
  mreturn (set_shared (expand_key_file shared (po_key_file o)) shared o).

Definition opts_protocol {S E} (o : PeerdOpts) : M S E Protocol :=
  if po_bolt o then mreturn Bolt
  else if po_bifrost o then mreturn Bifrost
  else match po_connect o with
       | Some peer => mreturn (la_protocol peer)
       | None => mpanic "internal error: entered unreachable code"
       end.

Definition opts_port {S E} (o : PeerdOpts) : M S E N :=
  let! protocol := opts_protocol o in
  mreturn (match protocol with Bifrost => bifrost_port | Bolt => bolt_port end).

Definition peer_socket {S E} (o : PeerdOpts) : M S E PeerSocket :=
  match po_connect o with
  | Some peer_addr => mreturn (PsConnect (la_node_addr peer_addr))
  | None =>
      match po_listen o with
      | Some bind_addr =>
          let! own_port := opts_port o in
          mreturn (PsListen (default ip_unspecified bind_addr, default own_port (po_port o)))
      | None => mpanic ("Either `connect` or `listen` must be present due to Clap "
                  +:+ "configuration")
      end
  end.

(** The rules of the option attributes that clap checks on what it has read:
    one of the group [action], [conflicts_with] and [required_unless_present_any]. *)
Definition peerd_valid (o : PeerdOpts) : bool :=
  let listen := bool_decide (is_Some (po_listen o)) in
  let connect := bool_decide (is_Some (po_connect o)) in
  xorb listen connect && negb (po_bolt o && po_bifrost o)
  && (po_bifrost o || connect || po_bolt o).
End peerd_options.

(** ** Executables *)

Section mains.
Context `{Sys, !Fmt, !LnpCore, !WalletLib, !LnpdLib, !AddrLib, !Shell} {R : Type}.

Definition peerd_main (opts : PeerdOpts) : W R Error Job :=
  let! opts := peerd_process opts in
  let! protocol := opts_protocol opts in
  let config := config_from (po_shared opts) protocol in
  let! local_node := read_node_key_file (po_key_file opts) in
  let! peer_socket := peer_socket opts in
  let framing_protocol := match ext config with Bolt => Brontide | Bifrost => Brontozaur end in
  mreturn (JobPeerd config (threaded config) framing_protocol local_node peer_socket).

Definition channeld_main (opts : ChanneldOpts) : W R Error Job :=
  let config := config_from (setup_shared (co_shared opts)) tt in
  let channel_id :=
    if co_reestablish opts then ActStatic (co_channel_id opts)
    else ActTemporary (MkTempChannelId (channel_into_inner (co_channel_id opts))) in
  mreturn (JobChanneld config channel_id).

Definition signd_main (opts : SharedOpts) : W R Error Job :=
  mreturn (JobSignd (config_from (setup_shared opts) tt)).
Definition routed_main (opts : SharedOpts) : W R Error Job :=
  mreturn (JobRouted (config_from (setup_shared opts) tt)).
Definition watchd_main (opts : SharedOpts) : W R Error Job :=
  mreturn (JobWatchd (config_from (setup_shared opts) tt)).
End mains.
