(* ===== verification/ArgsCorrect.v ===== *)
(** * A daemon process runs what a daemon thread runs

    The arguments lnpd gives to a process describe the daemon it would run in a
    thread. *)

From S2P Require Import Prelude.
From S2P Require Import Bus.
From S2P Require Import Text.
From S2P Require Import Service.
From S2P Require Import Files.
From S2P Require Import Config.
From S2P Require Import ChannelRuntime.
From S2P Require Import Wallet.
From S2P Require Import LnpdRuntime.
From S2P Require Import ListenAddr.
From S2P Require Import Lnpd.
From S2P Require Import Args.

Local Open Scope rust_scope.

(** ** Reading a command line

    clap, and the parsers of the values: what an argument list says before the
    rules between options are checked.  [None] is a refused command line. *)
Class Clap `{Ext} := {
  peerd_scan : list string → option PeerdOpts;
  (** key file, channel id, reestablish flag, shared options *)
  channeld_scan : list string → option (PathBuf * option ChannelId * bool * SharedOpts);
  shared_scan : list string → option SharedOpts;         (* signd, routed, watchd *)
  awaits_value : list string → bool;      (* the last option may take one more value *)
  ip_from_str : string → option N;
  lnp_addr_from_str : string → option LnpAddr;
  channel_id_from_hex : string → option ChannelId;
  slice_to_hex : Slice32 → string }.

Section processes.
Context `{Sys, !Fmt, !LnpCore, !WalletLib, !LnpdLib, !AddrLib, !Shell, !Clap} {R : Type}.

Definition refused : string := "error: invalid command line".

(** [Opts::parse] *)
Definition peerd_parse {S E} (args : list string) : M S E PeerdOpts :=
  match peerd_scan args with
  | Some o => if peerd_valid o then mreturn o else mpanic refused
  | None => mpanic refused
  end.
Definition channeld_parse {S E} (args : list string) : M S E ChanneldOpts :=
  match channeld_scan args with
  | Some (key_file, Some channel_id, reestablish, shared) => mreturn {|
      co_key_file := key_file; co_channel_id := channel_id;
      co_reestablish := reestablish; co_shared := shared |}
  | _ => mpanic refused
  end.
Definition shared_parse {S E} (args : list string) : M S E SharedOpts :=
  expect refused (shared_scan args).

(** The process of a daemon. *)
Definition run_process (bin : string) (args : list string) : W R Error Job :=
  if decide (bin = "peerd") then let! o := peerd_parse args in peerd_main o
  else if decide (bin = "channeld") then let! o := channeld_parse args in channeld_main o
  else if decide (bin = "signd") then let! o := shared_parse args in signd_main o
  else if decide (bin = "routed") then let! o := shared_parse args in routed_main o
  else if decide (bin = "watchd") then let! o := shared_parse args in watchd_main o
  else mpanic "no such executable".

(** ** Laws *)

Definition with_listen (ip : N) (o : PeerdOpts) : PeerdOpts := {|
  po_listen := Some (Some ip); po_connect := po_connect o; po_port := po_port o;
  po_bolt := po_bolt o; po_bifrost := po_bifrost o; po_key_file := po_key_file o;
  po_shared := po_shared o |}.
Definition with_connect (a : LnpAddr) (o : PeerdOpts) : PeerdOpts := {|
  po_listen := po_listen o; po_connect := Some a; po_port := po_port o;
  po_bolt := po_bolt o; po_bifrost := po_bifrost o; po_key_file := po_key_file o;
  po_shared := po_shared o |}.
Definition with_port (n : N) (o : PeerdOpts) : PeerdOpts := {|
  po_listen := po_listen o; po_connect := po_connect o; po_port := Some n;
  po_bolt := po_bolt o; po_bifrost := po_bifrost o; po_key_file := po_key_file o;
  po_shared := po_shared o |}.
Definition with_flag (p : Protocol) (o : PeerdOpts) : PeerdOpts := {|
  po_listen := po_listen o; po_connect := po_connect o; po_port := po_port o;
  po_bolt := match p with Bolt => true | Bifrost => po_bolt o end;
  po_bifrost := match p with Bifrost => true | Bolt => po_bifrost o end;
  po_key_file := po_key_file o; po_shared := po_shared o |}.

(** How clap reads each option the launcher appends, when the arguments before
    it do not have it. *)
Record clap_laws : Prop := {
  clap_flag args o p : peerd_scan args = Some o →
    match p with Bolt => po_bolt o | Bifrost => po_bifrost o end = false →
    peerd_scan (args ++ protocol_args (Some p)) = Some (with_flag p o);
  clap_listen args o text ip : peerd_scan args = Some o → po_listen o = None →
    ip_from_str text = Some ip →
    peerd_scan (args ++ ["--listen"; text]) = Some (with_listen ip o);
  clap_port args o text n : peerd_scan args = Some o → po_port o = None →
    parse_uint u16_max text = Some n →
    peerd_scan (args ++ ["--port"; text]) = Some (with_port n o);
  clap_connect args o text a : peerd_scan args = Some o → po_connect o = None →
    lnp_addr_from_str text = Some a →
    peerd_scan (args ++ ["--connect"; text]) = Some (with_connect a o);
  clap_channel_id args key_file reestablish shared text c :
    channeld_scan args = Some (key_file, None, reestablish, shared) →
    awaits_value args = false → channel_id_from_hex text = Some c →
    channeld_scan (args ++ [text]) = Some (key_file, Some c, reestablish, shared);
  clap_reestablish args key_file channel_id shared :
    channeld_scan args = Some (key_file, channel_id, false, shared) →
    channeld_scan (args ++ ["--reestablish"]) = Some (key_file, channel_id, true, shared) }.

(** The text of the daemon's address or channel is read back by its parser. *)
Definition readable (d : Daemon) : Prop :=
  match d with
  | PeerdBolt (PsListen (ip, port)) _ | PeerdBifrost (PsListen (ip, port)) _ =>
      ip_from_str (show_ip ip) = Some ip ∧ (port ≤ u16_max)%N
  | PeerdBolt (PsConnect a) _ =>
      lnp_addr_from_str (scheme Bolt +:+ show_node_addr a)
        = Some {| la_node_addr := a; la_protocol := Bolt |}
  | PeerdBifrost (PsConnect a) _ =>
      lnp_addr_from_str (scheme Bifrost +:+ show_node_addr a)
        = Some {| la_node_addr := a; la_protocol := Bifrost |}
  | Channeld id =>
      channel_id_from_hex (slice_to_hex (as_slice32 id)) = Some (MkChannelId (as_slice32 id))
  | _ => True
  end.

(** What lnpd hands on of its own arguments: the shared options and the key
    file, and nothing that is an option of the daemon only. *)
Definition only_shared (args : list string) (key_file : PathBuf) (shared : SharedOpts)
    (d : Daemon) : Prop :=
  match d with
  | PeerdBolt _ _ | PeerdBifrost _ _ => peerd_scan args = Some {|
      po_listen := None; po_connect := None; po_port := None; po_bolt := false;
      po_bifrost := false; po_key_file := key_file; po_shared := shared |}
  | Channeld _ =>
      channeld_scan args = Some (key_file, None, false, shared) ∧ awaits_value args = false
  | _ => shared_scan args = Some shared
  end.

(** ** Command lines of peerd *)

Definition peerd_opts (p : Protocol) (socket : PeerSocket) (key_file : PathBuf)
    (shared : SharedOpts) : PeerdOpts := {|
  po_listen := match socket with PsListen (ip, _) => Some (Some ip) | PsConnect _ => None end;
  po_connect := match socket with
                | PsConnect a => Some {| la_node_addr := a; la_protocol := p |}
                | PsListen _ => None
                end;
  po_port := match socket with PsListen (_, port) => Some port | PsConnect _ => None end;
  po_bolt := bool_decide (p = Bolt);
  po_bifrost := bool_decide (p = Bifrost);
  po_key_file := key_file;
  po_shared := shared |}.

Definition peerd_daemon (p : Protocol) (socket : PeerSocket) (key_file : PathBuf) : Daemon :=
  match p with Bolt => PeerdBolt socket key_file | Bifrost => PeerdBifrost socket key_file end.

Lemma peerd_args_parsed env p socket key key_file shared {S} (s : S) {E} :
  clap_laws → readable (peerd_daemon p socket key_file) →
  only_shared (inherited env) key shared (peerd_daemon p socket key_file) →
  peerd_parse (E:=E) (cmd_args slice_to_hex env (peerd_daemon p socket key_file)) s
    = (Ok (peerd_opts p socket key shared), s).
Proof.
  intros Hl Hr Hs. unfold peerd_parse, cmd_args.
  assert (Hb : peerd_scan (inherited env ++ protocol_args (Some p)) =
    Some (with_flag p {| po_listen := None; po_connect := None; po_port := None;
      po_bolt := false; po_bifrost := false; po_key_file := key; po_shared := shared |})).
  { apply (clap_flag Hl); destruct p; done. }
  destruct socket as [[ip port]|a].
  - assert (Ht : ip_from_str (show_ip ip) = Some ip ∧ (port ≤ u16_max)%N) by (by destruct p).
    destruct Ht as [Hip Hport].
    pose proof (clap_listen Hl _ _ _ ip Hb eq_refl Hip) as H1'.
    pose proof (clap_port Hl _ _ _ port H1' eq_refl (parse_show_uint _ _ Hport)) as H2'.
    rewrite <- !app_assoc in H2'. destruct p; simpl in *; by rewrite H2'.
  - assert (Ht : lnp_addr_from_str (scheme p +:+ show_node_addr a) =
      Some {| la_node_addr := a; la_protocol := p |}) by (by destruct p).
    pose proof (clap_connect Hl _ _ _ _ Hb eq_refl Ht) as H1'.
    rewrite <- !app_assoc in H1'. destruct p; simpl in *; by rewrite H1'.
Qed.

Lemma peerd_main_job p socket key shared (w : World R) :
  peerd_main (peerd_opts p socket key shared) w =
  run_impl (peerd_daemon p socket (expand_key_file (setup_shared shared) key))
    (config_from (setup_shared shared) tt) w.
Proof.
  unfold peerd_main, peerd_process. destruct p, socket as [[ip port]|a]; simpl;
    unfold bind, mreturn; simpl; by destruct (read_node_key_file _ w) as [[]?].
Qed.

(** C11. A daemon that lnpd starts as a process runs exactly what lnpd would run in a
    thread: given the arguments that lnpd composes, the executable of the daemon reads
    them, ends up in the call of the daemon's runtime with the same configuration, node
    key, socket, framing or channel as the thread, and panics where it does, as long as
    the arguments of lnpd that are handed on are options shared by all daemons and, for
    the daemons that have one, the key file. *)
Theorem process_runs_what_a_thread_runs d env key_file shared (w : World R) :
  clap_laws → readable d → only_shared (inherited env) key_file shared d →
  match d with
  | PeerdBolt _ k | PeerdBifrost _ k => k = expand_key_file (setup_shared shared) key_file
  | _ => True
  end →
  run_process (bin_name d) (cmd_args slice_to_hex env d) w =
  run_impl d (config_from (setup_shared shared) tt) w.
Proof.
  intros Hl Hr Hs Hk. destruct d as [|socket k|socket k|id| |]; unfold run_process; simpl bin_name.
  - simpl. unfold cmd_args, shared_parse. simpl. rewrite app_nil_r, Hs. done.
  - subst k. change (PeerdBolt ?s ?k) with (peerd_daemon Bolt s k) in *.
    rewrite decide_True by done.
    by rewrite (bind_ok _ _ _ _ _ (peerd_args_parsed _ _ _ _ _ _ _ Hl Hr Hs)), peerd_main_job.
  - subst k. change (PeerdBifrost ?s ?k) with (peerd_daemon Bifrost s k) in *.
    rewrite decide_True by done.
    by rewrite (bind_ok _ _ _ _ _ (peerd_args_parsed _ _ _ _ _ _ _ Hl Hr Hs)), peerd_main_job.
  - simpl. destruct Hs as [Hs Ha]. unfold cmd_args, channeld_parse. simpl.
    pose proof (clap_channel_id Hl _ _ _ _ _ _ Hs Ha Hr) as H1'.
    destruct id as [[t]|[c]]; simpl in *; [by rewrite H1'|].
    apply (clap_reestablish Hl) in H1'. rewrite <- app_assoc in H1'. simpl in H1'. by rewrite H1'.
  - simpl. unfold cmd_args, shared_parse. simpl. rewrite app_nil_r, Hs. done.
  - simpl. unfold cmd_args, shared_parse. simpl. rewrite app_nil_r, Hs. done.
Qed.

(** The values of the options that are filtered out are handed on, and so is
    the short form of [--listen]. *)
Lemma filtered_values_stay addr :
  existsb (λ pat, String.prefix pat addr) ["--listen"; "--bolt"; "--bifrost"] = false →
  inherited ["--listen"; addr] = [addr] ∧ inherited ["-L"; addr] = ["-L"; addr].
Proof.
  intros Ha. unfold inherited. rewrite !filter_cons. simpl in *. rewrite Ha. done.
Qed.
End processes.
