(* ===== verification/Daemons.v ===== *)
(** * Daemons working together

    What one daemon sends, handled by the daemon it is for: lnpd and signd
    during the launch of a channel, the two ends of a channel when it takes its
    permanent id, routed and the channel daemon for a payment. *)

From S2P Require Import Prelude.
From S2P Require Import Bus.
From S2P Require Import Service.
From S2P Require Import Files.
From S2P Require Import Config.
From S2P Require Import ChannelRuntime.
From S2P Require Import Propose.
From S2P Require Import Accept.
From S2P Require Import Machine.
From S2P Require Import ChannelFacts.
From S2P Require Import ChannelCorrect.
From S2P Require Import Wallet.
From S2P Require Import WalletCorrect.
From S2P Require Import Rpc.
From S2P Require Import LnpdRuntime.
From S2P Require Import Launch.
From S2P Require Import Lnpd.
From S2P Require Import LnpdFacts.
From S2P Require Import LnpdSafety.
From S2P Require Import LnpdCorrect.
From S2P Require Import Peerd.
From S2P Require Import PeerdCorrect.
From S2P Require Import Routed.
From S2P Require Import RoutedCorrect.
From S2P Require Import Signd.
From S2P Require Import SigndCorrect.

Local Open Scope rust_scope.

(** ** lnpd and signd *)

Section signing.
Context `{Sys, !Fmt, !LnpCore, !StateCodec, !WalletLib, !WalletCodec, !LnpdLib, !Build, !SignLib}.

Lemma report_progress_inv c r w u w' :
  report_progress_or_failure c r w = (Ok u, w') →
  (∃ s, r = inr s) ∧ rt w' = rt w ∧ sent (hist w) ⊆ sent (hist w') ∧
  launched (hist w') = launched (hist w).
Proof.
  unfold report_progress_or_failure.
  destruct (tell_client_run (E:=LaunchError) c
    (match r with inr val => RpcProgress val | inl err => RpcFailure (failure_of_launch err) end) w)
    as [ok E]. rewrite (bind_ok _ _ _ _ _ E).
  destruct r as [e|s]; [done|]. intros [= <- <-]. split; [by eexists|]. split; [done|].
  simpl. rewrite sent_app, launched_app, app_nil_r. split; [set_solver|done].
Qed.

Definition derive_request (t : TempChannelId) : Envelope := {|
  env_bus := BusIdCtl; env_src := LnpBroker; env_dest := Signer;
  env_msg := BusCtl (CtlDeriveKeyset (temp_into_inner t)) |}.

Lemma launcher_with_inv c req w l w' :
  launcher_with c req w = (Ok l, w') →
  l = ClInit (random_temp_id (hist w)) req c ∧ rt w' = rt w ∧
  derive_request (random_temp_id (hist w)) ∈ sent (hist w') ∧
  launched (hist w') = launched (hist w) ++ [Channeld (ActTemporary (random_temp_id (hist w)))].
Proof.
  unfold launcher_with, attempt_from, self. intros E. run_inv E.
  apply report_progress_inv in Hrun0 as ([? Hx] & E2 & _ & El2).
  apply report_progress_inv in Hrun2 as ([? Hx3] & E3 & Hsent & El3).
  apply attempt_inv in Hrun, Hrun1. destruct x3 as [|[]]; [done|]. destruct x as [|h]; [done|].
  apply q_inv in Hrun, Hrun1. unfold launch_daemon, exec_daemon in Hrun.
  apply query_ok in Hrun as [_ ->]. split; [done|].
  unfold send_to, perform in Hrun1. destruct (esb_reply _ _); [done|]. injection Hrun1 as <-.
  split; [by rewrite E3; simpl; rewrite E2|]. rewrite El3. simpl.
  rewrite launched_app, El2. simpl. rewrite launched_app, app_nil_r. split; [|done].
  apply Hsent. simpl. rewrite sent_app. set_solver.
Qed.

Lemma taken k l src w :
  l_creating (rt w) !! k = Some l →
  take_launcher k src w = (Ok l, with_rt (map_creating (delete k)) w).
Proof. intros E. by rewrite take_launcher_run, E. Qed.

Lemma next_keyset fuel t req c k keys w : ∃ ok,
  next_launcher fuel (ClInit t req c) Signer (CtlKeyset k keys) w =
    (Ok (ClLaunching t req c keys), record_op (OpSend {| env_bus := BusIdRpc;
      env_src := LnpBroker; env_dest := Client c;
      env_msg := BusRpc (RpcProgress "Key derivation complete") |}) ok w).
Proof.
  unfold next_launcher, self. rewrite bind_gets. unfold launcher_next, launcher_stage. simpl.
  unfold complete_derivation. rewrite bool_decide_eq_true_2 by done.
  unfold debug_assert. simpl. rewrite andb_false_r. unfold launch_report_progress.
  destruct (tell_client_run (E:=LaunchError) c (RpcProgress "Key derivation complete") w)
    as [ok Et]. exists ok. unfold bind, q. simpl. by rewrite Et.
Qed.

Lemma keyset_completes_init fuel k t req c keys w :
  l_creating (rt w) !! k = Some (ClInit t req c) →
  ∃ w', lnpd_handle fuel BusIdCtl Signer (BusCtl (CtlKeyset k keys)) w = (Ok tt, w') ∧
    l_creating (rt w') !! k = Some (ClLaunching t req c keys).
Proof.
  intros E. simpl. rewrite (bind_ok _ _ _ _ _ (taken _ _ k _ E)).
  set (w1 := with_rt _ w). destruct (next_keyset fuel t req c k keys w1) as [ok En].
  rewrite (bind_ok _ _ _ _ _ En). eexists. split; [done|]. simpl. by rewrite lookup_insert_eq.
Qed.

(** A channel daemon announces itself under the service id of its channel. *)
Lemma hello_of_channeld config t w r w' (wd : World Runtime) :
  run config (ActTemporary t) w = (Ok r, w') → rt wd = r →
  attempted (hist (run_loop_start false wd).2) = attempted (hist wd) ++ [{|
    env_bus := BusIdCtl; env_src := service_of_temp t; env_dest := LnpBroker;
    env_msg := BusCtl CtlHello |}].
Proof.
  intros E Hwd. unfold run in E. run_inv E. unfold run_loop_start, self, send_to, perform.
  unfold bind, gets, q. simpl. rewrite Hwd. simpl.
  destruct (esb_reply _ _); simpl; by rewrite attempted_app.
Qed.

(** The only successful reply to a derivation request. *)
Lemma keyset_answered ws ws' s reply :
  hardening_law →
  signd_handle BusIdCtl LnpBroker (BusCtl (CtlDeriveKeyset s)) ws = (Ok tt, ws') →
  sent (hist ws') = sent (hist ws) ++ [reply] →
  ∃ keys, derivation (rt ws) s = Some (inr keys) ∧
    reply = reply_to LnpBroker (CtlKeyset (ChannelSvc (MkChannelId s)) keys).
Proof.
  intros Hlaw E Hsent. pose proof (handle_ctl_answers LnpBroker (CtlDeriveKeyset s) ws Hlaw) as (_ & Ha).
  simpl in E. destruct (signd_handle_ctl LnpBroker (CtlDeriveKeyset s) ws) as [[[]|e|p] w1] eqn:Ec.
  - rewrite (bind_ok _ _ _ _ _ (attempt_ok _ _ _ _ Ec)) in E. injection E as <-. simpl in Ha.
    destruct (derivation _ _) as [[e|keys]|]; simpl in Ha.
    + done.
    + destruct Ha as [_ Ha]. rewrite Ha in Hsent. apply app_inj_tail in Hsent as [_ <-]. eauto.
    + injection Ha as ->. apply (f_equal length) in Hsent. rewrite length_app in Hsent. simpl in Hsent. lia.
  - rewrite (bind_ok _ _ _ _ _ (attempt_err _ _ _ _ Ec)) in E. run_inv E.
  - by rewrite (bind_panic _ _ _ _ _ (attempt_panic _ _ _ _ Ec)) in E.
Qed.

(** C24. After a client's request to open a channel, lnpd has started the daemon of a
    channel with the temporary id it generated, waits under the very service id under
    which this daemon says hello, and has asked signd for the keyset of the id; the
    reply of signd, when it succeeds, is the keyset derived from this id, and is handled
    by exactly this launch, which goes on with these keys. *)
Theorem keyset_reaches_its_launch fuel c req wl wl1 :
  hardening_law →
  lnpd_handle fuel BusIdRpc (Client c) (BusRpc (RpcCreateChannel req)) wl = (Ok tt, wl1) →
  let t := random_temp_id (hist wl) in
  l_creating (rt wl1) !! service_of_temp t = Some (ClInit t req c) ∧
  derive_request t ∈ sent (hist wl1) ∧
  launched (hist wl1) = launched (hist wl) ++ [Channeld (ActTemporary t)] ∧
  (∀ config w r w' (wd : World Runtime),
     run config (ActTemporary t) w = (Ok r, w') → rt wd = r →
     attempted (hist (run_loop_start false wd).2) = attempted (hist wd) ++ [{|
       env_bus := BusIdCtl; env_src := service_of_temp t; env_dest := LnpBroker;
       env_msg := BusCtl CtlHello |}]) ∧
  ∀ ws ws' reply,
    signd_handle BusIdCtl LnpBroker (env_msg (derive_request t)) ws = (Ok tt, ws') →
    sent (hist ws') = sent (hist ws) ++ [reply] →
    ∃ keys wl2,
      derivation (rt ws) (temp_into_inner t) = Some (inr keys) ∧
      reply = reply_to LnpBroker (CtlKeyset (service_of_temp t) keys) ∧
      lnpd_handle fuel (env_bus reply) (env_src reply) (env_msg reply) wl1 = (Ok tt, wl2) ∧
      l_creating (rt wl2) !! service_of_temp t = Some (ClLaunching t req c keys).
Proof.
  intros Hlaw E. simpl in E. run_inv E. apply launcher_with_inv in Hrun as (-> & Er & Hs & El).
  injection E as <-. set (t := random_temp_id _) in *.
  unfold service_of_temp, channel_id_from_temp. simpl.
  split; [by rewrite lookup_insert_eq|]. split; [done|]. split; [done|]. split.
  { intros config w r w' wd Erun Hwd. by apply (hello_of_channeld config t w r w'). }
  intros ws ws' reply Es Hsent.
  destruct (keyset_answered ws ws' _ reply Hlaw Es Hsent) as (keys & Ed & ->).
  edestruct keyset_completes_init as (wl2 & E2 & Ec);
    [|exists keys, wl2; split_and!; [exact Ed|done|exact E2|exact Ec]].
  simpl. by rewrite lookup_insert_eq.
Qed.
(** ** A failed request of lnpd to signd *)

Definition no_launcher_for (s : ServiceId) : string :=
  "unregistered channel launcher for " +:+ show_service_id s.

(** No launcher is registered under lnpd itself. *)
Lemma broker_has_no_launcher r : registries_ok r → l_creating r !! LnpBroker = None.
Proof.
  intros [Hc _]. destruct (l_creating r !! LnpBroker) as [l|] eqn:E; [|done].
  by destruct (Hc _ _ E) as [? _].
Qed.

Lemma error_to_broker_panics fuel src request error w :
  registries_ok (rt w) →
  lnpd_handle fuel BusIdCtl src (BusCtl (CtlError LnpBroker request error)) w =
    (Panic (no_launcher_for LnpBroker), w).
Proof.
  intros HI. simpl. unfold handle_error.
  rewrite (bind_panic _ _ _ (no_launcher_for LnpBroker) w); [done|].
  by rewrite take_launcher_run, broker_has_no_launcher.
Qed.

Definition lnpd_started (w0 : World Lnpd) : Prop :=
  l_creating (rt w0) = ∅ ∧ l_funding (rt w0) = ∅.

Lemma started_registries fuel w0 w :
  outpoint_of_psbt → (∀ a, socket_of_inet (inet_of_socket a) = Some a) →
  lnpd_started w0 → lnpd_reaches fuel w0 w → registries_ok (rt w).
Proof.
  intros Hlaw Hsock [Hc Hf] Hr. eapply lnpd_reaches_ok; [done|done| |done].
  by split; rewrite ?Hc, ?Hf.
Qed.

Lemma refused_reply src msg ws e :
  hardening_law → answer (rt ws) msg = Some (inl e) →
  attempted (hist (signd_handle BusIdCtl src (BusCtl msg) ws).2)
    = attempted (hist ws) ++ [error_reply src msg e].
Proof.
  intros Hhard Ha. pose proof (handle_ctl_answers src msg ws Hhard) as (_ & Hd). rewrite Ha in Hd.
  simpl. rewrite (bind_ok _ _ _ _ _ (attempt_err _ _ _ _ Hd)). unfold self. rewrite bind_gets.
  unfold send_to, perform, bind, q. simpl.
  destruct (esb_reply _ _); simpl; by rewrite attempted_app.
Qed.

(** When signd cannot serve a request of lnpd (signing fails, derivation fails, the
    message is not supported), the error message it sends back names lnpd itself as the
    service that failed, and lnpd, in every state it can reach, panics on it: no launch
    is ever registered under lnpd's own id. *)
Theorem signd_failure_crashes_lnpd fuel w0 wl ws msg e :
  outpoint_of_psbt → (∀ a, socket_of_inet (inet_of_socket a) = Some a) → hardening_law →
  lnpd_started w0 → lnpd_reaches fuel w0 wl →
  answer (rt ws) msg = Some (inl e) →
  ∃ reply,
    attempted (hist (signd_handle BusIdCtl LnpBroker (BusCtl msg) ws).2)
      = attempted (hist ws) ++ [reply] ∧
    env_dest reply = LnpBroker ∧
    lnpd_handle fuel (env_bus reply) (env_src reply) (env_msg reply) wl
      = (Panic (no_launcher_for LnpBroker), wl).
Proof.
  intros Hlaw Hsock Hhard Hs Hr Ha. exists (error_reply LnpBroker msg e).
  split_and!; [by apply refused_reply|done|].
  by apply error_to_broker_panics, (started_registries fuel w0).
Qed.

Lemma next_launcher_hist fuel l src msg w :
  hist (next_launcher fuel l src msg w).2
    = hist (launcher_next fuel l (event_with LnpBroker src msg) w).2.
Proof.
  unfold next_launcher, self. rewrite bind_gets. unfold bind, q. simpl.
  by destruct (launcher_next _ _ _ w) as [[[]| |] ?].
Qed.

Lemma early_hello_request fuel t req e keys wl :
  l_creating (rt wl) !! service_of_temp t = Some (ClDeriving t req e) →
  {| env_bus := BusIdCtl; env_src := LnpBroker; env_dest := Signer;
     env_msg := BusCtl (CtlOpenChannelWith (open_request (l_params (rt wl)) req keys)) |}
    ∈ attempted (hist (lnpd_handle fuel BusIdCtl Signer
                         (BusCtl (CtlKeyset (service_of_temp t) keys)) wl).2).
Proof.
  intros El. simpl. rewrite (bind_ok _ _ _ _ _ (taken _ _ (service_of_temp t) _ El)).
  set (w1 := with_rt _ wl). set (ev := event_with LnpBroker Signer (CtlKeyset (service_of_temp t) keys)).
  destruct (deriving_requests fuel ev t req e w1 _ keys eq_refl eq_refl) as (ops & Eh & Eo).
  pose proof (next_launcher_hist fuel (ClDeriving t req e) Signer
    (CtlKeyset (service_of_temp t) keys) w1) as En.
  assert (hist (bind (next_launcher fuel (ClDeriving t req e) Signer
      (CtlKeyset (service_of_temp t) keys)) (λ l, update (map_creating <[service_of_temp t:=l]>)) w1).2
    = hist wl ++ ops) as ->.
  { unfold bind. destruct (next_launcher _ _ _ _ w1) as [[] w2]; simpl in *; by rewrite En. }
  rewrite attempted_app. apply elem_of_app. right. unfold open_requests in Eo.
  assert (request_of ev w1 req keys ∈ [request_of ev w1 req keys]) as Hin by apply list_elem_of_here.
  rewrite <-Eo in Hin. apply list_elem_of_omap in Hin as (env & Hin & He).
  destruct (env_msg env) as [| |[]|]; try done. by injection He as ->.
Qed.

(** When the channel daemon says hello before signd has answered, the keyset makes
    lnpd send the request to open the channel to signd, and the error with which signd
    refuses it makes lnpd panic. *)
Theorem early_hello_crashes_lnpd fuel w0 wl ws t req e keys :
  outpoint_of_psbt → (∀ a, socket_of_inet (inet_of_socket a) = Some a) → hardening_law →
  lnpd_started w0 → lnpd_reaches fuel w0 wl →
  l_creating (rt wl) !! service_of_temp t = Some (ClDeriving t req e) →
  let keyset := CtlKeyset (service_of_temp t) keys in
  let call := lnpd_handle fuel BusIdCtl Signer (BusCtl keyset) wl in
  let request := CtlOpenChannelWith (open_request (l_params (rt wl)) req keys) in
  {| env_bus := BusIdCtl; env_src := LnpBroker; env_dest := Signer; env_msg := BusCtl request |}
    ∈ attempted (hist call.2) ∧
  ∃ reply,
    attempted (hist (signd_handle BusIdCtl LnpBroker (BusCtl request) ws).2)
      = attempted (hist ws) ++ [reply] ∧
    ((∀ p, call.1 ≠ Panic p) →
     lnpd_handle fuel (env_bus reply) (env_src reply) (env_msg reply) call.2
       = (Panic (no_launcher_for LnpBroker), call.2)).
Proof.
  intros Hlaw Hsock Hhard Hs Hr El keyset call request. split.
  - exact (early_hello_request fuel t req e keys wl El).
  - eexists. split; [by apply refused_reply|]. intros Hp.
    apply error_to_broker_panics, (started_registries fuel w0); [done..|].
    eapply lr_step; [done| |exact Hp]. apply surjective_pairing.
Qed.
End signing.

(** ** The two ends of a channel *)

Section channel.
Context `{Sys, !LnpCore, !StateCodec, !Fmt}.

Lemma respects_run {S E A} (R : relation S) (m : M S E A) s r s' :
  respects R m → m s = (r, s') → R s s'.
Proof. intros Hm E1. specialize (Hm s). by rewrite E1 in Hm. Qed.

Lemma sent_prefix h h' : h `prefix_of` h' → sent h ⊆ sent h'.
Proof. intros [k ->]. rewrite sent_app. set_solver. Qed.

(** A message that moved the machine was handled by [process_event]; what is
    done after that only touches the state file. *)
Lemma process_moved src req w b w' :
  process src req w = (Ok b, w') → r_machine (rt w') ≠ r_machine (rt w) →
  ∃ ev w0 w1, rt w0 = rt w ∧ ev_message ev = req ∧ process_event ev w0 = (Ok tt, w1) ∧
    hist w1 `prefix_of` hist w' ∧
    ∀ T (f : Runtime → T), (∀ h r, f r = f (set_file h r)) → f (rt w') = f (rt w1).
Proof.
  intros E Hm. destruct (process_spec src req w) as (w0 & ev & E0 & _ & _ & Em & _ & Hs).
  exists ev, w0. pose proof (process_event_step ev w0) as Hstep. unfold wp in Hstep.
  destruct (process_event ev w0) as [[[]|e|p] w1] eqn:Ev; simpl in Hstep.
  - destruct Hs as (w2 & E2 & (ops & Eh & _) & Hp). exists w1. rewrite Hp in E. run_inv E.
    split_and!; [done..| |].
    + apply (respects_run (same r_machine)) in Hrun as [_ Hpre]; [|by apply save_state_same].
      etrans; [|exact Hpre]. rewrite Eh. by apply prefix_app_r.
    + intros T f Hf. apply (respects_run (same f)) in Hrun as [Ef _]; [|by apply save_state_same].
      by rewrite <-Ef, E2.
  - exfalso. destruct Hs as (w2 & E2 & _ & Hp). rewrite Hp in E. apply Hm.
    destruct e; injection E as _ <-; congruence.
  - by rewrite Hs in E.
Qed.

Lemma set_identity_inv id w u w' :
  set_identity id w = (Ok u, w') → r_identity (rt w') = ChannelSvc id.
Proof.
  unfold set_identity. intros E. run_inv E.
  match goal with
  | Hu : update (set_r_identity _) _ = _, Hr : file_remove _ _ = _ |- _ =>
      injection Hu as _ <-;
      apply (respects_run (same r_identity)) in Hr as [Er _]; [by rewrite <-Er|]
  end.
  auto with respects.
Qed.

Definition p2p_envelope (r : Runtime) (n : NodeId) (m : LnMsg) : Envelope := {|
  env_bus := BusIdMsg; env_src := r_identity r; env_dest := PeerBolt n; env_msg := BusBolt m |}.

Lemma send_p2p_inv m w u w' :
  send_p2p m w = (Ok u, w') →
  rt w' = rt w ∧ ∃ n, r_remote (rt w) = Some n ∧
  hist w' = hist w ++ [(OpSend (p2p_envelope (rt w) n m), true)].
Proof.
  unfold send_p2p, self. intros E. run_inv E. unfold send_to, perform in E.
  destruct (esb_reply _ _); [done|]. injection E as <- <-. split; [done|]. eauto.
Qed.
(** A successful step of the machine, outside re-establishment. *)
Lemma process_event_inv ev w u w' :
  (∀ m, ev_message ev ≠ BusBolt (LnChannelReestablish m)) →
  process_event ev w = (Ok u, w') →
  ∃ m w1, advance ev w = (Ok m, w1) ∧ w' = with_rt (set_machine m) w1.
Proof.
  intros Hm E. unfold process_event in E.
  assert ((let? m := advance ev in update (set_machine m) : CW ChanError unit) w = (Ok u, w')) as E'.
  { destruct (ev_message ev) as [[]| | |] eqn:Em; try exact E. by destruct (Hm m). }
  run_inv E'. injection E' as _ <-. eauto.
Qed.

(** [m] was sent to the remote peer under the identity [id]. *)
Definition told_peer (id : ChannelId) (m : LnMsg) (w : World Runtime) : Prop :=
  r_identity (rt w) = ChannelSvc id ∧
  ∃ n, {| env_bus := BusIdMsg; env_src := ChannelSvc id; env_dest := PeerBolt n;
          env_msg := BusBolt m |} ∈ sent (hist w).

Lemma send_p2p_told id m w u w' :
  r_identity (rt w) = ChannelSvc id → send_p2p m w = (Ok u, w') → told_peer id m w'.
Proof.
  intros Ei E. apply send_p2p_inv in E as (Er & n & _ & Eh). unfold told_peer.
  rewrite Er. split; [done|]. exists n. rewrite Eh, sent_app. apply elem_of_app. right.
  simpl. unfold p2p_envelope. rewrite Ei. apply list_elem_of_here.
Qed.

Definition id_of_funding (f : FundingCreated) : ChannelId :=
  channel_id_with (fc_funding_txid f) (fc_funding_output_index f).

Lemma complete_signing_inv ev psbt w p w' :
  ev_message ev = BusCtl (CtlSigned psbt) → complete_signing ev w = (Ok p, w') →
  ∃ f, fc_funding_txid f = funding_txid (r_channel (rt w)) ∧
    fc_funding_output_index f = funding_output (r_channel (rt w)) ∧
    told_peer (id_of_funding f) (LnFundingCreated f) w'.
Proof.
  intros Em E. unfold complete_signing, self in E. rewrite Em in E. run_inv E.
  eexists. split_and!; [| |eapply send_p2p_told; [|exact Hrun1]]; [done|done|].
  apply set_identity_inv in Hrun.
  apply (respects_run (same r_identity)) in Hrun0 as [Er _]; [|auto with respects].
  by rewrite <-Er, Hrun.
Qed.

Lemma finish_signed_inv ev f w a w' :
  ev_message ev = BusBolt (LnFundingCreated f) → finish_signed ev w = (Ok a, w') →
  told_peer (id_of_funding f)
    (LnFundingSigned {| fs_channel_id := id_of_funding f; fs_signature := fc_signature f |}) w'.
Proof.
  intros Em E. unfold finish_signed, self in E. rewrite Em in E. run_inv E.
  eapply send_p2p_told; [|eassumption].
  apply set_identity_inv in Hrun.
  apply (respects_run (same r_identity)) in Hrun0 as [Er _]; [|auto with respects].
  apply (respects_run (same r_identity)) in Hrun1 as [Er' _]; [|auto with respects].
  by rewrite <-Er', <-Er, Hrun.
Qed.

(** Around the step of the machine, nothing changes who was told what. *)
Lemma told_peer_kept id m w w' :
  r_identity (rt w') = r_identity (rt w) → hist w `prefix_of` hist w' →
  told_peer id m w → told_peer id m w'.
Proof.
  intros Ei Hp (Hi & n & Hn). split; [congruence|]. exists n. by apply (sent_prefix _ _ Hp).
Qed.

Lemma handled_in_stage src req w b w' (P : ChannelId → LnMsg → Prop) :
  process src req w = (Ok b, w') → r_machine (rt w') ≠ r_machine (rt w) →
  (∀ m, req ≠ BusBolt (LnChannelReestablish m)) →
  (∀ ev w0 m' w1, rt w0 = rt w → ev_message ev = req → advance ev w0 = (Ok m', w1) →
     ∃ id m, P id m ∧ told_peer id m w1) →
  ∃ id m, P id m ∧ told_peer id m w'.
Proof.
  intros E Hne Hm Ht.
  destruct (process_moved _ _ _ _ _ E Hne) as (ev & w0 & w1 & E0 & Em & Ee & Hp & Hf).
  apply process_event_inv in Ee as (m' & w2 & Ea & ->); [|by rewrite Em].
  destruct (Ht ev w0 m' w2 E0 Em Ea) as (id & m & HP & Hm2). exists id, m. split; [done|].
  eapply told_peer_kept; [by apply Hf|exact Hp|].
  by eapply (told_peer_kept _ _ w2).
Qed.

(** What the two handlers of this exchange tell the other end. *)
Definition creates_funding (c : Channel) (id : ChannelId) (m : LnMsg) : Prop :=
  ∃ f, m = LnFundingCreated f ∧ id = id_of_funding f ∧
    fc_funding_txid f = funding_txid c ∧ fc_funding_output_index f = funding_output c.
Definition signs_funding (f : FundingCreated) (id : ChannelId) (m : LnMsg) : Prop :=
  id = id_of_funding f ∧
  m = LnFundingSigned {| fs_channel_id := id_of_funding f; fs_signature := fc_signature f |}.

Lemma opener_tells src psbt w b w' :
  process src (BusCtl (CtlSigned psbt)) w = (Ok b, w') →
  r_machine (rt w) = CsPropose PrSigning → r_machine (rt w') = CsPropose PrFunding →
  ∃ id m, creates_funding (r_channel (rt w)) id m ∧ told_peer id m w'.
Proof.
  intros E Hm Hm'. eapply handled_in_stage; [exact E|by rewrite Hm, Hm'|done|].
  intros ev w0 m' w1 E0 Em Ea. unfold advance, self in Ea. rewrite bind_gets, E0, Hm in Ea.
  unfold process_propose, propose_next in Ea. run_inv Ea.
  match goal with Hc : complete_signing _ _ = _ |- _ =>
    destruct (complete_signing_inv _ _ _ _ _ Em Hc) as (f & Ht & Ho & Htold) end.
  exists (id_of_funding f), (LnFundingCreated f). split; [|done].
  exists f. by rewrite <-E0.
Qed.

Lemma acceptor_tells src f w b w' :
  process src (BusBolt (LnFundingCreated f)) w = (Ok b, w') →
  r_machine (rt w) = CsAccept AcSigned → r_machine (rt w') = CsAccept AcFunded →
  ∃ id m, signs_funding f id m ∧ told_peer id m w'.
Proof.
  intros E Hm Hm'. eapply handled_in_stage; [exact E|by rewrite Hm, Hm'|done|].
  intros ev w0 m' w1 E0 Em Ea. unfold advance, self in Ea. rewrite bind_gets, E0, Hm in Ea.
  unfold process_accept, accept_next in Ea. run_inv Ea.
  match goal with Hc : finish_signed _ _ = _ |- _ =>
    pose proof (finish_signed_inv _ _ _ _ _ Em Hc) as Htold end.
  eexists _, _. by split; [split|].
Qed.

(** C2. When the opener's channel daemon has its refund transaction signed, it takes the
    channel id of the funding and announces this funding to the peer; a channel daemon
    of the acceptor that handles the announcement takes the same id, and its reply is
    routed by the opener's peerd to the id that the opener's daemon then has. *)
Theorem both_ends_agree_on_the_channel so psbt wo wo' :
  chan_handle BusIdCtl so (BusCtl (CtlSigned psbt)) wo = (Ok tt, wo') →
  r_machine (rt wo) = CsPropose PrSigning → r_machine (rt wo') = CsPropose PrFunding →
  ∃ f, funded_id f = ActStatic (id_of_funding f) ∧
  told_peer (id_of_funding f) (LnFundingCreated f) wo' ∧
  ∀ n wa wa',
    chan_handle BusIdMsg (PeerBolt n) (BusBolt (LnFundingCreated f)) wa = (Ok tt, wa') →
    r_machine (rt wa) = CsAccept AcSigned → r_machine (rt wa') = CsAccept AcFunded →
    ∃ reply, told_peer (id_of_funding f) reply wa' ∧
      route (inl reply) = Some (r_identity (rt wo')).
Proof.
  intros Eo Ho Ho'. simpl in Eo. run_inv Eo. injection Eo as ->.
  destruct (opener_tells _ _ _ _ _ Hrun Ho Ho') as (? & ? & (f & -> & -> & _) & Ht).
  exists f. split_and!; [done|done|]. intros n wa wa' Ea Ha Ha'. simpl in Ea. run_inv Ea.
  injection Ea as ->.
  destruct (acceptor_tells _ _ _ _ _ Hrun0 Ha Ha') as (? & m & [-> ->] & Ht').
  eexists. split; [exact Ht'|]. destruct Ht as [Ei _]. by rewrite Ei.
Qed.
End channel.

(** ** routed and the channel daemon *)

Section payment.
Context `{Sys, !LnpCore, !StateCodec, !Fmt, !RouterLib}.

(** What lnp-core makes of the payment: the HTLC for the first hop. *)
Definition compose_htlc (c : Channel) (hop : Hop) (lock : HashLock) (route : list Hop)
    : Channel * (BoltError + LnMsg) :=
  compose_add_update_htlc c (amt_to_forward (hop_payload hop)) lock
    (outgoing_cltv_value (hop_payload hop)) route.

Definition success_report (r : Runtime) (client : ClientId) : Envelope := {|
  env_bus := BusIdCtl; env_src := r_identity r; env_dest := LnpBroker;
  env_msg := BusCtl (CtlReport {|
    rep_client := client; rep_status := StSuccess (Some "HTLC added to the channel") |}) |}.

Lemma payment_handled src client hop route lock w n :
  r_remote (rt w) = Some n →
  let call := chan_handle BusIdCtl src (BusCtl (CtlPayment (hop :: route) lock client)) w in
  match compose_htlc (r_channel (rt w)) hop lock (hop :: route) with
  | (_, inr m) =>
      (call.1 = Ok tt ∧ r_enquirer (rt call.2) = None ∧
       attempted (hist call.2) = attempted (hist w) ++
         [p2p_envelope (rt w) n m; success_report (rt w) client]) ∨
      (∃ err, call.1 = Err (EEsb err) ∧
       attempted (hist call.2) = attempted (hist w) ++ [p2p_envelope (rt w) n m])
  | (_, inl e) => call.1 = Err (from e) ∧
      ∀ err, attempted (hist (chan_handle_err err call.2).2) = attempted (hist w)
  end.
Proof.
  intros Hn. unfold compose_htlc. simpl.
  unfold on_channel, send_p2p, report_success, report_status, self, update, of_sum, swallow.
  unfold bind, q, gets, modify, ok_or, expect, mreturn. simpl.
  change (r_channel (set_enquirer (Some client) (rt w))) with (r_channel (rt w)).
  destruct (compose_add_update_htlc (r_channel (rt w)) _ _ _ _) as [c' [e|m]]; [done|].
  unfold with_rt at 1. simpl. unfold r_remote in *. simpl. rewrite Hn. unfold send_to, perform.
  simpl. destruct (esb_reply _ _) as [err|]; simpl.
  - right. exists err. by rewrite attempted_app.
  - left. destruct (esb_reply _ _); simpl; by rewrite !attempted_app, <-app_assoc.
Qed.

(** C28. The payment that routed orders for a client is turned by the channel daemon
    into the HTLC of its first hop, which is sent to the peer, and then the success is
    reported to this client; but when lnp-core refuses the HTLC the daemon fails without
    telling anybody, neither in the handler nor in its error handler. *)
Theorem ordered_payment_becomes_htlc p client wr wr' wc n :
  routed_handle BusIdRpc (Client client) (BusRpc (RpcPayInvoice p)) wr = (Ok tt, wr') →
  r_remote (rt wc) = Some n →
  ∃ hop route, let order := payment_of p client (hop :: route) in
  payments (hist wr') = payments (hist wr) ++ [order] ∧
  let call := chan_handle (env_bus order) (env_src order) (env_msg order) wc in
  match compose_htlc (r_channel (rt wc)) hop (invoice_hash_lock (pay_invoice p)) (hop :: route) with
  | (_, inr m) =>
      (call.1 = Ok tt ∧ r_enquirer (rt call.2) = None ∧
       attempted (hist call.2) = attempted (hist wc) ++
         [p2p_envelope (rt wc) n m; success_report (rt wc) client]) ∨
      (∃ err, call.1 = Err (EEsb err) ∧
       attempted (hist call.2) = attempted (hist wc) ++ [p2p_envelope (rt wc) n m])
  | (_, inl e) => call.1 = Err (from e) ∧
      ∀ err, attempted (hist (chan_handle_err err call.2).2) = attempted (hist wc)
  end.
Proof.
  intros E Hn. pose proof (payment_outcome p client wr) as Hp. rewrite E in Hp. simpl fst in Hp.
  destruct Hp as (router & route & _ & Hne & Hp). destruct route as [|hop route]; [done|].
  exists hop, route. split; [exact Hp|]. by apply payment_handled.
Qed.
End payment.

(** ** The channel id of lnpd and of the channel daemon *)

Section funding.
Context `{Sys, !Fmt, !LnpCore, !WalletLib, !WalletCodec, !LnpdLib, !Build, !StateCodec}.

(** lnp-core takes the funding output of a channel from the funding PSBT; the
    index of the output fits the message field. *)
Definition funding_from_psbt : Prop :=
  ∀ c psbt c' refund txid vout,
    refund_tx c psbt false = (c', inr refund) → channel_funding_outpoint psbt = inr (txid, vout) →
    funding_txid c' = txid ∧ funding_output c' = (vout mod 2 ^ 16)%N.

Definition constructed (t : TempChannelId) (psbt : Psbt) : Envelope := {|
  env_bus := BusIdCtl; env_src := LnpBroker; env_dest := service_of_temp t;
  env_msg := BusCtl (CtlFundingConstructed psbt) |}.

#[local] Abbreviation grows := (same (λ _ : Lnpd, tt)).
Lemma grows_sent {E A} (m : LW E A) w r w' env :
  respects grows m → m w = (r, w') → env ∈ sent (hist w) → env ∈ sent (hist w').
Proof. intros Hm E1. apply (respects_run grows _ _ _ _ Hm) in E1 as [_ Hp]. by apply sent_prefix. Qed.
Lemma progress_grows {E} c m : respects grows (launch_report_progress (E:=E) c m).
Proof. unfold launch_report_progress, tell_client. respects_auto. Qed.
Lemma id_update_grows {E} o n : respects grows (update_chanel_id (E:=E) o n).
Proof. unfold update_chanel_id. respects_auto. Qed.

Lemma fund_channel_inv fuel t' ev t script amount rate e w o w' :
  ev_service ev = LnpBroker → ev_source ev = service_of_temp t →
  fund_channel fuel ev t' script amount rate e w = (Ok o, w') →
  ∃ psbt, channel_funding_outpoint psbt = inr o ∧ constructed t psbt ∈ sent (hist w').
Proof.
  intros Esv Esrc E. unfold fund_channel in E. run_inv E. exists x.
  destruct (channel_funding_outpoint x) eqn:Eo; [done|]. injection Hrun0 as <- <-.
  split; [done|]. eapply grows_sent; [apply progress_grows|exact Hrun2|].
  unfold event_send_ctl, send_to, perform in Hrun1. destruct (esb_reply _ _); [done|].
  injection Hrun1 as _ <-. rewrite Esv, Esrc. simpl. rewrite sent_app. apply elem_of_app. right.
  apply list_elem_of_here.
Qed.

Lemma negotiation_inv fuel ev f t e w l w' :
  ev_message ev = CtlConstructFunding f →
  ev_service ev = LnpBroker → ev_source ev = service_of_temp t →
  complete_negotiation fuel ev t e w = (Ok l, w') →
  ∃ psbt txid vout, channel_funding_outpoint psbt = inr (txid, vout) ∧
    constructed t psbt ∈ sent (hist w') ∧
    l = ClCommitting (channel_id_with txid (vout mod 2 ^ 16)%N) txid e.
Proof.
  intros Em Esv Esrc E. unfold complete_negotiation in E. rewrite Em in E. run_inv E.
  destruct x3 as [err|o].
  { unfold launch_report_failure in Hrun2. run_inv Hrun2. }
  injection Hrun2 as <- <-. apply attempt_inv in Hrun1.
  destruct (fund_channel_inv _ _ _ _ _ _ _ _ _ _ _ Esv Esrc Hrun1) as (psbt & Eo & Hin).
  destruct o as [txid vout]. run_inv E. exists psbt, txid, vout. split_and!; [done| |done].
  eapply grows_sent; [apply progress_grows|eassumption|].
  by eapply grows_sent; [apply id_update_grows|eassumption|].
Qed.

(** The channel that lnp-core takes from the PSBT keeps its funding until it is
    signed. *)
Definition fits_funding (psbt : Psbt) (c : Channel) : Prop :=
  ∀ txid vout, channel_funding_outpoint psbt = inr (txid, vout) →
    funding_txid c = txid ∧ funding_output c = (vout mod 2 ^ 16)%N.

Lemma refund_fits src psbt w b w' :
  funding_from_psbt → process src (BusCtl (CtlFundingConstructed psbt)) w = (Ok b, w') →
  r_machine (rt w) = CsPropose PrAccepted → r_machine (rt w') = CsPropose PrSigning →
  fits_funding psbt (r_channel (rt w')).
Proof.
  intros Hlaw E Hm Hm'.
  destruct (process_moved _ _ _ _ _ E) as (ev & w0 & w1 & E0 & Em & Ee & _ & Hf);
    [by rewrite Hm, Hm'|].
  rewrite (Hf _ r_channel ltac:(done)).
  apply process_event_inv in Ee as (m' & w2 & Ea & ->); [|by rewrite Em].
  unfold advance, self in Ea. rewrite bind_gets, E0, Hm in Ea.
  unfold process_propose, propose_next, complete_accepted, on_channel, self in Ea.
  rewrite Em in Ea. run_inv Ea.
  destruct (refund_tx _ psbt false) as [c' [err|refund]] eqn:Er; run_inv Hrun1; [done|].
  injection Hrun1 as _ <-. injection Hrun as _ <-.
  apply (respects_run (same r_channel)) in Hrun2 as [Ec _]; [|auto with respects].
  intros txid vout Eo. simpl. unfold r_channel in *. simpl in *. rewrite <-Ec. simpl.
  exact (Hlaw _ _ _ _ _ _ Er Eo).
Qed.

Lemma publish_key fuel t e f wl wl' :
  l_creating (rt wl) !! service_of_temp t = Some (ClNegotiating t e) →
  lnpd_handle fuel BusIdCtl (service_of_temp t) (BusCtl (CtlConstructFunding f)) wl = (Ok tt, wl') →
  ∃ psbt txid vout, channel_funding_outpoint psbt = inr (txid, vout) ∧
    constructed t psbt ∈ sent (hist wl') ∧
    let c := channel_id_with txid (vout mod 2 ^ 16)%N in
    l_creating (rt wl') !! ChannelSvc c = Some (ClCommitting c txid e).
Proof.
  intros El E. simpl in E. rewrite (bind_ok _ _ _ _ _ (taken _ _ _ _ El)) in E.
  unfold next_launcher, self in E. run_inv E. injection E as <-.
  unfold launcher_next, launcher_stage in Hrun0. simpl in Hrun0. run_inv Hrun0.
  match goal with Hn : complete_negotiation _ _ _ _ _ = _ |- _ =>
    eapply negotiation_inv in Hn as (psbt & txid & vout & Eo & Hs & ->); [|done..] end.
  exists psbt, txid, vout. split_and!; [done|done|]. simpl.
  destruct (channel_id_with _ _). simpl. by rewrite lookup_insert_eq.
Qed.

(** C10. From the funding that lnpd constructs for a launch, the channel daemon derives
    as its new identity the very service id under which lnpd then waits, so that its
    request to publish finds the launch; given that lnp-core takes the funding output
    from the PSBT. *)
Theorem publish_request_finds_its_launcher fuel t e f wl wl' :
  funding_from_psbt →
  l_creating (rt wl) !! service_of_temp t = Some (ClNegotiating t e) →
  lnpd_handle fuel BusIdCtl (service_of_temp t) (BusCtl (CtlConstructFunding f)) wl = (Ok tt, wl') →
  ∃ psbt, constructed t psbt ∈ sent (hist wl') ∧
  ∀ s1 s2 refund wo wo1 wo2,
    chan_handle BusIdCtl s1 (BusCtl (CtlFundingConstructed psbt)) wo = (Ok tt, wo1) →
    chan_handle BusIdCtl s2 (BusCtl (CtlSigned refund)) wo1 = (Ok tt, wo2) →
    r_machine (rt wo) = CsPropose PrAccepted → r_machine (rt wo1) = CsPropose PrSigning →
    r_machine (rt wo2) = CsPropose PrFunding →
    ∃ c txid, r_identity (rt wo2) = ChannelSvc c ∧
      l_creating (rt wl') !! r_identity (rt wo2) = Some (ClCommitting c txid e).
Proof.
  intros Hlaw El E. destruct (publish_key _ _ _ _ _ _ El E) as (psbt & txid & vout & Eo & Hs & Ek).
  exists psbt. split; [done|]. intros s1 s2 refund wo wo1 wo2 E1 E2 Hm Hm1 Hm2.
  simpl in E1, E2. run_inv E1. run_inv E2. injection E1 as ->. injection E2 as ->.
  destruct (refund_fits _ _ _ _ _ Hlaw Hrun Hm Hm1 _ _ Eo) as [Et Ev].
  destruct (opener_tells _ _ _ _ _ Hrun0 Hm1 Hm2) as (id & m & (fc & -> & -> & Ft & Fv) & Ei & _).
  rewrite Ei. unfold id_of_funding. rewrite Ft, Fv, Et, Ev. eauto.
Qed.
End funding.
