(* ===== verification/Node.v ===== *)
(** * The node: its daemons together, with their messages in flight

    A node is lnpd, the daemons it has started and the messages on the buses.
    [conforms] is the protocol of the buses: which service says which message to
    which service.  [node_step] lets any message that is in flight be delivered,
    in any order; what the surroundings answer is chosen anew in every step. *)

From S2P Require Import Prelude.
From S2P Require Import Bus.
From S2P Require Import Service.
From S2P Require Import Config.
From S2P Require Import ChannelRuntime.
From S2P Require Import Machine.
From S2P Require Import Wallet.
From S2P Require Import LnpdRuntime.
From S2P Require Import Lnpd.
From S2P Require Import Watch.
From S2P Require Import Peerd.
From S2P Require Import Routed.
From S2P Require Import Signd.

Local Open Scope rust_scope.

(** ** Kinds of services *)

Definition is_channel (s : ServiceId) : bool := match s with ChannelSvc _ => true | _ => false end.
Definition is_bolt_peer (s : ServiceId) : bool := match s with PeerBolt _ => true | _ => false end.
Definition is_bifrost_peer (s : ServiceId) : bool := match s with PeerBifrost _ => true | _ => false end.
Definition is_client (s : ServiceId) : bool := match s with Client _ => true | _ => false end.
Definition is_app (s : ServiceId) : bool := match s with MsgApp _ => true | _ => false end.
Definition is_daemon (s : ServiceId) : bool :=
  match s with
  | LnpBroker | Watch | Router | PeerBolt _ | PeerBifrost _ | ChannelSvc _ | Signer => true
  | _ => false
  end.
Definition is_svc (s s' : ServiceId) : bool := bool_decide (s = s').

(** ** The protocol of the buses *)

Section protocol.
Context `{Ext}.

(** The control bus.  signd answers those who asked it; routed echoes the hello of
    a channel daemon; the request to open a channel may go astray to signd
    ([open_request_goes_to_last_daemon]). *)
Definition ctl_route (src dest : ServiceId) (m : CtlMsg) : bool :=
  match m with
  | CtlHello =>
      (is_daemon src && is_svc dest LnpBroker) || (is_channel src && is_svc dest Router)
      || (is_svc src Router && is_channel dest)
  | CtlOpenChannelWith _ => is_svc src LnpBroker && (is_channel dest || is_svc dest Signer)
  | CtlAcceptChannelFrom _ | CtlFundingConstructed _ => is_svc src LnpBroker && is_channel dest
  | CtlConstructFunding _ | CtlPublishFunding | CtlChannelUpdate _ _ =>
      is_channel src && is_svc dest LnpBroker
  | CtlTrack _ _ => is_channel src && is_svc dest Watch
  | CtlTxFound _ => is_svc src Watch && is_channel dest
  | CtlPayment _ _ _ => is_svc src Router && is_channel dest
  | CtlChannelCreated _ => is_channel src && is_svc dest Router
  | CtlSign _ | CtlDeriveKeyset _ => (is_channel src || is_svc src LnpBroker) && is_svc dest Signer
  | CtlSigned _ | CtlKeyset _ _ => is_svc src Signer && (is_channel dest || is_svc dest LnpBroker)
  | CtlError failed _ _ =>
      is_svc src Signer && (is_channel dest || is_svc dest LnpBroker) && is_svc failed dest
  | CtlReport _ => (is_channel src || is_svc src Router) && is_svc dest LnpBroker
  | CtlEsbError _ _ => is_svc src LnpBroker
  | CtlUntrack _ | CtlGetInfo | CtlPingPeer | CtlChannelClosed _ | CtlChannelBalanceUpdate _ _ _
  | CtlPeerInfo _ | CtlChannelInfo _ => false
  end.

(** What a remote peer's message to lnpd, and to a channel daemon, may be. *)
Definition broker_takes (m : LnMsg) : bool :=
  match m with LnOpenChannel _ | LnChannelReestablish _ => true | _ => false end.
Definition channel_takes (m : LnMsg) : bool :=
  match m with
  | LnAcceptChannel _ | LnFundingCreated _ | LnFundingSigned _ | LnFundingLocked _
  | LnUpdateAddHtlc _ | LnUpdateFulfillHtlc _ | LnUpdateFailHtlc _ | LnUpdateFailMalformedHtlc _
  | LnChannelReestablish _ => true
  | _ => false
  end.

(** The messages that answer a client. *)
Definition is_reply (m : RpcMsg) : bool :=
  match m with
  | RpcProgress _ | RpcSuccess _ | RpcFailure _ | RpcNodeInfo _ | RpcPeerInfo _
  | RpcChannelInfo _ | RpcPeerList _ | RpcChannelList _ | RpcFundsInfo _ => true
  | _ => false
  end.

Definition conforms (e : Envelope) : bool :=
  let (src, dest) := (env_src e, env_dest e) in
  match env_bus e, env_msg e with
  | BusIdRpc, BusRpc m => is_client src || (is_daemon src && is_client dest && is_reply m)
  | BusIdMsg, BusBolt m =>
      (is_channel src && is_bolt_peer dest)
      || (is_bolt_peer src && is_svc dest LnpBroker && broker_takes m)
      || (is_bolt_peer src && is_channel dest && channel_takes m)
  | BusIdMsg, BusBifrost _ => is_bifrost_peer src && is_app dest
  | BusIdCtl, BusCtl m => ctl_route src dest m
  | _, _ => false
  end.
End protocol.

(** ** Processes *)

(** A connection to a peer: the runtime, the listener and the bridge from the
    listener to the runtime. *)
Record PeerDaemon `{Ext} := {
  pd_runtime : World PeerRuntime;
  pd_listener : World ServiceId;
  pd_bridge : list BusMsg }.

Inductive Proc `{LnpCore, !SignLib, !RouterLib, !ElectrumLib} :=
  | PSign (w : World SignRuntime)
  | PRoute (w : World RouteRuntime)
  | PWatch (s : Watchd)
  | PChan (w : World Runtime)
  | PPeer (p : PeerDaemon).

(** How the ESB runs a handler: its errors are passed to [handle_err], and an error
    of [handle_err], like a panic, ends the process. *)
Definition serve `{Sys, !Fmt} {R} (handle : W R Error unit) (handle_err : EsbError → W R Error unit)
    : W R Error unit :=
  let! res := attempt handle in
  match res with
  | inr _ => mreturn tt
  | inl e => handle_err (error_into_esb e)
  end.
Definition lives `{Ext} (r : Res Error unit) : bool := match r with Ok _ => true | _ => false end.

Section processes.
Context `{Ext, !Fmt, !LnpCore, !StateCodec, !SignLib, !RouterLib, !ElectrumLib, !Build, !LogLevel}.

Definition proc_id (p : Proc) : ServiceId :=
  match p with
  | PSign w => identity (rt w)
  | PRoute w => identity (rt w)
  | PWatch s => identity (rt (wd_runtime s))
  | PChan w => identity (rt w)
  | PPeer p => identity (rt (pd_runtime p))
  end.
Definition proc_hist (p : Proc) : History :=
  match p with
  | PSign w => hist w
  | PRoute w => hist w
  | PWatch s => hist (wd_runtime s)
  | PChan w => hist w
  | PPeer p => hist (pd_runtime p)
  end.

Definition set_watch_runtime (s : Watchd) (w : World WatchRuntime) : Watchd := {|
  wd_runtime := w; wd_processor := wd_processor s; wd_watcher := wd_watcher s;
  wd_bridge := wd_bridge s |}.
Definition set_pd_runtime (p : PeerDaemon) (w : World PeerRuntime) : PeerDaemon := {|
  pd_runtime := w; pd_listener := pd_listener p; pd_bridge := pd_bridge p |}.

(** Delivering a message: whether the process goes on, and its state. *)
Definition proc_serve (S : Sys) (e : Envelope) (p : Proc) : bool * Proc :=
  let (bus, src) := (env_bus e, env_src e) in
  let msg := env_msg e in
  match p with
  | PSign w =>
      let '(r, w') := serve (signd_handle bus src msg) signd_handle_err w in (lives r, PSign w')
  | PRoute w =>
      let '(r, w') := serve (routed_handle bus src msg) routed_handle_err w in (lives r, PRoute w')
  | PWatch s =>
      let '(r, w') := serve (watch_handle bus src msg) watch_handle_err (wd_runtime s) in
      (lives r, PWatch (set_watch_runtime s w'))
  | PChan w =>
      let '(r, w') := serve (chan_handle bus src msg) chan_handle_err w in (lives r, PChan w')
  | PPeer p =>
      let '(r, w') := serve (peerd_handle bus src msg) peerd_handle_err (pd_runtime p) in
      (lives r, PPeer (set_pd_runtime p w'))
  end.

(** The unmarshaller of a listener reads messages of the connection's protocol. *)
Definition of_protocol (protocol : Protocol) (m : LnMsg + BfMsg) : bool :=
  match protocol, m with Bolt, inl _ | Bifrost, inr _ => true | _, _ => false end.

(** What a process does of its own accord: the threads of watchd and the listener of
    peerd. *)
Definition on_bridge {R} (w w' : World R) : list BusMsg :=
  env_msg <$> sent (drop (length (hist w)) (hist w')).

Inductive proc_internal (S : Sys) : Proc → bool * Proc → Prop :=
  | pi_watch s s' :
      watch_step s None s' → proc_internal S (PWatch s) (true, PWatch s')
  | pi_receive w l b m l' :
      of_protocol (p_protocol (rt w)) m → listener_handle m l = (Ok tt, l') →
      proc_internal S (PPeer {| pd_runtime := w; pd_listener := l; pd_bridge := b |})
        (true, PPeer {| pd_runtime := w; pd_listener := l'; pd_bridge := b ++ on_bridge l l' |})
  | pi_timeout w l b err l' :
      listener_handle_err err l = (Ok tt, l') →
      proc_internal S (PPeer {| pd_runtime := w; pd_listener := l; pd_bridge := b |})
        (true, PPeer {| pd_runtime := w; pd_listener := l'; pd_bridge := b ++ on_bridge l l' |}).

(** ** Start-up *)

(** A service that is not the broker says hello, and then its [on_ready] runs. *)
Definition service_run `{!Sys} {R} `{!Handler R} (on_ready : W R Error unit) : W R Error unit :=
  do! run_loop_start false in on_ready.

Inductive boots `{!Sys} {R} `{!Handler R} (run : W unit Error R) (on_ready : W R Error unit) :
    World R → Prop :=
  | boots_with d r w1 w2 :
      run (mk_world tt [] d) = (Ok r, w1) →
      service_run on_ready (mk_world r (hist w1) (disk w1)) = (Ok tt, w2) →
      boots run on_ready w2.

(** The arguments of [run] in [peerd]: what the supervisor of connections tells. *)
Definition peerd_run (protocol : Protocol) (local_id : NodeId) (remote_id : option NodeId)
    (local_socket : option InetSocketAddr) (remote_socket : InetSocketAddr) (connect : bool)
    (started : N) : W unit Error PeerRuntime :=
  mreturn (peerd_start protocol local_id remote_id local_socket remote_socket connect started).

Definition listener_start (identity : ServiceId) : World ServiceId :=
  mk_world identity [] {| d_names := ∅; d_inodes := ∅; d_next := 0 |}.

Definition watch_threads (w : World WatchRuntime) (processor : ElectrumProcessor) : Watchd := {|
  wd_runtime := w;
  wd_processor := mk_world processor [] (disk w);
  wd_watcher := mk_world tt [] (disk w);
  wd_bridge := [] |}.

Inductive proc_starts (S : Sys) : Daemon → Proc → Prop :=
  | ps_signd config w :
      boots (signd_with config) (mreturn tt) w → proc_starts S Signd (PSign w)
  | ps_routed w :
      boots (mreturn routed_start) (mreturn tt) w → proc_starts S Routed (PRoute w)
  | ps_watchd config d r processor w1 w2 :
      watchd_run config (mk_world tt [] d) = (Ok (r, processor), w1) →
      service_run (mreturn tt) (mk_world r (hist w1) (disk w1)) = (Ok tt, w2) →
      proc_starts S Service.Watchd (PWatch (watch_threads w2 processor))
  | ps_channeld config c w :
      boots (run config c) (mreturn tt) w → proc_starts S (Channeld c) (PChan w)
  | ps_peerd daemon protocol local_id remote_id local_socket remote_socket connect started w :
      daemon_protocol daemon = Some protocol →
      boots (peerd_run protocol local_id remote_id local_socket remote_socket connect started)
        peerd_on_ready w →
      proc_starts S daemon (PPeer {|
        pd_runtime := w; pd_listener := listener_start (identity (rt w)); pd_bridge := [] |}).
End processes.

(** ** The node *)

Record Node `{WalletLib, !LnpCore, !SignLib, !RouterLib, !ElectrumLib} := {
  nd_lnpd : World Lnpd;
  nd_procs : list Proc;
  nd_flight : list Envelope }.

Section node.
Context `{Ext, !Fmt, !LnpCore, !StateCodec, !WalletLib, !WalletCodec, !LnpdLib, !SignLib,
  !RouterLib, !ElectrumLib, !Build, !LogLevel}.

(** What has been handed to the buses between two points of a history. *)
Definition news (h h' : History) : list Envelope := sent (drop (length h) h').

(** A process that has ended is gone. *)
Definition left_of (x : bool * Proc) : list Proc := if x.1 then [x.2] else [].

(** No daemon has this address. *)
Definition nobody_at (ps : list Proc) (s : ServiceId) : Prop :=
  is_daemon s ∧ s ≠ LnpBroker ∧ Forall (λ p, proc_id p ≠ s) ps.

(** Handling what is there: messages are delivered in any order, a message to a daemon
    that is not there is reported to lnpd, which routes the messages, one to a client
    leaves the node, and the runtime of a peer connection takes what is on its bridge. *)
Inductive handles : Node → Node → Prop :=
  | hs_broker (S : Sys) fuel e ms1 ms2 w w' ps :
      env_dest e = LnpBroker →
      serve (lnpd_handle fuel (env_bus e) (env_src e) (env_msg e)) lnpd_handle_err w = (Ok tt, w') →
      handles
        {| nd_lnpd := w; nd_procs := ps; nd_flight := ms1 ++ e :: ms2 |}
        {| nd_lnpd := w'; nd_procs := ps; nd_flight := ms1 ++ ms2 ++ news (hist w) (hist w') |}
  | hs_deliver (S : Sys) e ms1 ms2 w ps1 p ps2 x :
      env_dest e = proc_id p → proc_serve S e p = x →
      handles
        {| nd_lnpd := w; nd_procs := ps1 ++ p :: ps2; nd_flight := ms1 ++ e :: ms2 |}
        {| nd_lnpd := w; nd_procs := ps1 ++ left_of x ++ ps2;
           nd_flight := ms1 ++ ms2 ++ news (proc_hist p) (proc_hist x.2) |}
  | hs_undeliverable (S : Sys) e err ms1 ms2 w w' ps :
      nobody_at ps (env_dest e) →
      lnpd_handle_err (EsbSend (env_src e) (env_dest e) err) w = (Ok tt, w') →
      handles
        {| nd_lnpd := w; nd_procs := ps; nd_flight := ms1 ++ e :: ms2 |}
        {| nd_lnpd := w'; nd_procs := ps; nd_flight := ms1 ++ ms2 ++ news (hist w) (hist w') |}
  | hs_leaves e ms1 ms2 w ps :
      is_daemon (env_dest e) = false →
      handles
        {| nd_lnpd := w; nd_procs := ps; nd_flight := ms1 ++ e :: ms2 |}
        {| nd_lnpd := w; nd_procs := ps; nd_flight := ms1 ++ ms2 |}
  | hs_bridge (S : Sys) w ps1 w1 l m b r w2 ps2 ms :
      serve (peerd_handle BusIdBridge Loopback m) peerd_handle_err w1 = (r, w2) →
      handles
        {| nd_lnpd := w;
           nd_procs := ps1 ++ PPeer {| pd_runtime := w1; pd_listener := l; pd_bridge := m :: b |} :: ps2;
           nd_flight := ms |}
        {| nd_lnpd := w;
           nd_procs := ps1
             ++ left_of (lives r, PPeer {| pd_runtime := w2; pd_listener := l; pd_bridge := b |}) ++ ps2;
           nd_flight := ms ++ news (hist w1) (hist w2) |}.

(** What else happens to a node: a process acts of its own accord, a daemon that lnpd has
    launched starts, a client asks for something. *)
Inductive node_step : Node → Node → Prop :=
  | ns_handles n n' : handles n n' → node_step n n'
  | ns_internal (S : Sys) w ps1 p ps2 x ms :
      proc_internal S p x →
      node_step
        {| nd_lnpd := w; nd_procs := ps1 ++ p :: ps2; nd_flight := ms |}
        {| nd_lnpd := w; nd_procs := ps1 ++ left_of x ++ ps2;
           nd_flight := ms ++ news (proc_hist p) (proc_hist x.2) |}
  | ns_start (S : Sys) d w ps p ms :
      (OpLaunch d, true) ∈ hist w → proc_starts S d p →
      node_step
        {| nd_lnpd := w; nd_procs := ps; nd_flight := ms |}
        {| nd_lnpd := w; nd_procs := ps ++ [p]; nd_flight := ms ++ sent (proc_hist p) |}
  | ns_client_asks c dest m w ps ms :
      node_step
        {| nd_lnpd := w; nd_procs := ps; nd_flight := ms |}
        {| nd_lnpd := w; nd_procs := ps; nd_flight := ms ++ [
             {| env_bus := BusIdRpc; env_src := Client c; env_dest := dest; env_msg := BusRpc m |}] |}.

(** lnpd when it has been started by [main]. *)
Inductive node_starts : Node → Prop :=
  | node_starts_with (S : Sys) config key_file listens d r w1 w2 :
      lnpd_run config key_file listens (mk_world tt [] d) = (Ok r, w1) →
      on_ready (mk_world r (hist w1) (disk w1)) = (Ok tt, w2) →
      node_starts {| nd_lnpd := w2; nd_procs := []; nd_flight := sent (hist w2) |}.

Inductive node_reaches (n0 : Node) : Node → Prop :=
  | nr_start : node_reaches n0 n0
  | nr_step n n' : node_reaches n0 n → node_step n n' → node_reaches n0 n'.

(** Everything a daemon of the node ever tried to send. *)
Definition node_attempted (n : Node) : list Envelope :=
  attempted (hist (nd_lnpd n)) ++ (nd_procs n ≫= λ p, attempted (proc_hist p)).
End node.
