(* ===== verification/NodeFacts.v ===== *)
(** * Every daemon keeps to the protocol of the buses

    For each daemon: an invariant of its runtime with which all it sends conforms to
    the protocol of the buses ([conforms]), and that its handlers keep it. *)

From S2P Require Import Prelude.
From S2P Require Import Bus.
From S2P Require Import Service.
From S2P Require Import Files.
From S2P Require Import Config.
From S2P Require Import ChannelRuntime.
From S2P Require Import Propose.
From S2P Require Import Accept.
From S2P Require Import Machine.
From S2P Require Import Wallet.
From S2P Require Import Rpc.
From S2P Require Import LnpdRuntime.
From S2P Require Import Launch.
From S2P Require Import Lnpd.
From S2P Require Import LnpdFacts.
From S2P Require Import Watch.
From S2P Require Import Peerd.
From S2P Require Import Routed.
From S2P Require Import Signd.
From S2P Require Import Node.

Local Open Scope rust_scope.

Definition all_conform `{Ext} (h : History) : Prop := Forall (λ e, conforms e) (attempted h).

Lemma all_conform_snoc `{Ext} h o (ok : bool) :
  all_conform h → (∀ e, o = OpSend e → conforms e) → all_conform (h ++ [(o, ok)]).
Proof.
  intros Hh Ho. unfold all_conform. rewrite attempted_app. apply Forall_app. split; [done|].
  destruct o; simpl; auto using Forall_nil_2, Forall_cons_2.
Qed.

(** ** Calls that keep an invariant of the runtime, and send what conforms *)

Section obeys.
Context `{Sys, !Fmt} {R : Type} (J : R → Prop).

Definition obeys (w : World R) : Prop := J (rt w) ∧ all_conform (hist w).
#[local] Abbreviation keeps := (upholds obeys (λ _, True)).

Lemma perform_obeys {E} (reply : History → option E) o :
  (∀ e, o = OpSend e → conforms e) → keeps (perform reply o).
Proof.
  intros Ho w [HJ Hw]. unfold perform. destruct (reply _); (split; [|done]); split; simpl; auto using
    all_conform_snoc.
Qed.
Lemma query_obeys {E A} (reply : History → E + A) o :
  (∀ e, o ≠ OpSend e) → keeps (query reply o).
Proof.
  intros Ho w [HJ Hw]. unfold query. destruct (reply _); (split; [|done]); split; simpl; try done;
    (apply all_conform_snoc; [done|]); intros env Ee; by destruct (Ho env).
Qed.
Lemma self_obeys {E A} (f : R → A) : keeps (self (E:=E) f).
Proof. intros w Hw. by split. Qed.
Lemma update_obeys {E} (f : R → R) : (∀ r, J r → J (f r)) → keeps (update (E:=E) f).
Proof. intros Hf w [HJ Hw]. split; [|done]. split; [by apply Hf|done]. Qed.
Lemma with_disk_obeys {E} (g : Disk → Disk) : keeps (modify (E:=E) (with_disk g)).
Proof. intros w Hw. by split. Qed.
Lemma fs_obeys o : keeps (fs o).
Proof. by apply perform_obeys. Qed.
Lemma exec_daemon_obeys d : keeps (exec_daemon d).
Proof. by apply query_obeys. Qed.
Lemma ep_set_identity_obeys b i : keeps (ep_set_identity b i).
Proof. by apply perform_obeys. Qed.
Lemma send_to_obeys b s d m :
  conforms {| env_bus := b; env_src := s; env_dest := d; env_msg := m |} → keeps (send_to b s d m).
Proof. intros Hc. apply perform_obeys. by intros ? [= <-]. Qed.
#[local] Hint Resolve self_obeys with_disk_obeys fs_obeys : upholds.
Lemma file_open_obeys p : keeps (file_open p).
Proof. unfold file_open. upholds_auto. Qed.
Lemma file_create_obeys p : keeps (file_create p).
Proof. unfold file_create. upholds_auto. Qed.
Lemma file_seek_start_obeys f : keeps (file_seek_start f).
Proof. unfold file_seek_start. upholds_auto. Qed.
Lemma file_sync_obeys f : keeps (file_sync f).
Proof. unfold file_sync. upholds_auto. Qed.
Lemma file_write_obeys f bs : keeps (file_write f bs).
Proof. unfold file_write. upholds_auto. Qed.
Lemma file_remove_obeys p : keeps (file_remove p).
Proof. unfold file_remove. upholds_auto. Qed.

(** Sending as the runtime's identity. *)
Context `{!Handler R}.
Lemma send_self_obeys {E A} (k : ServiceId → W R E A) :
  (∀ r, J r → keeps (k (identity r))) → keeps (let! id := self identity in k id).
Proof. intros Hk w Hw. unfold self. rewrite bind_gets. apply Hk; [apply Hw|done]. Qed.
Lemma send_ctl_obeys d m :
  (∀ r, J r → conforms {| env_bus := BusIdCtl; env_src := identity r; env_dest := d;
                          env_msg := BusCtl m |}) → keeps (send_ctl d m).
Proof.
  intros Hc. unfold send_ctl, send_ctl_to. apply send_self_obeys. intros r Hr.
  apply upholds_bind; [|upholds_auto]. apply upholds_q, send_to_obeys. auto.
Qed.
Lemma send_rpc_obeys c m :
  (∀ r, J r → is_daemon (identity r)) → is_reply m → keeps (send_rpc c m).
Proof.
  intros Hd Hm. unfold send_rpc. apply send_self_obeys. intros r Hr. apply send_to_obeys.
  simpl. apply Hd in Hr. destruct (identity r); try done; by destruct m.
Qed.

(** Reports are sent by services that have an enquirer. *)
Definition may_report : Prop := ∀ r, J r →
  enquirer r = None ∨ is_channel (identity r) ∨ identity r = Router.
Context (Hrep : may_report).
Lemma report_status_obeys {E} `{!From EsbError E} st : keeps (report_status (E:=E) st).
Proof.
  intros w Hw. unfold report_status, self. rewrite bind_gets.
  destruct (enquirer (rt w)) eqn:Ee; [|by apply upholds_mreturn]. rewrite bind_gets.
  destruct (Hrep (rt w) (proj1 Hw)) as [?|Hid]; [congruence|].
  generalize (identity (rt w)) Hid. clear Ee Hid. intros id Hid. revert w Hw.
  apply upholds_bind; [|upholds_auto]. apply upholds_q, send_to_obeys. simpl.
  destruct Hid as [Hid| ->]; [|done]. by destruct id.
Qed.
#[local] Hint Resolve report_status_obeys : upholds.
Lemma report_success_obeys m : keeps (report_success m).
Proof. unfold report_success. upholds_auto. Qed.
Lemma report_progress_obeys m : keeps (report_progress m).
Proof. unfold report_progress. upholds_auto. Qed.
Lemma report_failure_obeys {E} m : keeps (report_failure (E:=E) m).
Proof. unfold report_failure. upholds_auto. Qed.
Lemma run_loop_start_obeys b : (∀ r, J r → is_daemon (identity r)) → keeps (run_loop_start b).
Proof.
  intros Hd. unfold run_loop_start. destruct b; [upholds_auto|]. apply send_self_obeys. intros r Hr.
  apply upholds_bind; [|upholds_auto]. apply upholds_q, send_to_obeys. simpl.
  apply Hd in Hr. by destruct (identity r).
Qed.
Lemma serve_obeys h he : keeps h → (∀ e, keeps (he e)) → keeps (serve h he).
Proof. intros Hh He. unfold serve. upholds_auto. Qed.
End obeys.

#[export] Hint Resolve self_obeys update_obeys with_disk_obeys fs_obeys exec_daemon_obeys
  ep_set_identity_obeys send_to_obeys file_open_obeys file_create_obeys file_seek_start_obeys
  file_sync_obeys file_write_obeys file_remove_obeys report_status_obeys report_success_obeys
  report_progress_obeys report_failure_obeys : upholds.

Lemma is_svc_refl s : is_svc s s = true.
Proof. by apply bool_decide_eq_true_2. Qed.

(** Closes [conforms e] where the kinds of the services are known. *)
Ltac route :=
  simpl in *;
  repeat match goal with
    | |- context [is_channel (identity ?r)] => destruct (identity r)
    | |- context [is_channel (r_identity ?r)] => destruct (r_identity r)
    end; done.

(** [upholds_auto], with what the invariant says of the identity a message is sent
    under. *)
Ltac obeys_auto :=
  repeat first
    [ progress intros
    | match goal with
      | |- upholds _ _ (bind (self identity) _) => apply send_self_obeys
      | |- upholds _ _ (bind _ _) => apply upholds_bind
      | |- upholds _ _ (q _) => apply upholds_q
      | |- upholds _ _ (swallow _) => apply upholds_swallow
      | |- upholds _ _ (attempt _) => apply upholds_attempt
      | |- upholds _ _ (expect_ok _ _) => apply upholds_expect_ok
      | |- upholds _ _ (expect _ _) => by apply upholds_expect
      | |- upholds _ _ (match ?x with _ => _ end) => destruct x
      end
    | solve [auto with upholds]
    | by apply send_to_obeys; route
    | by apply send_ctl_obeys; intros; route ].

Section daemons.
Context `{Sys, !Fmt, !LnpCore, !StateCodec, !SignLib, !RouterLib, !ElectrumLib, !Build, !LogLevel}.

(** Closes a goal about a call that only reads, updates and looks at data. *)
#[local] Abbreviation keeps J := (upholds (obeys J) (λ _, True)).

(** ** signd *)

(** Whom signd answers. *)
Definition asks_signd (s : ServiceId) : bool := is_channel s || is_svc s LnpBroker.

Definition any_runtime {R} (_ : R) : Prop := True.

Lemma hardened_path_obeys {E} l : keeps any_runtime (hardened_path (E:=E) l).
Proof. induction l; simpl; upholds_auto. Qed.
#[local] Hint Resolve hardened_path_obeys : upholds.

Lemma signd_ctl_obeys src m : asks_signd src → keeps any_runtime (signd_handle_ctl src m).
Proof.
  intros Hsrc. unfold signd_handle_ctl, derive_keyset.
  destruct m; try (by apply upholds_mfail); obeys_auto; apply send_to_obeys; simpl;
    unfold asks_signd in Hsrc; by destruct src.
Qed.

Lemma signd_obeys e :
  conforms e → env_dest e = Signer →
  keeps any_runtime (serve (signd_handle (env_bus e) (env_src e) (env_msg e)) signd_handle_err).
Proof.
  destruct e as [bus src dest msg]. simpl. intros Hc ->.
  apply serve_obeys; [|by intros; apply upholds_mreturn].
  unfold signd_handle. destruct bus, msg as [| |ctl|]; try (by apply upholds_mfail).
  assert (asks_signd src) as Hsrc by (unfold asks_signd; by destruct ctl, src).
  apply upholds_bind; [by apply upholds_attempt, signd_ctl_obeys|]. intros [err|]; [|upholds_auto].
  obeys_auto. apply send_to_obeys.
  change (is_svc Signer Signer && asks_signd src && is_svc src src).
  rewrite !is_svc_refl. apply Is_true_true in Hsrc. by rewrite Hsrc.
Qed.
(** ** routed *)

Lemma on_router_obeys {A} (f : LnRouter → LnRouter * (GossipErr + A)) :
  keeps any_runtime (on_router f).
Proof. unfold on_router. obeys_auto. Qed.
Lemma routed_may_report : may_report (R:=RouteRuntime) any_runtime.
Proof. intros r _. by right; right. Qed.
#[local] Hint Resolve on_router_obeys routed_may_report : upholds.

Lemma compute_route_obeys i a : keeps any_runtime (compute_route i a).
Proof. unfold compute_route, on_router. obeys_auto. Qed.
#[local] Hint Resolve compute_route_obeys : upholds.

Lemma routed_obeys e :
  conforms e → env_dest e = Router →
  keeps any_runtime (serve (routed_handle (env_bus e) (env_src e) (env_msg e)) routed_handle_err).
Proof.
  destruct e as [bus src dest msg]. simpl. intros Hc ->. apply serve_obeys.
  2: { intros err. unfold routed_handle_err. obeys_auto. }
  unfold routed_handle. destruct bus, msg as [| |ctl|rpc]; obeys_auto.
  - unfold routed_handle_rpc. obeys_auto.
  - unfold routed_handle_p2p. obeys_auto.
  - unfold routed_handle_ctl. destruct ctl; obeys_auto. apply send_ctl_obeys. intros r _. simpl in *.
    by destruct src.
Qed.

(** ** watchd *)

(** Only channel daemons are told of transactions. *)
Definition trackers_ok (r : WatchRuntime) : Prop :=
  map_Forall (λ _ x, is_channel x.2) (wr_track_list r).

Lemma worker_cmd_obeys c : keeps trackers_ok (worker_cmd c).
Proof. unfold worker_cmd. obeys_auto. Qed.
Lemma untrack_obeys {E} t : keeps trackers_ok (untrack (E:=E) t).
Proof.
  intros w Hw. unfold untrack, self. rewrite bind_gets. revert Hw.
  intros [HJ Hh]. split; [|done]. split; [|done]. by apply map_Forall_delete.
Qed.
#[local] Hint Resolve worker_cmd_obeys untrack_obeys : upholds.

Lemma watch_bridge_obeys m : keeps trackers_ok (watch_handle_bridge m).
Proof.
  unfold watch_handle_bridge. destruct m; try (by apply upholds_mfail).
  intros w Hw. unfold self. rewrite bind_gets.
  destruct (wr_track_list (rt w) !! ts_txid s) as [[d id]|] eqn:El; [|by apply upholds_mreturn].
  pose proof (proj1 Hw _ _ El) as Hid. simpl in Hid. clear El. revert w Hw.
  change (keeps trackers_ok (if decide (found_position s ≤ d)%N then
    do! untrack (ts_txid s) in do! swallow (untrack_transaction (ts_txid s)) in
    do? send_to BusIdCtl Watch id (BusCtl (CtlTxFound s)) in mreturn tt
    else mreturn tt : W WatchRuntime Error unit)).
  unfold untrack_transaction. obeys_auto.
Qed.

Lemma watch_obeys e :
  conforms e → env_dest e = Watch →
  keeps trackers_ok (serve (watch_handle (env_bus e) (env_src e) (env_msg e)) watch_handle_err).
Proof.
  destruct e as [bus src dest msg]. simpl. intros Hc ->.
  apply serve_obeys; [|by intros; apply upholds_mreturn].
  unfold watch_handle. destruct bus, msg as [| |ctl|]; try done; try (by apply upholds_mfail).
  unfold watch_handle_ctl. destruct ctl; try (by apply upholds_mfail); [|by destruct src].
  intros w Hw. unfold self. rewrite bind_gets. revert Hw. intros [HJ Hh].
  unfold update. rewrite bind_modify. apply (upholds_swallow _ _ _ (worker_cmd_obeys _)).
  split; [|done]. apply map_Forall_insert_2; [|done]. by destruct src.
Qed.

Lemma watch_threads_obey s s' :
  watch_step s None s' → obeys trackers_ok (wd_runtime s) → obeys trackers_ok (wd_runtime s').
Proof.
  intros Hs Hw. inversion Hs as [|? ? ? ? ? ? ? Hr| | |]; subst; try done.
  assert (keeps trackers_ok (watch_handle BusIdBridge Loopback msg)) as Hk.
  { unfold watch_handle. destruct msg; try (by apply upholds_mfail). apply watch_bridge_obeys. }
  destruct (Hk rw Hw) as [Hw' _]. by rewrite Hr in Hw'.
Qed.

(** ** peerd *)

Definition peer_kind (protocol : Protocol) (s : ServiceId) : bool :=
  match protocol with Bolt => is_bolt_peer s | Bifrost => is_bifrost_peer s end.
Definition peer_ok (protocol : Protocol) (r : PeerRuntime) : Prop :=
  p_protocol r = protocol ∧ peer_kind protocol (p_identity r).

(** What the listener of a connection puts on the bridge. *)
Definition bridge_ok (protocol : Protocol) (m : BusMsg) : bool :=
  match m with
  | BusBolt _ => bool_decide (protocol = Bolt)
  | BusBifrost _ => bool_decide (protocol = Bifrost)
  | BusCtl CtlPingPeer => true
  | _ => false
  end.

Section peer.
Context (protocol : Protocol).
#[local] Abbreviation keeps_peer := (keeps (peer_ok protocol)).

Lemma peer_is_daemon r : peer_ok protocol r → is_daemon (identity r).
Proof. intros [_ Hid]. simpl. by destruct protocol, (p_identity r). Qed.

Lemma u64_obeys {E} n : keeps_peer (u64 (E:=E) n).
Proof. unfold u64. obeys_auto. Qed.
Lemma send_message_obeys m : keeps_peer (send_message m).
Proof. by apply perform_obeys. Qed.
#[local] Hint Resolve u64_obeys send_message_obeys : upholds.
Lemma count_sent_obeys {E} : keeps_peer (count_sent (E:=E)).
Proof. unfold count_sent. obeys_auto. Qed.
Lemma count_received_obeys {E} : keeps_peer (count_received (E:=E)).
Proof. unfold count_received. obeys_auto. Qed.
Lemma update_channels_obeys {E} f : keeps_peer (update_channels (E:=E) f).
Proof. unfold update_channels. obeys_auto. Qed.
#[local] Hint Resolve count_sent_obeys count_received_obeys update_channels_obeys : upholds.
Lemma pong_obeys n : keeps_peer (pong n).
Proof. unfold pong. obeys_auto. Qed.
Lemma ping_obeys : keeps_peer ping.
Proof. unfold ping. obeys_auto. Qed.
Lemma on_pong_obeys {E} b : keeps_peer (on_pong (E:=E) b).
Proof. unfold on_pong. obeys_auto. Qed.
Lemma peerd_on_ready_obeys : keeps_peer peerd_on_ready.
Proof. unfold peerd_on_ready. obeys_auto. Qed.
#[local] Hint Resolve pong_obeys ping_obeys on_pong_obeys : upholds.

Lemma to_daemon_obeys dest m :
  (∀ id, peer_kind protocol id → conforms
     {| env_bus := BusIdMsg; env_src := id; env_dest := dest; env_msg := m |}) →
  keeps_peer (to_daemon dest m).
Proof.
  intros Hc. unfold to_daemon. apply send_self_obeys. intros r [_ Hr].
  apply upholds_bind; [|upholds_auto]. by apply upholds_q, send_to_obeys, Hc.
Qed.

Lemma peerd_bridge_obeys m : bridge_ok protocol m → keeps_peer (peerd_handle_bridge m).
Proof.
  unfold peerd_handle_bridge. destruct m as [ln|bf|ctl|]; simpl; try done.
  - intros Hp%bool_decide_spec. unfold handle_bridge_bolt, rename_funded.
    destruct ln; obeys_auto; apply to_daemon_obeys; rewrite Hp; by intros [].
  - intros Hp%bool_decide_spec. unfold handle_bridge_bifrost.
    destruct bf; obeys_auto; apply to_daemon_obeys; rewrite Hp; by intros [].
  - destruct ctl; try done. obeys_auto.
Qed.

Lemma peerd_obeys e :
  conforms e → is_daemon (env_dest e) →
  keeps_peer (serve (peerd_handle (env_bus e) (env_src e) (env_msg e)) peerd_handle_err).
Proof.
  destruct e as [bus src dest msg]. simpl. intros Hc Hd.
  apply serve_obeys; [|by intros; apply upholds_mreturn].
  unfold peerd_handle. destruct bus, msg as [ln|bf|ctl|rpc]; try done; try (by apply upholds_mfail).
  - destruct src; try (by apply upholds_mpanic). unfold peerd_handle_rpc, now. destruct rpc; obeys_auto.
    apply send_rpc_obeys; [apply peer_is_daemon|done].
  - unfold handle_bolt, rename_funded. obeys_auto.
  - unfold handle_bifrost. obeys_auto.
Qed.
End peer.

(** ** channeld *)

Definition chan_ok (r : Runtime) : Prop := is_channel (r_identity r).
#[local] Abbreviation keeps_chan := (keeps chan_ok).

Lemma chan_may_report : may_report chan_ok.
Proof. intros r Hr. by right; left. Qed.
Lemma chan_is_daemon r : chan_ok r → is_daemon (identity r).
Proof. unfold chan_ok. simpl. by destruct (r_identity r). Qed.
#[local] Hint Resolve chan_may_report : upholds.

Lemma chan_send_ctl_obeys d m :
  (∀ c, conforms {| env_bus := BusIdCtl; env_src := ChannelSvc c; env_dest := d;
                    env_msg := BusCtl m |}) → keeps_chan (send_ctl d m).
Proof.
  intros Hc. apply send_ctl_obeys. unfold chan_ok. simpl. intros r Hr.
  by destruct (r_identity r).
Qed.
Lemma on_channel_obeys {A} (f : Channel → Channel * (BoltError + A)) : keeps_chan (on_channel f).
Proof. unfold on_channel. obeys_auto. Qed.
Lemma on_channel_total_obeys {E A} (f : Channel → Channel * A) :
  keeps_chan (on_channel_total (E:=E) f).
Proof. unfold on_channel_total. obeys_auto. Qed.
Lemma state_remote_id_obeys {E} : keeps_chan (state_remote_id (E:=E)).
Proof. unfold state_remote_id. obeys_auto. Qed.
Lemma send_p2p_obeys m : keeps_chan (send_p2p m).
Proof.
  unfold send_p2p. apply upholds_bind; [obeys_auto|]. intros n.
  apply upholds_bind; [obeys_auto|]. intros remote. apply send_self_obeys. unfold chan_ok. simpl.
  intros r Hr. apply send_to_obeys. simpl. by destruct (r_identity r).
Qed.
Lemma save_state_obeys : keeps_chan save_state.
Proof. unfold save_state. obeys_auto. Qed.
#[local] Hint Resolve save_state_obeys : upholds.
Lemma set_identity_obeys id : keeps_chan (set_identity id).
Proof. unfold set_identity. obeys_auto. by apply update_obeys. Qed.
Lemma unexpected_obeys {A} ev l : keeps_chan (unexpected (A:=A) ev l).
Proof. unfold unexpected. obeys_auto. Qed.
#[local] Hint Resolve on_channel_obeys on_channel_total_obeys state_remote_id_obeys send_p2p_obeys
  set_identity_obeys unexpected_obeys : upholds.

#[local] Ltac stage := obeys_auto; by apply chan_send_ctl_obeys.

Lemma complete_launch_obeys ev : keeps_chan (complete_launch ev).
Proof. unfold complete_launch, propose_with, accept_with. stage. Qed.
Lemma process_propose_obeys ev p : keeps_chan (process_propose ev p).
Proof.
  unfold process_propose, propose_next. destruct p;
    unfold complete_proposed, complete_accepted, complete_signing, complete_funding,
      complete_published, complete_locked; stage.
Qed.
Lemma process_accept_obeys ev a : keeps_chan (process_accept ev a).
Proof.
  unfold process_accept, accept_next. destruct a;
    unfold finish_accepted, finish_signed, finish_funded, finish_locked; stage.
Qed.
#[local] Hint Resolve complete_launch_obeys process_propose_obeys process_accept_obeys : upholds.
Lemma advance_obeys ev : keeps_chan (advance ev).
Proof. unfold advance. obeys_auto. Qed.
Lemma complete_reestablish_obeys src m : keeps_chan (complete_reestablish src m).
Proof. unfold complete_reestablish. stage. Qed.
#[local] Hint Resolve advance_obeys complete_reestablish_obeys : upholds.
Lemma process_event_obeys ev : keeps_chan (process_event ev).
Proof. unfold process_event. obeys_auto. Qed.
#[local] Hint Resolve process_event_obeys : upholds.
Lemma process_obeys src m : keeps_chan (process src m).
Proof. unfold process, report_offline. obeys_auto. Qed.
#[local] Hint Resolve process_obeys : upholds.

Lemma chan_obeys bus src m : keeps_chan (serve (chan_handle bus src m) chan_handle_err).
Proof.
  apply serve_obeys; [|by intros; apply upholds_mreturn].
  unfold chan_handle. destruct bus, m as [ln|bf|ctl|rpc]; obeys_auto.
  - unfold chan_handle_rpc. obeys_auto. apply send_rpc_obeys; [apply chan_is_daemon|done].
  - unfold chan_handle_p2p. obeys_auto.
  - unfold chan_handle_ctl. destruct ctl; obeys_auto.
Qed.
End daemons.
