(* ===== verification/NodeBroker.v ===== *)
(** * lnpd keeps to the protocol of the buses

    The launchers and the requests of remote peers are registered under the ids of
    channel daemons, so that what lnpd sends to the source of a message goes where the
    protocol allows it. *)

From S2P Require Import Prelude.
From S2P Require Import Bus.
From S2P Require Import Service.
From S2P Require Import Files.
From S2P Require Import Config.
From S2P Require Import ChannelRuntime.
From S2P Require Import Wallet.
From S2P Require Import Rpc.
From S2P Require Import LnpdRuntime.
From S2P Require Import Launch.
From S2P Require Import Lnpd.
From S2P Require Import LnpdFacts.
From S2P Require Import LnpdSafety.
From S2P Require Import Node.
From S2P Require Import NodeFacts.

Local Open Scope rust_scope.

(** Registered under the ids of channel daemons. *)
Definition keys_ok {A} (m : gmap ServiceId A) : Prop := map_Forall (λ k _, is_channel k) m.
Definition lnpd_ok `{WalletLib, !LnpCore} (r : Lnpd) : Prop :=
  keys_ok (l_creating r) ∧ keys_ok (l_accepting r) ∧ keys_ok (l_reestablishing r).

Lemma keys_ok_insert {A} k (x : A) m : is_channel k → keys_ok m → keys_ok (<[k := x]> m).
Proof. intros Hk Hm. by apply map_Forall_insert_2. Qed.
Lemma keys_ok_delete {A} k (m : gmap ServiceId A) : keys_ok m → keys_ok (delete k m).
Proof. apply map_Forall_delete. Qed.

Section broker.
Context `{Sys, !Fmt, !LnpCore, !WalletLib, !WalletCodec, !LnpdLib, !Build}.

#[local] Abbreviation keeps J := (upholds (obeys J) (λ _, True)).
#[local] Abbreviation kept := (keeps lnpd_ok).

(** ** Calls that do not touch the registries *)

Lemma on_part_obeys {R T E A} (I : T → Prop) (J : R → Prop) (prj : R → T) (upd : T → R → R)
    (m : M (World T) E A) :
  keeps I m → (∀ r, J r → I (prj r)) → (∀ t r, I t → J r → J (upd t r)) →
  keeps J (on_part prj upd m).
Proof.
  intros Hm Hp Hu w [HJ Hh]. unfold on_part.
  destruct (Hm (mk_world (prj (rt w)) (hist w) (disk w))) as [[HI Hh'] _]; [by split; [apply Hp|]|].
  destruct (m _) as [r w']. simpl in *. split; [|done]. split; [by apply Hu|done].
Qed.

Lemma building_obeys {R T E A} (I : T → Prop) (J : R → Prop) (t : T) (m : M (World T) E A) :
  I t → keeps I m → keeps J (building t m).
Proof.
  intros Ht Hm w [HJ Hh]. unfold building.
  destruct (Hm (mk_world t (hist w) (disk w))) as [[_ Hh'] _]; [by split|].
  destruct (m _) as [r w']. split; [|done]. by split.
Qed.

Lemma electrum_obeys {E A} `{From ElectrumErr E} {R} (J : R → Prop) o (reply : History → string + A) :
  keeps J (electrum (E:=E) o reply).
Proof. unfold electrum. apply upholds_q. by apply query_obeys. Qed.
Lemma u64_any {S E} (I : S → Prop) n : upholds I (λ _, True) (u64 (E:=E) n).
Proof. unfold u64. obeys_auto. Qed.
#[local] Hint Resolve electrum_obeys u64_any : upholds.

#[local] Abbreviation wallet_keeps := (keeps (any_runtime (R:=FundingWallet))).
Lemma save_obeys : wallet_keeps save.
Proof. unfold save. obeys_auto. Qed.
#[local] Hint Resolve save_obeys : upholds.
Lemma list_funds_obeys : wallet_keeps list_funds.
Proof. unfold list_funds, lookup_funds. obeys_auto. Qed.
Lemma next_address_obeys : wallet_keeps next_funding_address.
Proof. unfold next_funding_address. obeys_auto. Qed.
Lemma take_funds_any {S E} (I : S → Prop) t acc l :
  upholds I (λ _, True) (take_funds (E:=E) t acc l).
Proof. revert acc. induction l as [|f l IH]; intros acc; simpl; obeys_auto. Qed.
Lemma fee_loop_obeys fuel d inputs script amount change rate fee :
  wallet_keeps (fee_loop fuel d inputs script amount change rate fee).
Proof.
  revert fee. induction fuel as [|fuel IH]; intros fee; simpl; obeys_auto. by apply query_obeys.
Qed.
#[local] Hint Resolve list_funds_obeys take_funds_any fee_loop_obeys : upholds.
Lemma construct_obeys fuel t script amount rate :
  wallet_keeps (construct_funding_psbt fuel t script amount rate).
Proof. unfold construct_funding_psbt. obeys_auto. Qed.

Lemma on_wallet_obeys {E A} (m : FW E A) : wallet_keeps m → kept (on_wallet m).
Proof. intros Hm. by eapply on_part_obeys; [exact Hm|..]. Qed.
Lemma launch_daemon_obeys d : kept (launch_daemon d).
Proof. apply exec_daemon_obeys. Qed.
Lemma debug_assert_obeys {E} b why : kept (debug_assert (E:=E) b why).
Proof. unfold debug_assert. obeys_auto. Qed.
Lemma publish_obeys psbt : kept (publish psbt).
Proof. unfold publish. obeys_auto. Qed.
Lemma update_chanel_id_obeys {E} o n : kept (update_chanel_id (E:=E) o n).
Proof. unfold update_chanel_id. obeys_auto. Qed.
Lemma sum_by_address_obeys network funds acc : kept (sum_by_address network funds acc).
Proof. revert acc. induction funds; intros acc; simpl; obeys_auto. Qed.
Lemma lnpd_send_rpc_obeys c m : is_reply m → kept (send_rpc c m).
Proof. by apply send_rpc_obeys. Qed.
#[local] Hint Resolve on_wallet_obeys launch_daemon_obeys debug_assert_obeys publish_obeys
  update_chanel_id_obeys sum_by_address_obeys construct_obeys next_address_obeys : upholds.

(** ** Reports *)

Lemma tell_client_obeys {E} c r : is_reply r → kept (tell_client (E:=E) c r).
Proof. intros Hr. apply upholds_swallow, send_to_obeys. by destruct r. Qed.
Lemma launch_report_progress_obeys {E} c m : kept (launch_report_progress (E:=E) c m).
Proof. by apply tell_client_obeys. Qed.
Lemma launch_report_success_obeys {E} c m : kept (launch_report_success (E:=E) c m).
Proof. by apply tell_client_obeys. Qed.
Lemma launch_report_failure_obeys {A} c e : kept (launch_report_failure (A:=A) c e).
Proof. unfold launch_report_failure. obeys_auto. by apply tell_client_obeys. Qed.
#[local] Hint Resolve launch_report_progress_obeys launch_report_success_obeys
  launch_report_failure_obeys : upholds.
Lemma launch_unexpected_obeys {A} ev c s : kept (launch_unexpected (A:=A) ev c s).
Proof. unfold launch_unexpected. obeys_auto. Qed.
Lemma report_progress_or_failure_obeys c r : kept (report_progress_or_failure c r).
Proof.
  unfold report_progress_or_failure. apply upholds_bind; [|obeys_auto].
  apply tell_client_obeys. by destruct r.
Qed.
#[local] Hint Resolve launch_unexpected_obeys report_progress_or_failure_obeys : upholds.

(** ** The launch workflow *)

(** Who may send the events that a launch answers. *)
Definition answerable (ev : CtlEvent) : bool :=
  match ev_message ev with
  | CtlHello | CtlKeyset _ _ => is_channel (ev_source ev) || is_svc (ev_source ev) Signer
  | CtlConstructFunding _ => is_channel (ev_source ev)
  | _ => true
  end.

Section launch.
Context (ev : CtlEvent) (Hservice : ev_service ev = LnpBroker) (Hev : answerable ev).

Lemma start_negotiation_obeys t k r c :
  is_channel (ev_source ev) || is_svc (ev_source ev) Signer → kept (start_negotiation ev t k r c).
Proof.
  intros Hs. unfold start_negotiation, event_send_ctl. rewrite Hservice. obeys_auto.
Qed.
Lemma start_negotiation1_obeys t r c : kept (start_negotiation1 ev t r c).
Proof.
  unfold start_negotiation1. apply upholds_bind; [obeys_auto|]. intros _.
  unfold answerable in Hev. destruct (ev_message ev); obeys_auto. by apply start_negotiation_obeys.
Qed.
Lemma start_negotiation2_obeys t k r c : kept (start_negotiation2 ev t k r c).
Proof.
  unfold start_negotiation2. unfold answerable in Hev. destruct (ev_message ev); obeys_auto.
  by apply start_negotiation_obeys.
Qed.
Lemma complete_negotiation_obeys fuel t c : kept (complete_negotiation fuel ev t c).
Proof.
  unfold complete_negotiation, fund_channel, event_send_ctl. unfold answerable in Hev.
  rewrite Hservice. destruct (ev_message ev); obeys_auto.
Qed.
Lemma complete_commitment_obeys txid c : kept (complete_commitment ev txid c).
Proof.
  unfold complete_commitment, attempt_from, event_send_ctl_service. rewrite Hservice. obeys_auto.
Qed.
Lemma complete_signatures_obeys txid c : kept (complete_signatures ev txid c).
Proof. unfold complete_signatures. obeys_auto. Qed.
#[local] Hint Resolve start_negotiation1_obeys start_negotiation2_obeys complete_negotiation_obeys
  complete_commitment_obeys complete_signatures_obeys lnpd_send_rpc_obeys : upholds.

Lemma launcher_next_obeys fuel l : kept (launcher_next fuel l ev).
Proof.
  unfold launcher_next.
  assert (kept (launcher_stage fuel l ev)) as Hs.
  { unfold launcher_stage, launch_complete_launch, complete_derivation. destruct l; obeys_auto. }
  destruct (ev_message ev); try done. apply upholds_bind; [|obeys_auto].
  by apply upholds_q, lnpd_send_rpc_obeys.
Qed.
End launch.

(** ** Handlers *)

Lemma next_launcher_obeys fuel l src m :
  answerable (event_with LnpBroker src m) → kept (next_launcher fuel l src m).
Proof.
  intros Hev. unfold next_launcher. apply send_self_obeys. intros r _.
  apply upholds_bind; [|obeys_auto]. by apply upholds_q, launcher_next_obeys.
Qed.

Lemma take_launcher_obeys {A} key src (k : ChannelLauncher → LW Error A) :
  (is_channel key → ∀ l, kept (k l)) → kept (let! l := take_launcher key src in k l).
Proof.
  intros Hk w Hw. unfold bind. rewrite take_launcher_run.
  destruct (l_creating (rt w) !! key) as [l|] eqn:El; [|by apply upholds_mpanic].
  destruct Hw as [(Hc & Ha & Hr) Hh]. apply (Hk (Hc _ _ El) l). split; [|done].
  split_and!; [by apply keys_ok_delete|done|done].
Qed.

Lemma update_creating_obeys {E} k l :
  is_channel k → kept (update (E:=E) (map_creating <[k := l]>)).
Proof.
  intros Hk. apply update_obeys. intros r (Hc & Ha & Hr). split_and!; [|done|done].
  by apply keys_ok_insert.
Qed.
Lemma update_accepting_obeys {E} k l :
  is_channel k → kept (update (E:=E) (map_accepting <[k := l]>)).
Proof.
  intros Hk. apply update_obeys. intros r (Hc & Ha & Hr). split_and!; [done| |done].
  by apply keys_ok_insert.
Qed.
Lemma update_reestablishing_obeys {E} k l :
  is_channel k → kept (update (E:=E) (map_reestablishing <[k := l]>)).
Proof.
  intros Hk. apply update_obeys. intros r (Hc & Ha & Hr). split_and!; [done|done|].
  by apply keys_ok_insert.
Qed.
#[local] Hint Resolve update_creating_obeys update_accepting_obeys update_reestablishing_obeys
  next_launcher_obeys lnpd_send_rpc_obeys : upholds.

Lemma register_daemon_obeys {E} src : kept (register_daemon (E:=E) src).
Proof. unfold register_daemon. obeys_auto. Qed.

Lemma handle_hello_obeys fuel src :
  is_daemon src → kept (handle_hello fuel src).
Proof.
  intros Hsrc. unfold handle_hello. apply upholds_bind; [apply register_daemon_obeys|]. intros _.
  apply send_self_obeys. intros r0 _. simpl. intros w Hw. unfold self. rewrite bind_gets.
  pose proof Hw as [(Hc & Ha & Hr) Hh].
  destruct (l_creating (rt w) !! src) as [l|] eqn:El.
  { apply Hc in El. simpl in El. clear Hc Ha Hr Hh. revert w Hw.
    apply upholds_bind.
    { apply update_obeys. intros r (? & ? & ?). split_and!; [by apply keys_ok_delete|done|done]. }
    intros _. apply upholds_bind.
    - apply upholds_q, launcher_next_obeys; [done|]. unfold answerable. simpl. by destruct src.
    - intros [l'|]; obeys_auto. }
  destruct (l_accepting (rt w) !! src) as [req|] eqn:Ea.
  { apply Ha in Ea. simpl in Ea. clear Hc Ha Hr Hh El. revert w Hw.
    apply upholds_bind.
    { apply update_obeys. intros r (? & ? & ?). split_and!; [done|by apply keys_ok_delete|done]. }
    obeys_auto. }
  destruct (l_reestablishing (rt w) !! src) as [[n m]|] eqn:Er.
  { apply Hr in Er. simpl in Er. clear Hc Ha Hr Hh El Ea. revert w Hw.
    apply upholds_bind.
    { apply update_obeys. intros r (? & ? & ?). split_and!; [done|done|by apply keys_ok_delete]. }
    obeys_auto. apply send_to_obeys. by destruct src. }
  destruct (l_spawning (rt w) !! src) as [c|]; [|by apply upholds_mreturn].
  clear Hc Ha Hr Hh El Ea Er. revert w Hw.
  apply upholds_bind; obeys_auto.
Qed.

Lemma handle_error_obeys fuel d m :
  match m with CtlError _ _ _ | CtlEsbError _ _ => true | _ => false end →
  kept (handle_error fuel d m).
Proof.
  intros Hm. unfold handle_error. apply take_launcher_obeys. intros _ l.
  apply send_self_obeys. intros r _. apply upholds_swallow, launcher_next_obeys; [done|].
  unfold answerable. by destruct m.
Qed.
Lemma handle_signed_obeys fuel src psbt : kept (handle_signed fuel src psbt).
Proof.
  unfold handle_signed. obeys_auto. by apply launcher_next_obeys.
Qed.

Lemma lnpd_ctl_obeys fuel src m :
  ctl_route src LnpBroker m → kept (lnpd_handle_ctl fuel src m).
Proof.
  intros Hc. unfold lnpd_handle_ctl. destruct m; try done; try (by apply upholds_mfail).
  - apply handle_hello_obeys. by destruct src.
  - apply take_launcher_obeys. intros _ l. obeys_auto. apply next_launcher_obeys. by destruct src.
  - apply take_launcher_obeys. intros _ l. obeys_auto.
  - apply handle_signed_obeys.
  - apply take_launcher_obeys. intros Hk l. obeys_auto. apply next_launcher_obeys. by destruct src.
  - apply upholds_swallow, lnpd_send_rpc_obeys. by destruct (rep_status r).
  - by apply handle_error_obeys.
  - by apply handle_error_obeys.
Qed.

Lemma listen_obeys addr p : kept (listen addr p).
Proof. unfold listen. obeys_auto. Qed.
Lemma launcher_with_obeys c r : kept (launcher_with c r).
Proof. unfold launcher_with, attempt_from. obeys_auto. Qed.
#[local] Hint Resolve listen_obeys launcher_with_obeys : upholds.
Lemma lnpd_rpc_obeys c m : kept (lnpd_handle_rpc c m).
Proof.
  unfold lnpd_handle_rpc, now, available_funding, handle_listen, handle_connect.
  destruct m; obeys_auto; apply lnpd_send_rpc_obeys.
  - by destruct a3.
  - by destruct a2.
Qed.
Lemma lnpd_p2p_obeys n m : kept (lnpd_handle_p2p n m).
Proof. unfold lnpd_handle_p2p. destruct m; obeys_auto. Qed.

Lemma lnpd_err_obeys err : kept (lnpd_handle_err err).
Proof. unfold lnpd_handle_err. destruct err; obeys_auto. Qed.

Lemma lnpd_obeys fuel e :
  conforms e → env_dest e = LnpBroker →
  kept (serve (lnpd_handle fuel (env_bus e) (env_src e) (env_msg e)) lnpd_handle_err).
Proof.
  destruct e as [bus src dest msg]. simpl. intros Hc ->. apply serve_obeys; [|apply lnpd_err_obeys].
  unfold lnpd_handle. destruct bus, msg as [ln|bf|ctl|rpc]; try (by apply upholds_mfail).
  - destruct src; try (by apply upholds_mpanic). apply lnpd_rpc_obeys.
  - destruct src; try (by apply upholds_mpanic). apply lnpd_p2p_obeys.
  - by apply lnpd_ctl_obeys.
Qed.
End broker.
