(* ===== verification/NodeCorrect.v ===== *)
(** * Properties of the node as a whole

    The protocol of the buses is an invariant of every node, whatever order the
    messages are delivered in and whatever clients and remote peers do; with it, lnpd
    panics for fewer reasons in a node than on its own. *)

From S2P Require Import Prelude.
From S2P Require Import Bus.
From S2P Require Import Service.
From S2P Require Import Files.
From S2P Require Import Config.
From S2P Require Import ChannelRuntime.
From S2P Require Import Machine.
From S2P Require Import Wallet.
From S2P Require Import LnpdRuntime.
From S2P Require Import Lnpd.
From S2P Require Import LnpdFacts.
From S2P Require Import LnpdSafety.
From S2P Require Import Watch.
From S2P Require Import Peerd.
From S2P Require Import Routed.
From S2P Require Import Signd.
From S2P Require Import Node.
From S2P Require Import NodeFacts.
From S2P Require Import NodeBroker.

Local Open Scope rust_scope.

(** ** Histories *)

Section histories.
Context `{Ext}.

Lemma sent_attempted (h : History) e : e ∈ sent h → e ∈ attempted h.
Proof.
  unfold sent, attempted. rewrite !list_elem_of_omap. intros ([o ok] & Hin & Ho).
  exists (o, ok). split; [done|]. destruct o; simpl in *; try done. destruct ok; by simplify_eq.
Qed.
Lemma sent_conform h : all_conform h → Forall conforms (sent h).
Proof.
  intros Hh. apply Forall_forall. intros e He%sent_attempted.
  by apply (proj1 (Forall_forall _ _) Hh).
Qed.
Lemma news_conform h h' : all_conform h' → Forall conforms (news h h').
Proof.
  intros Hh. apply sent_conform. unfold all_conform in *.
  rewrite <-(take_drop (length h) h'), attempted_app in Hh. by apply Forall_app in Hh as [_ ?].
Qed.
End histories.

(** ** Processes *)

Section processes.
Context `{Ext, !Fmt, !LnpCore, !StateCodec, !SignLib, !RouterLib, !ElectrumLib, !Build, !LogLevel}.

Definition proc_ok (p : Proc) : Prop :=
  match p with
  | PSign w => obeys any_runtime w
  | PRoute w => obeys any_runtime w
  | PWatch s => obeys trackers_ok (wd_runtime s)
  | PChan w => obeys chan_ok w
  | PPeer p => ∃ protocol, obeys (peer_ok protocol) (pd_runtime p) ∧
                 Forall (bridge_ok protocol) (pd_bridge p)
  end.

Lemma proc_ok_conforms p : proc_ok p → all_conform (proc_hist p).
Proof. destruct p as [| | | |pd]; try by intros []. by intros (pr & [] & _). Qed.

Lemma peer_id_daemon pr p : peer_ok pr (rt (pd_runtime p)) → is_daemon (proc_id (PPeer p)).
Proof. apply peer_is_daemon. Qed.

(** What the result of a call that keeps [P] leaves. *)
Lemma upholds_run {S A} (P : S → Prop) (m : M S Error A) s r s' :
  upholds P (λ _, True) m → P s → m s = (r, s') → P s'.
Proof. intros Hm Hs E. destruct (Hm s Hs) as [Hs' _]. by rewrite E in Hs'. Qed.

Lemma proc_serve_ok S e p x :
  proc_ok p → conforms e → env_dest e = proc_id p → proc_serve S e p = x → proc_ok x.2.
Proof.
  intros Hp Hc Hd <-. unfold proc_serve. destruct p as [w|w|s|w|p]; simpl in *.
  - destruct (serve _ _ w) as [r w'] eqn:E. exact (upholds_run _ _ _ _ _ (signd_obeys e Hc Hd) Hp E).
  - destruct (serve _ _ w) as [r w'] eqn:E. exact (upholds_run _ _ _ _ _ (routed_obeys e Hc Hd) Hp E).
  - destruct (serve _ _ _) as [r w'] eqn:E. exact (upholds_run _ _ _ _ _ (watch_obeys e Hc Hd) Hp E).
  - destruct (serve _ _ w) as [r w'] eqn:E. exact (upholds_run _ _ _ _ _ (chan_obeys _ _ _) Hp E).
  - destruct Hp as (pr & Hp & Hb). destruct (serve _ _ _) as [r w'] eqn:E. exists pr.
    split; [|done]. refine (upholds_run _ _ _ _ _ (peerd_obeys pr e Hc _) Hp E).
    rewrite Hd. apply (peer_id_daemon pr), Hp.
Qed.

Lemma on_bridge_sends {R} Q (w w' : World R) : sends Q w w' → Forall Q (on_bridge w w').
Proof.
  intros (ops & E & HF). unfold on_bridge. rewrite E, drop_app_length. apply Forall_fmap.
  apply Forall_forall. intros e He%sent_attempted. unfold attempted in He.
  apply list_elem_of_omap in He as ([o ok] & Hin & Ho). destruct o; simplify_eq/=.
  by apply (proj1 (Forall_forall _ _) HF) in Hin.
Qed.

Lemma listener_bridges (S : Sys) pr m : of_protocol pr m → respects (sends (bridge_ok pr)) (listener_handle m).
Proof.
  intros Hm. unfold listener_handle, peer_send_over_bridge. respects_auto. apply send_to_sends.
  by destruct pr, m.
Qed.
Lemma listener_err_bridges (S : Sys) pr err : respects (sends (bridge_ok pr)) (listener_handle_err err).
Proof.
  unfold listener_handle_err, peer_send_over_bridge. destruct err; respects_auto.
Qed.

Lemma proc_internal_ok S p x : proc_ok p → proc_internal S p x → proc_ok x.2.
Proof.
  intros Hp Hi. destruct Hi as [s s' Hs|w l b m l' Hm Hl|w l b err l' Hl]; simpl in *.
  - by eapply watch_threads_obey.
  - destruct Hp as (pr & Hp & Hb). exists pr. split; [done|]. apply Forall_app. split; [done|].
    apply on_bridge_sends. pose proof (listener_bridges S pr m) as Hr.
    destruct Hp as [[Hpr _] _]. simpl in Hpr. rewrite Hpr in Hm. specialize (Hr Hm l).
    by rewrite Hl in Hr.
  - destruct Hp as (pr & Hp & Hb). exists pr. split; [done|]. apply Forall_app. split; [done|].
    apply on_bridge_sends. pose proof (listener_err_bridges S pr err l) as Hr. by rewrite Hl in Hr.
Qed.

(** ** Start-up *)

#[local] Abbreviation keeps J := (upholds (obeys J) (λ _, True)).

Lemma fresh_conforms d : obeys any_runtime (mk_world tt [] d).
Proof. split; [done|]. apply Forall_nil_2. Qed.

Lemma service_run_ok `{!Sys} {R} `{!Handler R} (J : R → Prop) (on_ready : W R Error unit) r w w' :
  (∀ r, J r → is_daemon (identity r)) → keeps J on_ready → J r → all_conform (hist w) →
  service_run on_ready (mk_world (R:=R) r (hist w) (disk (R:=unit) w)) = (Ok tt, w') → obeys J w'.
Proof.
  intros Hd Hk Hr Hw Hrun. refine (upholds_run _ _ _ _ _ _ (conj _ _) Hrun); [|exact Hr|exact Hw].
  unfold service_run. apply upholds_bind; [|done]. by apply run_loop_start_obeys.
Qed.

Lemma boots_ok `{!Sys} {R} `{!Handler R} (J : R → Prop) run (on_ready : W R Error unit) w :
  keeps any_runtime run → returns run J → (∀ r, J r → is_daemon (identity r)) →
  keeps J on_ready → boots run on_ready w → obeys J w.
Proof.
  intros Hrun Hret Hd Hk [d r w1 w2 E1 E2].
  pose proof (upholds_run _ _ _ _ _ Hrun (fresh_conforms d) E1) as [_ Hh].
  eapply service_run_ok; [done|done| |exact Hh|exact E2]. by eapply Hret.
Qed.

Lemma signd_with_obeys (S : Sys) config : keeps (any_runtime (R:=unit)) (signd_with config).
Proof. unfold signd_with, provider. obeys_auto. Qed.
Lemma run_obeys (S : Sys) config c : keeps (any_runtime (R:=unit)) (run config c).
Proof. unfold run. obeys_auto. Qed.
Lemma run_identity (S : Sys) config c : returns (run config c) chan_ok.
Proof. unfold run. returns_auto. by apply returns_mreturn. Qed.
Lemma watchd_run_obeys (S : Sys) config : keeps (any_runtime (R:=unit)) (watchd_run config).
Proof. unfold watchd_run, worker_with, connect_electrum. obeys_auto. by apply perform_obeys. Qed.
Lemma watchd_run_starts (S : Sys) config :
  returns (watchd_run config) (λ x, trackers_ok x.1).
Proof.
  unfold watchd_run. apply returns_bind. intros [|[worker p]]; [apply returns_mfail|].
  apply returns_mreturn. apply map_Forall_empty.
Qed.

Lemma peerd_start_ok protocol local_id remote_id ls rs connect started :
  peer_ok protocol (peerd_start protocol local_id remote_id ls rs connect started).
Proof. split; [done|]. by destruct protocol. Qed.

Lemma proc_starts_ok S d p : proc_starts S d p → proc_ok p.
Proof.
  intros [config w Hb|w Hb|config dk r processor w1 w2 E1 E2|config c w Hb
         |dm pr li ri ls rs cn st w Hpr Hb]; simpl.
  - refine (boots_ok any_runtime _ _ _ (signd_with_obeys S config) _ _ _ Hb); done.
  - by refine (boots_ok any_runtime _ _ _ _ _ _ _ Hb).
  - pose proof (upholds_run _ _ _ _ _ (watchd_run_obeys S config) (fresh_conforms dk) E1) as [_ Hh].
    pose proof (watchd_run_starts S config _ _ _ E1) as Ht.
    refine (service_run_ok trackers_ok _ _ _ _ _ _ Ht Hh E2); done.
  - refine (boots_ok chan_ok _ _ _ (run_obeys S config c) (run_identity S config c) chan_is_daemon _ Hb).
    upholds_auto.
  - exists pr. split; [|apply Forall_nil_2].
    refine (boots_ok (peer_ok pr) _ _ _ _ _ (peer_is_daemon pr) (peerd_on_ready_obeys pr) Hb);
      [by apply upholds_mreturn|apply returns_mreturn, peerd_start_ok].
Qed.
End processes.

(** ** The node *)

Section node.
Context `{Ext, !Fmt, !LnpCore, !StateCodec, !WalletLib, !WalletCodec, !LnpdLib, !SignLib,
  !RouterLib, !ElectrumLib, !Build, !LogLevel}.

Definition node_ok (n : Node) : Prop :=
  obeys lnpd_ok (nd_lnpd n) ∧ Forall proc_ok (nd_procs n) ∧ Forall conforms (nd_flight n).

Lemma lnpd_run_obeys (S : Sys) config key listens :
  upholds (obeys (any_runtime (R:=unit))) (λ _, True) (lnpd_run config key listens).
Proof.
  unfold lnpd_run, read_node_key_file, now, wallet_with, init. obeys_auto.
  - by apply electrum_obeys.
  - apply (building_obeys any_runtime); [done|]. unfold update_fees. obeys_auto. by apply electrum_obeys.
Qed.
Lemma lnpd_run_starts (S : Sys) config key listens :
  returns (lnpd_run config key listens) (λ r, l_creating r = ∅ ∧ l_funding r = ∅ ∧ lnpd_ok r).
Proof.
  unfold lnpd_run. do 2 (apply returns_bind; intros). apply returns_bind. intros wallet.
  apply returns_mreturn. split_and!; [done..|]. split_and!; apply map_Forall_empty.
Qed.
Lemma on_ready_obeys (S : Sys) : upholds (obeys lnpd_ok) (λ _, True) on_ready.
Proof.
  unfold on_ready.
  assert (∀ l, upholds (obeys lnpd_ok) (λ _, True) (listen_all l)) as Hl.
  { intros l. induction l; simpl; [obeys_auto|]. obeys_auto. by apply listen_obeys. }
  obeys_auto; apply launch_daemon_obeys.
Qed.

Lemma node_starts_ok n : node_starts n → node_ok n.
Proof.
  intros [S config key listens d r w1 w2 E1 E2].
  pose proof (upholds_run _ _ _ _ _ (lnpd_run_obeys S config key listens) (fresh_conforms d) E1)
    as [_ Hh]. apply lnpd_run_starts in E1 as (_ & _ & Hr).
  assert (obeys lnpd_ok w2) as Hw2.
  { eapply upholds_run; [apply on_ready_obeys| |exact E2]. by split. }
  split_and!; [done|apply Forall_nil_2|]. apply sent_conform, Hw2.
Qed.

Lemma left_ok x : proc_ok x.2 → Forall proc_ok (left_of x).
Proof. intros Hx. unfold left_of. destruct x.1; [by apply Forall_singleton|done]. Qed.

Lemma bridge_served (S : Sys) w1 l m b r w2 :
  proc_ok (PPeer {| pd_runtime := w1; pd_listener := l; pd_bridge := m :: b |}) →
  serve (peerd_handle BusIdBridge Loopback m) peerd_handle_err w1 = (r, w2) →
  proc_ok (PPeer {| pd_runtime := w2; pd_listener := l; pd_bridge := b |}).
Proof.
  intros (pr & Hp & [Hm Hb]%Forall_cons) Hs. exists pr. split; [|done].
  eapply upholds_run; [|done|exact Hs]. apply serve_obeys; [|by intros; apply upholds_mreturn].
  by apply peerd_bridge_obeys.
Qed.

Lemma handles_ok n n' : node_ok n → handles n n' → node_ok n'.
Proof.
  intros (Hl & Hp & Hf) Hs. destruct Hs as [S fuel e ms1 ms2 w w' ps Hd Hr|S e ms1 ms2 w ps1 p ps2 x Hd Hr
    |S e err ms1 ms2 w w' ps _ Hr|e ms1 ms2 w ps _|S w ps1 w1 l m b r w2 ps2 ms Hr]; simpl in *.
  - apply Forall_app in Hf as [Hf1 [He Hf2]%Forall_cons].
    pose proof (upholds_run _ _ _ _ _ (lnpd_obeys fuel e He Hd) Hl Hr) as Hw.
    split_and!; [done|done|]; simpl. rewrite !Forall_app. split_and!; [done|done|]. apply news_conform, Hw.
  - apply Forall_app in Hf as [Hf1 [He Hf2]%Forall_cons].
    apply Forall_app in Hp as [Hp1 [Hp Hp2]%Forall_cons].
    pose proof (proc_serve_ok S e p x Hp He Hd Hr) as Hx.
    split_and!; [done| |]; simpl; rewrite !Forall_app; split_and!; try done; [by apply left_ok|].
    by apply news_conform, proc_ok_conforms.
  - apply Forall_app in Hf as [Hf1 [He Hf2]%Forall_cons].
    pose proof (upholds_run _ _ _ _ _ (lnpd_err_obeys (EsbSend (env_src e) (env_dest e) err)) Hl Hr) as Hw.
    split_and!; [done|done|]; simpl. rewrite !Forall_app. split_and!; [done|done|]. apply news_conform, Hw.
  - apply Forall_app in Hf as [Hf1 [He Hf2]%Forall_cons].
    split_and!; [done|done|]; simpl. by rewrite !Forall_app.
  - apply Forall_app in Hp as [Hp1 [Hp Hp2]%Forall_cons].
    pose proof (bridge_served S _ _ _ _ _ _ Hp Hr) as Hx.
    split_and!; [done| |]; simpl; rewrite !Forall_app; [split_and!; [done|by apply left_ok|done]|].
    split; [done|]. by apply news_conform, (proc_ok_conforms _ Hx).
Qed.

Lemma node_step_ok n n' : node_ok n → node_step n n' → node_ok n'.
Proof.
  intros (Hl & Hp & Hf) Hs. destruct Hs as [n n' Hs|S w ps1 p ps2 x ms Hi|S d w ps p ms _ Hi
    |c dest m w ps ms]; simpl in *.
  - by eapply handles_ok.
  - apply Forall_app in Hp as [Hp1 [Hp Hp2]%Forall_cons].
    pose proof (proc_internal_ok S p x Hp Hi) as Hx.
    split_and!; [done| |]; simpl; rewrite !Forall_app; [split_and!; [done|by apply left_ok|done]|].
    split; [done|]. by apply news_conform, proc_ok_conforms.
  - apply proc_starts_ok in Hi. split_and!; [done| |]; simpl; rewrite !Forall_app; (split; [done|]).
    + by apply Forall_singleton.
    + by apply sent_conform, proc_ok_conforms.
  - split_and!; [done|done|]; simpl. rewrite !Forall_app. split; [done|]. by apply Forall_singleton.
Qed.

Lemma node_reaches_ok n0 n : node_ok n0 → node_reaches n0 n → node_ok n.
Proof. intros Hn0. induction 1; [done|]. by eapply node_step_ok. Qed.

(** ** The registries of lnpd in a node *)

Context (outpoint_law : outpoint_of_psbt).
Context (socket_law : ∀ a, socket_of_inet (inet_of_socket a) = Some a).

(** What makes lnpd panic in a node, with the registries [r] it has when the message
    arrives. *)
Inductive broker_panic (r : Lnpd) (e : Envelope) : string → Prop :=
  | bp_unregistered msg key :
      env_bus e = BusIdCtl → env_msg e = BusCtl msg → launcher_key (env_src e) msg = Some key →
      l_creating r !! key = None →
      broker_panic r e ("unregistered channel launcher for " +:+ show_service_id key)
  | bp_not_funding psbt :
      env_bus e = BusIdCtl → env_msg e = BusCtl (CtlSigned psbt) → env_src e = Signer →
      l_funding r !! psbt_txid psbt = None →
      broker_panic r e ("unregistered channel launcher for " +:+ show_service_id Signer)
  | bp_wallet_funding f p :
      env_bus e = BusIdCtl → env_msg e = BusCtl (CtlConstructFunding f) → is_channel (env_src e) →
      wallet_panic p → broker_panic r e p
  | bp_wallet_funds c p :
      env_bus e = BusIdRpc → env_msg e = BusRpc RpcListFunds → env_src e = Client c →
      wallet_panic p → broker_panic r e p
  | bp_debug msg :
      debug_assertions = true → env_bus e = BusIdCtl → env_msg e = BusCtl msg →
      (∀ s k, msg ≠ CtlKeyset s k) → broker_panic r e keyset_not_from_signd.

Lemma lnpd_panic_conforms r e p :
  conforms e → env_dest e = LnpBroker →
  lnpd_panic r (env_bus e) (env_src e) (env_msg e) p → broker_panic r e p.
Proof.
  destruct e as [bus src dest msg]. simpl. intros Hc -> Hp.
  destruct Hp as [src m Hn|src m Hn|src msg key Hk Hr|src psbt Hf|src f p Hp|c p Hp|src msg Hd Hk
    |src psbt Hd Hs]; simpl in *.
  - destruct src; try done. by destruct (Hn n).
  - destruct src; try done. by destruct (Hn c).
  - by eapply bp_unregistered.
  - destruct src; try done. by eapply bp_not_funding.
  - eapply bp_wallet_funding; try done. by destruct src.
  - by eapply bp_wallet_funds.
  - eapply bp_debug; try done. intros s k ->. destruct (Hk s k eq_refl). by destruct src.
  - by destruct src.
Qed.

Lemma lnpd_err_registries (S : Sys) err :
  upholds (on_rt registries_ok) (λ _, False) (lnpd_handle_err err).
Proof. unfold lnpd_handle_err. upholds_auto. Qed.

Lemma serve_registries (S : Sys) fuel bus src msg w r w' :
  registries_ok (rt w) → serve (lnpd_handle fuel bus src msg) lnpd_handle_err w = (r, w') →
  registries_ok (rt w') ∧ ∀ p, r = Panic p → lnpd_panic (rt w) bus src msg p.
Proof.
  intros Hw. pose proof (lnpd_handle_safe outpoint_law socket_law fuel bus src msg w Hw) as [Hw1 Hp].
  unfold serve, bind, attempt. destruct (lnpd_handle fuel bus src msg w) as [[[]|e|p] w1]; simpl in *.
  - by intros [= <- <-].
  - intros E. destruct (lnpd_err_registries S (error_into_esb e) w1 Hw1) as [Hw2 Hn].
    rewrite E in Hw2, Hn. split; [done|]. intros p ->. by destruct (Hn p).
  - intros [= <- <-]. split; [done|]. intros ? [= <-]. by apply Hp.
Qed.

Lemma node_starts_registries n : node_starts n → registries_ok (rt (nd_lnpd n)).
Proof.
  intros [S config key listens d r w1 w2 E1 E2]. simpl.
  apply lnpd_run_starts in E1 as (Hc & Hf & _).
  assert (upholds (on_rt registries_ok) (λ _, True) on_ready) as Hr.
  { unfold on_ready. 
    assert (∀ l, upholds (on_rt registries_ok) (λ _, True) (listen_all l)) as Hl.
    { intros l. induction l; simpl; upholds_auto. by apply listen_safe. }
    unfold launch_daemon. upholds_auto. }
  refine (upholds_run _ _ _ _ _ Hr _ E2). split; simpl; by rewrite ?Hc, ?Hf.
Qed.

Lemma node_registries n0 n : node_starts n0 → node_reaches n0 n → registries_ok (rt (nd_lnpd n)).
Proof.
  intros Hn0. induction 1 as [|n n' Hr IH Hs]; [by apply node_starts_registries|].
  destruct Hs as [? ? [| |S e err ms1 ms2 w w' ps _ Hrun| |]| | |]; simpl in IH |- *; try done.
  - by eapply serve_registries.
  - destruct (lnpd_err_registries S (EsbSend (env_src e) (env_dest e) err) w IH) as [Hw _].
    by rewrite Hrun in Hw.
Qed.
End node.

Section theorems.
Context `{Ext, !Fmt, !LnpCore, !StateCodec, !WalletLib, !WalletCodec, !LnpdLib, !SignLib,
  !RouterLib, !ElectrumLib, !Build, !LogLevel}.

(** C4. In every state a node reaches, whatever order its messages are delivered in,
    whatever its surroundings answer and whatever clients and remote peers say, the
    messages in flight, and every message any of its daemons ever tried to send, conform
    to the protocol of the buses: a client's bus carries requests of clients and replies
    to them, the peer bus what a channel daemon tells a peer and what a peer tells lnpd
    or a channel daemon, and each control message goes from a service that may say it to
    one it is meant for, but for one kind that goes astray: lnpd's request to open a
    channel may go to signd instead of the channel daemon. *)
Theorem messages_conform_to_the_protocol n0 n :
  node_starts n0 → node_reaches n0 n → Forall conforms (nd_flight n ++ node_attempted n).
Proof.
  intros Hn0 Hr. destruct (node_reaches_ok n0 n) as (Hl & Hp & Hf); [by apply node_starts_ok|done|].
  unfold node_attempted. rewrite !Forall_app. split_and!; [done|by apply Hl|].
  apply Forall_bind. eapply Forall_impl; [exact Hp|]. intros p. apply proc_ok_conforms.
Qed.

(** C5. In a node, lnpd panics only on the messages listed by [broker_panic]: those
    about a launcher that is not registered, the panics of the wallet, and, in a debug
    build, the assertion on the origin of keysets, on a control message other than a
    keyset. A message that claims to be from a peer, a client or signd and is not, on
    which lnpd would panic on its own, does not occur. *)
Theorem broker_panics_in_a_node (S : Sys) fuel n0 n e p w' :
  outpoint_of_psbt → (∀ a, socket_of_inet (inet_of_socket a) = Some a) →
  node_starts n0 → node_reaches n0 n → e ∈ nd_flight n → env_dest e = LnpBroker →
  serve (lnpd_handle fuel (env_bus e) (env_src e) (env_msg e)) lnpd_handle_err (nd_lnpd n)
    = (Panic p, w') →
  broker_panic (rt (nd_lnpd n)) e p.
Proof.
  intros Hlaw Hsock Hn0 Hr He Hd Hp. apply lnpd_panic_conforms; [|done|].
  - pose proof (node_reaches_ok n0 n (node_starts_ok n0 Hn0) Hr) as (_ & _ & Hf).
    by apply (proj1 (Forall_forall _ _) Hf).
  - pose proof (node_registries Hlaw Hsock n0 n Hn0 Hr) as Hreg.
    by apply (serve_registries Hlaw Hsock S fuel _ _ _ _ _ _ Hreg Hp).
Qed.
End theorems.
