(* ===== verification/NodeRun.v ===== *)
(** * Runs of the node, computed

    A schedule is a list of moves; [node_run] computes the node it leads to, and every
    node so computed is one that [node_step] reaches.  The surroundings are the same
    throughout a schedule. *)

From S2P Require Import Prelude.
From S2P Require Import Bus.
From S2P Require Import Service.
From S2P Require Import Config.
From S2P Require Import ChannelRuntime.
From S2P Require Import Machine.
From S2P Require Import Wallet.
From S2P Require Import LnpdRuntime.
From S2P Require Import Lnpd.
From S2P Require Import Watch.
From S2P Require Import Peerd.
From S2P Require Import Routed.
From S2P Require Import Signd.
From S2P Require Import Node.

Local Open Scope rust_scope.

Section run.
Context `{Sys, !Fmt, !LnpCore, !StateCodec, !WalletLib, !WalletCodec, !LnpdLib, !SignLib,
  !RouterLib, !ElectrumLib, !Build, !LogLevel}.

(** What starting a daemon takes besides its name. *)
Inductive Boot :=
  | BootSign (config : Config unit)
  | BootRoute
  | BootWatch (config : Config unit)
  | BootChan (config : Config unit)
  | BootPeer (local_id : NodeId) (remote_id : option NodeId) (local_socket : option InetSocketAddr)
      (remote_socket : InetSocketAddr) (connect : bool) (started : N).

Definition boot_world {R} `{!Handler R} (run : W unit Error R) (on_ready : W R Error unit) (d : Disk)
    : option (World R) :=
  match run (mk_world tt [] d) with
  | (Ok r, w1) =>
      match service_run on_ready (mk_world r (hist w1) (disk w1)) with
      | (Ok _, w2) => Some w2
      | _ => None
      end
  | _ => None
  end.

Definition boot (b : Boot) (d : Disk) (daemon : Daemon) : option Proc :=
  match b, daemon with
  | BootSign config, Signd => PSign <$> boot_world (signd_with config) (mreturn tt) d
  | BootRoute, Routed => PRoute <$> boot_world (mreturn routed_start) (mreturn tt) d
  | BootWatch config, Service.Watchd =>
      match watchd_run config (mk_world tt [] d) with
      | (Ok (r, processor), w1) =>
          match service_run (mreturn tt) (mk_world r (hist w1) (disk w1)) with
          | (Ok _, w2) => Some (PWatch (watch_threads w2 processor))
          | _ => None
          end
      | _ => None
      end
  | BootChan config, Channeld c => PChan <$> boot_world (run config c) (mreturn tt) d
  | BootPeer li ri ls rs cn st, _ =>
      match daemon_protocol daemon with
      | Some pr =>
          (λ w, PPeer {| pd_runtime := w; pd_listener := listener_start (identity (rt w));
                         pd_bridge := [] |}) <$>
            boot_world (peerd_run pr li ri ls rs cn st) peerd_on_ready d
      | None => None
      end
  | _, _ => None
  end.

(** [i] is a position among the messages in flight, [j] among the processes, [k] in
    the history of lnpd. *)
Inductive Move :=
  | MvBroker (i : nat)
  | MvDeliver (i j : nat)
  | MvReceive (j : nat) (m : LnMsg + BfMsg)
  | MvBridge (j : nat)
  | MvStart (k : nat) (b : Boot) (d : Disk)
  | MvUndeliverable (i : nat) (err : string)
  | MvClient (c : ClientId) (dest : ServiceId) (m : RpcMsg)
  | MvLeave (i : nat).

(** The [i]-th element, what is before it and what is after it. *)
Definition pick {A} (i : nat) (l : list A) : option (list A * A * list A) :=
  (λ x, (take i l, x, drop (1 + i) l)) <$> l !! i.

Definition node_move (fuel : nat) (m : Move) (n : Node) : option Node :=
  let (w, ps, ms) := n in
  match m with
  | MvBroker i =>
      ' (ms1, e, ms2) ← pick i ms;
      if decide (env_dest e = LnpBroker) then
        match serve (lnpd_handle fuel (env_bus e) (env_src e) (env_msg e)) lnpd_handle_err w with
        | (Ok _, w') => Some {| nd_lnpd := w'; nd_procs := ps;
                                nd_flight := ms1 ++ ms2 ++ news (hist w) (hist w') |}
        | _ => None
        end
      else None
  | MvDeliver i j =>
      ' (ms1, e, ms2) ← pick i ms;
      ' (ps1, p, ps2) ← pick j ps;
      if decide (env_dest e = proc_id p) then
        let x := proc_serve _ e p in
        Some {| nd_lnpd := w; nd_procs := ps1 ++ left_of x ++ ps2;
                nd_flight := ms1 ++ ms2 ++ news (proc_hist p) (proc_hist x.2) |}
      else None
  | MvReceive j m =>
      ' (ps1, p, ps2) ← pick j ps;
      match p with
      | PPeer pd =>
          if of_protocol (p_protocol (rt (pd_runtime pd))) m then
            match listener_handle m (pd_listener pd) with
            | (Ok _, l') =>
                Some {| nd_lnpd := w;
                        nd_procs := ps1 ++ PPeer {|
                          pd_runtime := pd_runtime pd; pd_listener := l';
                          pd_bridge := pd_bridge pd ++ on_bridge (pd_listener pd) l' |} :: ps2;
                        nd_flight := ms ++ news (proc_hist p) (proc_hist p) |}
            | _ => None
            end
          else None
      | _ => None
      end
  | MvBridge j =>
      ' (ps1, p, ps2) ← pick j ps;
      match p with
      | PPeer {| pd_runtime := w1; pd_listener := l; pd_bridge := msg :: b |} =>
          let '(r, w2) := serve (peerd_handle BusIdBridge Loopback msg) peerd_handle_err w1 in
          let x := (lives r, PPeer {| pd_runtime := w2; pd_listener := l; pd_bridge := b |}) in
          Some {| nd_lnpd := w; nd_procs := ps1 ++ left_of x ++ ps2;
                  nd_flight := ms ++ news (hist w1) (hist w2) |}
      | _ => None
      end
  | MvStart k b d =>
      match hist w !! k with
      | Some (OpLaunch daemon, true) =>
          p ← boot b d daemon;
          Some {| nd_lnpd := w; nd_procs := ps ++ [p]; nd_flight := ms ++ sent (proc_hist p) |}
      | _ => None
      end
  | MvUndeliverable i err =>
      ' (ms1, e, ms2) ← pick i ms;
      if decide (nobody_at ps (env_dest e)) then
        match lnpd_handle_err (EsbSend (env_src e) (env_dest e) err) w with
        | (Ok _, w') => Some {| nd_lnpd := w'; nd_procs := ps;
                                nd_flight := ms1 ++ ms2 ++ news (hist w) (hist w') |}
        | _ => None
        end
      else None
  | MvClient c dest m =>
      Some {| nd_lnpd := w; nd_procs := ps; nd_flight := ms ++ [
        {| env_bus := BusIdRpc; env_src := Client c; env_dest := dest; env_msg := BusRpc m |}] |}
  | MvLeave i =>
      ' (ms1, e, ms2) ← pick i ms;
      if is_daemon (env_dest e) then None
      else Some {| nd_lnpd := w; nd_procs := ps; nd_flight := ms1 ++ ms2 |}
  end.

Fixpoint node_run (fuel : nat) (ms : list Move) (n : Node) : option Node :=
  match ms with
  | [] => Some n
  | m :: ms => n' ← node_move fuel m n; node_run fuel ms n'
  end.

(** lnpd started over a disk. *)
Definition node_boot (config : Config unit) (key_file : PathBuf) (listens : list ListenAddr)
    (d : Disk) : option Node :=
  match lnpd_run config key_file listens (mk_world tt [] d) with
  | (Ok r, w1) =>
      match on_ready (mk_world r (hist w1) (disk w1)) with
      | (Ok _, w2) => Some {| nd_lnpd := w2; nd_procs := []; nd_flight := sent (hist w2) |}
      | _ => None
      end
  | _ => None
  end.

(** ** What is computed is reached *)

Lemma pick_Some {A} i (l : list A) l1 x l2 : pick i l = Some (l1, x, l2) → l = l1 ++ x :: l2.
Proof.
  unfold pick. destruct (l !! i) as [y|] eqn:E; [|done]. intros [= <- <- <-].
  by rewrite take_drop_middle.
Qed.

Lemma boot_world_boots {R} `{!Handler R} run (on_ready : W R Error unit) d w :
  boot_world run on_ready d = Some w → boots run on_ready w.
Proof.
  unfold boot_world. destruct (run _) as [[r|e|p] w1] eqn:E1; [|done..].
  destruct (service_run _ _) as [[[]|e|p] w2] eqn:E2; [|done..]. intros [= <-]. by econstructor.
Qed.

Lemma boot_starts b d daemon p : boot b d daemon = Some p → proc_starts _ daemon p.
Proof.
  destruct b as [config| |config|config|li ri ls rs cn st]; simpl.
  - destruct daemon; try done. intros (w & Hw & ->)%fmap_Some. econstructor. by eapply boot_world_boots.
  - destruct daemon; try done. intros (w & Hw & ->)%fmap_Some. econstructor. by eapply boot_world_boots.
  - destruct daemon; try done. destruct (watchd_run _ _) as [[[r pr]|e|p1] w1] eqn:E1; [|done..].
    destruct (service_run _ _) as [[[]|e|p1] w2] eqn:E2; [|done..]. intros [= <-]. by econstructor.
  - destruct daemon; try done. intros (w & Hw & ->)%fmap_Some. econstructor. by eapply boot_world_boots.
  - destruct (daemon_protocol daemon) as [pr|] eqn:Epr; [|done].
    intros (w & Hw & ->)%fmap_Some. econstructor; [done|]. by eapply boot_world_boots.
Qed.

Lemma node_move_step fuel m n n' : node_move fuel m n = Some n' → node_step n n'.
Proof.
  destruct n as [w ps ms]. destruct m as [i|i j|j m|j|k b d|i err|c dest m|i]; cbn [node_move].
  - intros ([[ms1 e] ms2] & ->%pick_Some & Hm)%bind_Some. case_decide; [|done].
    destruct (serve _ _ _) as [[[]|err|p] w'] eqn:E; [|done..]. simplify_eq. by eapply ns_handles, hs_broker.
  - intros ([[ms1 e] ms2] & ->%pick_Some & ([[ps1 p] ps2] & ->%pick_Some & Hm)%bind_Some)%bind_Some.
    case_decide; [|done]. simplify_eq. by eapply ns_handles, hs_deliver.
  - intros ([[ps1 p] ps2] & ->%pick_Some & Hm)%bind_Some. destruct p as [| | | |[w1 l b]]; try done.
    simpl in *. destruct (of_protocol _ m) eqn:Em; [|done].
    destruct (listener_handle m l) as [[[]|err|p] l'] eqn:E; [|done..]. simplify_eq.
    apply (ns_internal _ w ps1 (PPeer {| pd_runtime := w1; pd_listener := l; pd_bridge := b |}) ps2
      (true, PPeer {| pd_runtime := w1; pd_listener := l'; pd_bridge := b ++ on_bridge l l' |})).
    econstructor; [|exact E]. by rewrite Em.
  - intros ([[ps1 p] ps2] & ->%pick_Some & Hm)%bind_Some.
    destruct p as [| | | |[w1 l [|msg b]]]; try done.
    destruct (serve _ _ _) as [r w2] eqn:E. simplify_eq.
    by eapply ns_handles, hs_bridge.
  - destruct (hist w !! k) as [[[| |daemon| | |] []]|] eqn:Ek; try done.
    intros (p & Hp & Hm)%bind_Some. simplify_eq. apply boot_starts in Hp.
    eapply ns_start; [by eapply list_elem_of_lookup_2|exact Hp].
  - intros ([[ms1 e] ms2] & ->%pick_Some & Hm)%bind_Some. case_decide; [|done].
    destruct (lnpd_handle_err _ _) as [[[]|err'|p] w'] eqn:E; [|done..]. simplify_eq.
    by eapply ns_handles, hs_undeliverable.
  - intros [= <-]. apply ns_client_asks.
  - intros ([[ms1 e] ms2] & ->%pick_Some & Hm)%bind_Some. destruct (is_daemon _) eqn:Ed; [done|].
    simplify_eq. by apply ns_handles, hs_leaves.
Qed.

Lemma node_run_reaches fuel ms n0 n n' :
  node_reaches n0 n → node_run fuel ms n = Some n' → node_reaches n0 n'.
Proof.
  revert n. induction ms as [|m ms IH]; intros n Hn; simpl; [by intros [= <-]|].
  intros (n1 & Hm%node_move_step & Hms)%bind_Some. eapply IH; [|exact Hms]. by econstructor.
Qed.

Lemma node_boot_starts config key listens d n : node_boot config key listens d = Some n → node_starts n.
Proof.
  unfold node_boot. destruct (lnpd_run _ _ _ _) as [[r|e|p] w1] eqn:E1; [|done..].
  destruct (on_ready _) as [[[]|e|p] w2] eqn:E2; [|done..]. intros [= <-]. by econstructor.
Qed.
End run.
