(* ===== verification/Scenarios.v ===== *)
(** * What some situations of a node lead to

    Runs that every node in a certain situation can take: from a reply of signd that
    can no longer be delivered to a panic of lnpd, from the peer's signature of the
    refund to the end of the launch, and from the locked funding of an incoming channel
    to the active channel. *)

From S2P Require Import Prelude.
From S2P Require Import Bus.
From S2P Require Import Service.
From S2P Require Import Files.
From S2P Require Import Config.
From S2P Require Import ChannelRuntime.
From S2P Require Import Propose.
From S2P Require Import Accept.
From S2P Require Import Machine.
From S2P Require Import ChannelFacts.
From S2P Require Import ChannelCorrect.
From S2P Require Import Wallet.
From S2P Require Import LnpdRuntime.
From S2P Require Import Launch.
From S2P Require Import Lnpd.
From S2P Require Import LnpdSafety.
From S2P Require Import Watch.
From S2P Require Import Peerd.
From S2P Require Import Routed.
From S2P Require Import Signd.
From S2P Require Import Node.
From S2P Require Import NodeFacts.
From S2P Require Import NodeBroker.
From S2P Require Import NodeCorrect.

Local Open Scope rust_scope.

(** Surroundings in which the buses deliver and files can be written. *)
Definition obliging `{Sys} : Prop :=
  (∀ h o, esb_reply h o = None) ∧ (∀ h o, io_reply h o = None).

Definition oblige `{Ext} (S : Sys) : Sys := {|
  esb_reply := λ _ _, None;
  launch_reply := @launch_reply _ S;
  io_reply := λ _ _, None;
  io_not_found := @io_not_found _ S;
  short_write := @short_write _ S;
  peer_reply := @peer_reply _ S;
  random_temp_id := @random_temp_id _ S;
  random_size := @random_size _ S;
  random_byte := @random_byte _ S;
  sys_now := @sys_now _ S |}.

Lemma oblige_obliging `{Ext} (S : Sys) : @obliging _ (oblige S).
Proof. by split. Qed.

Lemma replaced {A} (l1 l2 : list A) x y :
  y ∈ l1 ++ [y] ++ l2 ∧ ∀ z, z ∈ l1 ++ x :: l2 → z = x ∨ z ∈ l1 ++ [y] ++ l2.
Proof.
  split; intros *; rewrite !elem_of_app, ?list_elem_of_singleton, ?elem_of_cons;
    [auto|tauto].
Qed.
Lemma appended {A} (l1 l2 l : list A) : l ⊆ l1 ++ l2 ++ l.
Proof. intros x Hx. rewrite !elem_of_app. by do 2 right. Qed.

Section sends.
Context `{Sys, !Fmt} {R : Type} `{!Handler R}.
Context (Hobl : obliging).

Definition letter (b : ServiceBus) (src dest : ServiceId) (m : BusMsg) : Envelope :=
  {| env_bus := b; env_src := src; env_dest := dest; env_msg := m |}.

Lemma send_to_delivers b s d m (w : World R) :
  send_to b s d m w = (Ok tt, record_op (OpSend (letter b s d m)) true w).
Proof. unfold send_to, perform. by rewrite (proj1 Hobl). Qed.

Lemma send_ctl_delivers d m (w : World R) :
  send_ctl d m w = (Ok tt, record_op (OpSend (letter BusIdCtl (identity (rt w)) d (BusCtl m))) true w).
Proof.
  unfold send_ctl, send_ctl_to, self. rewrite bind_gets. unfold bind, q. by rewrite send_to_delivers.
Qed.

Lemma news_snoc (w : World R) o : news (hist w) (hist (record_op o true w)) = option_list (sent_of (o, true)).
Proof. unfold news. simpl. rewrite drop_app_length. by destruct o. Qed.
End sends.

Section node.
Context `{Ext, !Fmt, !LnpCore, !StateCodec, !WalletLib, !WalletCodec, !LnpdLib, !SignLib,
  !RouterLib, !ElectrumLib, !Build, !LogLevel}.

Lemma node_reaches_trans n0 n n' : node_reaches n0 n → node_reaches n n' → node_reaches n0 n'.
Proof. intros Hn. induction 1; [done|]. by econstructor. Qed.

(** One delivery, and what it leaves of the other processes and messages. *)
Lemma delivery (S : Sys) w ps ms pr e pr' :
  pr ∈ ps → e ∈ ms → env_dest e = proc_id pr → proc_serve S e pr = (true, pr') →
  ∃ ps' ms', node_step {| nd_lnpd := w; nd_procs := ps; nd_flight := ms |}
                       {| nd_lnpd := w; nd_procs := ps'; nd_flight := ms' |} ∧
    pr' ∈ ps' ∧ (∀ x, x ∈ ps → x = pr ∨ x ∈ ps') ∧ news (proc_hist pr) (proc_hist pr') ⊆ ms' ∧
    (∀ y, y ∈ ms → y = e ∨ y ∈ ms').
Proof.
  intros (ps1 & ps2 & ->)%list_elem_of_split (ms1 & ms2 & ->)%list_elem_of_split Hd Hs.
  eexists _, _. split; [by eapply ns_handles, hs_deliver|]. simpl.
  destruct (replaced ps1 ps2 pr pr') as [? ?]. split_and!; [done..|apply appended|].
  intros y. rewrite !elem_of_app, elem_of_cons. tauto.
Qed.

(** A process acts of its own accord. *)
Lemma acting (S : Sys) w ps ms pr pr' :
  pr ∈ ps → proc_internal S pr (true, pr') →
  ∃ ps', node_step {| nd_lnpd := w; nd_procs := ps; nd_flight := ms |}
      {| nd_lnpd := w; nd_procs := ps'; nd_flight := ms ++ news (proc_hist pr) (proc_hist pr') |} ∧
    pr' ∈ ps' ∧ (∀ x, x ∈ ps → x = pr ∨ x ∈ ps').
Proof.
  intros (ps1 & ps2 & ->)%list_elem_of_split Hi. eexists.
  split; [exact (ns_internal S w ps1 pr ps2 (true, pr') ms Hi)|]. apply replaced.
Qed.
Lemma brokered (S : Sys) fuel w ps ms e w' :
  e ∈ ms → env_dest e = LnpBroker →
  serve (lnpd_handle fuel (env_bus e) (env_src e) (env_msg e)) lnpd_handle_err w = (Ok tt, w') →
  ∃ ms', node_step {| nd_lnpd := w; nd_procs := ps; nd_flight := ms |}
                   {| nd_lnpd := w'; nd_procs := ps; nd_flight := ms' |} ∧
    news (hist w) (hist w') ⊆ ms'.
Proof.
  intros (ms1 & ms2 & ->)%list_elem_of_split Hd Hs.
  eexists. split; [by eapply ns_handles, hs_broker|]. apply appended.
Qed.
Lemma nobody_broker ps : ¬ nobody_at ps LnpBroker.
Proof. by intros (_ & ? & _). Qed.

(** ** A reply that cannot be delivered *)

Lemma signd_refuses (S : Sys) d err ws : obliging →
  ∃ ws' m, proc_serve S (letter BusIdCtl LnpBroker Signer (BusCtl (CtlEsbError d err))) (PSign ws)
      = (true, PSign ws') ∧
    news (hist ws) (hist ws') = [letter BusIdCtl Signer LnpBroker (BusCtl (CtlError LnpBroker m.1 m.2))].
Proof.
  intros Hobl. unfold proc_serve, serve, signd_handle, self. simpl.
  unfold bind at 1, attempt at 1. unfold bind at 1. simpl. unfold attempt, mfail. simpl.
  unfold bind, q, gets. rewrite (send_to_delivers Hobl). simpl.
  eexists _, (_, _). split; [done|]. etrans; [apply (news_snoc ws)|done].
Qed.

Lemma refusal_panics (S : Sys) fuel m w :
  lnpd_ok (rt w) →
  serve (lnpd_handle fuel BusIdCtl Signer (BusCtl (CtlError LnpBroker m.1 m.2))) lnpd_handle_err w
    = (Panic ("unregistered channel launcher for " +:+ show_service_id LnpBroker), w).
Proof.
  intros (Hc & _). unfold serve, bind, attempt. simpl. unfold handle_error. unfold bind at 1.
  rewrite take_launcher_run.
  destruct (l_creating (rt w) !! LnpBroker) as [l|] eqn:El; [by apply Hc in El|done].
Qed.

Lemma offline_reported (S : Sys) err e w : obliging →
  lnpd_handle_err (EsbSend (env_src e) (env_dest e) err) w =
    (Ok tt, record_op (OpSend (letter BusIdCtl LnpBroker (env_src e)
              (BusCtl (CtlEsbError (env_dest e) err)))) true w).
Proof.
  intros Hobl. unfold lnpd_handle_err, self. rewrite bind_gets. unfold bind, q.
  by rewrite (send_to_delivers Hobl).
Qed.

(** ** The acceptor's last steps *)

Section channel.
Context (S : Sys) (Hobl : obliging).

Lemma save_state_delivers w : ∃ w', save_state w = (Ok tt, w').
Proof.
  destruct Hobl as [_ Hio].
  unfold save_state, file_seek_start, file_sync, file_write, fs, perform, self, update, bind, q,
    attempt, gets, get, modify. simpl.
  repeat (rewrite Hio; simpl). eauto.
Qed.

(** A handler's event, processed to its end. *)
Lemma process_delivers src req w r ops :
  (∀ ev w0, ev_message ev = req → ev_source ev = src → rt w0 = rt w → ∃ w1,
     process_event ev w0 = (Ok tt, w1) ∧ rt w1 = r ∧ hist w1 = hist w0 ++ ops) →
  ∃ w', process src req w = (Ok true, w') ∧ (∀ T (f : Runtime → T), (∀ x h, f (set_file h x) = f x) →
      f (rt w') = f r) ∧
    ∃ h1 h2, hist w' = hist w ++ h1 ++ ops ++ h2.
Proof.
  intros Hev. destruct (process_spec src req w) as (w0 & ev & Hrt & _ & (h1 & Hh1 & _) & Hm & Hs & Hp).
  destruct (Hev ev w0 Hm Hs Hrt) as (w1 & E1 & Hr1 & Hh). rewrite E1 in Hp.
  destruct Hp as (w2 & Hr2 & (h2 & Hh2 & _) & ->).
  destruct (save_state_delivers w2) as (w3 & E3). exists w3.
  split; [unfold bind, q; by rewrite E3|]. split.
  - intros T f Hf. rewrite <-Hr1, <-Hr2.
    destruct (save_state_same f (λ h r, eq_sym (Hf r h)) w2) as [Hsame _].
    by rewrite E3 in Hsame.
  - destruct (save_state_same (λ _, tt) (λ _ _, eq_refl) w2) as [_ [h3 Hh3]].
    rewrite E3 in Hh3. simpl in Hh3. exists h1, (h2 ++ h3).
    by rewrite Hh3, Hh2, Hh, Hh1, <-!app_assoc.
Qed.

Context (c : ChannelId) (p : NodeId).

Lemma funding_locked_step ch m ev (w : World Runtime) :
  ev_message ev = BusBolt (LnFundingLocked m) → r_machine (rt w) = CsAccept AcFunded →
  r_identity (rt w) = ChannelSvc c → r_remote (rt w) = Some p →
  update_from_peer (r_channel (rt w)) (LnFundingLocked m) = (ch, inr tt) →
  ∃ w1, process_event ev w = (Ok tt, w1) ∧
    rt w1 = set_machine (CsAccept AcLocked) (set_channel ch (rt w)) ∧
    hist w1 = hist w ++ [(OpSend (letter BusIdCtl (ChannelSvc c) Router
                            (BusCtl (CtlChannelCreated (channel_info ch p)))), true);
                         (OpSend (letter BusIdCtl (ChannelSvc c) Router (BusCtl CtlHello)), true)].
Proof.
  intros Hm Hst Hid Hp Hup. destruct w as [r h d]. simpl in *. destruct Hobl as [Hesb _].
  unfold process_event, advance, process_accept, accept_next, finish_funded, on_channel,
    state_remote_id, send_ctl, send_ctl_to, send_to, perform, self, update, swallow, bind, q, gets,
    modify, of_sum, expect, mreturn. rewrite Hm. simpl.
  rewrite Hst. simpl. rewrite ?Hm. simpl. rewrite Hup. simpl.
  change (r_remote (set_channel ch r)) with (r_remote r). rewrite Hp. simpl.
  rewrite !Hesb. simpl. rewrite Hid. eexists. split_and!; [done|done|]. simpl.
  by rewrite <-app_assoc.
Qed.

Lemma funding_signed_step ch m ev (w : World Runtime) :
  ev_message ev = BusBolt (LnFundingSigned m) → r_machine (rt w) = CsPropose PrFunding →
  r_identity (rt w) = ChannelSvc c →
  update_from_peer (r_channel (rt w)) (LnFundingSigned m) = (ch, inr tt) →
  ∃ w1, process_event ev w = (Ok tt, w1) ∧
    rt w1 = set_machine (CsPropose PrPublished) (set_channel ch (rt w)) ∧
    hist w1 = hist w ++ [(OpSend (letter BusIdCtl (ChannelSvc c) LnpBroker
                            (BusCtl CtlPublishFunding)), true);
                         (OpSend (letter BusIdCtl (ChannelSvc c) Watch
                            (BusCtl (CtlTrack (funding_txid ch) 0))), true)].
Proof.
  intros Hm Hst Hid Hup. destruct w as [r h d]. simpl in *. destruct Hobl as [Hesb _].
  unfold process_event, advance, process_propose, propose_next, complete_funding, on_channel,
    send_ctl, send_ctl_to, send_to, perform, self, update, bind, q, gets, modify, of_sum, mreturn.
  rewrite Hm. simpl. rewrite Hst. simpl. rewrite ?Hm. simpl. rewrite Hup. simpl.
  rewrite !Hesb. simpl. rewrite Hid. eexists. split_and!; [done|done|]. simpl.
  by rewrite <-app_assoc.
Qed.

Lemma hello_step ev (w : World Runtime) :
  ev_message ev = BusCtl CtlHello → r_machine (rt w) = CsAccept AcLocked →
  r_identity (rt w) = ChannelSvc c → r_remote (rt w) = Some p →
  ∃ w1, process_event ev w = (Ok tt, w1) ∧
    rt w1 = set_machine CsActive (set_channel (compose_funding_locked (r_channel (rt w))).1 (rt w)) ∧
    hist w1 = hist w ++ [(OpSend (letter BusIdMsg (ChannelSvc c) (PeerBolt p)
      (BusBolt (LnFundingLocked (compose_funding_locked (r_channel (rt w))).2))), true)].
Proof.
  intros Hm Hst Hid Hp. destruct w as [r h d]. simpl in *. destruct Hobl as [Hesb _].
  unfold process_event, advance, process_accept, accept_next, finish_locked, on_channel_total,
    send_p2p, send_to, perform, self, update, bind, q, gets, modify, expect, mreturn. rewrite Hm. simpl.
  rewrite Hst. simpl. rewrite ?Hm. simpl.
  destruct (compose_funding_locked (r_channel r)) as [c' m]. simpl.
  change (r_remote (set_channel c' r)) with (r_remote r). rewrite Hp. simpl.
  rewrite !Hesb. simpl. rewrite Hid. eexists. by split_and!.
Qed.

(** Delivering an event to a channel daemon. *)
Lemma chan_serves src req e w r ops :
  match req with
  | BusBolt (LnFundingLocked _) | BusBolt (LnFundingSigned _) => ∃ n, src = PeerBolt n ∧ env_bus e = BusIdMsg
  | BusCtl CtlHello | BusCtl (CtlTxFound _) => env_bus e = BusIdCtl
  | _ => False
  end → env_src e = src → env_msg e = req →
  (∀ ev w0, ev_message ev = req → ev_source ev = src → rt w0 = rt w → ∃ w1,
     process_event ev w0 = (Ok tt, w1) ∧ rt w1 = r ∧ hist w1 = hist w0 ++ ops) →
  ∃ w', proc_serve S e (PChan w) = (true, PChan w') ∧
    (∀ T (f : Runtime → T), (∀ x h, f (set_file h x) = f x) → f (rt w') = f r) ∧
    sent ops ⊆ news (hist w) (hist w').
Proof.
  intros Hreq Hsrc Hmsg Hev.
  destruct (process_delivers src req w r ops Hev) as (w' & Hp & Hrt & h1 & h2 & Hh).
  exists w'. split_and!; [|done|].
  - unfold proc_serve, serve, bind, attempt. rewrite Hsrc, Hmsg.
    destruct req as [[]| |[]|]; try done; [destruct Hreq as (n & -> & ->)..|rewrite Hreq|rewrite Hreq];
      simpl; unfold bind, q; by rewrite Hp.
  - unfold news. rewrite Hh, drop_app_length, !sent_app. set_solver.
Qed.

Lemma funding_locked_served wc n m ch :
  r_machine (rt wc) = CsAccept AcFunded → r_identity (rt wc) = ChannelSvc c →
  r_remote (rt wc) = Some p →
  update_from_peer (r_channel (rt wc)) (LnFundingLocked m) = (ch, inr tt) →
  ∃ wc', proc_serve S (letter BusIdMsg (PeerBolt n) (ChannelSvc c) (BusBolt (LnFundingLocked m)))
      (PChan wc) = (true, PChan wc') ∧
    r_machine (rt wc') = CsAccept AcLocked ∧ r_identity (rt wc') = ChannelSvc c ∧
    r_remote (rt wc') = Some p ∧ r_channel (rt wc') = ch ∧
    letter BusIdCtl (ChannelSvc c) Router (BusCtl CtlHello) ∈ news (hist wc) (hist wc') ∧
    letter BusIdCtl (ChannelSvc c) Router (BusCtl (CtlChannelCreated (channel_info ch p)))
      ∈ news (hist wc) (hist wc').
Proof.
  intros Hst Hid Hp Hup.
  edestruct (chan_serves (PeerBolt n) (BusBolt (LnFundingLocked m)) (letter BusIdMsg (PeerBolt n)
    (ChannelSvc c) (BusBolt (LnFundingLocked m))) wc) as (wc' & E & Hrt & Hn);
    [by exists n|done|done| |].
  { intros ev w0 Hm _ Hrt. rewrite <-Hrt in Hst, Hid, Hp, Hup.
    destruct (funding_locked_step ch m ev w0 Hm Hst Hid Hp Hup) as (w1 & ? & Hr & ?).
    exists w1. rewrite Hrt in Hr. by split_and!. }
  exists wc'. split_and!; [done|by rewrite (Hrt _ r_machine)|by rewrite (Hrt _ r_identity)
    |by rewrite (Hrt _ r_remote)|by rewrite (Hrt _ r_channel)|apply Hn..]; simpl; set_solver.
Qed.

Lemma funding_signed_served wc n m ch :
  r_machine (rt wc) = CsPropose PrFunding → r_identity (rt wc) = ChannelSvc c →
  update_from_peer (r_channel (rt wc)) (LnFundingSigned m) = (ch, inr tt) →
  ∃ wc', proc_serve S (letter BusIdMsg (PeerBolt n) (ChannelSvc c) (BusBolt (LnFundingSigned m)))
      (PChan wc) = (true, PChan wc') ∧
    r_machine (rt wc') = CsPropose PrPublished ∧
    letter BusIdCtl (ChannelSvc c) LnpBroker (BusCtl CtlPublishFunding) ∈ news (hist wc) (hist wc').
Proof.
  intros Hst Hid Hup.
  edestruct (chan_serves (PeerBolt n) (BusBolt (LnFundingSigned m)) (letter BusIdMsg (PeerBolt n)
    (ChannelSvc c) (BusBolt (LnFundingSigned m))) wc) as (wc' & E & Hrt & Hn);
    [by exists n|done|done| |].
  { intros ev w0 Hm _ Hrt. rewrite <-Hrt in Hst, Hid, Hup.
    destruct (funding_signed_step ch m ev w0 Hm Hst Hid Hup) as (w1 & ? & Hr & ?).
    exists w1. rewrite Hrt in Hr. by split_and!. }
  exists wc'. split_and!; [done|by rewrite (Hrt _ r_machine)|]. apply Hn. simpl. set_solver.
Qed.

Lemma hello_served wc :
  r_machine (rt wc) = CsAccept AcLocked → r_identity (rt wc) = ChannelSvc c →
  r_remote (rt wc) = Some p →
  ∃ wc', proc_serve S (letter BusIdCtl Router (ChannelSvc c) (BusCtl CtlHello)) (PChan wc)
      = (true, PChan wc') ∧
    r_machine (rt wc') = CsActive ∧
    r_channel (rt wc') = (compose_funding_locked (r_channel (rt wc))).1 ∧
    letter BusIdMsg (ChannelSvc c) (PeerBolt p)
      (BusBolt (LnFundingLocked (compose_funding_locked (r_channel (rt wc))).2))
      ∈ news (hist wc) (hist wc').
Proof.
  intros Hst Hid Hp.
  edestruct (chan_serves Router (BusCtl CtlHello) (letter BusIdCtl Router (ChannelSvc c)
    (BusCtl CtlHello)) wc) as (wc' & E & Hrt & Hn); [done|done|done| |].
  { intros ev w0 Hm _ Hrt. rewrite <-Hrt in Hst, Hid, Hp.
    destruct (hello_step ev w0 Hm Hst Hid Hp) as (w1 & ? & Hr & Hh).
    exists w1. rewrite Hrt in Hr, Hh. by split_and!. }
  exists wc'. split_and!; [done|by rewrite (Hrt _ r_machine)|by rewrite (Hrt _ r_channel)|].
  apply Hn. simpl. set_solver.
Qed.

Lemma routed_echoes wr : ∃ wr',
  proc_serve S (letter BusIdCtl (ChannelSvc c) Router (BusCtl CtlHello)) (PRoute wr)
    = (true, PRoute wr') ∧
  news (hist wr) (hist wr') = [letter BusIdCtl Router (ChannelSvc c) (BusCtl CtlHello)].
Proof.
  unfold proc_serve, serve, bind, attempt. simpl. unfold bind, q. rewrite (send_ctl_delivers Hobl).
  eexists. split; [done|]. etrans; [apply (news_snoc wr)|done].
Qed.

End channel.

(** ** The last steps of a launch *)

Section launch.
Context (S : Sys) (Hobl : obliging) (fuel : nat).

Lemma tell_client_delivers {E} client r w :
  tell_client (E:=E) client r w =
    (Ok tt, record_op (OpSend (letter BusIdRpc LnpBroker (Client client) (BusRpc r))) true w).
Proof. unfold tell_client, swallow. by rewrite (send_to_delivers Hobl). Qed.

Lemma commitment_delivers c cc txid client psbt w :
  get_funding_psbt txid (l_wallet (rt w)) = Some psbt →
  next_launcher fuel (ClCommitting cc txid client) (ChannelSvc c) CtlPublishFunding w =
    (Ok (ClSigning c txid client),
     record_op (OpSend (letter BusIdRpc LnpBroker (Client client)
       (BusRpc (RpcProgress ("Signing funding transaction " +:+ show_txid txid))))) true
     (record_op (OpSend (letter BusIdCtl LnpBroker Signer (BusCtl (CtlSign psbt)))) true w)).
Proof.
  intros Hp. unfold next_launcher, launcher_next, launcher_stage, complete_commitment, attempt_from,
    event_send_ctl_service, report_progress_or_failure, self, attempt, bind, q, gets. simpl.
  rewrite Hp. simpl. rewrite (send_to_delivers Hobl). simpl. by rewrite tell_client_delivers.
Qed.

Lemma publish_served w c cc txid client psbt :
  l_creating (rt w) !! ChannelSvc c = Some (ClCommitting cc txid client) →
  get_funding_psbt txid (l_wallet (rt w)) = Some psbt →
  ∃ w1, serve (lnpd_handle fuel BusIdCtl (ChannelSvc c) (BusCtl CtlPublishFunding)) lnpd_handle_err w
      = (Ok tt, w1) ∧
    rt w1 = map_funding <[txid := ClSigning c txid client]>
              (map_creating (delete (ChannelSvc c)) (rt w)) ∧
    letter BusIdCtl LnpBroker Signer (BusCtl (CtlSign psbt)) ∈ news (hist w) (hist w1).
Proof.
  intros Hc Hp. eexists. split_and!.
  - unfold serve, attempt, bind at 1. simpl. unfold bind at 1. rewrite take_launcher_run, Hc.
    unfold bind at 1. erewrite commitment_delivers by exact Hp. done.
  - done.
  - simpl. unfold news. rewrite <-!app_assoc, drop_app_length. by left.
Qed.

Lemma signing_served ws n psbt psbt' sig :
  sign_all (sg_provider (rt ws)) psbt = (psbt', inr sig) →
  ∃ ws', proc_serve S (letter BusIdCtl n Signer (BusCtl (CtlSign psbt))) (PSign ws)
      = (true, PSign ws') ∧
    news (hist ws) (hist ws') = [letter BusIdCtl Signer n (BusCtl (CtlSigned psbt'))].
Proof.
  intros Hs. unfold proc_serve, serve, signd_handle, signd_handle_ctl, self, letter.
  unfold bind, attempt, q, gets. simpl. rewrite Hs. simpl. rewrite (send_to_delivers Hobl). simpl.
  eexists. split; [done|]. apply (news_snoc ws).
Qed.

Lemma debug_assert_true {St E} b why (s : St) :
  b = true → debug_assert (E:=E) b why s = (Ok tt, s).
Proof. intros ->. unfold debug_assert. by rewrite andb_false_r. Qed.

Lemma publish_delivers {R} psbt tx (w : World R) :
  (∀ h, broadcast h tx = None) → psbt_finalize psbt = inr tx →
  publish psbt w = (Ok tt, record_op (OpNet (NetBroadcast tx)) true w).
Proof. intros Hb Hf. unfold publish, electrum, query, q. rewrite Hf. simpl. by rewrite Hb. Qed.

Lemma signatures_deliver ev psbt tx client w :
  (∀ h, broadcast h tx = None) → psbt_finalize psbt = inr tx →
  ev_message ev = CtlSigned psbt → ev_source ev = Signer →
  complete_signatures ev (psbt_txid psbt) client w = (Ok tt,
    record_op (OpSend (letter BusIdRpc LnpBroker (Client client)
      (BusRpc (RpcSuccess (Some "Channel created and active"))))) true
    (record_op (OpNet (NetBroadcast tx)) true
    (record_op (OpSend (letter BusIdRpc LnpBroker (Client client)
      (BusRpc (RpcProgress "Funding transaction is signed, publishing to bitcoin network")))) true w))).
Proof.
  intros Hb Hf Hm Hs. unfold complete_signatures. rewrite Hm, decide_True by done.
  unfold bind at 1. rewrite debug_assert_true by (by rewrite Hs).
  unfold launch_report_progress, launch_report_success, bind, q.
  by rewrite tell_client_delivers, (publish_delivers _ tx), tell_client_delivers.
Qed.

Lemma signed_served w c client psbt tx :
  (∀ h, broadcast h tx = None) → psbt_finalize psbt = inr tx →
  l_funding (rt w) !! psbt_txid psbt = Some (ClSigning c (psbt_txid psbt) client) →
  ∃ w1, serve (lnpd_handle fuel BusIdCtl Signer (BusCtl (CtlSigned psbt))) lnpd_handle_err w
      = (Ok tt, w1) ∧
    rt w1 = map_funding (delete (psbt_txid psbt)) (rt w) ∧ (OpNet (NetBroadcast tx), true) ∈ hist w1 ∧
    letter BusIdRpc LnpBroker (Client client) (BusRpc (RpcSuccess (Some "Channel created and active")))
      ∈ news (hist w) (hist w1).
Proof.
  intros Hb Hf Hl. unfold serve, lnpd_handle, lnpd_handle_ctl, handle_signed, launcher_next,
    launcher_stage, self, update, expect, mreturn.
  unfold bind, attempt, q, gets, modify. simpl. rewrite Hl. simpl.
  rewrite (signatures_deliver _ _ tx) by done. rewrite debug_assert_true by done.
  eexists. split_and!; [done|done| |]; simpl.
  - set_solver.
  - unfold news. rewrite <-!app_assoc, drop_app_length. by right; left.
Qed.
End launch.
End node.

Section theorems.
Context `{Ext, !Fmt, !LnpCore, !StateCodec, !WalletLib, !WalletCodec, !LnpdLib, !SignLib,
  !RouterLib, !ElectrumLib, !Build, !LogLevel}.

(** C29. One undeliverable reply of signd is enough to end the node: when the daemon
    that asked signd is gone before the reply reaches it, lnpd can be brought to report
    this to signd, which refuses the report with an error about lnpd, on which lnpd
    panics, in whatever surroundings. *)
Theorem lost_reply_crashes_lnpd (S : Sys) n0 w ps1 ws ps2 ms1 e ms2 :
  let n := {| nd_lnpd := w; nd_procs := ps1 ++ PSign ws :: ps2; nd_flight := ms1 ++ e :: ms2 |} in
  node_starts n0 → node_reaches n0 n →
  env_src e = Signer → nobody_at (nd_procs n) (env_dest e) →
  ∃ n' e', node_reaches n n' ∧ e' ∈ nd_flight n' ∧ env_dest e' = LnpBroker ∧
    ∀ (S' : Sys) fuel,
      serve (lnpd_handle fuel (env_bus e') (env_src e') (env_msg e')) lnpd_handle_err (nd_lnpd n') =
        (Panic ("unregistered channel launcher for " +:+ show_service_id LnpBroker), nd_lnpd n').
Proof.
  intros n Hn0 Hr Hsrc Hno. pose proof (oblige_obliging S) as Hobl.
  set (told := letter BusIdCtl LnpBroker Signer (BusCtl (CtlEsbError (env_dest e) "offline"))).
  set (w1 := record_op (OpSend told) true w).
  set (n1 := {| nd_lnpd := w1; nd_procs := ps1 ++ PSign ws :: ps2;
                nd_flight := ms1 ++ ms2 ++ [told] |}).
  assert (node_step n n1) as Hstep1.
  { apply ns_handles.
    pose proof (hs_undeliverable (oblige S) e "offline" ms1 ms2 w w1 (ps1 ++ PSign ws :: ps2)) as Hs.
    unfold w1 in Hs. rewrite news_snoc in Hs. apply Hs; [done|].
    rewrite (offline_reported (oblige S) _ _ _ Hobl).
    by rewrite Hsrc. }
  destruct (signd_refuses (oblige S) (env_dest e) "offline" ws Hobl) as (ws' & m & Hserve & Hnews).
  set (refused := letter BusIdCtl Signer LnpBroker (BusCtl (CtlError LnpBroker m.1 m.2))).
  set (n2 := {| nd_lnpd := w1; nd_procs := ps1 ++ PSign ws' :: ps2;
                nd_flight := (ms1 ++ ms2) ++ [] ++ [refused] |}).
  assert (node_step n1 n2) as Hstep2.
  { apply ns_handles.
    pose proof (hs_deliver (oblige S) told (ms1 ++ ms2) [] w1 ps1 (PSign ws) ps2 _ eq_refl Hserve)
      as Hs.
    simpl in Hs. rewrite Hnews in Hs. unfold n1. by rewrite app_assoc. }
  exists n2, refused. split_and!; [| |done|].
  - econstructor; [|exact Hstep2]. econstructor; [|exact Hstep1]. constructor.
  - simpl. set_solver.
  - intros S' fuel. apply refusal_panics.
    assert (node_reaches n0 n2) as Hr2 by (do 2 (econstructor; [|done]); done).
    by destruct (node_reaches_ok n0 n2 (node_starts_ok n0 Hn0) Hr2) as ([Hw _] & _).
Qed.

(** C8. A channel that a remote peer opened becomes active without anything being asked
    about its funding transaction on the chain: when the buses deliver and files can be
    written, the daemon of an accepted and funded channel knows its peer, and the peer's
    [funding_locked] is in flight to it and lnp-core takes it, the node can go on, by
    way of an echo of routed alone, to a state in which the channel is active, routed is
    being told of the channel and the node's own [funding_locked] is on its way to the
    peer. *)
Theorem accepted_channel_becomes_active (S : Sys) w ps ms wc wr c p n m ch :
  obliging → PChan wc ∈ ps → PRoute wr ∈ ps →
  letter BusIdMsg (PeerBolt n) (ChannelSvc c) (BusBolt (LnFundingLocked m)) ∈ ms →
  r_machine (rt wc) = CsAccept AcFunded → r_identity (rt wc) = ChannelSvc c →
  r_remote (rt wc) = Some p →
  update_from_peer (r_channel (rt wc)) (LnFundingLocked m) = (ch, inr tt) →
  ∃ ps' ms' wc', node_reaches {| nd_lnpd := w; nd_procs := ps; nd_flight := ms |}
                              {| nd_lnpd := w; nd_procs := ps'; nd_flight := ms' |} ∧
    PChan wc' ∈ ps' ∧ r_machine (rt wc') = CsActive ∧
    r_channel (rt wc') = (compose_funding_locked ch).1 ∧
    letter BusIdCtl (ChannelSvc c) Router (BusCtl (CtlChannelCreated (channel_info ch p))) ∈ ms' ∧
    letter BusIdMsg (ChannelSvc c) (PeerBolt p)
      (BusBolt (LnFundingLocked (compose_funding_locked ch).2)) ∈ ms'.
Proof.
  intros Hobl Hwc Hwr He Hst Hid Hp Hup.
  destruct (funding_locked_served S Hobl c p wc n m ch Hst Hid Hp Hup)
    as (wc1 & E1 & Hst1 & Hid1 & Hp1 & Hc1 & Hn1 & Hr1).
  destruct (delivery S w ps ms _ _ _ Hwc He (eq_sym Hid) E1) as (ps1 & ms1 & Hs1 & Hin1 & Hk1 & Hm1 & _).
  destruct (routed_echoes S Hobl c wr) as (wr' & E2 & Hn2).
  destruct (delivery S w ps1 ms1 (PRoute wr) _ _ ltac:(by destruct (Hk1 _ Hwr)) (Hm1 _ Hn1) eq_refl E2)
    as (ps2 & ms2 & Hs2 & Hin2 & Hk2 & Hm2 & Hold2).
  destruct (hello_served S Hobl c p wc1 Hst1 Hid1 Hp1) as (wc2 & E3 & Hst2 & Hc2 & Hn3).
  destruct (delivery S w ps2 ms2 (PChan wc1) _ _ ltac:(by destruct (Hk2 _ Hin1))
    ltac:(apply Hm2; simpl; rewrite Hn2; by left) (eq_sym Hid1) E3) as (ps3 & ms3 & Hs3 & Hin3 & _ & Hm3 & Hold3).
  rewrite Hc1 in Hc2, Hn3. exists ps3, ms3, wc2. split_and!; [|done..| |by apply Hm3].
  - do 3 (econstructor; [|done]). constructor.
  - destruct (Hold2 _ (Hm1 _ Hr1)) as [|Hr2]; [done|]. by destruct (Hold3 _ Hr2).
Qed.

(** C7. A launch ends, when all goes well: the peer's signature of the refund is in
    flight to the channel daemon, which waits for it, and lnp-core takes it; lnpd has
    the launch registered as committing, with the funding PSBT in its wallet; signd
    signs this PSBT, which keeps its txid, and the signed PSBT can be finalized; the
    Electrum server takes whatever is broadcast; the buses deliver and files can be
    written. Then the node can go on, by way of lnpd and signd, to a state in which the
    signed funding transaction has been handed to the network, the client that asked for
    the channel is being told of the success, lnpd has neither the launch nor its
    funding registered any longer, and the channel daemon waits for a report about the
    transaction. *)
Theorem launch_ends_with_success (S : Sys) (fuel : nat) w ps ms wc ws c cc txid client n m ch
    psbt psbt' sig tx :
  obliging → (∀ h, broadcast h tx = None) → PChan wc ∈ ps → PSign ws ∈ ps →
  letter BusIdMsg (PeerBolt n) (ChannelSvc c) (BusBolt (LnFundingSigned m)) ∈ ms →
  r_machine (rt wc) = CsPropose PrFunding → r_identity (rt wc) = ChannelSvc c →
  update_from_peer (r_channel (rt wc)) (LnFundingSigned m) = (ch, inr tt) →
  l_creating (rt w) !! ChannelSvc c = Some (ClCommitting cc txid client) →
  get_funding_psbt txid (l_wallet (rt w)) = Some psbt →
  sign_all (sg_provider (rt ws)) psbt = (psbt', inr sig) → psbt_txid psbt' = txid →
  psbt_finalize psbt' = inr tx →
  ∃ w' ps' ms' wc', node_reaches {| nd_lnpd := w; nd_procs := ps; nd_flight := ms |}
                                 {| nd_lnpd := w'; nd_procs := ps'; nd_flight := ms' |} ∧
    PChan wc' ∈ ps' ∧ r_machine (rt wc') = CsPropose PrPublished ∧
    (OpNet (NetBroadcast tx), true) ∈ hist w' ∧
    letter BusIdRpc LnpBroker (Client client)
      (BusRpc (RpcSuccess (Some "Channel created and active"))) ∈ ms' ∧
    l_creating (rt w') = delete (ChannelSvc c) (l_creating (rt w)) ∧
    l_funding (rt w') = delete txid (l_funding (rt w)).
Proof.
  intros Hobl Hb Hwc Hws He Hst Hid Hup Hl Hpsbt Hsign <- Hf.
  destruct (funding_signed_served S Hobl c wc n m ch Hst Hid Hup) as (wc1 & E1 & Hst1 & Hn1).
  destruct (delivery S w ps ms _ _ _ Hwc He (eq_sym Hid) E1) as (ps1 & ms1 & Hs1 & Hin1 & Hk1 & Hm1 & _).
  destruct (publish_served S Hobl fuel w c cc _ client psbt Hl Hpsbt) as (w2 & E2 & Hr2 & Hn2).
  destruct (brokered S fuel w ps1 ms1 _ w2 (Hm1 _ Hn1) eq_refl E2) as (ms2 & Hs2 & Hm2).
  destruct (signing_served S Hobl ws LnpBroker psbt psbt' sig Hsign) as (ws3 & E3 & Hn3).
  destruct (delivery S w2 ps1 ms2 (PSign ws) _ _ ltac:(by destruct (Hk1 _ Hws)) (Hm2 _ Hn2) eq_refl E3)
    as (ps3 & ms3 & Hs3 & Hin3 & Hk3 & Hm3 & _).
  destruct (signed_served S Hobl fuel w2 c client psbt' tx Hb Hf) as (w4 & E4 & Hr4 & Hnet & Hn4);
    [by rewrite Hr2; apply lookup_insert_eq|].
  destruct (brokered S fuel w2 ps3 ms3 (letter BusIdCtl Signer LnpBroker (BusCtl (CtlSigned psbt')))
    w4 ltac:(apply Hm3; simpl; rewrite Hn3; by left) eq_refl E4) as (ms4 & Hs4 & Hm4).
  exists w4, ps3, ms4, wc1.
  split_and!; [|by destruct (Hk3 _ Hin1)|done..|by apply Hm4|by rewrite Hr4, Hr2|].
  - do 4 (econstructor; [|done]). constructor.
  - rewrite Hr4, Hr2. simpl. by rewrite delete_insert_eq.
Qed.
End theorems.
