(* ===== verification/Activation.v ===== *)
(** * The activation of a channel that the node opened

    From the request to watch the funding transaction, by way of the threads of watchd,
    to the active channel. *)

From S2P Require Import Prelude.
From S2P Require Import Bus.
From S2P Require Import Service.
From S2P Require Import Files.
From S2P Require Import Config.
From S2P Require Import ChannelRuntime.
From S2P Require Import Propose.
From S2P Require Import Accept.
From S2P Require Import Machine.
From S2P Require Import ChannelFacts.
From S2P Require Import ChannelCorrect.
From S2P Require Import Wallet.
From S2P Require Import LnpdRuntime.
From S2P Require Import Lnpd.
From S2P Require Import Watch.
From S2P Require Import WatchCorrect.
From S2P Require Import Peerd.
From S2P Require Import Routed.
From S2P Require Import Signd.
From S2P Require Import Node.
From S2P Require Import Scenarios.

Local Open Scope rust_scope.

Section node.
Context `{Ext, !Fmt, !LnpCore, !StateCodec, !WalletLib, !WalletCodec, !LnpdLib, !SignLib,
  !RouterLib, !ElectrumLib, !Build, !LogLevel}.

(** ** The opener's last steps *)

Section channel.
Context (S : Sys) (Hobl : obliging) (c : ChannelId) (p : NodeId).

Lemma tx_found_step s ev (w : World Runtime) :
  ev_message ev = BusCtl (CtlTxFound s) → r_machine (rt w) = CsPropose PrPublished →
  r_identity (rt w) = ChannelSvc c → r_remote (rt w) = Some p →
  ∃ w1, process_event ev w = (Ok tt, w1) ∧
    rt w1 = set_machine (CsPropose PrLocked)
              (set_channel (compose_funding_locked (r_channel (rt w))).1 (rt w)) ∧
    hist w1 = hist w ++ [(OpSend (letter BusIdMsg (ChannelSvc c) (PeerBolt p)
      (BusBolt (LnFundingLocked (compose_funding_locked (r_channel (rt w))).2))), true)].
Proof.
  intros Hm Hst Hid Hp. destruct w as [r h d]. simpl in *. destruct Hobl as [Hesb _].
  unfold process_event, advance, process_propose, propose_next, complete_published, on_channel_total,
    send_p2p, send_to, perform, self, update, bind, q, gets, modify, expect, mreturn. rewrite Hm. simpl.
  rewrite Hst. simpl. rewrite ?Hm. simpl.
  destruct (compose_funding_locked (r_channel r)) as [c' m]. simpl.
  change (r_remote (set_channel c' r)) with (r_remote r). rewrite Hp. simpl.
  rewrite !Hesb. simpl. rewrite Hid. eexists. by split_and!.
Qed.

Lemma peer_locked_step ch m ev (w : World Runtime) :
  ev_message ev = BusBolt (LnFundingLocked m) → r_machine (rt w) = CsPropose PrLocked →
  r_identity (rt w) = ChannelSvc c → r_remote (rt w) = Some p →
  update_from_peer (r_channel (rt w)) (LnFundingLocked m) = (ch, inr tt) →
  ∃ w1, process_event ev w = (Ok tt, w1) ∧
    rt w1 = set_machine CsActive (set_channel ch (rt w)) ∧
    hist w1 = hist w ++ [(OpSend (letter BusIdCtl (ChannelSvc c) Router
      (BusCtl (CtlChannelCreated (channel_info (r_channel (rt w)) p)))), true)].
Proof.
  intros Hm Hst Hid Hp Hup. destruct w as [r h d]. simpl in *. destruct Hobl as [Hesb _].
  unfold process_event, advance, process_propose, propose_next, complete_locked, on_channel,
    state_remote_id, send_ctl, send_ctl_to, send_to, perform, self, update, swallow, bind, q, gets,
    modify, of_sum, expect, mreturn. rewrite Hm. simpl.
  rewrite Hst. simpl. rewrite ?Hm. simpl. rewrite Hp. simpl.
  rewrite !Hesb. simpl. rewrite Hup. simpl. rewrite Hid. eexists. by split_and!.
Qed.

Lemma tx_found_served wc s :
  r_machine (rt wc) = CsPropose PrPublished → r_identity (rt wc) = ChannelSvc c →
  r_remote (rt wc) = Some p →
  ∃ wc', proc_serve S (notification (ChannelSvc c) s) (PChan wc) = (true, PChan wc') ∧
    r_machine (rt wc') = CsPropose PrLocked ∧ r_identity (rt wc') = ChannelSvc c ∧
    r_remote (rt wc') = Some p ∧ r_channel (rt wc') = (compose_funding_locked (r_channel (rt wc))).1 ∧
    letter BusIdMsg (ChannelSvc c) (PeerBolt p)
      (BusBolt (LnFundingLocked (compose_funding_locked (r_channel (rt wc))).2))
      ∈ news (hist wc) (hist wc').
Proof.
  intros Hst Hid Hp.
  edestruct (chan_serves S Hobl Watch (BusCtl (CtlTxFound s)) (notification (ChannelSvc c) s) wc)
    as (wc' & E & Hrt & Hn); [done|done|done| |].
  { intros ev w0 Hm _ Hrt. rewrite <-Hrt in Hst, Hid, Hp.
    destruct (tx_found_step s ev w0 Hm Hst Hid Hp) as (w1 & ? & Hr & Hh).
    exists w1. rewrite Hrt in Hr, Hh. by split_and!. }
  exists wc'. split_and!; [done|by rewrite (Hrt _ r_machine)|by rewrite (Hrt _ r_identity)
    |by rewrite (Hrt _ r_remote)|by rewrite (Hrt _ r_channel)|]. apply Hn. simpl. set_solver.
Qed.

Lemma peer_locked_served wc n m ch :
  r_machine (rt wc) = CsPropose PrLocked → r_identity (rt wc) = ChannelSvc c →
  r_remote (rt wc) = Some p →
  update_from_peer (r_channel (rt wc)) (LnFundingLocked m) = (ch, inr tt) →
  ∃ wc', proc_serve S (letter BusIdMsg (PeerBolt n) (ChannelSvc c) (BusBolt (LnFundingLocked m)))
      (PChan wc) = (true, PChan wc') ∧
    r_machine (rt wc') = CsActive ∧ r_channel (rt wc') = ch ∧
    letter BusIdCtl (ChannelSvc c) Router (BusCtl (CtlChannelCreated (channel_info (r_channel (rt wc)) p)))
      ∈ news (hist wc) (hist wc').
Proof.
  intros Hst Hid Hp Hup.
  edestruct (chan_serves S Hobl (PeerBolt n) (BusBolt (LnFundingLocked m)) (letter BusIdMsg (PeerBolt n)
    (ChannelSvc c) (BusBolt (LnFundingLocked m))) wc) as (wc' & E & Hrt & Hn);
    [by exists n|done|done| |].
  { intros ev w0 Hm _ Hrt. rewrite <-Hrt in Hst, Hid, Hp, Hup.
    destruct (peer_locked_step ch m ev w0 Hm Hst Hid Hp Hup) as (w1 & ? & Hr & Hh).
    exists w1. rewrite Hrt in Hr, Hh. by split_and!. }
  exists wc'. split_and!; [done|by rewrite (Hrt _ r_machine)|by rewrite (Hrt _ r_channel)|].
  apply Hn. simpl. set_solver.
Qed.
End channel.

(** ** watchd in a node *)

(** A watchd that has nothing to do. *)
Record attentive (s : Watchd) : Prop := {
  at_worker : wr_worker (rt (wd_runtime s)) = {| wk_queue := []; wk_alive := true |};
  at_receiver : ep_receiver (rt (wd_processor s)) = true;
  at_updates : ep_updates (rt (wd_processor s)) = [];
  at_bridge : wd_bridge s = [] }.

Lemma watch_acting (S : Sys) w ps ms s s' :
  PWatch s ∈ ps → watch_step s None s' →
  ∃ ps', node_step {| nd_lnpd := w; nd_procs := ps; nd_flight := ms |}
      {| nd_lnpd := w; nd_procs := ps';
         nd_flight := ms ++ news (hist (wd_runtime s)) (hist (wd_runtime s')) |} ∧
    PWatch s' ∈ ps' ∧ (∀ x, x ∈ ps → x = PWatch s ∨ x ∈ ps').
Proof. intros Hin Hs. apply (acting S w ps ms (PWatch s) (PWatch s')); [done|by constructor]. Qed.

(** A transaction that the Electrum server knows is announced to who asked for it. *)
Lemma watch_announces (S : Sys) w ps ms s src t d tx :
  obliging → PWatch s ∈ ps → attentive s →
  transaction_get (hist (wd_processor s)) t = inr tx → tx_txid tx = t →
  letter BusIdCtl src Watch (BusCtl (CtlTrack t d)) ∈ ms →
  ∃ ps' ms', node_reaches {| nd_lnpd := w; nd_procs := ps; nd_flight := ms |}
                          {| nd_lnpd := w; nd_procs := ps'; nd_flight := ms' |} ∧
    (∀ wc, PChan wc ∈ ps → PChan wc ∈ ps') ∧
    notification src {| ts_txid := t; ts_block_pos := None |} ∈ ms' ∧
    (∀ y, y ∈ ms → y = letter BusIdCtl src Watch (BusCtl (CtlTrack t d)) ∨ y ∈ ms').
Proof.
  intros Hobl Hin [Ek Hr Hu Hb] Hget Htx He. destruct s as [rw pr ww b]. simpl in *. subst b.
  destruct (tracking_runs t d src rw pr ww tx Ek Hr Hu Hget Htx) 
    as (rw1 & s2 & s3 & s4 & E1 & _ & S2 & S3 & S4 & _ & Eh3 & Eh4 & _);
    [intros m; apply Hobl|].
  set (s1 := {| wd_runtime := rw1; wd_processor := pr; wd_watcher := ww; wd_bridge := [] |}) in *.
  set (s0 := {| wd_runtime := rw; wd_processor := pr; wd_watcher := ww; wd_bridge := [] |}) in *.
  assert (proc_serve S (letter BusIdCtl src Watch (BusCtl (CtlTrack t d))) (PWatch s0)
    = (true, PWatch s1)) as E.
  { unfold proc_serve, serve, bind, attempt. cbn [letter env_bus env_src env_msg s0 wd_runtime].
    by rewrite E1. }
  destruct (delivery S w ps ms _ _ _ Hin He eq_refl E) as (ps1 & ms1 & Hs1 & Hin1 & Hk1 & _ & Hm1).
  destruct (watch_acting S w ps1 ms1 s1 s2 Hin1 S2) as (ps2 & Hs2 & Hin2 & Hk2).
  eapply watch_acting in S3 as (ps3 & Hs3 & Hin3 & Hk3); [|exact Hin2].
  eapply watch_acting in S4 as (ps4 & Hs4 & Hin4 & Hk4); [|exact Hin3].
  eexists ps4, _. split_and!.
  - do 4 (econstructor; [|done]). constructor.
  - intros wc Hwc. destruct (Hk1 _ Hwc) as [|Hw1]; [done|]. destruct (Hk2 _ Hw1) as [|Hw2]; [done|].
    destruct (Hk3 _ Hw2) as [|Hw3]; [done|]. by destruct (Hk4 _ Hw3).
  - rewrite Eh4, Eh3, (proj1 Hobl). unfold news. rewrite drop_app_length. simpl. set_solver.
  - intros y [Hy|Hy]%Hm1; [by left|right]. rewrite !elem_of_app. by do 3 left.
Qed.
End node.

Section theorems.
Context `{Ext, !Fmt, !LnpCore, !StateCodec, !WalletLib, !WalletCodec, !LnpdLib, !SignLib,
  !RouterLib, !ElectrumLib, !Build, !LogLevel}.

(** C9. A channel that the node opened becomes active as soon as the Electrum server
    knows its funding transaction, whether it is mined or not and whatever depth was
    asked for: when the buses deliver and files can be written, the request to track the
    funding is on its way to a watchd that has nothing else to do, the Electrum server
    knows the transaction, and the peer's [funding_locked] is in flight to the daemon of
    the published channel and lnp-core takes it after the node has composed its own, the
    node can go on, by way of the threads of watchd, to a state in which the channel is
    active, the node's own [funding_locked] is on its way to the peer and routed is
    being told of the channel. *)
Theorem proposed_channel_becomes_active (S : Sys) w ps ms wc s c p n m t d tx c1 own ch :
  obliging → PChan wc ∈ ps → PWatch s ∈ ps → attentive s →
  letter BusIdCtl (ChannelSvc c) Watch (BusCtl (CtlTrack t d)) ∈ ms →
  letter BusIdMsg (PeerBolt n) (ChannelSvc c) (BusBolt (LnFundingLocked m)) ∈ ms →
  transaction_get (hist (wd_processor s)) t = inr tx → tx_txid tx = t →
  r_machine (rt wc) = CsPropose PrPublished → r_identity (rt wc) = ChannelSvc c →
  r_remote (rt wc) = Some p → compose_funding_locked (r_channel (rt wc)) = (c1, own) →
  update_from_peer c1 (LnFundingLocked m) = (ch, inr tt) →
  ∃ ps' ms' wc', node_reaches {| nd_lnpd := w; nd_procs := ps; nd_flight := ms |}
                              {| nd_lnpd := w; nd_procs := ps'; nd_flight := ms' |} ∧
    PChan wc' ∈ ps' ∧ r_machine (rt wc') = CsActive ∧ r_channel (rt wc') = ch ∧
    letter BusIdMsg (ChannelSvc c) (PeerBolt p) (BusBolt (LnFundingLocked own)) ∈ ms' ∧
    letter BusIdCtl (ChannelSvc c) Router (BusCtl (CtlChannelCreated (channel_info c1 p))) ∈ ms'.
Proof.
  intros Hobl Hwc Hws Hat Htrack Hlocked Hget Htx Hst Hid Hp Hown Hup.
  destruct (watch_announces S w ps ms s _ t d tx Hobl Hws Hat Hget Htx Htrack)
    as (ps1 & ms1 & Hr1 & Hk1 & Hn1 & Hm1).
  destruct (tx_found_served S Hobl c p wc {| ts_txid := t; ts_block_pos := None |} Hst Hid Hp)
    as (wc1 & E1 & Hst1 & Hid1 & Hp1 & Hc1 & Hn).
  rewrite Hown in Hc1, Hn. simpl in Hc1, Hn.
  destruct (delivery S w ps1 ms1 _ _ _ (Hk1 _ Hwc) Hn1 (eq_sym Hid) E1)
    as (ps2 & ms2 & Hs2 & Hin2 & _ & Hnew2 & Hm2).
  rewrite <-Hc1 in Hup.
  destruct (peer_locked_served S Hobl c p wc1 n m ch Hst1 Hid1 Hp1 Hup)
    as (wc2 & E2 & Hst2 & Hc2 & Hn2).
  destruct (Hm1 _ Hlocked) as [|Hl1]; [done|]. destruct (Hm2 _ Hl1) as [|Hl2]; [done|].
  destruct (delivery S w ps2 ms2 _ _ _ Hin2 Hl2 (eq_sym Hid1) E2)
    as (ps3 & ms3 & Hs3 & Hin3 & _ & Hnew3 & Hm3).
  rewrite Hc1 in Hn2. exists ps3, ms3, wc2. split_and!; [|done..| |by apply Hnew3].
  - eapply node_reaches_trans; [exact Hr1|]. do 2 (econstructor; [|done]). constructor.
  - by destruct (Hm3 _ (Hnew2 _ Hn)).
Qed.
End theorems.
