(* ===== verification/NodeRest.v ===== *)
(** * A node left to itself comes to rest

    A message has a rank, and what a daemon sends while it handles a message has a lower
    one: there is no storm of messages.  Whatever the order, handling what is there ends,
    and what is there when it has ended is a message on which lnpd panics, or nothing. *)

From S2P Require Import Prelude.
From S2P Require Import Bus.
From S2P Require Import Service.
From S2P Require Import Files.
From S2P Require Import Config.
From S2P Require Import ChannelRuntime.
From S2P Require Import Propose.
From S2P Require Import Accept.
From S2P Require Import Machine.
From S2P Require Import Wallet.
From S2P Require Import Rpc.
From S2P Require Import LnpdRuntime.
From S2P Require Import Launch.
From S2P Require Import Lnpd.
From S2P Require Import LnpdFacts.
From S2P Require Import LnpdSafety.
From S2P Require Import Watch.
From S2P Require Import Peerd.
From S2P Require Import Routed.
From S2P Require Import Signd.
From S2P Require Import Node.
From S2P Require Import NodeFacts.
From S2P Require Import NodeBroker.
From S2P Require Import NodeCorrect.
From S2P Require Import Scenarios.

Local Open Scope rust_scope.

(** ** The rank of a message *)

Section rank.
Context `{Ext}.

Definition ctl_rank (dest : ServiceId) (m : CtlMsg) : nat :=
  match m with
  | CtlReport _ => 1
  | CtlEsbError _ _ => match dest with LnpBroker => 1 | _ => 2 end
  | CtlError _ _ _ => match dest with LnpBroker => 1 | _ => 3 end
  | CtlTrack _ _ | CtlChannelCreated _ => 3
  | CtlOpenChannelWith _ | CtlTxFound _ | CtlPayment _ _ _ => 4
  | CtlKeyset _ _ => match dest with LnpBroker => 5 | _ => 4 end
  | CtlDeriveKeyset _ => 6
  | CtlAcceptChannelFrom _ => 7
  | CtlHello => match dest with LnpBroker => 8 | Router => 5 | _ => 4 end
  | CtlSigned _ => 9
  | CtlSign _ => 10
  | CtlFundingConstructed _ => 11
  | CtlConstructFunding _ | CtlPublishFunding => 12
  | _ => 3
  end.

Definition bus_rank (dest : ServiceId) (m : BusMsg) : nat :=
  match m with
  | BusRpc _ => 14
  | BusBolt m =>
      if is_bolt_peer dest then 3
      else match m with
           | LnChannelReestablish _ => match dest with LnpBroker => 5 | _ => 4 end
           | _ => 13
           end
  | BusBifrost _ => 3
  | BusCtl m => ctl_rank dest m
  end.

(** What leaves the node has no rank. *)
Definition rank_of (dest : ServiceId) (m : BusMsg) : nat :=
  if is_daemon dest then bus_rank dest m else 0.
Definition rank (e : Envelope) : nat := rank_of (env_dest e) (env_msg e).

(** The rank of a message to a channel daemon. *)
Definition chan_rank (m : BusMsg) : nat := rank_of (ChannelSvc (MkChannelId [])) m.
End rank.

(** ** Calls that send messages of lower rank than [k] only *)

Section posts.
Context `{Sys, !Fmt} {R : Type} (k : nat).

Definition posts : relation (World R) :=
  does (λ x, match x.1 with OpSend e => rank e < k | _ => True end).

#[export] Instance posts_preorder : PreOrder posts.
Proof. unfold posts. apply _. Qed.

Lemma send_to_posts b s d m : rank_of d m < k → respects posts (send_to b s d m).
Proof. intros Hk. by apply respects_perform_does. Qed.
Lemma perform_posts {E} (reply : History → option E) o :
  (∀ e, o ≠ OpSend e) → respects posts (perform reply o).
Proof. intros Ho. apply respects_perform_does. intros ok. destruct o; try done. by edestruct Ho. Qed.
Lemma query_posts {E A} (reply : History → E + A) o :
  (∀ e, o ≠ OpSend e) → respects posts (query reply o).
Proof.
  intros Ho w. unfold query. destruct (reply _); eexists [_]; (split; [done|]); apply Forall_singleton;
    simpl; destruct o; try done; by edestruct Ho.
Qed.
Lemma update_posts {E} (g : R → R) : respects posts (update (E:=E) g).
Proof. apply respects_update_does. Qed.
Lemma with_disk_posts {E} (g : Disk → Disk) : respects posts (modify (E:=E) (with_disk g)).
Proof. intros w. exists []. by rewrite app_nil_r. Qed.
Lemma fs_posts o : respects posts (fs o).
Proof. by apply perform_posts. Qed.
Lemma ep_set_identity_posts b i : respects posts (ep_set_identity b i).
Proof. by apply perform_posts. Qed.
Lemma exec_daemon_posts d : respects posts (exec_daemon d).
Proof. by apply query_posts. Qed.
#[local] Hint Resolve with_disk_posts fs_posts : respects.
Lemma file_create_posts p : respects posts (file_create p).
Proof. unfold file_create. respects_auto. Qed.
Lemma file_seek_start_posts f : respects posts (file_seek_start f).
Proof. unfold file_seek_start. respects_auto. Qed.
Lemma file_sync_posts f : respects posts (file_sync f).
Proof. unfold file_sync. respects_auto. Qed.
Lemma file_write_posts f bs : respects posts (file_write f bs).
Proof. unfold file_write. respects_auto. Qed.
Lemma file_remove_posts p : respects posts (file_remove p).
Proof. unfold file_remove. respects_auto. Qed.

Context `{!Handler R}.
#[local] Hint Resolve send_to_posts : respects.
Lemma send_ctl_posts d m : rank_of d (BusCtl m) < k → respects posts (send_ctl d m).
Proof. intros Hk. unfold send_ctl, send_ctl_to. respects_auto. Qed.
Lemma send_rpc_posts c m : 0 < k → respects posts (send_rpc c m).
Proof. intros Hk. unfold send_rpc. respects_auto. Qed.

(** A report to lnpd has the lowest rank of what stays in the node. *)
Lemma report_status_posts {E} `{!From EsbError E} st : 1 < k → respects posts (report_status (E:=E) st).
Proof. intros Hk. unfold report_status. respects_auto. Qed.
#[local] Hint Resolve report_status_posts : respects.
Lemma report_success_posts m : 1 < k → respects posts (report_success m).
Proof. intros Hk. unfold report_success. respects_auto. Qed.
Lemma report_progress_posts m : 1 < k → respects posts (report_progress m).
Proof. intros Hk. unfold report_progress. respects_auto. Qed.
Lemma report_failure_posts {E} m : 1 < k → respects posts (report_failure (E:=E) m).
Proof. intros Hk. unfold report_failure. respects_auto. Qed.
Lemma serve_posts h he :
  respects posts h → (∀ e, respects posts (he e)) → respects posts (serve h he).
Proof. intros Hh He. unfold serve. respects_auto. Qed.
End posts.

#[export] Hint Resolve update_posts with_disk_posts fs_posts ep_set_identity_posts exec_daemon_posts
  send_to_posts send_ctl_posts send_rpc_posts file_create_posts file_seek_start_posts file_sync_posts
  file_write_posts file_remove_posts report_status_posts report_success_posts report_progress_posts
  report_failure_posts : respects.
#[export] Hint Extern 1 (_ < _) => unfold chan_rank, rank, rank_of in *; simpl in *; lia : respects.

(** ** The daemons *)

Section daemons.
Context `{Sys, !Fmt, !LnpCore, !StateCodec, !SignLib, !RouterLib, !ElectrumLib, !Build, !LogLevel}.

(** *** channeld *)

Section channel.
Context (k : nat).
Lemma on_channel_posts {A} (f : Channel → Channel * (BoltError + A)) :
  respects (posts k) (on_channel f).
Proof. unfold on_channel. respects_auto. Qed.
Lemma on_channel_total_posts {E A} (f : Channel → Channel * A) :
  respects (posts k) (on_channel_total (E:=E) f).
Proof. unfold on_channel_total. respects_auto. Qed.
Lemma state_remote_id_posts {E} : respects (posts k) (state_remote_id (E:=E)).
Proof. unfold state_remote_id. respects_auto. Qed.
Lemma send_p2p_posts m : 3 < k → respects (posts k) (send_p2p m).
Proof. intros Hk. unfold send_p2p. respects_auto. Qed.
Lemma save_state_posts : respects (posts k) save_state.
Proof. unfold save_state. respects_auto. Qed.
#[local] Hint Resolve save_state_posts : respects.
Lemma set_identity_posts id : respects (posts k) (set_identity id).
Proof. unfold set_identity. respects_auto. Qed.
Lemma unexpected_posts {A} ev l : respects (posts k) (unexpected (A:=A) ev l).
Proof. unfold unexpected. respects_auto. Qed.
End channel.
#[local] Hint Resolve on_channel_posts on_channel_total_posts state_remote_id_posts send_p2p_posts
  save_state_posts set_identity_posts unexpected_posts : respects.

#[local] Abbreviation falls m f := (respects (posts (chan_rank m)) f).

#[local] Ltac stage ev :=
  destruct (ev_message ev) as [[]| |[]|]; respects_auto.

Lemma complete_launch_posts ev : falls (ev_message ev) (complete_launch ev).
Proof. unfold complete_launch, propose_with, accept_with. stage ev. Qed.
Lemma propose_next_posts p ev : falls (ev_message ev) (propose_next p ev).
Proof.
  unfold propose_next. destruct p.
  - unfold complete_proposed. stage ev.
  - unfold complete_accepted. stage ev.
  - unfold complete_signing. stage ev.
  - unfold complete_funding. stage ev.
  - unfold complete_published. stage ev.
  - unfold complete_locked. stage ev.
Qed.
Lemma accept_next_posts a ev : falls (ev_message ev) (accept_next a ev).
Proof.
  unfold accept_next. destruct a.
  - unfold finish_accepted. stage ev.
  - unfold finish_signed. stage ev.
  - unfold finish_funded. stage ev.
  - unfold finish_locked. stage ev.
Qed.
#[local] Hint Resolve complete_launch_posts propose_next_posts accept_next_posts : respects.
Lemma advance_posts ev : falls (ev_message ev) (advance ev).
Proof. unfold advance, process_propose, process_accept. respects_auto. Qed.
#[local] Hint Resolve advance_posts : respects.
Lemma process_event_posts ev : falls (ev_message ev) (process_event ev).
Proof.
  unfold process_event. pose proof (advance_posts ev) as Ha.
  destruct (ev_message ev) as [[]| | |]; try (by respects_auto).
  unfold complete_reestablish. respects_auto.
Qed.

Lemma process_posts src m : 1 < chan_rank m → falls m (process src m).
Proof.
  intros Hm. unfold process, report_offline.
  assert (∀ id, falls m (process_event (event_with id src m))) as Hp by (intros; apply process_event_posts).
  respects_auto.
Qed.

Lemma chan_posts bus src m : falls m (serve (chan_handle bus src m) chan_handle_err).
Proof.
  apply serve_posts; [|intros; unfold chan_handle_err; respects_auto].
  unfold chan_handle. destruct bus, m as [ln|bf|ctl|rpc]; respects_auto.
  - unfold chan_handle_rpc. respects_auto.
  - unfold chan_handle_p2p. destruct ln; respects_auto; apply process_posts; unfold chan_rank, rank_of; simpl; lia.
  - unfold chan_handle_ctl. destruct ctl; respects_auto; apply process_posts; unfold chan_rank, rank_of; simpl; lia.
Qed.

(** *** signd *)

(** What a handler answers goes to any service. *)
#[local] Ltac anyone src := apply send_to_posts || apply send_ctl_posts; destruct src; unfold rank_of; simpl; lia.

Lemma hardened_path_posts {E} k l : respects (posts k) (hardened_path (E:=E) l).
Proof. induction l; simpl; respects_auto. Qed.
#[local] Hint Resolve hardened_path_posts : respects.

Lemma signd_posts e :
  conforms e → env_dest e = Signer →
  respects (posts (rank e)) (serve (signd_handle (env_bus e) (env_src e) (env_msg e)) signd_handle_err).
Proof.
  destruct e as [bus src dest m]. simpl. intros Hc ->. change (rank _) with (rank_of Signer m).
  apply serve_posts; [|intros; unfold signd_handle_err; respects_auto].
  unfold signd_handle. destruct bus, m as [| |ctl|]; respects_auto.
  - unfold signd_handle_ctl, derive_keyset. destruct ctl; respects_auto; anyone src.
  - apply send_to_posts. destruct ctl, src; unfold rank_of; simpl in *; (done || lia).
Qed.

(** *** routed *)

Lemma on_router_posts k {E A} (f : LnRouter → LnRouter * (E + A)) : respects (posts k) (on_router f).
Proof. unfold on_router. respects_auto. Qed.
#[local] Hint Resolve on_router_posts : respects.

Lemma routed_posts e :
  conforms e → env_dest e = Router →
  respects (posts (rank e)) (serve (routed_handle (env_bus e) (env_src e) (env_msg e)) routed_handle_err).
Proof.
  destruct e as [bus src dest m]. simpl. intros Hc ->. change (rank _) with (rank_of Router m).
  apply serve_posts.
  - unfold routed_handle. destruct bus, m as [|bf|ctl|rpc]; respects_auto.
    + unfold routed_handle_rpc, compute_route. destruct rpc; respects_auto.
    + unfold routed_handle_p2p. respects_auto.
    + unfold routed_handle_ctl. destruct ctl; respects_auto.
      apply send_ctl_posts. destruct src; unfold rank_of; simpl in *; (done || lia).
  - intros err. unfold routed_handle_err.
    assert (1 < rank_of Router m) as Hm.
    { unfold rank_of. destruct bus, m as [ln|bf|[]|rpc]; simpl in *; try done; try lia; by destruct src. }
    respects_auto.
Qed.

(** *** watchd *)

Lemma watch_posts k bus src m : bus ≠ BusIdBridge →
  respects (posts k) (serve (watch_handle bus src m) watch_handle_err).
Proof.
  intros Hb. apply serve_posts; [|intros; unfold watch_handle_err; respects_auto].
  unfold watch_handle, watch_handle_ctl, watch_handle_p2p, track_transaction,
    untrack_transaction, worker_cmd, untrack.
  destruct bus, m as [| |ctl|]; try done; respects_auto.
Qed.

(** *** peerd *)

Lemma send_message_posts k m : respects (posts k) (send_message m).
Proof. by apply perform_posts. Qed.
Lemma u64_posts k {R E} n : respects (posts (R:=R) k) (u64 (E:=E) n).
Proof. unfold u64. respects_auto. Qed.
Lemma update_channels_posts k {E} f : respects (posts k) (update_channels (E:=E) f).
Proof. unfold update_channels. respects_auto. Qed.
#[local] Hint Resolve send_message_posts u64_posts update_channels_posts : respects.
Lemma count_posts k {E} : respects (posts k) (count_sent (E:=E)) ∧ respects (posts k) (count_received (E:=E)).
Proof. unfold count_sent, count_received. split; respects_auto. Qed.
#[local] Hint Extern 1 (respects _ count_sent) => apply count_posts : respects.
#[local] Hint Extern 1 (respects _ count_received) => apply count_posts : respects.

Lemma peerd_posts bus src m d : bus ≠ BusIdBridge → is_daemon d →
  respects (posts (rank_of d m)) (serve (peerd_handle bus src m) peerd_handle_err).
Proof.
  intros Hb Hd. apply serve_posts; [|intros; unfold peerd_handle_err; respects_auto].
  unfold peerd_handle, handle_bolt, handle_bifrost, peerd_handle_ctl, peerd_handle_rpc, rename_funded, now.
  destruct bus, m; try done; respects_auto.
  apply send_rpc_posts. unfold rank_of. destruct d; try done; simpl; lia.
Qed.

(** What is on the bridge has a higher rank than what it becomes. *)
Definition bridge_rank : nat := 14.
Lemma peerd_bridge_posts m :
  respects (posts bridge_rank) (serve (peerd_handle BusIdBridge Loopback m) peerd_handle_err).
Proof.
  apply serve_posts; [|intros; unfold peerd_handle_err; respects_auto].
  unfold peerd_handle, peerd_handle_bridge, handle_bridge_bolt, handle_bridge_bifrost, to_daemon,
    ping, pong, on_pong, rename_funded, bridge_rank.
  destruct m as [ln|bf|ctl|rpc]; respects_auto.
Qed.
End daemons.

(** *** lnpd *)

Section broker.
Context `{Sys, !Fmt, !LnpCore, !WalletLib, !WalletCodec, !LnpdLib, !Build}.

Lemma on_part_posts k {R T E A} (prj : R → T) (upd : T → R → R) (m : M (World T) E A) :
  respects (posts k) m → respects (posts k) (on_part prj upd m).
Proof.
  intros Hm w. unfold on_part. specialize (Hm (mk_world (prj (rt w)) (hist w) (disk w))).
  by destruct (m _) as [r w'].
Qed.
Lemma electrum_posts k {E A} `{From ElectrumErr E} {R} o (reply : History → string + A) :
  respects (posts (R:=R) k) (electrum (E:=E) o reply).
Proof. unfold electrum. apply respects_q. by apply query_posts. Qed.
Lemma u64_any_posts k {R E} n : respects (posts (R:=R) k) (u64 (E:=E) n).
Proof. unfold u64. respects_auto. Qed.
Lemma debug_assert_posts k {R E} b why : respects (posts (R:=R) k) (debug_assert (E:=E) b why).
Proof. unfold debug_assert. respects_auto. Qed.
#[local] Hint Resolve electrum_posts u64_any_posts debug_assert_posts : respects.

Section wallet.
Context (k : nat).
#[local] Abbreviation quiet m := (respects (posts (R:=FundingWallet) k) m).
Lemma save_posts : quiet save.
Proof. unfold save. respects_auto. Qed.
#[local] Hint Resolve save_posts : respects.
Lemma list_funds_posts : quiet list_funds.
Proof. unfold list_funds, lookup_funds. respects_auto. Qed.
Lemma next_address_posts : quiet next_funding_address.
Proof. unfold next_funding_address. respects_auto. Qed.
Lemma take_funds_posts {E} t acc l : quiet (take_funds (E:=E) t acc l).
Proof. revert acc. induction l as [|f l IH]; intros acc; simpl; respects_auto. Qed.
Lemma fee_loop_posts fuel d inputs script amount change rate fee :
  quiet (fee_loop fuel d inputs script amount change rate fee).
Proof.
  revert fee. induction fuel as [|fuel IH]; intros fee; simpl; respects_auto. by apply query_posts.
Qed.
#[local] Hint Resolve list_funds_posts take_funds_posts fee_loop_posts : respects.
Lemma construct_posts fuel t script amount rate : quiet (construct_funding_psbt fuel t script amount rate).
Proof. unfold construct_funding_psbt. respects_auto. Qed.
End wallet.
#[local] Hint Resolve on_part_posts list_funds_posts next_address_posts construct_posts : respects.

Section lnpd.
Context (k : nat).
#[local] Abbreviation posted m := (respects (posts (R:=Lnpd) k) m).

Lemma on_wallet_posts {E A} (m : FW E A) : respects (posts k) m → posted (on_wallet m).
Proof. apply on_part_posts. Qed.
Lemma launch_daemon_posts d : posted (launch_daemon d).
Proof. apply exec_daemon_posts. Qed.
Lemma publish_posts psbt : posted (publish psbt).
Proof. unfold publish. respects_auto. Qed.
Lemma update_chanel_id_posts {E} o n : posted (update_chanel_id (E:=E) o n).
Proof. unfold update_chanel_id. respects_auto. Qed.
Lemma sum_by_address_posts network funds acc : posted (sum_by_address network funds acc).
Proof. revert acc. induction funds; intros acc; simpl; respects_auto. Qed.
#[local] Hint Resolve launch_daemon_posts : respects.
Lemma listen_posts addr p : posted (listen addr p).
Proof. unfold listen. respects_auto. Qed.
Lemma register_daemon_posts {E} src : posted (register_daemon (E:=E) src).
Proof. unfold register_daemon. respects_auto. Qed.
Lemma take_launcher_posts key src : posted (take_launcher key src).
Proof. unfold take_launcher. respects_auto. Qed.

Lemma tell_client_posts {E} c r : 0 < k → posted (tell_client (E:=E) c r).
Proof. intros Hk. unfold tell_client. respects_auto. Qed.
#[local] Hint Resolve tell_client_posts : respects.
Lemma launch_report_progress_posts {E} c m : 0 < k → posted (launch_report_progress (E:=E) c m).
Proof. apply tell_client_posts. Qed.
Lemma launch_report_success_posts {E} c m : 0 < k → posted (launch_report_success (E:=E) c m).
Proof. apply tell_client_posts. Qed.
Lemma launch_report_failure_posts {A} c e : 0 < k → posted (launch_report_failure (A:=A) c e).
Proof. intros Hk. unfold launch_report_failure. respects_auto. Qed.
#[local] Hint Resolve launch_report_failure_posts : respects.
Lemma launch_unexpected_posts {A} ev c s : 0 < k → posted (launch_unexpected (A:=A) ev c s).
Proof. intros Hk. unfold launch_unexpected. respects_auto. Qed.
Lemma report_progress_or_failure_posts c r : 0 < k → posted (report_progress_or_failure c r).
Proof. intros Hk. unfold report_progress_or_failure. respects_auto. Qed.
End lnpd.
#[local] Hint Resolve on_wallet_posts launch_daemon_posts publish_posts update_chanel_id_posts
  sum_by_address_posts listen_posts register_daemon_posts take_launcher_posts tell_client_posts
  launch_report_progress_posts launch_report_success_posts launch_report_failure_posts
  launch_unexpected_posts report_progress_or_failure_posts : respects.

(** An event of a launch has the rank of the message that lnpd got. *)
Section launch.
Context (ev : CtlEvent).
#[local] Abbreviation falls m := (respects (posts (ctl_rank LnpBroker (ev_message ev))) m).

Lemma ctl_rank_pos d m : 0 < ctl_rank d m.
Proof. destruct m, d; simpl; lia. Qed.
#[local] Hint Resolve ctl_rank_pos : respects.

Lemma start_negotiation_posts k t keys r c : 4 < k → respects (posts k) (start_negotiation ev t keys r c).
Proof.
  intros Hk. unfold start_negotiation, event_send_ctl. respects_auto.
  apply send_to_posts. destruct (ev_source ev); unfold rank_of; simpl; lia.
Qed.
#[local] Hint Resolve start_negotiation_posts : respects.
Lemma start_negotiation1_posts t r c : falls (start_negotiation1 ev t r c).
Proof. unfold start_negotiation1. destruct (ev_message ev); respects_auto. Qed.
Lemma start_negotiation2_posts t keys r c : falls (start_negotiation2 ev t keys r c).
Proof. unfold start_negotiation2. destruct (ev_message ev); respects_auto. Qed.
Lemma complete_negotiation_posts fuel t c : falls (complete_negotiation fuel ev t c).
Proof.
  unfold complete_negotiation, fund_channel, event_send_ctl.
  destruct (ev_message ev); respects_auto.
  apply send_to_posts. destruct (ev_source ev); unfold rank_of; simpl; lia.
Qed.
Lemma complete_commitment_posts txid c : falls (complete_commitment ev txid c).
Proof.
  unfold complete_commitment, attempt_from, event_send_ctl_service.
  destruct (ev_message ev); respects_auto.
Qed.
Lemma complete_signatures_posts txid c : falls (complete_signatures ev txid c).
Proof. unfold complete_signatures. destruct (ev_message ev); respects_auto. Qed.
#[local] Hint Resolve start_negotiation1_posts start_negotiation2_posts complete_negotiation_posts
  complete_commitment_posts complete_signatures_posts : respects.

Lemma launcher_stage_posts fuel l : falls (launcher_stage fuel l ev).
Proof.
  pose proof complete_commitment_posts as Hc.
  unfold launcher_stage, launch_complete_launch, complete_derivation. destruct l; respects_auto.
Qed.
#[local] Hint Resolve launcher_stage_posts : respects.
Lemma launcher_next_posts fuel l : falls (launcher_next fuel l ev).
Proof.
  unfold launcher_next. pose proof (launcher_stage_posts fuel l) as Hs.
  destruct (ev_message ev); try exact Hs. respects_auto.
Qed.
End launch.

(** *** The handlers of lnpd *)

Lemma next_launcher_posts fuel l src m : respects (posts (ctl_rank LnpBroker m)) (next_launcher fuel l src m).
Proof.
  unfold next_launcher.
  assert (∀ id, respects (posts (ctl_rank LnpBroker m)) (launcher_next fuel l (event_with id src m)))
    as Hn by (intros; apply launcher_next_posts).
  respects_auto.
Qed.
#[local] Hint Resolve next_launcher_posts : respects.

Lemma handle_hello_posts fuel src : respects (posts (ctl_rank LnpBroker CtlHello)) (handle_hello fuel src).
Proof.
  unfold handle_hello.
  assert (∀ l id, respects (posts (ctl_rank LnpBroker CtlHello))
    (launcher_next fuel l (event_with id src CtlHello))) as Hn by (intros; apply launcher_next_posts).
  respects_auto; apply send_to_posts; destruct src; unfold rank_of; simpl; lia.
Qed.

Lemma lnpd_ctl_posts fuel src m : respects (posts (ctl_rank LnpBroker m)) (lnpd_handle_ctl fuel src m).
Proof.
  unfold lnpd_handle_ctl, handle_signed, handle_error.
  assert (∀ l id s, respects (posts (ctl_rank LnpBroker m)) (launcher_next fuel l (event_with id s m)))
    as Hn by (intros; apply launcher_next_posts).
  pose proof (λ l, next_launcher_posts fuel l src m) as Hl.
  destruct m; try (by apply handle_hello_posts); respects_auto.
Qed.

Lemma lnpd_rpc_posts c m : respects (posts (rank_of LnpBroker (BusRpc m))) (lnpd_handle_rpc c m).
Proof.
  unfold lnpd_handle_rpc, now, available_funding, handle_listen, handle_connect, launcher_with, attempt_from.
  respects_auto.
Qed.
Lemma lnpd_p2p_posts n m : respects (posts (rank_of LnpBroker (BusBolt m))) (lnpd_handle_p2p n m).
Proof. unfold lnpd_handle_p2p. destruct m; respects_auto. Qed.

(** An undeliverable message is reported to its source, with a lower rank. *)
Lemma lnpd_err_posts e err d : conforms e → is_daemon (env_dest e) → env_dest e ≠ LnpBroker →
  respects (posts (rank e)) (lnpd_handle_err (EsbSend (env_src e) d err)).
Proof.
  destruct e as [bus src dest m]. simpl. intros Hc Hd Hl. unfold lnpd_handle_err. respects_auto.
  apply send_to_posts. unfold rank, rank_of.
  destruct bus, m as [ln|bf|ctl|rpc]; simpl in *; try done.
  all: destruct dest; try done; destruct src; simpl in *; try done; try lia.
  all: try (destruct ln; simpl in *; (done || lia)); destruct ctl; simpl in *; (done || lia).
Qed.

(** lnpd reports a failure to send to the service that the failure names. *)
Lemma lnpd_err_any_posts k err : 2 < k → respects (posts k) (lnpd_handle_err err).
Proof.
  intros Hk. unfold lnpd_handle_err. respects_auto.
  apply send_to_posts. destruct source; unfold rank_of; simpl; lia.
Qed.

Lemma lnpd_posts fuel e : conforms e → env_dest e = LnpBroker →
  respects (posts (rank e)) (lnpd_handle fuel (env_bus e) (env_src e) (env_msg e)).
Proof.
  destruct e as [bus src dest m]. simpl. intros Hc ->. change (rank _) with (rank_of LnpBroker m).
  unfold lnpd_handle. destruct bus, m as [ln|bf|ctl|rpc]; respects_auto.
  - apply lnpd_rpc_posts.
  - apply lnpd_p2p_posts.
  - apply lnpd_ctl_posts.
Qed.

(** The messages of the lowest ranks are handled without an error. *)
Lemma low_rank_no_error fuel e w err w' : conforms e → env_dest e = LnpBroker → rank e ≤ 2 →
  lnpd_handle fuel (env_bus e) (env_src e) (env_msg e) w ≠ (Err err, w').
Proof.
  destruct e as [bus src dest m]. simpl. intros Hc -> Hr E. unfold rank, rank_of in Hr.
  destruct bus, m as [ln|bf|ctl|rpc]; simpl in *; try done; try lia;
    [destruct ln; lia|]. destruct ctl; simpl in *; try done; try lia;
    unfold lnpd_handle_ctl, handle_error, bind, self, gets, swallow in E; simpl in E;
    try rewrite take_launcher_run in E; repeat case_match; simplify_eq.
Qed.

Lemma lnpd_serve_posts fuel e : conforms e → env_dest e = LnpBroker →
  respects (posts (rank e)) (serve (lnpd_handle fuel (env_bus e) (env_src e) (env_msg e)) lnpd_handle_err).
Proof.
  intros Hc Hd. pose proof (lnpd_posts fuel e Hc Hd) as Hh.
  destruct (decide (2 < rank e)) as [Hk|Hk].
  { apply serve_posts; [done|]. intros err. by apply lnpd_err_any_posts. }
  intros w. specialize (Hh w). unfold serve, bind, attempt.
  destruct (lnpd_handle _ _ _ _ w) as [[[]|err|p] w'] eqn:E; try done.
  by destruct (low_rank_no_error fuel e w err w' Hc Hd ltac:(lia)).
Qed.
End broker.

(** ** What is pending in a node, and its ranks *)

Section node.
Context `{Ext, !Fmt, !LnpCore, !StateCodec, !WalletLib, !WalletCodec, !LnpdLib, !SignLib,
  !RouterLib, !ElectrumLib, !Build, !LogLevel}.

(** One more than the rank, so that what leaves the node counts too. *)
Definition bridges (p : Proc) : list nat :=
  match p with PPeer d => (λ _, S bridge_rank) <$> pd_bridge d | _ => [] end.
Definition pending (n : Node) : list nat := (S ∘ rank <$> nd_flight n) ++ (nd_procs n ≫= bridges).

End node.

(** ** Replacing a number by lower ones ends *)

(** One number is replaced by any number of lower ones, and others may disappear. *)
Definition lowers (l l' : list nat) : Prop :=
  ∃ a bs r, l ≡ₚ a :: r ∧ l' ⊆+ bs ++ r ∧ Forall (λ b, b < a) bs.

Section lowers.
#[local] Abbreviation ends := (Acc (flip lowers)).

Lemma ends_submseteq l l' : l' ⊆+ l → ends l → ends l'.
Proof.
  intros [k Hk]%submseteq_Permutation [Ha]. constructor. intros l2 (a & bs & r & E1 & E2 & Hb). apply Ha.
  exists a, bs, (r ++ k). split_and!; [by rewrite Hk, E1| |done].
  rewrite E2, app_assoc. by apply submseteq_inserts_r.
Qed.
Lemma ends_nil : ends [].
Proof. constructor. intros l (a & bs & r & E%Permutation_nil_cons & _). done. Qed.

Lemma ends_cons a : (∀ b, b < a → ∀ l, ends l → ends (b :: l)) → ∀ l, ends l → ends (a :: l).
Proof.
  intros IHa l. induction 1 as [l Hl IHl]. constructor. intros l2 (c & bs & r & E1 & E2 & Hb).
  assert (∀ bs l, Forall (λ b, b < a) bs → ends l → ends (bs ++ l)) as Happ.
  { clear -IHa. intros bs l. induction 1; simpl; auto. }
  apply Permutation_cons_inv_l in E1 as (k1 & k2 & Ec & Er).
  destruct k1 as [|d k1]; simplify_eq/=.
  - apply (ends_submseteq (bs ++ l)); [by rewrite E2, Er|]. apply Happ; [done|by constructor].
  - apply (ends_submseteq (a :: bs ++ k1 ++ k2)).
    { rewrite E2. apply Permutation_submseteq. solve_Permutation. }
    apply IHl. by exists d, bs, (k1 ++ k2).
Qed.
Lemma lowers_ends l : ends l.
Proof.
  induction l as [|a l IH]; [apply ends_nil|]. revert l IH.
  induction (Nat.lt_wf_0 a) as [a _ IHa]. by apply ends_cons.
Qed.
End lowers.

(** ** Handling lowers what is pending *)

Section handling.
Context `{Ext, !Fmt, !LnpCore, !StateCodec, !WalletLib, !WalletCodec, !LnpdLib, !SignLib,
  !RouterLib, !ElectrumLib, !Build, !LogLevel}.

Lemma posts_news k h h' : (∃ ops, h' = h ++ ops ∧
    Forall (λ x : Op * bool, match x.1 with OpSend e => rank e < k | _ => True end) ops) →
  Forall (λ b, b < S k) (S ∘ rank <$> news h h').
Proof.
  intros (ops & -> & Hops). unfold news. rewrite drop_app_length. apply Forall_fmap, Forall_forall.
  intros e (x & Hx & He)%list_elem_of_omap. rewrite Forall_forall in Hops. specialize (Hops _ Hx).
  destruct x as [[] []]; simplify_eq/=. lia.
Qed.

Lemma proc_serve_posts (S : Sys) e p : proc_ok p → conforms e → env_dest e = proc_id p →
  Forall (λ b, b < Datatypes.S (rank e))
    (Datatypes.S ∘ rank <$> news (proc_hist p) (proc_hist (proc_serve S e p).2)) ∧
  bridges (proc_serve S e p).2 = bridges p.
Proof.
  intros Hp Hc Hd. unfold proc_serve. destruct p as [w|w|s|w|d].
  - pose proof (signd_posts e Hc Hd w) as Hs. destruct (serve _ _ w) as [r w'].
    split; [by apply posts_news|done].
  - pose proof (routed_posts e Hc Hd w) as Hs. destruct (serve _ _ w) as [r w'].
    split; [by apply posts_news|done].
  - assert (env_bus e ≠ BusIdBridge) as Hb by (intros E; unfold conforms in Hc; by rewrite E in Hc).
    pose proof (watch_posts (rank e) (env_bus e) (env_src e) (env_msg e) Hb (wd_runtime s)) as Hs.
    destruct (serve _ _ _) as [r w']. split; [by apply posts_news|done].
  - pose proof (chan_posts (env_bus e) (env_src e) (env_msg e) w) as Hs.
    assert (chan_rank (env_msg e) = rank e) as Hk.
    { unfold rank. rewrite Hd. destruct Hp as [Hp _]. unfold chan_ok in Hp. simpl.
      destruct (r_identity (rt w)); done. }
    rewrite Hk in Hs. destruct (serve _ _ w) as [r w']. split; [by apply posts_news|done].
  - assert (env_bus e ≠ BusIdBridge) as Hb by (intros E; unfold conforms in Hc; by rewrite E in Hc).
    destruct Hp as (pr & [Hp _] & _). apply (peer_id_daemon pr d) in Hp. rewrite <-Hd in Hp.
    pose proof (peerd_posts (env_bus e) (env_src e) (env_msg e) _ Hb Hp (pd_runtime d)) as Hs.
    destruct (serve _ _ _) as [r w']. split; [by apply posts_news|done].
Qed.

Lemma pending_app w ps1 ps2 ms1 ms2 :
  pending {| nd_lnpd := w; nd_procs := ps1 ++ ps2; nd_flight := ms1 ++ ms2 |} =
    ((S ∘ rank <$> ms1) ++ (S ∘ rank <$> ms2)) ++ (ps1 ≫= bridges) ++ (ps2 ≫= bridges).
Proof. unfold pending. simpl. by rewrite fmap_app, bind_app. Qed.

Lemma left_bridges x : (left_of x ≫= bridges) ⊆+ bridges x.2.
Proof. unfold left_of. destruct x.1; simpl; [by rewrite app_nil_r|apply submseteq_nil_l]. Qed.

Lemma pending_split w ps ms1 e ms2 :
  pending {| nd_lnpd := w; nd_procs := ps; nd_flight := ms1 ++ e :: ms2 |} ≡ₚ
    Datatypes.S (rank e) :: (Datatypes.S ∘ rank <$> ms1 ++ ms2) ++ (ps ≫= bridges).
Proof. unfold pending. simpl. rewrite !fmap_app. simpl. solve_Permutation. Qed.

(** A message is taken away, lower ones come, and bridges do not grow. *)
Lemma lowers_taken w w' ps ps' ms1 e ms2 new :
  ps' ≫= bridges ⊆+ ps ≫= bridges →
  Forall (λ b, b < Datatypes.S (rank e)) (Datatypes.S ∘ rank <$> new) →
  lowers (pending {| nd_lnpd := w; nd_procs := ps; nd_flight := ms1 ++ e :: ms2 |})
    (pending {| nd_lnpd := w'; nd_procs := ps'; nd_flight := ms1 ++ ms2 ++ new |}).
Proof.
  intros Hb Hn. eexists _, _, _. split_and!; [apply pending_split| |exact Hn].
  unfold pending. simpl. rewrite app_assoc, (fmap_app _ (ms1 ++ ms2)).
  etrans; [apply submseteq_app; [done|exact Hb]|]. apply Permutation_submseteq. solve_Permutation.
Qed.

Lemma handles_lowers n n' : node_ok n → handles n n' → lowers (pending n) (pending n').
Proof.
  intros (Hl & Hp & Hf) Hs.
  destruct Hs as [S fuel e ms1 ms2 w w' ps Hd Hr|S e ms1 ms2 w ps1 p ps2 x Hd <-
    |S e err ms1 ms2 w w' ps [Hn [Hb _]] Hr|e ms1 ms2 w ps _|S w ps1 w1 l m b r w2 ps2 ms Hr];
    simpl in Hp, Hf.
  - apply Forall_app in Hf as [_ [He _]%Forall_cons]. apply lowers_taken; [done|].
    pose proof (lnpd_serve_posts fuel e He Hd w) as Hs. rewrite Hr in Hs. by apply posts_news.
  - apply Forall_app in Hf as [_ [He _]%Forall_cons]. apply Forall_app in Hp as [_ [Hp _]%Forall_cons].
    destruct (proc_serve_posts S e p Hp He Hd) as [Hs Hbr]. apply lowers_taken; [|done].
    rewrite !bind_app. simpl. rewrite <-Hbr. auto using submseteq_app, left_bridges.
  - apply Forall_app in Hf as [_ [He _]%Forall_cons]. apply lowers_taken; [done|].
    pose proof (lnpd_err_posts e err (env_dest e) He Hn Hb w) as Hs.
    rewrite Hr in Hs. by apply posts_news.
  - rewrite <-(app_nil_r ms2) at 2. by apply lowers_taken.
  - pose proof (peerd_bridge_posts m w1) as Hs. rewrite Hr in Hs. apply posts_news in Hs.
    exists (Datatypes.S bridge_rank), (Datatypes.S ∘ rank <$> news (hist w1) (hist w2)),
      ((ps1 ≫= bridges) ++ ((λ _, Datatypes.S bridge_rank) <$> b) ++ (ps2 ≫= bridges)
        ++ (Datatypes.S ∘ rank <$> ms)).
    split_and!; [| |done]; unfold pending; simpl.
    + rewrite !bind_app. simpl. solve_Permutation.
    + rewrite fmap_app, !bind_app. simpl.
      pose proof (left_bridges
        (lives r, PPeer {| pd_runtime := w2; pd_listener := l; pd_bridge := b |})) as Hb.
      simpl in Hb. set (new := news _ _). set (lft := left_of _ ≫= bridges) in *.
      trans ((Datatypes.S ∘ rank <$> ms) ++ (Datatypes.S ∘ rank <$> new) ++ (ps1 ≫= bridges)
        ++ ((λ _, Datatypes.S bridge_rank) <$> b) ++ (ps2 ≫= bridges)).
      { rewrite <-app_assoc. do 3 (apply submseteq_app; [done|]). by apply submseteq_app. }
      apply Permutation_submseteq. solve_Permutation.
Qed.

(** There is no infinite run of handling, in any order. *)
Lemma handling_ends n : node_ok n → Acc (flip handles) n.
Proof.
  intros Hn. pose proof (lowers_ends (pending n)) as Ha. remember (pending n) as l eqn:El.
  revert n El Hn. induction Ha as [l _ IH]. intros n -> Hn. constructor. intros n' Hs.
  eapply IH; [by apply handles_lowers|done|by eapply handles_ok].
Qed.

(** ** What is there at rest *)

(** lnpd panics on the message. *)
Definition crashes (S : Sys) (fuel : nat) (w : World Lnpd) (e : Envelope) : Prop :=
  env_dest e = LnpBroker ∧
  ∃ p, fst (serve (lnpd_handle fuel (env_bus e) (env_src e) (env_msg e)) lnpd_handle_err w) = Panic p ∧
    broker_panic (rt w) e p.

(** Nothing waits on a bridge, and lnpd panics on every message in flight. *)
Definition at_rest (S : Sys) (fuel : nat) (n : Node) : Prop :=
  Forall (λ p, match p with PPeer d => pd_bridge d = [] | _ => True end) (nd_procs n) ∧
  Forall (crashes S fuel (nd_lnpd n)) (nd_flight n).

Lemma or_forall {A} (P : Prop) (Q : A → Prop) l : (∀ x, x ∈ l → P ∨ Q x) → P ∨ Forall Q l.
Proof.
  induction l as [|x l IH]; intros Hl; [by right|]. destruct (Hl x) as [?|Hx]; [by left|by left|].
  destruct IH as [?|?]; [|by left|right; by constructor]. intros y Hy. apply Hl. by right.
Qed.

Section rest.
Context (outpoint_law : outpoint_of_psbt).
Context (socket_law : ∀ a, socket_of_inet (inet_of_socket a) = Some a).

Lemma lnpd_serve_ends (S : Sys) fuel bus src msg w err w' : obliging →
  serve (lnpd_handle fuel bus src msg) lnpd_handle_err w ≠ (Err err, w').
Proof.
  intros Hobl. unfold serve. unfold bind at 1, attempt.
  destruct (lnpd_handle _ _ _ _ w) as [[?|e|?] w1]; try done.
  destruct (error_into_esb e); try done.
  unfold lnpd_handle_err, self. rewrite bind_gets. unfold bind, q. by rewrite (send_to_delivers Hobl).
Qed.

Lemma flight_progress (S : Sys) fuel n e : obliging → node_ok n → registries_ok (rt (nd_lnpd n)) →
  e ∈ nd_flight n → (∃ n', handles n n') ∨ crashes S fuel (nd_lnpd n) e.
Proof.
  intros Hobl (Hl & Hp & Hf) Hreg He. destruct n as [w ps ms]. simpl in *.
  pose proof (proj1 (Forall_forall _ _) Hf e He) as Hc. simpl in Hc.
  apply list_elem_of_split in He as (ms1 & ms2 & ->).
  destruct (is_daemon (env_dest e)) eqn:Hd; [|left; by eexists; apply hs_leaves].
  destruct (decide (env_dest e = LnpBroker)) as [Hb|Hb].
  - destruct (serve (lnpd_handle fuel (env_bus e) (env_src e) (env_msg e)) lnpd_handle_err w)
      as [[[]|err|p] w'] eqn:E.
    + left. eexists. by eapply hs_broker.
    + by destruct (lnpd_serve_ends S fuel _ _ _ _ _ _ Hobl E).
    + right. split; [done|]. exists p. rewrite E. split; [done|]. apply lnpd_panic_conforms; [done..|].
      by apply (serve_registries outpoint_law socket_law S fuel _ _ _ _ _ _ Hreg E).
  - left. destruct (decide (Forall (λ p, proc_id p ≠ env_dest e) ps)) as [Hno|Hno].
    + eexists. eapply (hs_undeliverable S _ ""%string); [split; [by rewrite Hd|done]|].
      by rewrite (offline_reported S _ _ _ Hobl).
    + apply not_Forall_Exists, Exists_exists in Hno as (p & (ps1 & ps2 & ->)%list_elem_of_split & Hid);
        [|intros ?; apply _].
      eexists. eapply (hs_deliver S); [|done]. by apply dec_stable in Hid.
Qed.

Lemma bridge_progress (S : Sys) n p : p ∈ nd_procs n →
  (∃ n', handles n n') ∨ match p with PPeer d => pd_bridge d = [] | _ => True end.
Proof.
  intros (ps1 & ps2 & E)%list_elem_of_split. destruct n as [w ps ms]. simpl in *. subst ps.
  destruct p as [| | | |[w1 l [|m b]]]; try by right.
  left. destruct (serve (peerd_handle BusIdBridge Loopback m) peerd_handle_err w1) as [r w2] eqn:E.
  eexists. by eapply hs_bridge.
Qed.

Lemma node_progress (S : Sys) fuel n : obliging → node_ok n → registries_ok (rt (nd_lnpd n)) →
  (∃ n', handles n n') ∨ at_rest S fuel n.
Proof.
  intros Hobl Hn Hreg. destruct (or_forall _ _ _ (λ p, bridge_progress S n p)) as [?|Hbr]; [by left|].
  destruct (or_forall _ _ _ (λ e, flight_progress S fuel n e Hobl Hn Hreg)) as [?|Hfl]; [by left|].
  by right.
Qed.

Lemma handled_reaches n0 n n' : node_reaches n0 n → rtc handles n n' → node_reaches n0 n'.
Proof. intros Hr Hs. revert Hr. induction Hs; [done|]. eauto using nr_step, ns_handles. Qed.

Lemma node_settles (S : Sys) fuel n0 n : obliging → node_starts n0 → node_reaches n0 n →
  ∃ n', rtc handles n n' ∧ at_rest S fuel n'.
Proof.
  intros Hobl Hn0 Hr.
  pose proof (handling_ends n (node_reaches_ok n0 n (node_starts_ok n0 Hn0) Hr)) as Ha.
  induction Ha as [n _ IH].
  destruct (node_progress S fuel n Hobl) as [[n' Hs]|Hrest].
  - exact (node_reaches_ok n0 n (node_starts_ok n0 Hn0) Hr).
  - exact (node_registries outpoint_law socket_law n0 n Hn0 Hr).
  - destruct (IH n' Hs) as (n2 & Hs2 & Hrest); [by eapply nr_step, ns_handles|].
    exists n2. split; [by eapply rtc_l|done].
  - by exists n.
Qed.
End rest.

(** ** The theorem *)

(** C6. A node that is left to itself comes to rest. From whatever state it has reached,
    there is no infinite run of handling what is there, in any order and whatever the
    surroundings answer: what a daemon sends while it handles a message has a lower rank
    than the message. Where the buses deliver, nothing waits on a bridge of a peer
    connection when nothing more can be handled, and a message that is still in flight
    is one on which lnpd panics for a reason that [broker_panic] lists; such a state is
    within reach. *)
Theorem node_comes_to_rest (S : Sys) fuel n0 n :
  outpoint_of_psbt → (∀ a, socket_of_inet (inet_of_socket a) = Some a) → obliging →
  node_starts n0 → node_reaches n0 n →
  Acc (flip handles) n ∧
  (∃ n', rtc handles n n' ∧ at_rest S fuel n') ∧
  (∀ n', rtc handles n n' → nf handles n' → at_rest S fuel n').
Proof.
  intros Hlaw Hsock Hobl Hn0 Hr. split_and!.
  - exact (handling_ends n (node_reaches_ok n0 n (node_starts_ok n0 Hn0) Hr)).
  - exact (node_settles Hlaw Hsock S fuel n0 n Hobl Hn0 Hr).
  - intros n' Hs Hnf. pose proof (handled_reaches n0 n n' Hr Hs) as Hr'.
    destruct (node_progress Hlaw Hsock S fuel n' Hobl) as [Hs'|?]; [| |by destruct Hnf|done].
    + exact (node_reaches_ok n0 n' (node_starts_ok n0 Hn0) Hr').
    + exact (node_registries Hlaw Hsock n0 n' Hn0 Hr').
Qed.
End handling.
