(* ===== verification/Example.v ===== *)
(** * A concrete node

    One instance of every interface the development is parameterised with:
    external types, surroundings, channel library, codec and texts.  The
    witnesses of the theorems evaluate the daemons on it. *)

From Stdlib Require Import Ascii SpecFloat.
From S2P Require Import Prelude.
From S2P Require Import Bus.
From S2P Require Import Text.
From S2P Require Import Service.
From S2P Require Import Config.
From S2P Require Import ChannelRuntime.
From S2P Require Import Propose.
From S2P Require Import Accept.
From S2P Require Import Machine.
From S2P Require Import ChannelFacts.
From S2P Require Import ChannelCorrect.
From S2P Require Import ChannelSafety.
From S2P Require Import ChannelStore.
From S2P Require Import Wallet.
From S2P Require Import WalletCorrect.
From S2P Require Import LnpdRuntime.
From S2P Require Import Watch.
From S2P Require Import Peerd.
From S2P Require Import Routed.
From S2P Require Import Signd.
From S2P Require Import SigndCorrect.
From S2P Require Import ListenAddr.
From S2P Require Import Client.
From S2P Require Import Init.
From S2P Require Import InitCorrect.
From S2P Require Import Args.
From S2P Require Import ArgsCorrect.

#[export] Instance toy_ext : Ext := {|
  Opaque := N; Psbt := list N; LocalKeyset := N; Policy := N; PubkeyScript := N;
  Signature := N; HashLock := N; LocalChannelInfo := N; BoltChannelState := N;
  Invoice := N; ChannelType := N; InetSocketAddr := option SocketAddr; AssetId := N |}.

(** Every operation on the surroundings succeeds. *)
#[export] Instance toy_sys : Sys := {|
  esb_reply := λ _ _, None;
  launch_reply := λ _ _, inr "started";
  io_reply := λ _ _, None;
  io_not_found := {| io_err := 2%N |};
  short_write := λ _, 0;
  peer_reply := λ _ _, None;
  random_temp_id := λ h, MkTempChannelId [N.of_nat (length h)];
  random_size := λ _ _, 4%N;
  random_byte := λ _ i, N.of_nat i;
  sys_now := λ h, N.of_nat (length h) |}.

#[export] Instance toy_fmt : Fmt := {|
  show_bus_msg := λ _, "message";
  show_service_id := λ _, "service";
  show_node_id := λ _, "node";
  show_node_addr := λ _, "address";
  show_channel_id := λ c, "channel";
  show_temp_id := λ t, "temp";
  show_active_id := λ a, match a with ActTemporary _ => "temp" | ActStatic _ => "static" end;
  show_active_alt := λ a, "id";
  show_txid := λ _, "txid";
  show_outpoint := λ _, "outpoint";
  show_ip := show_uint;
  show_protocol := λ p, match p with Bolt => "bolt" | Bifrost => "bifrost" end;
  default_port := λ p, match p with Bolt => 9735 | Bifrost => 9999 end%N;
  show_esb_error := λ _, "esb error";
  show_chan_error := λ _, "channel error";
  show_launch_error := λ _, "launch error";
  show_error := λ _, "error";
  show_failure := λ _, "failure";
  show_launcher_err := λ _, "launcher error";
  announce := λ s, s; announcer := λ s, s; ended := λ s, s; actor := λ s, s |}.

(** A channel is its id and its funding transaction; a PSBT whose single input is
    signed. *)
Definition toy_txid (psbt : list N) : N := foldr N.add 1000%N psbt.

#[export] Instance toy_core : LnpCore := {|
  Channel := ActiveChannelId * N;
  channel_with := λ t _, (ActTemporary t, 77%N);
  active_channel_id := fst;
  temp_channel_id := λ c, act_temp_channel_id c.1;
  update_from_peer := λ c _, (c, inr tt);
  compose_open_channel := λ c _ _ _ _ _ _,
    (c, inr {| oc_temporary_channel_id := MkTempChannelId (as_slice32 c.1); oc_rest := 0%N : Opaque |});
  compose_accept_channel := λ c,
    (c, inr {| ac_temporary_channel_id := MkTempChannelId (as_slice32 c.1); ac_rest := 0%N : Opaque |});
  compose_reestablish_channel := λ c m, (c, inr m);
  compose_funding_locked := λ c,
    (c, {| cm_channel_id := MkChannelId (as_slice32 c.1); cm_rest := 0%N : Opaque |});
  compose_add_update_htlc := λ c _ _ _ _, (c, inr (LnOther (0%N : Opaque)));
  refund_tx := λ c psbt _, ((c.1, toy_txid psbt), inr psbt);
  set_local_keys := λ c _, c;
  funding_script_pubkey := λ _, 0%N : PubkeyScript;
  funding_amount := λ _, 1000%N;
  funding_txid := snd;
  funding_output := λ _, 0%N;
  funding_pubkey := λ _, 5%N;
  channel_info := λ _ _, 0%N : LocalChannelInfo;
  store_state := λ _, 0%N : BoltChannelState;
  channel_id_with := λ txid out, MkChannelId [txid; out];
  psbt_inputs := λ p, (λ sig : N, λ _ : PublicKey, Some (sig : Signature)) <$> (p : list N);
  genesis_hash := λ _, [] |}.

(** The codec: the state as one number, then whatever follows is ignored. *)
Definition machine_code (m : ChannelStateMachine) : N :=
  match m with
  | CsLaunch => 0
  | CsPropose PrProposed => 1 | CsPropose PrAccepted => 2 | CsPropose PrSigning => 3
  | CsPropose PrFunding => 4 | CsPropose PrPublished => 5 | CsPropose PrLocked => 6
  | CsAccept AcAccepted => 7 | CsAccept AcSigned => 8 | CsAccept AcFunded => 9
  | CsAccept AcLocked => 10
  | CsActive => 11 | CsReestablishing => 12 | CsClosing => 13 | CsAbort => 14 | CsPenalize => 15
  end.
Definition code_machine (n : N) : ChannelStateMachine :=
  match n with
  | 1 => CsPropose PrProposed | 2 => CsPropose PrAccepted | 3 => CsPropose PrSigning
  | 4 => CsPropose PrFunding | 5 => CsPropose PrPublished | 6 => CsPropose PrLocked
  | 7 => CsAccept AcAccepted | 8 => CsAccept AcSigned | 9 => CsAccept AcFunded
  | 10 => CsAccept AcLocked
  | 11 => CsActive | 12 => CsReestablishing | 13 => CsClosing | 14 => CsAbort | 15 => CsPenalize
  | _ => CsLaunch
  end%N.

#[export] Instance toy_codec : StateCodec := {|
  encode_state := λ s,
    [Npos (encode (machine_code (state_machine s), channel s : ActiveChannelId * N, remote_id s))];
  decode_state := λ bs,
    match bs with
    | Npos p :: _ =>
        match decode (A:=N * (ActiveChannelId * N) * option N) p with
        | Some (m, c, n) =>
            inr {| state_machine := code_machine m; channel := c : Channel; remote_id := n |}
        | None => inl {| strict_err := 1%N : Opaque |}
        end
    | _ => inl {| strict_err := 0%N : Opaque |}
    end |}.

Lemma toy_codec_round_trip : codec_round_trip.
Proof.
  intros [m c n] rest. unfold decode_state, encode_state, toy_codec. simpl.
  rewrite decode_encode. by destruct m as [|[]|[]| | | | |].
Qed.

(** ** The wallet *)

#[export] Instance release_build : Build := false.

(** Two addresses with coins.  A fee that the coins do not cover is refused.  A
    transaction weighs 1000 units, except for an
    amount of 13, where the weight goes up and down with the fee. *)
#[export] Instance toy_wallet : WalletLib := {|
  Descriptor := N;
  Network := bool;
  is_bitcoin_network := λ b, b;
  chain_network := λ c, Some (match c with Mainnet => true | _ => false end);
  descriptor_network := λ _ _, inr false;
  descriptor_keys := λ _, [{| master_fingerprint := Some 1%N; account_fingerprint := 2%N;
                              account_path := [84%N] |}];
  max_satisfaction_weight := λ _, Some 250%N;
  derive_script := λ _ path, inr (foldr N.add 100%N path : PubkeyScript);
  address_from_script := λ s _, Some (s : N);
  electrum_connect := λ _ _, None;
  resolve_utxos := λ _ _ case _ _,
    inr (if decide (case = 0)%N
         then [(0%N, (7%N : PubkeyScript, [{| utxo_outpoint := (1%N, 0%N); utxo_amount := 600 |};
                         {| utxo_outpoint := (2%N, 0%N); utxo_amount := 500 |}]));
               (3%N, (8%N : PubkeyScript, [{| utxo_outpoint := (3%N, 1%N); utxo_amount := 900 |}]))]
         else []);
  estimate_fee := λ _, inr (S754_zero false);
  broadcast := λ _ _, None;
  psbt_construct := λ _ _ inputs _ amount _ fee,
    if (100000 <? fee)%N then None else Some ([amount; fee; N.of_nat (length inputs)] : Psbt);
  map_key_sources := λ _ p, p;
  set_channel_funding_output := λ _ p, Some p;
  psbt_weight := λ p,
    match (p : list N) with
    | [13; 2; _] => 3000
    | [13; 3; _] => 2000
    | _ => 1000
    end%N;
  psbt_txid := toy_txid;
  channel_funding_outpoint := λ p, inr (toy_txid p, 0%N);
  psbt_finalize := λ p, inr p |}.

Definition pending_code (p : PendingFunding) : list N * N * list OutPoint * list N :=
  (temp_into_inner (pf_temp_channel_id p), pf_funding_txid p, pf_prev_outpoints p,
   pf_psbt p : list N).
Definition code_pending (x : list N * N * list OutPoint * list N) : PendingFunding :=
  let '(t, txid, outs, psbt) := x in {|
  pf_temp_channel_id := MkTempChannelId t; pf_funding_txid := txid;
  pf_prev_outpoints := outs; pf_psbt := psbt : Psbt |}.
Definition wallet_code (d : WalletData) :=
  (w_descriptor d : N, w_last_normal_index d, w_last_change_index d, w_last_rgb_index d,
   map_to_list (pending_code <$> w_pending d)).
Definition code_wallet
    (x : N * N * N * list (list N * N) * list (N * (list N * N * list OutPoint * list N)))
    : WalletData :=
  let '(d, n, c, rgb, pending) := x in {|
  w_descriptor := d : Descriptor; w_last_normal_index := n; w_last_change_index := c;
  w_last_rgb_index := rgb; w_pending := code_pending <$> (list_to_map pending : gmap N _) |}.

#[export] Instance toy_wallet_codec : WalletCodec := {|
  encode_wallet := λ d, [Npos (encode (wallet_code d))];
  decode_wallet := λ bs,
    match bs with
    | Npos p :: _ =>
        match decode p with
        | Some x => inr (code_wallet x)
        | None => inl {| strict_err := 1%N : Opaque |}
        end
    | _ => inl {| strict_err := 0%N : Opaque |}
    end |}.

Lemma toy_wallet_round_trip : wallet_round_trip.
Proof.
  intros d rest. unfold decode_wallet, encode_wallet, toy_wallet_codec. simpl.
  rewrite decode_encode. f_equal. destruct d as [d n c rgb pending]. unfold code_wallet, wallet_code.
  simpl. rewrite list_to_map_to_list, <-map_fmap_compose. f_equal.
  rewrite <-(map_fmap_id pending) at 2. apply map_fmap_ext.
  intros txid [[t] ? ? ?] _. done.
Qed.

(** ** lnpd *)

#[export] Instance toy_lnpd_lib : LnpdLib := {|
  default_params := (0%N : Policy,
    {| cp_feerate_per_kw := 253; cp_announce_channel := true;
       cp_channel_type := 0%N : ChannelType; cp_rest := 0%N : Opaque |},
    {| pp_dust_limit_satoshis := 354; pp_to_self_delay := 3; pp_max_accepted_htlcs := 10;
       pp_htlc_minimum_msat := 1; pp_max_htlc_value_in_flight_msat := 1000;
       pp_channel_reserve_satoshis := 10; pp_rest := 0%N : Opaque |});
  dumb_keyset := 0%N : LocalKeyset;
  inet_of_socket := λ a, Some a : InetSocketAddr;
  socket_of_inet := λ a, (a : option SocketAddr);
  node_of_secret := λ _, Some 11%N |}.

(** ** The Electrum server of watchd *)

(** Transactions are their ids; the server knows those above 9. *)
#[export] Instance toy_electrum : ElectrumLib := {|
  Transaction := N;
  tx_txid := λ t, t;
  HeaderNotification := N;
  electrum_from_config := λ _ _, None;
  block_headers_pop := λ _, inr None;
  transaction_get := λ _ t, if decide (9 < t)%N then inr t else inl (0%N : Opaque);
  batch_transaction_get := λ _ l, inr l |}.

(** ** peerd, routed and signd *)

#[export] Instance warnings : LogLevel := true.

(** Every invoice but the invoice 0 can be routed over one hop; an invoice above
    100 names no amount. *)
Definition toy_hop (amount : N) : Hop := {|
  hop_payload := {| amt_to_forward := amount; outgoing_cltv_value := 40; po_rest := 0%N : Opaque |};
  hop_rest := 0%N : Opaque |}.
#[export] Instance toy_router : RouterLib := {|
  LnRouter := list UpdateMsg;
  router_default := [];
  router_update_from_peer := λ r _, (r, inr tt);
  router_update_from_local := λ r m, (m :: r, inr tt);
  router_compute_route := λ r req,
    (r, if decide (pr_payment_hash req = 0%N) then [] else [toy_hop (pr_amount_msat req)]);
  payment_hash := λ i, [i : N];
  payee_pub_key := λ i, [2%N; i : N];
  amount_milli_satoshis := λ i, if decide (i < 100)%N then Some (i : N) else None;
  min_final_cltv_expiry := λ _, 18%N;
  pubkey_from_slice := λ bs, bs !! 1;
  hash_lock_from_inner := λ s, (default 0%N (head s) : HashLock) |}.

(** Keys are lists of indexes; only the account whose key is 99 can be derived
    from, and a PSBT without inputs cannot be signed. *)
Definition toy_encode_list (l : list N) : list N := N.of_nat (length l) :: l.
Definition toy_decode_list (bs : list N) : StrictErr + list N * list N :=
  match bs with
  | n :: bs => inr (take (N.to_nat n) bs, drop (N.to_nat n) bs)
  | [] => inl {| strict_err := 0%N : Opaque |}
  end.

#[export] Instance toy_signer : SignLib := {|
  XpubIdentifier := N;
  ChildNumber := N;
  ExtendedPrivKey := list N;
  SignAccount := N * list N * list N;
  Fingerprint := N;
  child_from_hardened_idx := Some;
  decode_master_id := λ bs,
    match bs with b :: bs => inr (b, bs) | [] => inl {| strict_err := 0%N : Opaque |} end;
  decode_derivation := toy_decode_list;
  decode_xpriv := toy_decode_list;
  account_with := λ id path key, (id, path, key);
  account_xpriv := λ a, a.2;
  account_key_fingerprint := λ a, a.1.1;
  derive_priv := λ key path,
    if decide (head key = Some 99%N) then inr (key ++ path)
    else inl {| derive_err := 3%N : Opaque |};
  keyset_with := λ f path key, (f + foldr N.add 0 path + foldr N.add 0 key)%N : LocalKeyset;
  sign_all := λ _ psbt,
    match (psbt : list N) with
    | [] => (psbt, inl {| signing_err := 4%N : Opaque |})
    | _ => (psbt, inr 1%N)
    end;
  chain_is_testnet := λ c, match c with Mainnet => false | _ => true end |}.

Lemma toy_hardening : hardening_law.
Proof. intros i _. by eexists. Qed.

(** ** Addresses, clients and commands *)

#[export] Instance toy_addr : AddrLib := {|
  bolt_port := 9735;
  bifrost_port := 9999;
  PartialSocketAddr := N * option N;
  AddrFormatErr := unit;
  partial_from_str := λ s,
    match split ":" s with
    | [ip] => match parse_uint u64_max ip with Some n => inr (n, None) | None => inl tt end
    | [ip; port] =>
        match parse_uint u64_max ip, parse_uint u16_max port with
        | Some n, Some p => inr (n, Some p)
        | _, _ => inl tt
        end
    | _ => inl tt
    end;
  inet_socket := λ a port, Some (a.1, default port a.2) : InetSocketAddr |}.

Lemma toy_addr_laws : addr_laws (λ ip, (ip ≤ u64_max)%N).
Proof.
  split.
  - by intros [].
  - by intros [].
  - intros ip _. by apply show_uint_digits.
  - intros ip Hip. exists (ip, None). split; [|done]. simpl. unfold split.
    rewrite (split_go_none ":"%char) by (done || by apply show_uint_digits).
    by rewrite app_nil_str, parse_show_uint.
  - intros ip port Hip Hport. exists (ip, Some port). split; [|done]. simpl.
    rewrite (split_once _ ":"%char) by (done || by apply show_uint_digits).
    by rewrite !parse_show_uint.
Qed.

#[export] Instance toy_cli : CliLib := {|
  PartialNodeAddr := NodeAddr;
  partial_node_addr := λ a _, a;
  node_id_from_str := parse_uint u64_max;
  channel_id_from_str := λ _, None |}.

(** A bus that brings one message after the other. *)
Definition toy_bus (msgs : list RpcMsg) : ClientBus := {|
  bus_connect := λ _, None;
  random_identity := 7%N;
  recv_poll := λ n,
    match msgs !! n with Some m => inr [m] | None => inl (EsbServiceError "closed") end |}.

(** ** Initialization *)

#[export] Instance toy_init : InitLib := {|
  dir_exists := λ _ _, false;
  read_password := λ _, inr "xpriv";
  xpriv_from_str := λ _, inr ([99%N] : ExtendedPrivKey);
  derivation_path_from_str := λ _, Some ([9735%N] : list ChildNumber);
  xpriv_identifier := λ k, default 0%N (head (k : list N)) : XpubIdentifier;
  encode_master_id := λ id, [id : N];
  encode_derivation := λ d, toy_encode_list (d : list N);
  encode_xpriv := λ k, toy_encode_list (k : list N);
  account_master_id := λ a, a.1.1;
  wpkh_descriptor := λ id key path, inr (foldr N.add (id : N) (path ++ (key : list N)) : Descriptor);
  SecretKey := N;
  derive_seckey := λ a _, a.1.1;
  secret_bytes := λ s, replicate 32 s;
  local_node_id := λ _, 11%N |}.

Lemma toy_list_code (l rest : list N) : toy_decode_list (toy_encode_list l ++ rest) = inr (l, rest).
Proof. simpl. rewrite Nat2N.id. by rewrite take_app_length, drop_app_length. Qed.
Lemma toy_init_laws : init_laws.
Proof.
  split; try done.
  - intros x rest. apply toy_list_code.
  - intros x rest. apply toy_list_code.
  - exact toy_wallet_round_trip.
Qed.
