(* ===== verification/ChannelWitness.v ===== *)
(** * The channel theorems at work

    Each theorem about the channel daemon applied to a concrete run. *)

From S2P Require Import Prelude.
From S2P Require Import Bus.
From S2P Require Import Service.
From S2P Require Import Config.
From S2P Require Import ChannelRuntime.
From S2P Require Import Propose.
From S2P Require Import Accept.
From S2P Require Import Machine.
From S2P Require Import ChannelFacts.
From S2P Require Import ChannelCorrect.
From S2P Require Import ChannelSafety.
From S2P Require Import ChannelStore.
From S2P Require Import Example.

Definition toy_config : Config unit := {|
  chain := Testnet3; data_dir := ["data"]; msg_endpoint := SaInproc "msg";
  ctl_endpoint := SaInproc "ctl"; rpc_endpoint := SaInproc "rpc";
  electrum_url := "localhost"; threaded := false; ext := tt |}.

Definition empty_disk : Disk := {| d_names := ∅; d_inodes := ∅; d_next := 0 |}.

Definition temp : TempChannelId := MkTempChannelId [9%N].

(** A channel daemon started for a new channel. *)
Definition fresh : World Runtime :=
  match run toy_config (ActTemporary temp) (mk_world tt [] empty_disk) with
  | (Ok r, w) => mk_world r [] (disk w)
  | (_, w) => mk_world {| r_identity := Loopback; r_config := toy_config;
      r_state := channel_state_with temp Testnet3; r_file := {| f_inode := 0; f_pos := 0 |};
      r_enquirer := None |} [] (disk w)
  end.

Definition drive (w : World Runtime) (msgs : list (ServiceBus * ServiceId * BusMsg))
    : World Runtime :=
  foldl (λ w x, (chan_handle x.1.1 x.1.2 x.2 w).2) w msgs.

(** No message of the run makes the daemon panic. *)
Fixpoint quiet (w : World Runtime) (msgs : list (ServiceBus * ServiceId * BusMsg)) : bool :=
  match msgs with
  | [] => true
  | x :: msgs =>
      match chan_handle x.1.1 x.1.2 x.2 w with
      | (Panic _, _) => false
      | (_, w') => quiet w' msgs
      end
  end.

Lemma drive_reaches w0 pre w msgs :
  reaches w0 pre w → quiet w msgs = true →
  reaches w0 (pre ++ (snd <$> msgs)) (drive w msgs).
Proof.
  revert pre w. induction msgs as [|[[bus src] msg] msgs IH]; intros pre w Hr Hq; simpl.
  { by rewrite app_nil_r. }
  simpl in Hq. destruct (chan_handle bus src msg w) as [r w'] eqn:E.
  rewrite cons_middle, app_assoc. apply IH; [|by destruct r].
  eapply reaches_step; [done|exact E|]. intros p ->. done.
Qed.

(** The messages of a channel that is opened: what the daemon is sent. *)
Definition toy_params : CommonParams := {|
  cp_feerate_per_kw := 253; cp_announce_channel := true;
  cp_channel_type := 0%N : ChannelType; cp_rest := 0%N : Opaque |}.
Definition toy_peer_params : PeerParams := {|
  pp_dust_limit_satoshis := 354; pp_to_self_delay := 3; pp_max_accepted_htlcs := 10;
  pp_htlc_minimum_msat := 1; pp_max_htlc_value_in_flight_msat := 1000;
  pp_channel_reserve_satoshis := 10; pp_rest := 0%N : Opaque |}.
Definition toy_open : OpenChannelWith := {|
  ow_remote_peer := {| na_id := 42%N; na_addr := None : InetSocketAddr |};
  ow_report_to := Some 1%N; ow_funding_sat := 1000; ow_push_msat := 0;
  ow_policy := 0%N : Policy; ow_common_params := toy_params;
  ow_local_params := toy_peer_params; ow_local_keys := 0%N : LocalKeyset |}.

Definition opening : list (ServiceBus * ServiceId * BusMsg) := [
  (BusIdCtl, LnpBroker, BusCtl (CtlOpenChannelWith toy_open));
  (BusIdMsg, PeerBolt 42%N, BusBolt (LnAcceptChannel
     {| ac_temporary_channel_id := temp; ac_rest := 0%N : Opaque |}));
  (BusIdCtl, LnpBroker, BusCtl (CtlFundingConstructed ([8%N] : Psbt)));
  (BusIdCtl, Signer, BusCtl (CtlSigned ([8%N] : Psbt)))].
Definition remote_signed : ServiceBus * ServiceId * BusMsg :=
  (BusIdMsg, PeerBolt 42%N, BusBolt (LnFundingSigned
     {| fs_channel_id := MkChannelId [77%N; 0%N]; fs_signature := 6%N : Signature |})).

Definition funded : World Runtime := drive fresh (opening ++ [remote_signed]).

Lemma funded_reached : reaches fresh (snd <$> (opening ++ [remote_signed])) funded.
Proof. by apply (drive_reaches fresh [] fresh); [constructor|vm_compute]. Qed.

Lemma funding_published_witness :
  publishes funded ∧ ∃ pre fs post w1 r ac psbt refund,
      (snd <$> (opening ++ [remote_signed])) = pre ++ BusBolt (LnFundingSigned fs) :: post ∧
      reaches fresh pre w1 ∧ accepts_signature w1 (BusBolt (LnFundingSigned fs)) ∧
      [BusCtl (CtlOpenChannelWith r); BusBolt (LnAcceptChannel ac);
       BusCtl (CtlFundingConstructed psbt); BusCtl (CtlSigned refund)] `sublist_of` pre.
Proof.
  assert (publishes funded) as Hp.
  { eexists {| env_msg := BusCtl CtlPublishFunding |}. split; [|done].
    vm_compute. repeat first [apply list_elem_of_here | apply list_elem_of_further]. }
  split; [exact Hp|].
  apply (funding_published_only_when_refundable fresh _ funded); [done| |apply funded_reached|done].
  intros (e & He & _). by apply not_elem_of_nil in He.
Defined.

Lemma panic_witness :
  ∃ msgs w src msg p w',
    reaches fresh msgs w ∧ chan_handle BusIdRpc src msg w = (Panic p, w') ∧
    panic_cause BusIdRpc src msg p.
Proof.
  set (msg := BusRpc (RpcSend {| snd_channeld := Loopback; snd_amount := 1; snd_asset := None |})).
  exists (snd <$> (opening ++ [remote_signed])), funded, (Client 1%N), msg.
  assert (∃ p w', chan_handle BusIdRpc (Client 1%N) msg funded = (Panic p, w')) as (p & w' & E)
    by (eexists _, _; reflexivity).
  exists p, w'. split_and!; [apply funded_reached|exact E|].
  exact (channeld_panics_only_for_listed_causes fresh _ funded _ _ _ p w' eq_refl funded_reached E).
Defined.

(** The opener is in stage [PrSigning]: the signature of its refund renames the
    channel; a restart before or after restores it. *)
Definition signing : World Runtime := drive fresh (take 3 opening).

Definition restarted (w : World Runtime) : World unit := mk_world tt [] (disk w).

Definition after_open : World Runtime :=
  (process LnpBroker (BusCtl (CtlOpenChannelWith toy_open))
     (with_rt (set_remote_id (Some 42%N)) fresh)).2.

Lemma step_survives_restart_witness :
  r_machine (rt after_open) = CsPropose PrProposed ∧
  ∃ r w3, run toy_config (ActTemporary temp) (restarted after_open) = (Ok r, w3) ∧
    r_state r = r_state (rt after_open).
Proof.
  split; [done|].
  apply (step_survives_restart LnpBroker (BusCtl (CtlOpenChannelWith toy_open))
    (with_rt (set_remote_id (Some 42%N)) fresh) after_open); [apply toy_codec_round_trip|..];
    by vm_compute.
Defined.

Definition renamed : World Runtime := (set_identity (MkChannelId [77%N; 0%N]) signing).2.

Lemma rename_survives_restart_witness :
  r_machine (rt signing) = CsPropose PrSigning ∧
  ∃ r w3, run toy_config (ActStatic (MkChannelId [77%N; 0%N])) (restarted renamed) = (Ok r, w3) ∧
    r_state r = r_state (rt signing).
Proof.
  split; [done|].
  destruct (rename_survives_restart (MkChannelId [77%N; 0%N]) signing renamed
    (restarted renamed)) as [_ H]; [apply toy_codec_round_trip|by vm_compute..|].
  case_decide as Hd; [by vm_compute in Hd|].
  destruct H as (r & w3 & E & Es & _). by exists r, w3.
Defined.
