(* ===== verification/LnpdWitness.v ===== *)
(** * The lnpd theorems at work

    Each theorem about the funding wallet and the broker applied to a concrete
    run of the node of [Example]. *)

From S2P Require Import Prelude.
From S2P Require Import Bus.
From S2P Require Import Service.
From S2P Require Import Files.
From S2P Require Import Config.
From S2P Require Import ChannelRuntime.
From S2P Require Import Wallet.
From S2P Require Import WalletCorrect.
From S2P Require Import Rpc.
From S2P Require Import LnpdRuntime.
From S2P Require Import Launch.
From S2P Require Import Lnpd.
From S2P Require Import LnpdFacts.
From S2P Require Import LnpdSafety.
From S2P Require Import LnpdCorrect.
From S2P Require Import Example.
From S2P Require Import ChannelWitness.

(** ** The wallet *)

Definition toy_script : PubkeyScript := 0%N.
Definition toy_descriptor : Descriptor := 0%N.
Definition toy_psbt (l : list N) : Psbt := l.
Definition wallet_path : PathBuf := ["data"; "funding.wallet"].

(** A wallet just created, at a rate of two satoshis per thousand units. *)
Definition new_wallet : World FundingWallet :=
  match wallet_new Testnet3 wallet_path toy_descriptor "localhost"
          (mk_world tt [] empty_disk) with
  | (Ok w, s) => mk_world (set_feerate 2 w) [] (disk s)
  | (_, s) => mk_world {| fw_network := false; fw_feerate_per_kw := 0;
      fw_file := {| f_inode := 0; f_pos := 0 |};
      fw_data := {| w_descriptor := 0%N : Descriptor; w_last_normal_index := 0;
        w_last_change_index := 0; w_last_rgb_index := []; w_pending := ∅ |} |} [] (disk s)
  end.

Definition toy_funds : list Funds := 
  match list_funds new_wallet with (Ok funds, _) => funds | _ => [] end.

Definition spent_700 : World FundingWallet :=
  (construct_funding_psbt 5 temp toy_script 700 None new_wallet).2.

Lemma fewest_coins_witness :
  ∃ psbt taken,
    (construct_funding_psbt 5 temp toy_script 700 None new_wallet).1 = Ok psbt ∧
    taken ⊆+ toy_funds ∧ (704 ≤ total taken)%N ∧
    (∀ other, other ⊆+ toy_funds → (704 ≤ total other)%N → length taken ≤ length other).
Proof.
  assert ((list_funds new_wallet) = (Ok toy_funds, (list_funds new_wallet).2)) as El by done.
  pose proof (construct_funding_takes_fewest_coins 5 temp toy_script 700 None new_wallet
    toy_funds _ ltac:(by vm_compute) El ltac:(by vm_compute)) as Hwp.
  unfold wp in Hwp.
  assert (∃ psbt, (construct_funding_psbt 5 temp toy_script 700 None new_wallet).1
    = Ok psbt) as [psbt Ep] by (eexists; by vm_compute).
  destruct (construct_funding_psbt _ _ _ _ _ _) as [r w']. simpl in Ep. subst r.
  destruct Hwp as (taken & Hs & Ht & Hmin & _). by exists psbt, taken.
Defined.

Lemma disjoint_witness :
  size (pending_of (rt (construct_funding_psbt 5 temp toy_script 600 None spent_700).2)) = 2 ∧
  fundings_disjoint
    (fw_data (rt (construct_funding_psbt 5 temp toy_script 600 None spent_700).2)).
Proof.
  split; [by vm_compute|].
  do 2 apply pending_fundings_stay_disjoint. intros t1 t2 p1 p2 o Hp1. exfalso.
  assert (w_pending (fw_data (rt new_wallet)) = ∅) as E by done. by rewrite E in Hp1.
Defined.

Lemma lost_witness :
  pending_of (rt spent_700) ≠ ∅ ∧
  ∃ fw w3, wallet_with Testnet3 wallet_path "localhost" (mk_world tt [] (disk spent_700))
             = (Ok fw, w3) ∧ pending_of fw = ∅.
Proof.
  split; [by vm_compute|].
  destruct (wallet_with Testnet3 wallet_path "localhost" (mk_world tt [] (disk spent_700)))
    as [[fw|e|p] w3] eqn:E; [|by vm_compute in E..].
  exists fw, w3. split; [done|].
  destruct (construct_funding_psbt 5 temp toy_script 700 None new_wallet)
    as [[psbt|e|p] w'] eqn:Ec; [|by vm_compute in Ec..].
  assert (w' = spent_700) as -> by (unfold spent_700; by rewrite Ec).
  rewrite (pending_funding_lost_on_restart 5 temp toy_script 700 None new_wallet psbt
    spent_700 Testnet3 wallet_path "localhost" (mk_world tt [] (disk spent_700)) fw w3
    toy_wallet_round_trip Ec eq_refl eq_refl E). done.
Defined.

Lemma fee_terminates_witness :
  ∃ psbt n, fee_loop 2 toy_descriptor [] toy_script 700 0 253 1 new_wallet
    = (Ok psbt, Nat.iter (S n) constructed_once new_wallet).
Proof.
  destruct (fee_loop_terminates 2 toy_descriptor [] toy_script 700 0 253 1 new_wallet
    (toy_psbt [700; 1; 0]%N)) as (n & psbt & _ & _ & _ & E);
    [done|by split| |lia|by exists psbt, n].
  intros _. by exists (toy_psbt [700; 253; 0]%N).
Defined.

Lemma fee_oscillates_witness :
  fst (fee_loop 50 toy_descriptor [] toy_script 13 0 1 2 new_wallet) = Panic diverges.
Proof.
  apply (fee_loop_oscillates 50 toy_descriptor [] toy_script 13 0 1 2 3 new_wallet
    (toy_psbt [13; 2; 0]%N) (toy_psbt [13; 3; 0]%N)); done.
Defined.

(** ** The broker *)

Definition key_path : PathBuf := ["data"; "key.dat"].

(** The disk of [new_wallet] with the node's key. *)
Definition node_disk : Disk := {|
  d_names := <[key_path := 100]> (d_names (disk new_wallet));
  d_inodes := <[100 := replicate 32 7%N]> (d_inodes (disk new_wallet));
  d_next := 101 |}.

Definition started : Res Error Lnpd * World unit :=
  lnpd_run toy_config key_path [] (mk_world tt [] node_disk).

Definition no_node : Lnpd := {|
  l_config := toy_config; l_node_key_path := key_path; l_node_id := 0%N;
  l_listens := ∅; l_started := 0; l_wallet := rt new_wallet; l_params := default_params;
  l_bolt := ∅; l_bifrost := ∅; l_channels := ∅; l_spawning := ∅; l_creating := ∅;
  l_funding := ∅; l_accepting := ∅; l_reestablishing := ∅ |}.

Definition node : World Lnpd :=
  match started with
  | (Ok r, w) => mk_world r (hist w) (disk w)
  | (_, w) => mk_world no_node (hist w) (disk w)
  end.

Lemma started_ok : ∃ r w, started = (Ok r, w).
Proof. eexists _, _. by vm_compute. Qed.

(** A run: the messages handled, none of which makes lnpd panic. *)
Definition lnpd_drive (w : World Lnpd) (msgs : list (ServiceBus * ServiceId * BusMsg))
    : World Lnpd :=
  foldl (λ w x, (lnpd_handle 5 x.1.1 x.1.2 x.2 w).2) w msgs.
Fixpoint lnpd_quiet (w : World Lnpd) (msgs : list (ServiceBus * ServiceId * BusMsg)) : bool :=
  match msgs with
  | [] => true
  | x :: msgs =>
      match lnpd_handle 5 x.1.1 x.1.2 x.2 w with
      | (Panic _, _) => false
      | (_, w') => lnpd_quiet w' msgs
      end
  end.

Lemma lnpd_drive_reaches w0 w msgs :
  lnpd_reaches 5 w0 w → lnpd_quiet w msgs = true → lnpd_reaches 5 w0 (lnpd_drive w msgs).
Proof.
  revert w. induction msgs as [|[[bus src] msg] msgs IH]; intros w Hr Hq; simpl; [done|].
  simpl in Hq. destruct (lnpd_handle 5 bus src msg w) as [r w'] eqn:E.
  apply IH; [|by destruct r]. eapply lr_step; [exact Hr|exact E|]. by intros p ->.
Qed.

(** A channel launched for a client, up to the signing of its funding. *)
Definition toy_create : CreateChannel := {|
  cc_remote_peer := {| na_id := 42%N; na_addr := None : InetSocketAddr |};
  cc_report_to := Some 1%N; cc_funding_sat := 700; cc_push_msat := 0; cc_fee_rate := None;
  cc_announce_channel := None; cc_channel_type := None; cc_dust_limit := None;
  cc_to_self_delay := None; cc_htlc_max_count := None; cc_htlc_min_value := None;
  cc_htlc_max_total_value := None; cc_channel_reserve := None |}.
Definition launched_channel : ServiceId :=
  service_of_temp (random_temp_id (hist node)).
Definition toy_funding : FundChannel :=
  {| fch_script_pubkey := toy_script; fch_amount := 700; fch_feerate_per_kw := Some 2%N |}.
Definition toy_keyset : LocalKeyset := 0%N.

Definition launching : list (ServiceBus * ServiceId * BusMsg) := [
  (BusIdRpc, Client 1%N, BusRpc (RpcCreateChannel toy_create));
  (BusIdCtl, launched_channel, BusCtl CtlHello);
  (BusIdCtl, Signer, BusCtl (CtlKeyset launched_channel toy_keyset));
  (BusIdCtl, launched_channel, BusCtl (CtlConstructFunding toy_funding))].

Lemma toy_outpoints : outpoint_of_psbt.
Proof. intros psbt txid vout [= <- _]. done. Qed.

Lemma node_idle : l_creating (rt node) = ∅ ∧ l_funding (rt node) = ∅.
Proof. split; by vm_compute. Qed.
Lemma launching_reached : lnpd_reaches 5 node (lnpd_drive node launching).
Proof. apply lnpd_drive_reaches; [constructor|by vm_compute]. Qed.
Lemma toy_sockets : ∀ a, socket_of_inet (inet_of_socket a) = Some a.
Proof. done. Qed.

Lemma registries_witness :
  size (l_creating (rt (lnpd_drive node launching))) = 1 ∧
  registries_ok (rt (lnpd_drive node launching)).
Proof.
  split; [by vm_compute|].
  exact (lnpd_registries_invariant 5 node _ toy_outpoints toy_sockets (proj1 node_idle)
    (proj2 node_idle) launching_reached).
Defined.

(** A message nobody could deliver to a channel daemon that is not being launched. *)
Definition stray : BusMsg := BusCtl (CtlEsbError Watch "no route").

Definition isPanic {E A} (r : Res E A) : bool := match r with Panic _ => true | _ => false end.

Lemma lnpd_panic_witness : ∃ p w',
  lnpd_handle 5 BusIdCtl Loopback stray (lnpd_drive node launching) = (Panic p, w') ∧
  lnpd_panic (rt (lnpd_drive node launching)) BusIdCtl Loopback stray p.
Proof.
  assert (isPanic (lnpd_handle 5 BusIdCtl Loopback stray (lnpd_drive node launching)).1 = true)
    as Hp by (by vm_compute).
  destruct (lnpd_handle 5 BusIdCtl Loopback stray (lnpd_drive node launching))
    as [[a|e|p] w'] eqn:E; try discriminate Hp.
  exists p, w'. split; [done|].
  exact (lnpd_panics_only_for_listed_causes 5 node _ BusIdCtl Loopback stray p w'
    toy_outpoints toy_sockets (proj1 node_idle) (proj2 node_idle) launching_reached E).
Defined.

(** ** The launch workflow *)

Definition ev_of (src : ServiceId) (msg : CtlMsg) : CtlEvent := event_with LnpBroker src msg.
Definition init_launcher : ChannelLauncher := ClInit temp toy_create 1%N.
Definition toy_events : list CtlEvent := [
  ev_of (service_of_temp temp) CtlHello;
  ev_of Signer (CtlKeyset (service_of_temp temp) toy_keyset);
  ev_of (service_of_temp temp) (CtlConstructFunding toy_funding);
  ev_of (ChannelSvc (MkChannelId [1%N])) CtlHello;
  ev_of (ChannelSvc (MkChannelId [1%N])) CtlPublishFunding;
  ev_of Signer (CtlSigned (toy_psbt [700; 2; 1]%N))].

(** The launcher fed with one event after the other. *)
Fixpoint feed (w : World Lnpd) (l : ChannelLauncher) (evs : list CtlEvent) : bool :=
  match evs with
  | [] => false
  | ev :: evs =>
      match launcher_next 5 l ev w with
      | (Ok (Some l'), w') => feed w' l' evs
      | (Ok None, _) => match evs with [] => true | _ => false end
      | _ => false
      end
  end.
Lemma feed_run w l evs : feed w l evs = true → launch_run 5 l evs.
Proof.
  revert w l. induction evs as [|ev evs IH]; intros w l E; simpl in E; [done|].
  destruct (launcher_next 5 l ev w) as [[[l'|]| |] w'] eqn:En; try done.
  - eapply launch_step; [exact En|by eapply IH].
  - destruct evs; [|done]. by eapply launch_over.
Qed.

Lemma workflow_witness :
  launch_run 5 init_launcher toy_events ∧
  (aborted (ev_message <$> toy_events) ∨
   ∃ s k f n psbt,
     let rest := CtlConstructFunding f :: replicate n CtlHello ++
                 [CtlPublishFunding; CtlSigned psbt] in
     ev_message <$> toy_events = CtlHello :: CtlKeyset s k :: rest ∨
     ev_message <$> toy_events = CtlKeyset s k :: CtlHello :: rest).
Proof.
  assert (launch_run 5 init_launcher toy_events) as Hr
    by (apply (feed_run node); by vm_compute).
  split; [exact Hr|]. exact (launch_follows_workflow 5 temp toy_create 1%N toy_events Hr).
Defined.

Lemma errors_told_witness : ∃ e w',
  launcher_next 5 init_launcher (ev_of Signer CtlPublishFunding) node = (Err e, w') ∧
  tells 1%N e node w'.
Proof.
  destruct (launcher_next 5 init_launcher (ev_of Signer CtlPublishFunding) node)
    as [[o|e|p] w'] eqn:E; [by vm_compute in E| |by vm_compute in E].
  exists e, w'. split; [done|].
  destruct (launch_errors_reach_client 5 init_launcher (ev_of Signer CtlPublishFunding) node e w')
    as [|(c & psbt & client & fe & ? & _)]; done.
Defined.

(** ** Requests of clients *)

Definition toy_peer : LnpAddr :=
  {| la_node_addr := {| na_id := 42%N; na_addr := None : InetSocketAddr |}; la_protocol := Bolt |}.

Definition connecting : World Lnpd := (handle_connect 1%N toy_peer node).2.

Lemma connecting_witness :
  length (launched (hist connecting)) = 1 ∧
  launched (hist (handle_connect 2%N toy_peer connecting).2) = launched (hist connecting).
Proof.
  split; [by vm_compute|].
  destruct (handle_connect 1%N toy_peer node) as [r w1] eqn:E.
  destruct (connecting_again_launches_nothing 1%N 2%N toy_peer node r w1 E) as (_ & El & _);
    [done|]. unfold connecting. rewrite E. exact El.
Defined.

Lemma funding_sums_witness : ∃ res,
  (available_funding node).1 = Ok res ∧ res !! 7%N = Some 1100%N ∧
  default 0%N (res !! 8%N) = total (at_address false 8%N toy_funds).
Proof.
  destruct (on_wallet list_funds node) as [[funds|e|p] w1] eqn:El; [|by vm_compute in El..].
  assert (funds = toy_funds ∧ fw_network (l_wallet (rt w1)) = false) as [-> En].
  { assert ((on_wallet list_funds node).1 = Ok toy_funds) as E1 by (by vm_compute).
    assert (fw_network (l_wallet (rt (on_wallet list_funds node).2)) = false) as E2
      by (by vm_compute).
    rewrite El in E1, E2. by injection E1. }
  destruct (available_funding_adds_up node w1 toy_funds El) as (res & Er & Hr);
    [by vm_compute|by intros|].
  exists res. rewrite Er. split; [done|]. rewrite En in Hr. split; [|apply Hr].
  assert ((available_funding node).1 = Ok res) as E1 by (by rewrite Er).
  assert (match (available_funding node).1 with Ok m => m !! 7%N | _ => None end = Some 1100%N)
    as E2 by (by vm_compute). by rewrite E1 in E2.
Defined.

Definition toy_open_channel : OpenChannel :=
  {| oc_temporary_channel_id := temp; oc_rest := 0%N : Opaque |}.
Definition requested : World Lnpd := (lnpd_handle_p2p 42%N (LnOpenChannel toy_open_channel) node).2.

Lemma remote_request_witness :
  launched (hist requested) = [Channeld (ActTemporary temp)] ∧
  channel_id_from_temp temp ∈ l_channels (rt (handle_hello 5 (service_of_temp temp) requested).2).
Proof.
  destruct (lnpd_handle_p2p 42%N (LnOpenChannel toy_open_channel) node) as [r w1] eqn:E.
  assert (w1 = requested) as -> by (unfold requested; by rewrite E).
  assert (r = Ok tt) as ->.
  { assert ((lnpd_handle_p2p 42%N (LnOpenChannel toy_open_channel) node).1 = Ok tt) as E1
      by (by vm_compute). by rewrite E in E1. }
  destruct (remote_request_reaches_its_channel_daemon 5 42%N toy_open_channel node requested E)
    as (El & _ & Hh). split; [rewrite El; by vm_compute|].
  destruct (Hh requested) as (_ & Hc & _); [by vm_compute|exact Hc].
Defined.

Section broken.
(** Nothing can be launched here. *)
#[local] Instance broken_sys : Sys := {|
  esb_reply := λ _ _, None;
  launch_reply := λ _ _, inl {| launcher_err := 0%N : Opaque |};
  io_reply := λ _ _, None;
  io_not_found := {| io_err := 2%N |};
  short_write := λ _, 0;
  peer_reply := λ _ _, None;
  random_temp_id := λ h, MkTempChannelId [N.of_nat (length h)];
  random_size := λ _ _, 4%N;
  random_byte := λ _ i, N.of_nat i;
  sys_now := λ h, N.of_nat (length h) |}.

Definition toy_listener : ListenAddr := {| lis_protocol := Bolt; lis_socket_addr := (1%N, 9735%N) |}.
Definition listening : World Lnpd := (handle_listen 1%N toy_listener node).2.

Lemma failed_listener_witness :
  launched (hist listening) = [] ∧ toy_listener ∈ l_listens (rt listening) ∧
  launched (hist (handle_listen 2%N toy_listener listening).2) = [].
Proof.
  destruct (handle_listen 1%N toy_listener node) as [r w1] eqn:E.
  assert (w1 = listening) as -> by (unfold listening; by rewrite E).
  destruct (failed_listener_blocks_retry 1%N 2%N toy_listener node r listening _ toy_sockets
    ltac:(by vm_compute) E ltac:(intros d; reflexivity)) as (El & Hin & _ & El2 & _).
  assert (launched (hist node) = []) as Hn by (by vm_compute).
  rewrite El2, El, Hn. done.
Defined.
End broken.
