(* ===== verification/WatchWitness.v ===== *)
(** * The watchd theorems at work *)

From S2P Require Import Prelude.
From S2P Require Import Bus.
From S2P Require Import Service.
From S2P Require Import Files.
From S2P Require Import Watch.
From S2P Require Import WatchCorrect.
From S2P Require Import Example.

Definition no_disk : Disk := {| d_names := ∅; d_inodes := ∅; d_next := 0 |}.

Definition idle_runtime : World WatchRuntime := mk_world
  {| wr_worker := {| wk_queue := []; wk_alive := true |}; wr_track_list := ∅ |} [] no_disk.
Definition idle_processor : World ElectrumProcessor := mk_world
  {| ep_tracks := []; ep_updates := []; ep_receiver := true |} [] no_disk.
Definition idle : Watchd := {|
  wd_runtime := idle_runtime; wd_processor := idle_processor;
  wd_watcher := mk_world tt [] no_disk; wd_bridge := [] |}.

Definition tx_77 : Transaction := 77%N.
Definition track_77 : BusMsg := BusCtl (CtlTrack 77%N 0).
Definition tracking : World WatchRuntime :=
  (watch_handle BusIdCtl (Client 1%N) track_77 idle_runtime).2.
Definition tracked : Watchd := {|
  wd_runtime := tracking; wd_processor := idle_processor;
  wd_watcher := mk_world tt [] no_disk; wd_bridge := [] |}.

Lemma idle_started : watch_started idle.
Proof. done. Qed.

Lemma tracked_reached allowed :
  allowed (rt idle_runtime) track_77 →
  watch_reaches allowed idle [(Client 1%N, track_77)] tracked.
Proof.
  intros Ha. change [(Client 1%N, track_77)] with ([] ++ option_list (Some (Client 1%N, track_77))).
  eapply wr_step; [constructor| |by intros ? ? [= <- <-]].
  by apply (wst_message BusIdCtl _ _ _ _ (Ok tt)).
Qed.

Lemma worker_survives_witness :
  wk_queue (wr_worker (rt (wd_runtime tracked))) = [TrackTransaction 77%N] ∧
  wk_alive (wr_worker (rt (wd_runtime tracked))) = true.
Proof.
  split; [done|].
  apply (worker_survives idle [(Client 1%N, track_77)] tracked idle_started); [|done].
  apply tracked_reached. by intros (t & [=] & _).
Defined.

Lemma stray_untrack_witness : ∃ rw3 rw4,
  wr_worker (rt rw3) = {| wk_queue := []; wk_alive := false |} ∧
  watch_handle BusIdCtl (Client 2%N) (BusCtl (CtlTrack 78%N 0)) rw3 = (Ok tt, rw4) ∧
  wr_worker (rt rw4) = {| wk_queue := []; wk_alive := false |}.
Proof.
  destruct (watch_handle BusIdCtl (Client 1%N) (BusCtl (CtlUntrack 5%N)) idle_runtime)
    as [r rw2] eqn:E.
  destruct (stray_untrack_stops_tracking 5%N (Client 1%N) 78%N 0%N (Client 2%N) idle_runtime
    idle_processor (mk_world tt [] no_disk) [] rw2 r) as (rw3 & p3 & _ & Ek & rw4 & E4 & _ & Ek4);
    [done|apply not_elem_of_nil|exact E|]. by exists rw3, rw4.
Defined.

Lemma announced_witness : ∃ s,
  watch_reaches (λ _ _, True) idle [(Client 1%N, track_77)] s ∧
  attempted (hist (wd_runtime s)) =
    [notification (Client 1%N) {| ts_txid := 77%N; ts_block_pos := None |}].
Proof.
  destruct (tracked_transaction_is_announced 77%N 0%N (Client 1%N) idle_runtime idle_processor
    (mk_world tt [] no_disk) tx_77 idle) as (s & Hs & Ha & _); try done.
  by exists s.
Defined.

Lemma asked_for_witness :
  found_of 77%N (hist (wd_runtime tracked)) ⊆+ [Client 1%N].
Proof.
  apply (notifications_were_asked_for idle [(Client 1%N, track_77)] tracked 77%N idle_started).
  by apply tracked_reached.
Defined.

Lemma depth_witness :
  wr_track_list (rt tracking) !! 77%N = Some (0%N, Client 1%N) ∧
  attempted (hist (watch_handle BusIdBridge Loopback (BusCtl (found_tx tx_77))
    tracking).2) = [notification (Client 1%N) {| ts_txid := 77%N; ts_block_pos := None |}].
Proof.
  split; [by vm_compute|].
  destruct (depth_is_compared_with_position 77%N 0%N (Client 1%N) tracking) as [_ Hf];
    [by vm_compute|]. by rewrite (Hf tx_77).
Defined.
