(* ===== verification/DaemonWitness.v ===== *)
(** * The theorems about peerd, routed, signd and the daemons together at work *)

From S2P Require Import Prelude.
From S2P Require Import Bus.
From S2P Require Import Service.
From S2P Require Import Files.
From S2P Require Import Config.
From S2P Require Import ChannelRuntime.
From S2P Require Import Propose.
From S2P Require Import Accept.
From S2P Require Import Machine.
From S2P Require Import Wallet.
From S2P Require Import LnpdRuntime.
From S2P Require Import Launch.
From S2P Require Import Lnpd.
From S2P Require Import LnpdFacts.
From S2P Require Import LnpdSafety.
From S2P Require Import Peerd.
From S2P Require Import PeerdCorrect.
From S2P Require Import Routed.
From S2P Require Import RoutedCorrect.
From S2P Require Import Signd.
From S2P Require Import SigndCorrect.
From S2P Require Import Daemons.
From S2P Require Import Example.
From S2P Require Import ChannelWitness.
From S2P Require Import LnpdWitness.

(** Runs that are known to succeed. *)
Definition isOk {E A} (r : Res E A) : bool := match r with Ok _ => true | _ => false end.
Lemma ok_run {S E} (m : M S E unit) s : isOk (m s).1 = true → m s = (Ok tt, (m s).2).
Proof. destruct (m s) as [[[]| |] ?]; done. Qed.

(** ** peerd *)

Definition toy_peerd : PeerRuntime := {|
  p_protocol := Bolt; p_identity := peerd_identity Bolt 7%N (Some 42%N);
  p_local_id := 7%N; p_remote_id := Some 42%N; p_local_socket := None;
  p_remote_socket := None : InetSocketAddr; p_connect := false;
  p_channels := {[ActTemporary temp]}; p_started := 0; p_messages_sent := 0;
  p_messages_received := 0; p_awaited_pong := None |}.
Definition peer : World PeerRuntime := mk_world toy_peerd [] empty_disk.

Definition toy_created : FundingCreated := {|
  fc_temporary_channel_id := temp; fc_funding_txid := 77%N; fc_funding_output_index := 0;
  fc_signature := 6%N : Signature |}.

Lemma peer_messages_witness :
  attempted (hist (peerd_handle BusIdBridge Loopback
    (BusBolt (LnFundingCreated toy_created)) peer).2) = [{|
      env_bus := BusIdMsg; env_src := PeerBolt 42%N; env_dest := service_of_temp temp;
      env_msg := BusBolt (LnFundingCreated toy_created) |}].
Proof.
  destruct (peer_messages_reach_their_daemon Loopback (inl (LnFundingCreated toy_created)) peer)
    as (r & w' & E & Ha & _); [done|done|].
  change (BusBolt (LnFundingCreated toy_created)) with (bus_msg (inl (LnFundingCreated toy_created))).
  rewrite E. exact Ha.
Defined.

Definition funded_peer : World PeerRuntime :=
  (peerd_handle BusIdMsg LnpBroker (BusBolt (LnFundingCreated toy_created)) peer).2.

Lemma funding_renames_witness :
  ActTemporary temp ∈ p_channels (rt peer) ∧
  p_channels (rt funded_peer) = {[funded_id toy_created]} ∪
    (p_channels (rt peer) ∖ {[ActTemporary (fc_temporary_channel_id toy_created)]}).
Proof.
  split; [by apply elem_of_singleton|].
  apply (funding_renames_channel LnpBroker). left.
  unfold funded_peer. apply ok_run. by vm_compute.
Defined.

(** A peerd that accepted a connection does not know the remote id. *)
Definition accepted_peer : World PeerRuntime := mk_world {|
  p_protocol := Bolt; p_identity := peerd_identity Bolt 7%N None;
  p_local_id := 7%N; p_remote_id := None; p_local_socket := None;
  p_remote_socket := None : InetSocketAddr; p_connect := false;
  p_channels := ∅; p_started := 0; p_messages_sent := 0;
  p_messages_received := 0; p_awaited_pong := Some 4%N |} [] empty_disk.

Lemma peer_panic_witness :
  peerd_handle BusIdBridge Loopback (BusCtl CtlPingPeer) accepted_peer
    = (Panic "peer id is known at this stage", accepted_peer) ∧
  peer_panic (rt accepted_peer) BusIdBridge Loopback (BusCtl CtlPingPeer)
    "peer id is known at this stage".
Proof.
  assert (peerd_handle BusIdBridge Loopback (BusCtl CtlPingPeer) accepted_peer
    = (Panic "peer id is known at this stage", accepted_peer)) as E by done.
  split; [exact E|]. exact (peerd_panics_only_for_listed_causes _ _ _ _ _ _ E).
Defined.

Definition pinged : World PeerRuntime :=
  (peerd_handle BusIdBridge Loopback (BusCtl CtlPingPeer) peer).2.

Lemma pong_witness :
  p_awaited_pong (rt pinged) = Some 4%N ∧
  p_awaited_pong (rt (peerd_handle BusIdBridge Loopback (BusBolt (LnPong [])) pinged).2) = None.
Proof.
  assert (p_awaited_pong (rt pinged) = Some 4%N) as E by done. split; [exact E|].
  destruct (pong_of_any_size_ends_wait Loopback Loopback peer pinged []) as (size & _ & _ & _ & Hp);
    [by intros|unfold pinged; apply ok_run; by vm_compute|]. by apply Hp.
Defined.

(** ** signd *)

Definition signer : World SignRuntime := mk_world {|
  sg_chain := Testnet3; sg_provider := [(5%N, [9%N], [99%N])] |} [] empty_disk.

Lemma signd_answers_witness : ∃ keys,
  answer (rt signer) (CtlDeriveKeyset [1; 2; 3; 4; 5]%N)
    = Some (inr (CtlKeyset (ChannelSvc (MkChannelId [1; 2; 3; 4; 5]%N)) keys)) ∧
  sent (hist (signd_handle BusIdCtl LnpBroker
    (BusCtl (CtlDeriveKeyset [1; 2; 3; 4; 5]%N)) signer).2) = [reply_to LnpBroker
      (CtlKeyset (ChannelSvc (MkChannelId [1; 2; 3; 4; 5]%N)) keys)].
Proof.
  eexists. split; [by vm_compute|].
  destruct (signd_answers_every_request LnpBroker (CtlDeriveKeyset [1; 2; 3; 4; 5]%N) signer
    toy_hardening) as (_ & _ & [[_ Hs]|[err He]]); [exact Hs|by vm_compute in He].
Defined.

Lemma close_ids_witness : ∃ keys,
  answers_first LnpBroker [129; 2; 3; 4; 6]%N signer
    (keyset_reply LnpBroker [129; 2; 3; 4; 6]%N keys).
Proof.
  eexists. apply (close_ids_share_their_keys LnpBroker 1 129 2 3 4 [5%N] [6%N] signer); [done|].
  exists []. vm_compute. reflexivity.
Defined.

(** ** The launch of a channel *)

Definition requested_channel : World Lnpd :=
  (lnpd_handle 5 BusIdRpc (Client 1%N) (BusRpc (RpcCreateChannel toy_create)) node).2.

Lemma keyset_witness : ∃ t,
  l_creating (rt requested_channel) !! service_of_temp t = Some (ClInit t toy_create 1%N) ∧
  ∃ keys w2,
    sent (hist (signd_handle BusIdCtl LnpBroker (env_msg (derive_request t)) signer).2)
      = [reply_to LnpBroker (CtlKeyset (service_of_temp t) keys)] ∧
    lnpd_handle 5 BusIdCtl Signer (BusCtl (CtlKeyset (service_of_temp t) keys)) requested_channel
      = (Ok tt, w2) ∧
    l_creating (rt w2) !! service_of_temp t = Some (ClLaunching t toy_create 1%N keys).
Proof.
  destruct (keyset_reaches_its_launch 5 1%N toy_create node requested_channel toy_hardening)
    as (Ec & _ & _ & _ & Hk).
  { unfold requested_channel. apply ok_run. by vm_compute. }
  set (t := random_temp_id (hist node)) in *. exists t. split; [exact Ec|].
  set (w1 := (signd_handle BusIdCtl LnpBroker (env_msg (derive_request t)) signer).2).
  assert (isOk (signd_handle BusIdCtl LnpBroker (env_msg (derive_request t)) signer).1 = true ∧
    length (sent (hist w1)) = 1) as [E El] by (by vm_compute).
  destruct (sent (hist w1)) as [|reply [|]] eqn:Er; try done.
  destruct (Hk signer w1 reply) as (keys & w2 & _ & Hreply & E2 & Ek2); [by apply ok_run|exact Er|].
  subst reply. by exists keys, w2.
Defined.

Lemma signd_failure_witness : ∃ reply,
  lnpd_handle 5 (env_bus reply) (env_src reply) (env_msg reply) (lnpd_drive node launching)
    = (Panic (no_launcher_for LnpBroker), lnpd_drive node launching).
Proof.
  destruct (signd_failure_crashes_lnpd 5 node (lnpd_drive node launching) signer
    (CtlSign (toy_psbt [])) (@ESigning toy_ext 4%N) toy_outpoints toy_sockets toy_hardening
    node_idle launching_reached) as (reply & _ & _ & E); [done|]. by exists reply.
Defined.

(** The channel daemon says hello before signd has answered. *)
Definition hello_first : World Lnpd := lnpd_drive node (take 2 launching).
Lemma hello_first_reached : lnpd_reaches 5 node hello_first.
Proof. apply lnpd_drive_reaches; [constructor|by vm_compute]. Qed.

Lemma early_hello_witness : ∃ request,
  {| env_bus := BusIdCtl; env_src := LnpBroker; env_dest := Signer;
     env_msg := BusCtl (CtlOpenChannelWith request) |}
  ∈ attempted (hist (lnpd_handle 5 BusIdCtl Signer
      (BusCtl (CtlKeyset launched_channel toy_keyset)) hello_first).2).
Proof.
  destruct (early_hello_crashes_lnpd 5 node hello_first signer (random_temp_id (hist node))
    toy_create 1%N toy_keyset toy_outpoints toy_sockets toy_hardening node_idle
    hello_first_reached) as [Hin _]; [by vm_compute|]. eexists. exact Hin.
Defined.

(** ** The two ends of a channel *)

Definition asked : World Runtime := drive fresh (take 2 opening).
Definition refund_signed : World Runtime := drive fresh opening.
Definition toy_accept : AcceptChannelFrom := {|
  af_remote_id := 42%N; af_report_to := None; af_policy := 0%N : Policy;
  af_common_params := toy_params; af_local_params := toy_peer_params;
  af_local_keys := 0%N : LocalKeyset; af_channel_req := toy_open_channel |}.
Definition accepting : World Runtime := drive fresh [
  (BusIdCtl, LnpBroker, BusCtl (CtlAcceptChannelFrom toy_accept));
  (BusIdCtl, Signer, BusCtl (CtlKeyset (service_of_temp temp) toy_keyset))].

Lemma both_ends_witness : ∃ f reply,
  told_peer (id_of_funding f) (LnFundingCreated f) refund_signed ∧
  told_peer (id_of_funding f) reply
    (chan_handle BusIdMsg (PeerBolt 42%N) (BusBolt (LnFundingCreated f)) accepting).2.
Proof.
  destruct (both_ends_agree_on_the_channel Signer (toy_psbt [8%N]) signing refund_signed)
    as (f & _ & Ht & Ha); [unfold refund_signed; apply (ok_run (chan_handle BusIdCtl Signer
      (BusCtl (CtlSigned (toy_psbt [8%N])))) signing); by vm_compute|done|done|].
  set (wa' := (chan_handle BusIdMsg (PeerBolt 42%N) (BusBolt (LnFundingCreated f)) accepting).2).
  destruct (Ha 42%N accepting wa') as (reply & Hr & _);
    [apply (ok_run (chan_handle BusIdMsg (PeerBolt 42%N) (BusBolt (LnFundingCreated f))) accepting);
     by vm_compute|done|by vm_compute|].
  by exists f, reply.
Defined.

Lemma toy_fundings : funding_from_psbt.
Proof. by intros c psbt c' refund txid vout [= <- _] [= <- <-]. Qed.

Definition negotiating : World Lnpd := lnpd_drive node (take 3 launching).
Definition committing : World Lnpd :=
  (lnpd_handle 5 BusIdCtl launched_channel (BusCtl (CtlConstructFunding toy_funding)) negotiating).2.

Definition given (psbt : Psbt) (w : World Runtime) : World Runtime :=
  (chan_handle BusIdCtl LnpBroker (BusCtl (CtlFundingConstructed psbt)) w).2.
Definition signed (w : World Runtime) : World Runtime :=
  (chan_handle BusIdCtl Signer (BusCtl (CtlSigned (toy_psbt [8%N]))) w).2.

Lemma publish_witness : ∃ psbt c txid,
  r_identity (rt (signed (given psbt asked))) = ChannelSvc c ∧
  l_creating (rt committing) !! r_identity (rt (signed (given psbt asked)))
    = Some (ClCommitting c txid 1%N).
Proof.
  destruct (publish_request_finds_its_launcher 5 (random_temp_id (hist node)) 1%N toy_funding
    negotiating committing toy_fundings) as (psbt & _ & Hp); [by vm_compute| |].
  { unfold committing. apply (ok_run (lnpd_handle 5 BusIdCtl launched_channel
      (BusCtl (CtlConstructFunding toy_funding))) negotiating). by vm_compute. }
  exists psbt. apply (Hp LnpBroker Signer (toy_psbt [8%N]) asked (given psbt asked)); [| |by vm_compute..].
  - apply (ok_run (chan_handle BusIdCtl LnpBroker (BusCtl (CtlFundingConstructed psbt))) asked).
    by vm_compute.
  - apply (ok_run (chan_handle BusIdCtl Signer (BusCtl (CtlSigned (toy_psbt [8%N]))))
      (given psbt asked)). by vm_compute.
Defined.

(** ** Payments *)

Definition router_world : World RouteRuntime := mk_world routed_start [] empty_disk.
Definition toy_payment : PayInvoice := {|
  pay_channel_id := MkChannelId [77%N; 0%N]; pay_invoice := 50%N : Invoice;
  pay_amount_msat := None |}.
Definition paid : World RouteRuntime :=
  (routed_handle BusIdRpc (Client 3%N) (BusRpc (RpcPayInvoice toy_payment)) router_world).2.

Lemma payment_witness : ∃ order,
  payments (hist paid) = [order] ∧
  attempted (hist (chan_handle (env_bus order) (env_src order) (env_msg order) funded).2)
    = attempted (hist funded) ++ [
        p2p_envelope (rt funded) 42%N (LnOther (0%N : @Opaque toy_ext));
        success_report (rt funded) 3%N].
Proof.
  destruct (ordered_payment_becomes_htlc toy_payment 3%N router_world paid funded 42%N)
    as (hop & route & Hp & Hc).
  - unfold paid. apply (ok_run (routed_handle BusIdRpc (Client 3%N)
      (BusRpc (RpcPayInvoice toy_payment))) router_world). by vm_compute.
  - by vm_compute.
  - eexists. split; [exact Hp|].
    destruct Hc as [(_ & _ & Ha)|(err & He & _)]; [exact Ha|]. exfalso.
    set (order := payment_of toy_payment 3%N (hop :: route)) in He.
    assert (isOk (chan_handle (env_bus order) (env_src order) (env_msg order) funded).1 = true)
      as Hok by (by vm_compute).
    by rewrite He in Hok.
Defined.
