(* ===== verification/CommandWitness.v ===== *)
(** * The theorems about addresses, commands, initialization and processes at work *)

From Stdlib Require Import Ascii.
From S2P Require Import Prelude.
From S2P Require Import Bus.
From S2P Require Import Text.
From S2P Require Import Service.
From S2P Require Import Files.
From S2P Require Import Config.
From S2P Require Import ChannelRuntime.
From S2P Require Import Wallet.
From S2P Require Import LnpdRuntime.
From S2P Require Import ListenAddr.
From S2P Require Import Wire.
From S2P Require Import Client.
From S2P Require Import Lnpd.
From S2P Require Import LnpdCorrect.
From S2P Require Import ClientCorrect.
From S2P Require Import Signd.
From S2P Require Import Init.
From S2P Require Import InitCorrect.
From S2P Require Import Args.
From S2P Require Import ArgsCorrect.
From S2P Require Import Example.
From S2P Require Import ChannelWitness.
From S2P Require Import LnpdWitness.
From S2P Require Import DaemonWitness.

(** ** Listening addresses *)

Definition toy_listen : ListenAddr := {| lis_protocol := Bolt; lis_socket_addr := (1%N, 9000%N) |}.

Lemma listen_reads_back_witness :
  show_listen_addr toy_listen = "bolt://1:9000" ∧
  listen_addr_from_str "bolt://1:9000" = inr toy_listen.
Proof.
  split; [by vm_compute|].
  apply (listen_addr_reads_back (λ ip, (ip ≤ u64_max)%N) 1%N 9000%N Bolt toy_addr_laws); done.
Defined.

(** ** The client *)

Definition toy_client : World RpcClient := mk_world {|
  cl_identity := 7%N; cl_response_queue := []; cl_polls := 0; cl_printed := [] |} [] empty_disk.

Definition two_steps : list RpcMsg :=
  [RpcProgress "one"; RpcProgress "two"; RpcSuccess (Some "done")].

Lemma progress_witness : ∃ w',
  client_report_progress (H1:=toy_bus two_steps) 3 toy_client = (Ok 3, w') ∧
  cl_printed (rt w') = [PrProgress "one"; PrProgress "two"; PrSuccess (Some "done")].
Proof.
  destruct (progress_ends_with_first_answer (H1:=toy_bus two_steps) 3 3 ["one"; "two"]
    (RpcSuccess (Some "done")) [] toy_client) as (k & w' & E & Hp & _);
    [done|done|simpl; lia|].
  exists w'. split; [exact E|exact Hp].
Defined.

(** The wallet of this node cannot be read: its disk holds the key only. *)
Definition asked_lnpd (req : RpcMsg) : Res Error unit * World Lnpd :=
  lnpd_handle 5 BusIdRpc (Client 7%N) (BusRpc req) node.

Lemma answered_witness :
  (∃ m, answers (hist (asked_lnpd RpcListPeers).2) = answers (hist node) ++ [(7%N, m)] ∧
     fits RpcListPeers 7%N m (asked_lnpd RpcListPeers).2) ∧
  answers (hist (asked_lnpd RpcPingPeer).2) = answers (hist node).
Proof.
  split.
  - assert (asked_lnpd RpcListPeers = (Ok tt, (asked_lnpd RpcListPeers).2)) as E
      by (unfold asked_lnpd; apply ok_run; by vm_compute).
    exact (requests_are_answered_unless_they_fail 5 7%N RpcListPeers node (Ok tt) _
      ltac:(done) E).
  - destruct (asked_lnpd RpcPingPeer) as [r w'] eqn:E.
    pose proof (requests_are_answered_unless_they_fail 5 7%N RpcPingPeer node r w'
      ltac:(done) E) as Ha.
    assert (isOk r = false) as Hr
      by (change r with ((r, w').1); rewrite <- E; by vm_compute).
    by destruct r.
Defined.

(** ** A command from end to end *)

Definition told_of (w w' : World Lnpd) : list RpcMsg :=
  drop (length (answers (hist w))) (answers (hist w')).*2.

Definition asked_connect : World Lnpd := (asked_lnpd (RpcConnectPeer toy_peer)).2.
Definition greeted : World Lnpd :=
  (lnpd_handle 5 BusIdCtl (peer_of toy_peer) (BusCtl CtlHello) asked_connect).2.
Definition toy_answers : list RpcMsg := told_of node greeted.

Lemma asked_ok : asked_lnpd (RpcConnectPeer toy_peer) = (Ok tt, asked_connect).
Proof. unfold asked_connect, asked_lnpd. apply ok_run. by vm_compute. Qed.
Lemma greeted_ok : lnpd_handle 5 BusIdCtl (peer_of toy_peer) (BusCtl CtlHello) asked_connect
  = (Ok tt, greeted).
Proof. unfold greeted. apply ok_run. by vm_compute. Qed.
Lemma no_launcher : l_creating (rt asked_connect) !! peer_of toy_peer = None.
Proof. by vm_compute. Qed.
Lemma no_acceptor : l_accepting (rt asked_connect) !! peer_of toy_peer = None.
Proof. by vm_compute. Qed.
Lemma no_reestablishing : l_reestablishing (rt asked_connect) !! peer_of toy_peer = None.
Proof. by vm_compute. Qed.

Section connect.
#[local] Instance connect_bus : ClientBus := toy_bus toy_answers.

Lemma connect_witness : ∃ s d wc',
  exec 2 (CmdConnect toy_peer) toy_client = (Ok tt, wc') ∧
  cl_printed (rt wc') = [PrAction "Connecting to remore peer"; PrProgress s; PrSuccess d].
Proof.
  destruct (commands_end_with_their_answer 5 (CmdConnect toy_peer) (RpcConnectPeer toy_peer)
    toy_client node asked_connect) as (m & Ea & [[Hm _]|(addr & s & [= <-] & -> & Hd)]);
    [done|done|exact asked_ok| |].
  - exfalso. assert (last (answers (hist asked_connect)).*2 =
      last [RpcProgress "Launched new instance of started"]) as El by (by vm_compute).
    rewrite Ea, fmap_last, last_snoc in El. by injection El as ->.
  - destruct (Hd asked_connect greeted (peer_of toy_peer) eq_refl eq_refl no_launcher no_acceptor
      no_reestablishing greeted_ok) as (d & Ed & He).
    destruct (He 2 []) as (wc' & E & Hp).
    { assert (toy_answers = [RpcProgress s; RpcSuccess d]) as Et.
      { unfold toy_answers, told_of. rewrite Ed, Ea, <- app_assoc, fmap_app.
        by rewrite <- (length_fmap snd), drop_app_length. }
      unfold unread, upcoming, recv_poll, connect_bus, toy_bus. simpl. by rewrite Et. }
    exists s, d, wc'. split; [exact E|exact Hp].
Defined.
End connect.

(** ** Initialization *)

Definition empty_node : World unit := mk_world tt [] empty_disk.
Definition initialized : Res Error (SignAccount * FundingWallet * NodeId) * World unit :=
  init_node toy_config key_path empty_node.

Lemma init_witness : ∃ account wallet node w',
  initialized = (Ok (account, wallet, node), w') ∧
  ∃ w3, signd_with (R:=unit) toy_config (mk_world tt [] (disk w')) =
    (Ok {| sg_chain := chain toy_config; sg_provider := [account] |}, w3).
Proof.
  assert (isOk initialized.1 = true) as Ho by (by vm_compute).
  destruct initialized as [[[[account wallet] node]| |] w'] eqn:E; try discriminate Ho.
  exists account, wallet, node, w'. split; [done|].
  destruct (init_prepares_the_daemons toy_config key_path empty_node account wallet node w'
    toy_init_laws) as (_ & Hs & _); [by intros p i|exact E|].
  by apply (Hs unit (mk_world tt [] (disk w'))).
Defined.

(** ** Processes *)

#[local] Instance toy_shell : Shell :=
  {| setup_shared := λ s, s; expand_key_file := λ _ k, k |}.

Definition toy_shared : SharedOpts := {|
  o_data_dir := ["data"]; o_msg_endpoint := SaOther "msg"; o_ctl_endpoint := SaOther "ctl";
  o_rpc_endpoint := SaOther "rpc"; o_chain := Testnet3; o_electrum_server := "localhost";
  o_electrum_port := None; o_threaded_daemons := false |}.
Definition toy_opts : PeerdOpts := {|
  po_listen := None; po_connect := None; po_port := None; po_bolt := false;
  po_bifrost := false; po_key_file := key_path; po_shared := toy_shared |}.

(** A parser of long options only: the option read last waits for its value. *)
Definition peerd_step (st : option (PeerdOpts * option string)) (arg : string)
    : option (PeerdOpts * option string) :=
  match st with
  | Some (o, None) =>
      if decide (arg = "--bolt") then
        if po_bolt o then None else Some (with_flag Bolt o, None)
      else if decide (arg = "--bifrost") then
        if po_bifrost o then None else Some (with_flag Bifrost o, None)
      else if decide (arg = "--listen") then
        match po_listen o with None => Some (o, Some arg) | Some _ => None end
      else if decide (arg = "--port") then
        match po_port o with None => Some (o, Some arg) | Some _ => None end
      else if decide (arg = "--connect") then
        match po_connect o with None => Some (o, Some arg) | Some _ => None end
      else None
  | Some (o, Some opt) =>
      if decide (opt = "--listen") then
        match parse_uint u64_max arg with Some n => Some (with_listen n o, None) | None => None end
      else if decide (opt = "--port") then
        match parse_uint u16_max arg with Some n => Some (with_port n o, None) | None => None end
      else if decide (arg = "bolt://address") then Some (with_connect toy_peer o, None)
      else None
  | None => None
  end.
Definition channeld_step (st : option (option ChannelId * bool)) (arg : string)
    : option (option ChannelId * bool) :=
  match st with
  | Some (id, re) =>
      if decide (arg = "--reestablish") then if re then None else Some (id, true)
      else match id with
           | None => if decide (arg = "01") then Some (Some (MkChannelId [1%N]), re) else None
           | Some _ => None
           end
  | None => None
  end.

#[local] Instance toy_clap : Clap := {|
  peerd_scan := λ args,
    match foldl peerd_step (Some (toy_opts, None)) args with
    | Some (o, None) => Some o
    | _ => None
    end;
  channeld_scan := λ args,
    match foldl channeld_step (Some (None, false)) args with
    | Some (id, re) => Some (key_path, id, re, toy_shared)
    | None => None
    end;
  shared_scan := λ args, match args with [] => Some toy_shared | _ => None end;
  awaits_value := λ _, false;
  ip_from_str := parse_uint u64_max;
  lnp_addr_from_str := λ s, if decide (s = "bolt://address") then Some toy_peer else None;
  channel_id_from_hex := λ s, if decide (s = "01") then Some (MkChannelId [1%N]) else None;
  slice_to_hex := λ _, "01" |}.

Lemma scanned args o :
  peerd_scan args = Some o → foldl peerd_step (Some (toy_opts, None)) args = Some (o, None).
Proof. simpl. by destruct (foldl _ _ _) as [[? []]|]; intros [= ->]. Qed.
Lemma channeld_scanned args key id re shared :
  channeld_scan args = Some (key, id, re, shared) →
  foldl channeld_step (Some (None, false)) args = Some (id, re) ∧
  key = key_path ∧ shared = toy_shared.
Proof. simpl. by destruct (foldl _ _ _) as [[? ?]|]; intros [= <- -> -> <-]. Qed.

Lemma toy_clap_laws : clap_laws.
Proof.
  split.
  - intros args o p Hs%scanned Hp. simpl. rewrite foldl_app, Hs.
    destruct p; simpl; by rewrite Hp.
  - intros args o text ip Hs%scanned Hn Hi. simpl in *. rewrite foldl_app, Hs. simpl. rewrite Hn.
    simpl. by rewrite Hi.
  - intros args o text n Hs%scanned Hn Hi. simpl in *. rewrite foldl_app, Hs. simpl. rewrite Hn.
    simpl. by rewrite Hi.
  - intros args o text a Hs%scanned Hn Hi. simpl in *. rewrite foldl_app, Hs. simpl. rewrite Hn.
    simpl. destruct (decide (text = "bolt://address")); [|done]. by injection Hi as <-.
  - intros args key re shared text c Hs%channeld_scanned _ Hc. simpl in *.
    destruct Hs as (Hs & -> & ->). rewrite foldl_app, Hs. simpl.
    destruct (decide (text = "01")) as [->|]; [|done]. by injection Hc as <-.
  - intros args key id shared Hs%channeld_scanned. simpl.
    destruct Hs as (Hs & -> & ->). by rewrite foldl_app, Hs.
Qed.

Definition toy_daemon : Daemon := PeerdBolt (PsListen (0%N, 9735%N)) key_path.
Definition toy_argv : list string := ["--bolt"; "--listen"; "0"; "--port"; "9735"].

Lemma process_witness :
  cmd_args slice_to_hex [] toy_daemon = toy_argv ∧
  run_process "peerd" toy_argv (mk_world tt [] node_disk) =
  run_impl toy_daemon (config_from toy_shared tt) (mk_world tt [] node_disk).
Proof.
  assert (cmd_args slice_to_hex [] toy_daemon = toy_argv) as Ea by (by vm_compute).
  split; [exact Ea|]. rewrite <- Ea.
  assert (readable toy_daemon) as Hr by (split; [by vm_compute|done]).
  exact (process_runs_what_a_thread_runs toy_daemon [] key_path toy_shared
    (mk_world tt [] node_disk) toy_clap_laws Hr eq_refl eq_refl).
Defined.

(** ** Addresses and payment requests as bytes *)

(** Numbers take a byte each, lists and text their length and then their elements. *)
Definition toy_error : CodingError := CodingOther (1%N : Opaque).
Definition one_byte : Codec N := {|
  strict_enc n := inr [n];
  strict_dec bs := match bs with n :: rest => inr (n, rest) | [] => inl toy_error end |}.
Definition counted {A} (out : A → list N) (into : list N → A) : Codec A := {|
  strict_enc a := inr (N.of_nat (length (out a)) :: out a);
  strict_dec bs := match bs with
    | n :: rest => inr (into (take (N.to_nat n) rest), drop (N.to_nat n) rest)
    | [] => inl toy_error
    end |}.

#[export] Instance toy_wire : WireLib := {|
  byte_codec := one_byte; node_codec := one_byte; client_codec := one_byte;
  app_codec := one_byte; name_codec := one_byte;
  channel_codec := counted channel_into_inner MkChannelId;
  text_codec := counted (λ s, map N_of_ascii (String.list_ascii_of_string s)) string_of_bytes;
  amount_codec := counted option_list head;
  service_name_from_str s := Some (N.of_nat (String.length s));
  invoice_to_string i := if decide (i = 3)%N then "ln3" else "ln";
  InvoiceErr := unit;
  invoice_from_str s := if decide (s = "ln3") then inr (3%N : Invoice) else inl tt;
  show_invoice_err _ := "bad checksum" |}.

Lemma counted_reads_back {A} (out : A → list N) into a :
  into (out a) = a → reads_back (counted out into) a.
Proof.
  intros Ha bs rest [= <-]. simpl. by rewrite Nat2N.id, take_app_length, drop_app_length, Ha.
Qed.
Lemma byte_reads_back n : reads_back one_byte n.
Proof. by intros bs rest [= <-]. Qed.

(** A peer's address, and bytes with an invalid UTF-8 sequence that are no address. *)
Lemma service_id_witness :
  service_id_of_bytes [0x21; 42]%N = Ok (PeerBolt 42%N) ∧
  bytes_of_service_id (OtherSvc 5%N) ≠ Ok [0x41; 0xC3; 0x41]%N.
Proof.
  destruct service_id_reads_back as [Hread Hother]. split.
  - apply (Hread (PeerBolt 42%N)); [split; apply byte_reads_back|done].
  - destruct (Hother (OtherSvc 5%N) [0x41; 0xC3; 0x41]%N) as [E|[_ E]];
      [split; apply byte_reads_back|by vm_compute|by vm_compute in E|exact E].
Defined.

Definition toy_payment : PayInvoice := {|
  pay_channel_id := MkChannelId [50; 0]%N; pay_invoice := 3%N : Invoice;
  pay_amount_msat := Some 1000%N |}.

Lemma pay_invoice_witness :
  decode_pay_invoice [2; 50; 0; 3; 108; 110; 51; 1; 1000; 9]%N = (Ok toy_payment, [9]%N) ∧
  (decode_pay_invoice [0; 2; 108; 110; 0]%N).1
    = Err (DataIntegrityError "invalid bech32 lightning invoice: bad checksum").
Proof.
  destruct pay_invoice_reads_back as [Hread Hbad]. split.
  - destruct (Hread toy_payment [] 9 [2; 50; 0; 3; 108; 110; 51; 1; 1000]%N) as (bs & _ & E & Hd);
      [|by vm_compute|simpl in E; subst bs; exact (Hd [9]%N)].
    split_and!; [by apply counted_reads_back..|done].
  - by rewrite (Hbad [0; 2; 108; 110; 0]%N (MkChannelId []) [2; 108; 110; 0]%N "ln" [0]%N tt).
Defined.
