(* ===== verification/NodeWitness.v ===== *)
(** * A node at work

    Schedules of the concrete node: a remote peer opens a channel, up to the active
    channel; a client has one opened, up to the published funding and, with watchd, to
    the active channel; and a channel daemon that a client crashes while signd prepares
    its keyset, up to the crash of lnpd. *)

From S2P Require Import Prelude.
From S2P Require Import Bus.
From S2P Require Import Service.
From S2P Require Import Config.
From S2P Require Import ChannelRuntime.
From S2P Require Import Machine.
From S2P Require Import Wallet.
From S2P Require Import LnpdRuntime.
From S2P Require Import Lnpd.
From S2P Require Import LnpdFacts.
From S2P Require Import Watch.
From S2P Require Import Peerd.
From S2P Require Import Routed.
From S2P Require Import Signd.
From S2P Require Import Node.
From S2P Require Import NodeCorrect.
From S2P Require Import NodeRun.
From S2P Require Import Scenarios.
From S2P Require Import Activation.
From S2P Require Import NodeRest.
From S2P Require Import Example.
From S2P Require Import ChannelWitness.
From S2P Require Import LnpdWitness.

(** ** Schedules *)

Definition master_disk : Disk := {|
  d_names := {[ path_push (data_dir toy_config) master_key_name := 0 ]};
  d_inodes := {[ 0 := [5; 1; 9; 1; 99]%N ]}; d_next := 1 |}.

Definition listening : option Node :=
  node_boot toy_config key_path [{| lis_protocol := Bolt; lis_socket_addr := (1%N, 9000%N) |}] node_disk.
Definition scheduled (ms : list Move) : option Node := n ← listening; node_run 5 ms n.

Definition seven : TempChannelId := MkTempChannelId [7%N].
Definition open_seven : LnMsg :=
  LnOpenChannel {| oc_temporary_channel_id := seven; oc_rest := 0%N : Opaque |}.
Definition created_seven : LnMsg := LnFundingCreated {|
  fc_temporary_channel_id := seven; fc_funding_txid := 50%N;
  fc_funding_output_index := 0%N; fc_signature := 9%N : Signature |}.
Definition permanent : ChannelId := MkChannelId [50%N; 0%N].
Definition funding_locked : ChannelMsg := {| cm_channel_id := permanent; cm_rest := 0%N : Opaque |}.

(** signd, routed and a peer daemon are started; the peer opens a channel, whose daemon
    asks signd for its keys. *)
Definition opened : list Move := [
  MvStart 4 (BootSign toy_config) master_disk; MvStart 5 BootRoute empty_disk;
  MvStart 7 (BootPeer 11%N (Some 42%N) None None false 0%N) empty_disk;
  MvBroker 0; MvBroker 0; MvBroker 0;
  MvReceive 2 (inl open_seven); MvBridge 2; MvBroker 0;
  MvStart 8 (BootChan toy_config) empty_disk; MvBroker 0; MvDeliver 0 3; MvDeliver 0 0].

(** The keyset arrives, the channel is accepted and funded, and the peer's
    [funding_locked] is on its way. *)
Definition funded : list Move := opened ++ [
  MvDeliver 0 3; MvDeliver 0 2; MvReceive 2 (inl created_seven); MvBridge 2; MvDeliver 0 3;
  MvBroker 0; MvDeliver 0 2; MvReceive 2 (inl (LnFundingLocked funding_locked)); MvBridge 2].

(** A client's [Send] ends the channel daemon before the keyset arrives. *)
Definition orphaned : list Move := opened ++ [
  MvClient 3%N (ChannelSvc (MkChannelId [7%N]))
    (RpcSend {| snd_channeld := Router; snd_amount := 0; snd_asset := None |});
  MvDeliver 1 3].

(** lnpd hears of the lost keyset, and signd of that. *)
Definition refused : list Move := orphaned ++ [MvUndeliverable 0 "offline"; MvDeliver 0 0].

(** A client has a channel opened: the keyset arrives before the channel daemon says
    hello, the peer accepts, lnpd constructs the funding, signd signs the refund, and
    the peer's signature of the refund is on its way.  [MvLeave] hands the client a
    report of progress. *)
Definition accept_8 : LnMsg := LnAcceptChannel {|
  ac_temporary_channel_id := MkTempChannelId [8%N]; ac_rest := 0%N : Opaque |}.
Definition signed_8 : LnMsg := LnFundingSigned {|
  fs_channel_id := MkChannelId [2002%N; 0%N]; fs_signature := 3%N : Signature |}.

Definition requested : list Move := [
  MvStart 4 (BootSign toy_config) master_disk; MvStart 5 BootRoute empty_disk;
  MvStart 7 (BootPeer 11%N (Some 42%N) None None false 0%N) empty_disk;
  MvBroker 0; MvBroker 0; MvBroker 0;
  MvClient 1%N LnpBroker (RpcCreateChannel toy_create); MvBroker 0; MvLeave 0; MvLeave 1;
  MvDeliver 0 0; MvBroker 0; MvLeave 0;
  MvStart 8 (BootChan toy_config) empty_disk; MvBroker 0; MvLeave 0; MvDeliver 0 3; MvDeliver 0 2].
Definition refunded : list Move := requested ++ [
  MvReceive 2 (inl accept_8); MvBridge 2; MvBroker 0; MvLeave 1; MvDeliver 0 3;
  MvBroker 0; MvBroker 0; MvLeave 0; MvLeave 1; MvLeave 1; MvLeave 1; MvDeliver 0 3;
  MvDeliver 0 0; MvDeliver 1 3; MvBroker 0; MvBroker 0; MvDeliver 0 2; MvBroker 0;
  MvLeave 0; MvLeave 0; MvReceive 2 (inl signed_8); MvBridge 2].

Lemma scheduled_reaches ms n : scheduled ms = Some n → ∃ n0, node_starts n0 ∧ node_reaches n0 n.
Proof.
  intros (n0 & H0%node_boot_starts & Hr)%bind_Some. exists n0. split; [done|].
  eapply node_run_reaches; [constructor|exact Hr].
Qed.

(** ** What the schedules lead to *)

Definition funded_node : option Node := scheduled funded.
Definition orphaned_node : option Node := scheduled orphaned.
Definition refused_node : option Node := scheduled refused.

Definition active_in_the_end : bool :=
  match scheduled (funded ++ [MvDeliver 0 3; MvDeliver 0 1; MvDeliver 0 1; MvDeliver 0 3; MvDeliver 0 2]) with
  | Some {| nd_procs := [_; _; _; PChan w]; nd_flight := [] |} =>
      bool_decide (r_machine (rt w) = CsActive)
  | _ => false
  end.

(** The whole acceptance of a channel, from the start of the node. *)
Example acceptance_runs : active_in_the_end = true.
Proof. by vm_compute. Qed.

(** What is left in the end: the request to watchd, which this node has not started, and
    the success for the client. *)
Definition told_in_the_end : bool :=
  match scheduled (refunded ++ [MvDeliver 0 3; MvBroker 0; MvBroker 1; MvLeave 2; MvLeave 2;
      MvDeliver 1 0; MvBroker 1; MvLeave 1]) with
  | Some {| nd_procs := [_; _; _; PChan w];
            nd_flight := [{| env_dest := Watch |};
                          {| env_dest := Client 1%N; env_msg := BusRpc (RpcSuccess _) |}] |} =>
      bool_decide (r_machine (rt w) = CsPropose PrPublished)
  | _ => false
  end.

(** The whole launch of a channel. *)
Example launch_runs : told_in_the_end = true.
Proof. by vm_compute. Qed.

Lemma conform_witness : ∃ n0 n, node_reaches n0 n ∧ length (nd_procs n) = 4 ∧
  Forall conforms (nd_flight n ++ node_attempted n).
Proof.
  assert ((length ∘ nd_procs) <$> funded_node = Some 4) as Hl by (by vm_compute).
  destruct funded_node as [n|] eqn:En; [|done].
  destruct (scheduled_reaches _ _ En) as (n0 & H0 & Hr). exists n0, n.
  split_and!; [done|by injection Hl|]. exact (messages_conform_to_the_protocol n0 n H0 Hr).
Defined.

(** lnpd is about to take the refusal of signd. *)
Definition refusal_awaits : option (Envelope * World Lnpd) :=
  match refused_node with
  | Some {| nd_lnpd := w; nd_flight := [e] |} => Some (e, w)
  | _ => None
  end.

Definition refusal_panics_now (x : Envelope * World Lnpd) : bool :=
  bool_decide (env_dest x.1 = LnpBroker) &&
  match fst (serve (lnpd_handle 5 (env_bus x.1) (env_src x.1) (env_msg x.1)) lnpd_handle_err x.2) with
  | Panic _ => true
  | _ => false
  end.

Lemma broker_panic_witness : ∃ n0 n e p, node_starts n0 ∧ node_reaches n0 n ∧ e ∈ nd_flight n ∧
  broker_panic (rt (nd_lnpd n)) e p.
Proof.
  assert (refusal_panics_now <$> refusal_awaits = Some true) as Hf by (by vm_compute).
  unfold refusal_awaits in Hf. destruct refused_node as [n|] eqn:En; [|done].
  destruct (scheduled_reaches _ _ En) as (n0 & H0 & Hr). clear En.
  destruct n as [w ps [|e [|]]]; try done. simpl in Hf. injection Hf as Hf.
  apply andb_prop in Hf as [Hd%bool_decide_eq_true Hf]. simpl in Hd.
  destruct (serve (lnpd_handle 5 (env_bus e) (env_src e) (env_msg e)) lnpd_handle_err w)
    as [[| |p] w'] eqn:Es; cbn [fst snd] in Hf; rewrite Es in Hf; try discriminate Hf.
  exists n0. eexists. exists e, p. split; [exact H0|]. split; [exact Hr|].
  split; [by left|].
  exact (broker_panics_in_a_node toy_sys 5 n0 _ e p w' toy_outpoints toy_sockets H0 Hr
    (list_elem_of_here e []) Hd Es).
Defined.

(** The node of the accepted and funded channel comes to rest. *)
Lemma rest_witness : ∃ n0 n, node_reaches n0 n ∧ length (nd_procs n) = 4 ∧
  Acc (flip handles) n ∧ ∃ n', rtc handles n n' ∧ at_rest toy_sys 5 n'.
Proof.
  assert ((length ∘ nd_procs) <$> funded_node = Some 4) as Hl by (by vm_compute).
  destruct funded_node as [n|] eqn:En; [|done].
  destruct (scheduled_reaches _ _ En) as (n0 & H0 & Hr). exists n0, n.
  assert (@obliging _ toy_sys) as Hobl by (split; reflexivity).
  destruct (node_comes_to_rest toy_sys 5 n0 n toy_outpoints toy_sockets Hobl H0 Hr) as (Ha & Hn & _).
  split; [exact Hr|]. split; [by injection Hl|]. split; [exact Ha|exact Hn].
Defined.

(** The keyset of signd is on its way to a channel daemon that is no more. *)
Definition reply_is_lost (n : Node) : bool :=
  match n with
  | {| nd_procs := PSign _ :: _; nd_flight := [e] |} =>
      bool_decide (env_src e = Signer) && bool_decide (nobody_at (nd_procs n) (env_dest e))
  | _ => false
  end.

Lemma lost_reply_witness : ∃ n n' e', node_reaches n n' ∧ e' ∈ nd_flight n' ∧
  env_dest e' = LnpBroker ∧
  fst (serve (lnpd_handle 5 (env_bus e') (env_src e') (env_msg e')) lnpd_handle_err (nd_lnpd n'))
    = Panic ("unregistered channel launcher for " +:+ show_service_id LnpBroker).
Proof.
  assert (reply_is_lost <$> orphaned_node = Some true) as Hf by (by vm_compute).
  destruct orphaned_node as [n|] eqn:En; [|done].
  destruct (scheduled_reaches _ _ En) as (n0 & H0 & Hr). clear En.
  destruct n as [w [|[ws| | | |] ps] [|e [|]]]; try done. simpl in Hf. injection Hf as Hf.
  apply andb_prop in Hf as [Hsrc%bool_decide_eq_true Hno%bool_decide_eq_true].
  destruct (lost_reply_crashes_lnpd toy_sys n0 w [] ws ps [] e [] H0 Hr Hsrc Hno)
    as (n' & e' & Hr' & Hin & Hd & Hp).
  eexists _, n', e'. split; [exact Hr'|]. split; [exact Hin|]. split; [exact Hd|].
  by rewrite (Hp toy_sys 5).
Defined.

(** The peer's [funding_locked] is on its way to the channel daemon. *)
Definition locking (n : Node) : bool :=
  match n with
  | {| nd_procs := [_; PRoute _; _; PChan wc]; nd_flight := [{|
         env_bus := BusIdMsg; env_src := PeerBolt _; env_dest := ChannelSvc c;
         env_msg := BusBolt (LnFundingLocked m) |}] |} =>
      bool_decide (r_machine (rt wc) = CsAccept AcFunded) &&
      bool_decide (r_identity (rt wc) = ChannelSvc c) &&
      bool_decide (r_remote (rt wc) = Some 42%N) &&
      match (update_from_peer (r_channel (rt wc)) (LnFundingLocked m)).2 with
      | inr _ => true
      | _ => false
      end
  | _ => false
  end.

Lemma accepted_witness : ∃ n n' wc', node_reaches n n' ∧ PChan wc' ∈ nd_procs n' ∧
  r_machine (rt wc') = CsActive.
Proof.
  assert (locking <$> funded_node = Some true) as Hf by (by vm_compute).
  destruct funded_node as [n|]; [|done]. simpl in Hf. injection Hf as Hf.
  destruct n as [w [|p1 [|p2 [|p3 [|p4 ps]]]] ms]; try discriminate Hf;
    try (destruct p2; discriminate Hf).
  destruct p2 as [|wr| | |]; try discriminate Hf. destruct p4 as [| | |wc|]; try discriminate Hf.
  destruct ps; [|discriminate Hf].
  destruct ms as [|[bus src dest msg] ms]; [discriminate Hf|].
  destruct bus; try discriminate Hf. destruct src as [| | | |from| | | | | | |]; try discriminate Hf.
  destruct dest as [| | | | | |chan| | | | |]; try discriminate Hf.
  destruct msg as [msg| | |]; try discriminate Hf. destruct msg as [| | | | | | |msg| | | | | |];
    try discriminate Hf.
  destruct ms; [|discriminate Hf]. cbn [locking] in Hf.
  destruct (update_from_peer (r_channel (rt wc)) (LnFundingLocked msg)) as [ch [|[]]] eqn:Eu;
    simpl in Hf; [by rewrite andb_false_r in Hf|].
  repeat (apply andb_prop in Hf as [Hf ?]).
  repeat match goal with H : bool_decide _ = true |- _ => apply bool_decide_eq_true in H end.
  edestruct (accepted_channel_becomes_active toy_sys w [p1; PRoute wr; p3; PChan wc]
    [letter BusIdMsg (PeerBolt from) (ChannelSvc chan) (BusBolt (LnFundingLocked msg))] wc wr chan 42%N
    from msg ch) as (ps' & ms' & wc' & Hr & Hin & Hst & _);
    [by split|set_solver|set_solver|by left|done..|].
  eexists _, _, wc'. split; [exact Hr|]. by split.
Defined.

(** The peer's signature of the refund is on its way, lnpd has committed the funding and
    signd can sign it. *)
Definition signature_awaits (n : Node) : bool :=
  match n with
  | {| nd_lnpd := w; nd_procs := [PSign ws; _; _; PChan wc]; nd_flight := [{|
         env_bus := BusIdMsg; env_src := PeerBolt _; env_dest := ChannelSvc c;
         env_msg := BusBolt (LnFundingSigned m) |}] |} =>
      bool_decide (r_machine (rt wc) = CsPropose PrFunding) &&
      bool_decide (r_identity (rt wc) = ChannelSvc c) &&
      match l_creating (rt w) !! ChannelSvc c with
      | Some (ClCommitting _ txid _) =>
          match get_funding_psbt txid (l_wallet (rt w)) with
          | Some psbt =>
              match sign_all (sg_provider (rt ws)) psbt with
              | (psbt', inr _) => bool_decide (psbt_txid psbt' = txid)
              | _ => false
              end
          | None => false
          end
      | _ => false
      end
  | _ => false
  end.

Definition refunded_node : option Node := scheduled refunded.

Lemma launch_witness : ∃ n n' tx client, node_reaches n n' ∧
  (OpNet (NetBroadcast tx), true) ∈ hist (nd_lnpd n') ∧
  letter BusIdRpc LnpBroker (Client client)
    (BusRpc (RpcSuccess (Some "Channel created and active"))) ∈ nd_flight n'.
Proof.
  assert (signature_awaits <$> refunded_node = Some true) as Hf by (by vm_compute).
  destruct refunded_node as [n|]; [|done]. simpl in Hf. injection Hf as Hf.
  destruct n as [w [|p1 [|p2 [|p3 [|p4 ps]]]] ms]; try discriminate Hf;
    try (destruct p1; discriminate Hf).
  destruct p1 as [ws| | | |]; try discriminate Hf. destruct p4 as [| | |wc|]; try discriminate Hf.
  destruct ps; [|discriminate Hf].
  destruct ms as [|[bus src dest msg] ms]; [discriminate Hf|].
  destruct bus; try discriminate Hf. destruct src as [| | | |from| | | | | | |]; try discriminate Hf.
  destruct dest as [| | | | | |chan| | | | |]; try discriminate Hf.
  destruct msg as [msg| | |]; try discriminate Hf. destruct msg as [| | | | | |msg| | | | | | |];
    try discriminate Hf.
  destruct ms; [|discriminate Hf]. cbn [signature_awaits] in Hf.
  destruct (l_creating (rt w) !! ChannelSvc chan) as [[| | | |cc txid client|]|] eqn:El;
    try (by rewrite andb_false_r in Hf).
  destruct (get_funding_psbt txid (l_wallet (rt w))) as [psbt|] eqn:Ep;
    [|by rewrite andb_false_r in Hf].
  destruct (sign_all (sg_provider (rt ws)) psbt) as [psbt' [|sig]] eqn:Es;
    [by rewrite andb_false_r in Hf|].
  apply andb_prop in Hf as [[Hst Hid]%andb_prop Ht].
  apply bool_decide_eq_true in Hst, Hid, Ht.
  edestruct (launch_ends_with_success toy_sys 5 w [PSign ws; p2; p3; PChan wc]
    [letter BusIdMsg (PeerBolt from) (ChannelSvc chan) (BusBolt (LnFundingSigned msg))]
    wc ws chan cc txid client from msg (r_channel (rt wc)) psbt psbt' sig psbt')
    as (w' & ps' & ms' & wc' & Hr & _ & _ & Hnet & Htold & _);
    [by split|done|set_solver|set_solver|by left|done..|].
  eexists _, _, _, _. split; [exact Hr|]. split; [exact Hnet|exact Htold].
Defined.

(** watchd is started and the peer's [funding_locked] comes in. *)
Definition locked_8 : LnMsg := LnFundingLocked {|
  cm_channel_id := MkChannelId [2002%N; 0%N]; cm_rest := 0%N : Opaque |}.
Definition mined : list Move := refunded ++ [MvDeliver 0 3; MvBroker 0; MvBroker 1; MvLeave 2; MvLeave 2;
  MvDeliver 1 0; MvBroker 1; MvLeave 1; MvLeave 1;
  MvStart 6 (BootWatch toy_config) empty_disk; MvReceive 2 (inl locked_8); MvBridge 2].
Definition mined_node : option Node := scheduled mined.

(** The request to track the funding and the peer's message are both on their way. *)
Definition chan_of (p : Proc) : option (World Runtime) :=
  match p with PChan w => Some w | _ => None end.
Definition watch_of (p : Proc) : option Watchd := match p with PWatch s => Some s | _ => None end.
Definition track_of (e : Envelope) : option (ServiceId * Txid * N) :=
  match e with
  | {| env_bus := BusIdCtl; env_src := src; env_dest := Watch;
       env_msg := BusCtl (CtlTrack t d) |} => Some (src, t, d)
  | _ => None
  end.
Definition locked_of (e : Envelope) : option (NodeId * ServiceId * ChannelMsg) :=
  match e with
  | {| env_bus := BusIdMsg; env_src := PeerBolt n; env_dest := dest;
       env_msg := BusBolt (LnFundingLocked m) |} => Some (n, dest, m)
  | _ => None
  end.

Definition confirmation (n : Node)
    : option (World Runtime * Watchd * (ServiceId * Txid * N) * (NodeId * ServiceId * ChannelMsg)) :=
  wc ← nd_procs n !! 3 ≫= chan_of; s ← nd_procs n !! 4 ≫= watch_of;
  e ← nd_flight n !! 0 ≫= track_of; e' ← nd_flight n !! 2 ≫= locked_of;
  Some (wc, s, e, e').

Definition idle_watch (s : Watchd) : bool :=
  match wr_worker (rt (wd_runtime s)), ep_receiver (rt (wd_processor s)),
        ep_updates (rt (wd_processor s)), wd_bridge s with
  | {| wk_queue := []; wk_alive := true |}, true, [], [] => true
  | _, _, _, _ => false
  end.

Definition confirmation_awaits (n : Node) : bool :=
  match confirmation n with
  | Some (wc, s, (ChannelSvc c, t, _), (_, c', m)) =>
      bool_decide (c' = ChannelSvc c ∧ r_machine (rt wc) = CsPropose PrPublished ∧
        r_identity (rt wc) = ChannelSvc c ∧ r_remote (rt wc) = Some 42%N ∧ (9 < t)%N) && idle_watch s
  | _ => false
  end.

Lemma idle_attentive s : idle_watch s = true → attentive s.
Proof.
  intros Hi. unfold idle_watch in Hi.
  split; repeat case_match; by simplify_eq.
Qed.

Lemma track_of_inv e src t d :
  track_of e = Some (src, t, d) → e = letter BusIdCtl src Watch (BusCtl (CtlTrack t d)).
Proof.
  destruct e as [[] ? dest m]; try done. destruct dest; try done. destruct m as [| |c|]; try done.
  by destruct c; intros [= -> -> ->].
Qed.
Lemma locked_of_inv e n dest m :
  locked_of e = Some (n, dest, m) →
  e = letter BusIdMsg (PeerBolt n) dest (BusBolt (LnFundingLocked m)).
Proof.
  destruct e as [[] src ? msg]; try done. destruct src; try done. destruct msg as [l| | |]; try done.
  by destruct l; intros [= -> -> ->].
Qed.

Lemma confirmation_inv n wc s c t d p c' m :
  confirmation n = Some (wc, s, (c, t, d), (p, c', m)) →
  PChan wc ∈ nd_procs n ∧ PWatch s ∈ nd_procs n ∧
  letter BusIdCtl c Watch (BusCtl (CtlTrack t d)) ∈ nd_flight n ∧
  letter BusIdMsg (PeerBolt p) c' (BusBolt (LnFundingLocked m)) ∈ nd_flight n.
Proof.
  unfold confirmation.
  intros (wc' & (p1 & H1%list_elem_of_lookup_2 & E1)%bind_Some & H)%bind_Some.
  apply bind_Some in H as (s' & (p2 & H2%list_elem_of_lookup_2 & E2)%bind_Some & H).
  apply bind_Some in H as (x & (e1 & H3%list_elem_of_lookup_2 & E3)%bind_Some & H).
  apply bind_Some in H as (y & (e2 & H4%list_elem_of_lookup_2 & E4)%bind_Some & H).
  simplify_eq. apply track_of_inv in E3 as <-. apply locked_of_inv in E4 as <-.
  destruct p1; simplify_eq/=. by destruct p2; simplify_eq/=.
Qed.

Lemma activated_witness : ∃ n n' wc', node_reaches n n' ∧ PChan wc' ∈ nd_procs n' ∧
  r_machine (rt wc') = CsActive.
Proof.
  assert (confirmation_awaits <$> mined_node = Some true) as Hf by (by vm_compute).
  destruct mined_node as [n|]; [|done]. injection Hf as Hf. unfold confirmation_awaits in Hf.
  destruct (confirmation n) as [[[[wc s] [[src t] d]] [[p c'] m]]|] eqn:En; [|done].
  apply confirmation_inv in En as (Hc & Hs & Ht & Hl). 
  destruct src as [| | | | | |c| | | | |]; try discriminate Hf.
  apply andb_prop in Hf as [(-> & Hst & Hid & Hp & Hnine)%bool_decide_eq_true Hi%idle_attentive].
  edestruct (proposed_channel_becomes_active toy_sys (nd_lnpd n) (nd_procs n) (nd_flight n) wc s c 42%N p
    m t d t (compose_funding_locked (r_channel (rt wc))).1
    (compose_funding_locked (r_channel (rt wc))).2
    (compose_funding_locked (r_channel (rt wc))).1) as (ps' & ms' & wc' & Hr & Hin & Hact & _);
    [by split|exact Hc|exact Hs|exact Hi|exact Ht|exact Hl| |done|exact Hst|exact Hid|exact Hp|done|done|].
  { simpl. by rewrite decide_True. }
  eexists _, _, wc'. split; [exact Hr|]. by split.
Defined.
